(* ===== verification/_CoqProject ===== *)
-Q . S2P
Prelude.v
HostOrder.v
UMap.v
NetAddress.v
NRadix.v
Connection.v
ConnStatus.v
Delta.v
RateLimit.v
CollectorStats.v
ExternalIPs.v
ConnTracker.v
Notifier.v
CStrings.v
Utility.v
Procfs.v
Duplex.v
Signals.v
Host.v
SignalClient.v
ProcessSignals.v
ProcessStore.v
Inspector.v
Floats.v
NetParse.v
OptList.v
OptParse.v
OptRef.v
OptStore.v
OptWrap.v
OptUsage.v
CollectorConfig.v
CollectorArgs.v
ConfigYaml.v
Inotify.v
ConfigLoader.v
Http.v
CMemory.v
UdpServer.v
UdpClient.v
Nats.v
Logging.v
Threads.v
Setup.v
CollectorService.v
NotifierRun.v
StatsExport.v
Profile.v
Resources.v
Abort.v
SelfCheckProgram.v
Print.v
Extractor.v
