(* ===== verification/Prelude.v ===== *)
(** * A verification of the runtime collector

    The collector (C++ code under src/collector/collector/lib) watches the
    containers of a host.  It learns of network connections and listening
    endpoints in two ways: events of the kernel, and periodic scrapes of /proc.
    Both feed one connection tracker.  A notifier thread takes normalized snapshots
    of the tracker, computes what changed since the last report and sends the
    difference over a gRPC stream, on which it also receives the networks and
    public addresses of the cluster.  Process events of the kernel, and the
    processes that already run, become messages of a second stream.  A thread
    watches the configuration file and replaces the runtime configuration that the
    others read.  This library models these paths from end to end, together with
    the value types, containers and utilities they stand on, the configuration at
    start-up and the start-up checks of the host.

    ** Files

    - [Prelude]: machine integers (a w-bit integer is a [Z] with its wrap-around
      written out), bit notations, tactics, shared lemmas.
    - [HostOrder]: byte order and memory.  A word is stored and loaded in the order
      of the host, a class parameter; every theorem holds for both orders.
    - [UMap]: [UnorderedMap]/[UnorderedSet] (Hash.h, Containers.h) as association
      lists in iteration order, for any key equality.  The class [KeyEquiv] is
      what the containers ask of a key; [Connection] and [CollectorStats] provide
      its instances.
    - [NetAddress]: [Address] and [IPNet] (NetworkConnection.h, .cpp).
    - [NRadix]: the radix tree of networks (NRadix.h, .cpp).
    - [Connection]: endpoints, connections, their equalities and hashes.
    - [ConnStatus], [Delta]: the 64-bit status word and the delta computations of
      ConnTracker.h, with and without afterglow.
    - [RateLimit], [CollectorStats], [ExternalIPs]: the limiters, the metrics
      singleton, the External-IPs setting.
    - [ConnTracker]: the tracker (ConnTracker.h, .cpp); its state is the record
      [ConnectionTracker], one function per method.
    - [Notifier]: NetworkStatusNotifier.h, .cpp: messages in both directions and
      the reporting loop, as a run over events (scrapes, control messages,
      connection events of other threads).
    - [CStrings], [Utility]: the string functions of the C and C++ libraries that
      the code uses, and Utility.cpp.
    - [Procfs]: ProcfsScraper.cpp over a snapshot of /proc.
    - [Duplex]: the stream client of DuplexGRPC.h, as a state machine over the
      completions of the gRPC queue.
    - [Signals]: EventNames, EventMap and NetworkSignalHandler.cpp.
    - [Host]: HostInfo and HostHeuristics.
    - [SignalClient]: SignalServiceClient.cpp; the thread that establishes the
      stream and the one that pushes signals are interleaved step by step.
    - [ProcessSignals]: the inspector's threads and events, ProcessSignalFormatter
      and ProcessSignalHandler.
    - [ProcessStore]: Process.cpp; shared objects with their references, the weak
      cache with its unlocked accesses and the callbacks of the inspector as a machine.
    - [Inspector]: system-inspector/Service.cpp (event loop, filters, dispatch,
      refresh, requests for processes) and the self checks.
    - [Floats], [NetParse]: floating point and numbers in text as the library of
      the language has them; [Address::parse] and [IPNet::parse].
    - [OptList], [OptParse]: the option parser (optionparser.h).  Options are nodes
      on a heap, in circular lists whose ends are tagged pointers; the parser
      walks and reorders the argument vector and calls an action per option.
      [OptRef] holds a reference parser by recursion on the arguments and the
      proof that the loops implement it, [OptStore] what is stored where.
    - [OptWrap], [OptUsage]: the printing of the usage text (same source): the line
      wrapper with its ring buffer, and the iterator over the parts of a table.
    - [CollectorConfig], [CollectorArgs]: EnvVar.h, CollectorConfig.cpp, the checks
      of GRPC.cpp, the log levels, and the command line with its table of options,
      on top of the option parser.
    - [ConfigYaml], [Inotify], [ConfigLoader]: the parser from YAML documents to
      protobuf messages, the inotify wrapper with its buffer, and the thread that
      reloads the configuration (ConfigLoader.cpp, Inotify.cpp).
    - [Http]: the handlers of the HTTP endpoints (NetworkStatusInspector.cpp,
      LogLevel.cpp, GetStatus.cpp and others), from requests to documents.
    - [CMemory], [UdpServer], [UdpClient]: a memory of C blocks, and the two UDP
      programs of the integration tests on it.
    - [Nats]: NatsSignalServiceClient.cpp and the library of src/collector-nats.
    - [Logging]: Logging.h, .cpp: headers, throttling, the termination log.
    - [Threads]: StoppableThread; its pause against [Stop] as a machine.
    - [Setup]: what the inspector's constructor and the driver ask of libsinsp
      (system-inspector/Service.cpp, KernelDriver.h), and Diagnostics.h.
    - [CollectorService]: CollectorService.cpp and collector.cpp, from the command
      line to the end of the process.
    - [NotifierRun]: the notifier's thread over its streams and against [Stop]
      (NetworkStatusNotifier.cpp, NetworkConnectionInfoServiceComm.cpp).  The class
      [DuplexWriter] is what its loop asks of a stream.
    - [StatsExport]: CollectorStatsExporter.cpp, CollectorConnectionStats.h, and the
      statistics that the notifier reports.
    - [Profile]: ProfilerHandler.cpp and Profiler.h.
    - [Resources]: the handles and decompression of FileSystem.h, ProtoAllocator.h.
    - [Abort]: AbortHandler.cpp.
    - [SelfCheckProgram]: self-checks.cpp.
    - [Print]: the stream operators of networks and connections, and connscrape.cpp.
    - [Extractor]: system-inspector/EventExtractor, ContainerEngine.h.

    Each file puts its definitions first, under the names of the source.  A method
    that changes its object takes and returns the record; a failure is an option,
    a flag as in the code, or an error of a sum type.  Locks guard whole methods,
    so that a method is one step; where threads meet between methods, the steps are
    a relation.  What the other files would only log is left out.

    ** What is proved

    - Deltas ([Delta]): the receiver that applies the plain deltas has exactly the
      active connections open; with afterglow, exactly those active now or active
      less than the afterglow period ago.  [Notifier] lifts this to its loop, with
      changes of the External-IPs setting, as long as the clock does not go back and
      closed connections come back under other names.
    - Radix tree ([NRadix]): [Insert] refines a finite map on bit strings, [Find]
      returns the longest containing network, the subset test is exact, all for
      trees of one address family; a counterexample shows what mixed trees do.
    - Addresses ([NetAddress]): [Contains] is agreement on a bit prefix, [IsPublic]
      is the complement of the private ranges and agrees with the mapping to IPv6.
    - Tracker ([ConnTracker]): [Update], [FetchConnState], normalization, filters
      and closing do exactly what their contracts say; activity times never go
      back.
    - Limits ([RateLimit], [Notifier]): token buckets never exceed their rate, the
      per-container limit is exact and never drops a close.
    - Wire and text formats ([Notifier], [Procfs], [Utility]): networks survive
      the wire, kernel endpoints and command lines are parsed back, base64 decodes
      its encoding, container ids and UTF-8 repair are exact.
    - Scrapes ([Procfs]): whatever a scrape reports comes from an open socket of a
      live container process and from the tables of its namespace.
    - Stream client ([Duplex]): on every behaviour of the stream three usage rules of
      gRPC are kept (one outstanding operation of a kind, nothing after Finish or
      after the queue's shutdown), and a write succeeds only if the stream completed
      it; that a write behind WritesDone is not refused is proved too.
    - Events and host ([Signals], [Host]): a network event acts by its name and
      direction; the start-up checks accept exactly the supported hosts.
    - Signals ([SignalClient], [ProcessSignals], [Inspector]): in every
      interleaving the writer is only used while the stream is active, and a
      wake-up can be lost; every process event is counted as exactly one outcome;
      the lineage equals a reference; events are given to the subscribed handlers in
      order up to one that is finished, and the loop keeps the reporting handlers.
    - Processes ([ProcessStore]): one process per pid in every interleaving in which
      fetches and destructors do not overlap, the only way a callback can meet a
      destroyed process, and what overlapping fetches do.
    - Command line ([OptRef], [OptStore], [OptWrap], [OptUsage], [CollectorArgs]): the
      parser is equivalent to the reference, its reordering is a stable partition,
      the arrays it sizes itself are never left, the lists hold the options in
      order; the usage text is printed for every table and width, wrapped without
      loss; and a command line has the documented outcome.
    - Configuration ([CollectorConfig], [CollectorArgs], [NetParse]): what start-up
      accepts is well formed; buffer sizes, rates and periods are bounded or exact
      in spite of floating point, within stated ranges; networks in text mean their prefixes.
    - Reloading ([ConfigYaml], [Inotify], [ConfigLoader]): a message holds what the
      document says, the parser returns except for one kind of field, no event is
      lost or changed by the buffer, and the active configuration is always one that was on disk in full.
    - Introspection ([Http]): the network state that is shown is the tracker's
      snapshot, and showing it changes nothing; a session with the profiler answers
      with the latest heap profile ([Profile]).
    - Start-up and shut-down ([CollectorService], [Threads], [Setup]): what a command
      line leads to, with every way the process can end; which system calls are traced;
      after any run the service is taken down in order, and what happens when a thread
      had no pipe or a part does not end.
    - The notifier's thread ([NotifierRun]): every stream starts from nothing on a
      context of its own and reports the events of its turn, and [Stop] returns once its cancellation reached the stream;
      that it can miss it, and that without a channel it never returns, is proved too.
    - Statistics ([StatsExport]): the exact value of every gauge that a turn sets;
      rates cover exactly the reports a second apart.
    - NATS and logging ([Nats], [Logging]): sessions of calls one after the other own
      their connection, and how a push races with a stop; throttled messages are
      counted.
    - Resources ([Resources], [CMemory], [UdpServer], [UdpClient], [Abort]): nothing
      is closed or freed twice or leaked, no access leaves its block (for IPv4 senders
      and counts that do not overflow), files are decompressed in full, and the abort handler stays in its buffer.
    - Printing and extraction ([Print], [Extractor]): printed networks are parsed
      back; fields of events are what libsinsp stored, while the checks are there.

    ** Parameters, bounds and fuel

    The byte order, the signedness of [char], [std::hash], utf8_range's
    validity span, the tables of libscap, the inspector's events and threads, the
    file system, the environment, getaddrinfo, YAML scalars, JSON documents, what
    a machine makes of undefined conversions, the place of arrays on the stack, the
    clock, the results of the gRPC completion queue, the NATS library, the allocator
    and the system calls of the C programs, the reads of zlib, the profiler, the
    dynamic linker, [inet_ntop] and the filter checks of libsinsp are parameters or
    inputs.  The registry of Prometheus is a map from a family and labels to a value.
    Recursion is structural except in [Utility] ([split_loop],
    [sanitize_loop]: fuel is the length of the string, which bounds the loop),
    [NRadix] ([insert_walk], [insert_build], [find_loop]: fuel 129, one more
    than the bits of an address, which bound the depth of the tree) and the option
    parser: walks along a list have the size of the heap, the loops of the parser
    the lengths of the vector and of the argument, a flush sixteen steps for its
    fifteen lines, a table the number of its rows and parts, and the search for a
    layout ten thousand widths, and [Decompress] ([Resources]) one step per 8192
    bytes; that each is enough is part of the theorems.  Loops that
    run until a thread is stopped are runs over the list of what happens to them,
    of any length.  Calls that wait on the completion queue give [None], and steps
    that block [Blocked], while they wait; an exception that nothing catches and an
    undefined access are [Crash] or an error.

    ** Not modelled

    The texts of log messages outside [Logging], the measuring of durations by the
    metrics, the quantiles of Prometheus, credentials and factories that only call
    gRPC, conversions of deadlines, accessors and declarations, the text of a whole
    configuration, starting the self-check process, the perf_event_open and BPF
    programs of the integration tests, which are calls of the kernel, and the Go
    services of the repository, which are other programs.

    This file holds the shared notations, tactics and lemmas. *)

From Stdlib Require Export ZArith Lia Bool.
From stdpp Require Export base tactics option list numbers strings.

#[global] Open Scope Z_scope.

(** ** Machine-width integers

    A [w]-bit unsigned integer of the C++ code is a [Z] in [0, 2^w); every
    operation that can leave the range is followed by [wrap]. *)

Definition wrap (w z : Z) : Z := z mod 2 ^ w.
Definition in_range (w z : Z) : Prop := 0 <= z < 2 ^ w.

Abbreviation u64 := (wrap 64).
Abbreviation u32 := (wrap 32).
Abbreviation u16 := (wrap 16).
Abbreviation u8 := (wrap 8).

(** Reinterpretation of a [uint64_t] as an [int64_t] (two's complement). *)
Definition s64 (z : Z) : Z :=
  if u64 z <? 2 ^ 63 then u64 z else u64 z - 2 ^ 64.

(** [~x] on 64 bits. *)
Definition not64 (x : Z) : Z := Z.lxor x (Z.ones 64).

Declare Scope word_scope.
Delimit Scope word_scope with word.
Notation "x &. y" := (Z.land x y) (at level 40, left associativity) : word_scope.
Notation "x |. y" := (Z.lor x y) (at level 50, left associativity) : word_scope.
Notation "x <<. n" := (Z.shiftl x n) (at level 38, left associativity) : word_scope.
Notation "x >>. n" := (Z.shiftr x n) (at level 38, left associativity) : word_scope.
#[global] Open Scope word_scope.

(** ** Automation *)

Create HintDb collector.

(** Case analysis on the outermost [match] or [if] of the goal or of a
    hypothesis, keeping the equation. *)
Ltac case_goal :=
  match goal with
  | |- context [match ?x with _ => _ end] => destruct x eqn:?
  end.
Ltac case_hyp H :=
  match type of H with
  | context [match ?x with _ => _ end] => destruct x eqn:?
  end.

(** Turns the boolean tests of the code into propositions for [lia]. *)
Ltac breflect :=
  repeat match goal with
  | H : (_ && _)%bool = true |- _ => apply andb_prop in H; destruct H
  | H : (_ || _)%bool = false |- _ => apply orb_false_elim in H; destruct H
  | H : negb _ = true |- _ => apply negb_true_iff in H
  | H : negb _ = false |- _ => apply negb_false_iff in H
  | H : (_ =? _)%Z = true |- _ => apply Z.eqb_eq in H
  | H : (_ =? _)%Z = false |- _ => apply Z.eqb_neq in H
  | H : (_ <? _)%Z = true |- _ => apply Z.ltb_lt in H
  | H : (_ <? _)%Z = false |- _ => apply Z.ltb_ge in H
  | H : (_ <=? _)%Z = true |- _ => apply Z.leb_le in H
  | H : (_ <=? _)%Z = false |- _ => apply Z.leb_gt in H
  | H : (_ >? _)%Z = _ |- _ => rewrite Z.gtb_ltb in H
  | H : (_ >=? _)%Z = _ |- _ => rewrite Z.geb_leb in H
  | H : bool_decide _ = true |- _ => apply bool_decide_eq_true in H
  | H : bool_decide _ = false |- _ => apply bool_decide_eq_false in H
  end.

(** ** Outcomes

    A method returns, waits for ever, or kills the process: a null pointer
    dereferenced, or a fatal log message. *)

Inductive outcome (A : Type) : Type := Ret (a : A) | Blocked | Crash.
Arguments Ret {A}.
Arguments Blocked {A}.
Arguments Crash {A}.

#[global] Instance outcome_ret : MRet outcome := fun A a => Ret a.
#[global] Instance outcome_bind : MBind outcome :=
  fun A B f m => match m with Ret a => f a | Blocked => Blocked | Crash => Crash end.

Lemma bind_Ret {A B} (f : A -> outcome B) m b : (m ≫= f) = Ret b -> exists a, m = Ret a /\ f a = Ret b.
Proof. destruct m as [a| |]; [|done ..]. by exists a. Qed.

(** Splits a sequence of calls that returns. *)
Ltac inv_bind H :=
  repeat match type of H with
  | (_ ≫= _) = Ret _ =>
      let x := fresh "x" in let E := fresh "E" in
      apply bind_Ret in H as (x & E & H);
      try match type of x with prod _ _ => destruct x end; cbn beta iota in H
  end.

(** ** Generic lemmas on words and bits *)

Section words.
Implicit Types x y z w i : Z.

Lemma wrap_range w z : 0 <= w -> in_range w (wrap w z).
Proof. intros; apply Z.mod_pos_bound; lia. Qed.

Lemma wrap_id w z : in_range w z -> wrap w z = z.
Proof. intros; by apply Z.mod_small. Qed.

Lemma in_range_testbit w z i : 0 <= w -> in_range w z -> w <= i -> Z.testbit z i = false.
Proof.
  intros Hw Hz Hi. rewrite <- (Z.mod_small z (2 ^ w)) by exact Hz.
  by apply Z.mod_pow2_bits_high.
Qed.

Lemma testbit_in_range w z :
  0 <= w -> 0 <= z -> (forall i, w <= i -> Z.testbit z i = false) -> in_range w z.
Proof.
  intros Hw Hz Hi. split; [done|].
  assert (z = z mod 2 ^ w) as ->; [|apply Z.mod_pos_bound; lia].
  apply Z.bits_inj'. intros n Hn. destruct (Z.lt_ge_cases n w).
  - by rewrite Z.mod_pow2_bits_low by lia.
  - rewrite Z.mod_pow2_bits_high by lia. by apply Hi.
Qed.

Lemma words_bits_eq w x y :
  0 <= w -> in_range w x -> in_range w y ->
  (forall i, 0 <= i < w -> Z.testbit x i = Z.testbit y i) -> x = y.
Proof.
  intros Hw Hx Hy Hb. apply Z.bits_inj'. intros i Hi.
  destruct (Z.lt_ge_cases i w).
  - apply Hb; lia.
  - by rewrite !(in_range_testbit w).
Qed.

Lemma land_in_range w x y : 0 <= w -> in_range w x -> 0 <= y -> in_range w (x &. y).
Proof.
  intros Hw Hx Hy. destruct Hx. apply testbit_in_range; [done| |].
  - apply Z.land_nonneg; auto.
  - intros i Hi. rewrite Z.land_spec, (in_range_testbit w x) by (done || split; done).
    done.
Qed.

Lemma testbit_ones w i : 0 <= w -> 0 <= i -> Z.testbit (Z.ones w) i = (i <? w).
Proof.
  intros Hw Hi. destruct (Z.ltb_spec i w).
  - apply Z.ones_spec_low; lia.
  - apply Z.ones_spec_high; lia.
Qed.

Lemma not64_spec x i : 0 <= i < 64 -> Z.testbit (not64 x) i = negb (Z.testbit x i).
Proof.
  intros Hi. unfold not64. rewrite Z.lxor_spec, testbit_ones by lia.
  rewrite (proj2 (Z.ltb_lt i 64)) by lia. apply xorb_true_r.
Qed.

Lemma not64_range x : in_range 64 x -> in_range 64 (not64 x).
Proof.
  intros Hx. apply testbit_in_range; [lia| |].
  - apply Z.lxor_nonneg. destruct Hx. change (Z.ones 64) with 18446744073709551615. lia.
  - intros i Hi. unfold not64. rewrite Z.lxor_spec, testbit_ones by lia.
    rewrite (in_range_testbit 64 x) by (lia || done).
    by rewrite (proj2 (Z.ltb_ge i 64)) by lia.
Qed.

End words.

#[export] Hint Resolve wrap_range wrap_id land_in_range not64_range : collector.

(** ** Generic lemmas on lists *)

Section lists.
Context {A : Type}.
Implicit Types l k : list A.

Lemma prefix_take_iff l k : l `prefix_of` k <-> take (length l) k = l.
Proof.
  split.
  - intros [x ->]. by rewrite take_app_length.
  - intros <-. apply prefix_take.
Qed.

Lemma prefix_length_total l1 l2 k :
  l1 `prefix_of` k -> l2 `prefix_of` k -> (length l1 <= length l2)%nat -> l1 `prefix_of` l2.
Proof.
  intros H1%prefix_take_iff H2%prefix_take_iff Hlen.
  rewrite <- H1, <- H2.
  replace (take (length l1) k) with (take (length l1) (take (length l2) k)).
  - apply prefix_take.
  - rewrite take_take. f_equal. lia.
Qed.

End lists.

Lemma last_cons_default {A} (x d : A) l : List.last (x :: l) d = List.last l x.
Proof.
  revert x d. induction l as [|y l IH]; intros x d; [done|].
  change (List.last (x :: y :: l) d) with (List.last (y :: l) d). by rewrite !IH.
Qed.

Lemma fold_left_ext {A B} (f g : A -> B -> A) l a :
  (forall a b, f a b = g a b) -> fold_left f l a = fold_left g l a.
Proof. intros H. revert a. induction l; intros; simpl; [done|]. by rewrite H. Qed.

Lemma Forall2_impl_in {A B} (P Q : A -> B -> Prop) l k :
  Forall2 P l k -> (forall x y, x ∈ l -> P x y -> Q x y) -> Forall2 Q l k.
Proof.
  intros H. induction H; intros Hi; constructor; [apply Hi; [by left|done]|].
  apply IHForall2. intros ? ? ?. apply Hi. by right.
Qed.
