(* ===== verification/HostOrder.v ===== *)
(** * Byte order of the host

    [NetworkConnection.h] keeps addresses in network byte order and converts
    with [htonll]/[ntohll] ([htobe64]/[be64toh]).  The collector is built for
    little-endian hosts (x86-64, arm64, ppc64le) and for the big-endian s390x,
    so the host order is a class argument of every definition that converts;
    theorems hold for both orders. *)

From S2P Require Import Prelude.

(** [true] on a little-endian host. *)
Class HostOrder := little_endian : bool.

(** ** Byte swaps *)

Definition byte_at (x j : Z) : Z := (x >>. (8 * j)) &. 255.

Definition bswap64 (x : Z) : Z :=
  byte_at x 0 <<. (8 * 7) |. byte_at x 1 <<. (8 * 6) |.
  byte_at x 2 <<. (8 * 5) |. byte_at x 3 <<. (8 * 4) |.
  byte_at x 4 <<. (8 * 3) |. byte_at x 5 <<. (8 * 2) |.
  byte_at x 6 <<. (8 * 1) |. byte_at x 7 <<. (8 * 0).

Definition bswap32 (x : Z) : Z :=
  byte_at x 0 <<. (8 * 3) |. byte_at x 1 <<. (8 * 2) |.
  byte_at x 2 <<. (8 * 1) |. byte_at x 3 <<. (8 * 0).

Definition htonll `{ho : HostOrder} (x : Z) : Z := if little_endian then bswap64 x else x.
Definition ntohll `{ho : HostOrder} (x : Z) : Z := if little_endian then bswap64 x else x.
Definition htonl `{ho : HostOrder} (x : Z) : Z := if little_endian then bswap32 x else x.
Definition ntohl `{ho : HostOrder} (x : Z) : Z := if little_endian then bswap32 x else x.

(** ** Words and the bytes they occupy in memory *)

(** Value of a byte string read most significant byte first. *)
Fixpoint be_value (bs : list Z) : Z :=
  match bs with
  | [] => 0
  | b :: r => b <<. (8 * Z.of_nat (length r)) |. be_value r
  end.

Definition le_value (bs : list Z) : Z := be_value (rev bs).

(** The [n] bytes of a word, most significant first. *)
Fixpoint be_bytes (n : nat) (x : Z) : list Z :=
  match n with
  | O => []
  | S m => byte_at x (Z.of_nat m) :: be_bytes m x
  end.

(** [memcpy] between an integer object and a byte buffer. *)
Definition load_word `{ho : HostOrder} (bs : list Z) : Z :=
  if little_endian then le_value bs else be_value bs.
Definition store_word `{ho : HostOrder} (n : nat) (x : Z) : list Z :=
  if little_endian then rev (be_bytes n x) else be_bytes n x.

(** ** Lemmas *)

Lemma byte_at_testbit x j i :
  0 <= j -> 0 <= i ->
  Z.testbit (byte_at x j) i = (i <? 8) && Z.testbit x (8 * j + i).
Proof.
  intros Hj Hi. unfold byte_at. change 255 with (Z.ones 8).
  rewrite Z.land_spec, Z.shiftr_spec, testbit_ones by lia.
  rewrite andb_comm. do 2 f_equal. lia.
Qed.

Lemma byte_at_range x j : 0 <= j -> in_range 8 (byte_at x j).
Proof.
  intros Hj. unfold byte_at. rewrite (Z.land_ones _ 8) by lia.
  apply Z.mod_pos_bound. lia.
Qed.

Lemma byte_at_shift_testbit x j k i :
  0 <= j -> 0 <= k -> 0 <= i ->
  Z.testbit (byte_at x j <<. (8 * k)) i =
  (k =? i / 8) && Z.testbit x (8 * j + i mod 8).
Proof.
  intros Hj Hk Hi. rewrite Z.shiftl_spec by lia.
  pose proof (Z.div_mod i 8 ltac:(lia)). pose proof (Z.mod_pos_bound i 8 ltac:(lia)).
  destruct (Z.lt_ge_cases i (8 * k)).
  - rewrite Z.testbit_neg_r by lia. destruct (Z.eqb_spec k (i / 8)); [lia|done].
  - rewrite byte_at_testbit by lia. destruct (Z.eqb_spec k (i / 8)).
    + subst k. rewrite (proj2 (Z.ltb_lt _ _)) by lia. simpl. f_equal. lia.
    + rewrite (proj2 (Z.ltb_ge _ _)) by lia. done.
Qed.

(** Bit [i] of a byte-swapped word: the same bit of the mirrored byte. *)
Lemma bswap64_testbit x i :
  0 <= i -> Z.testbit (bswap64 x) i =
  (i <? 64) && Z.testbit x (8 * (7 - i / 8) + i mod 8).
Proof.
  intros Hi. unfold bswap64. rewrite !Z.lor_spec, !byte_at_shift_testbit by lia.
  pose proof (Z.div_mod i 8 ltac:(lia)). pose proof (Z.mod_pos_bound i 8 ltac:(lia)).
  set (q := i / 8) in *. set (r := i mod 8) in *.
  destruct (Z.ltb_spec i 64).
  - assert (q = 0 \/ q = 1 \/ q = 2 \/ q = 3 \/ q = 4 \/ q = 5 \/ q = 6 \/ q = 7) as Hq by lia.
    destruct Hq as [Hq|[Hq|[Hq|[Hq|[Hq|[Hq|[Hq|Hq]]]]]]]; rewrite Hq; simpl Z.eqb;
      rewrite ?andb_false_l, ?andb_true_l, ?orb_false_l, ?orb_false_r; f_equal; lia.
  - repeat match goal with |- context [?k =? q] => rewrite (proj2 (Z.eqb_neq k q)) by lia end.
    done.
Qed.

Lemma bswap64_range x : in_range 64 (bswap64 x).
Proof.
  apply testbit_in_range; [lia| |].
  - unfold bswap64. repeat (apply Z.lor_nonneg; split);
      apply Z.shiftl_nonneg; apply byte_at_range; lia.
  - intros i Hi. rewrite bswap64_testbit by lia.
    by rewrite (proj2 (Z.ltb_ge i 64)) by lia.
Qed.

Lemma bswap64_involutive x : in_range 64 x -> bswap64 (bswap64 x) = x.
Proof.
  intros Hx. apply (words_bits_eq 64); [lia|apply bswap64_range|done|].
  intros i Hi. rewrite bswap64_testbit by lia.
  pose proof (Z.div_mod i 8 ltac:(lia)). pose proof (Z.mod_pos_bound i 8 ltac:(lia)).
  assert (0 <= 7 - i / 8 <= 7) by (split; [|]; pose proof (Z.div_pos i 8);
    pose proof (Z.div_lt_upper_bound i 8 8); lia).
  rewrite bswap64_testbit by lia.
  rewrite !(proj2 (Z.ltb_lt _ _)) by lia. simpl.
  replace ((8 * (7 - i / 8) + i mod 8) / 8) with (7 - i / 8).
  2:{ rewrite Z.add_comm, Z.mul_comm, Z.div_add, (Z.div_small (i mod 8)) by lia. lia. }
  replace ((8 * (7 - i / 8) + i mod 8) mod 8) with (i mod 8).
  2:{ rewrite Z.add_comm, Z.mul_comm, Z.mod_add, Z.mod_mod by lia. done. }
  f_equal. lia.
Qed.

Lemma bswap64_land x y : bswap64 (x &. y) = bswap64 x &. bswap64 y.
Proof.
  apply Z.bits_inj'. intros i Hi.
  rewrite Z.land_spec, !bswap64_testbit, Z.land_spec by lia.
  destruct (i <? 64); [done|]. simpl. done.
Qed.

Lemma bswap64_lor x y : bswap64 (x |. y) = bswap64 x |. bswap64 y.
Proof.
  apply Z.bits_inj'. intros i Hi.
  rewrite Z.lor_spec, !bswap64_testbit, Z.lor_spec by lia.
  destruct (i <? 64); [done|]. simpl. done.
Qed.

Section order.
Context `{ho : HostOrder}.

Lemma ntohll_range x : in_range 64 x -> in_range 64 (ntohll x).
Proof. unfold ntohll. destruct little_endian; auto using bswap64_range. Qed.

Lemma htonll_range x : in_range 64 x -> in_range 64 (htonll x).
Proof. apply ntohll_range. Qed.

Lemma ntohll_htonll x : in_range 64 x -> ntohll (htonll x) = x.
Proof. unfold ntohll, htonll. destruct little_endian; auto using bswap64_involutive. Qed.

Lemma htonll_ntohll x : in_range 64 x -> htonll (ntohll x) = x.
Proof. apply ntohll_htonll. Qed.

Lemma ntohll_land x y : ntohll (x &. y) = ntohll x &. ntohll y.
Proof. unfold ntohll. destruct little_endian; auto using bswap64_land. Qed.

Lemma ntohll_0 : ntohll 0 = 0.
Proof. unfold ntohll. by destruct little_endian. Qed.

Lemma ntohll_inj x y : in_range 64 x -> in_range 64 y -> ntohll x = ntohll y -> x = y.
Proof.
  intros Hx Hy He. rewrite <- (htonll_ntohll x), <- (htonll_ntohll y) by done. by rewrite He.
Qed.

(** A masked comparison in network order is the same masked comparison of
    the host-order values: the idiom [(data & htonll(m)) == htonll(v)]. *)
Lemma masked_eq_host x m v :
  in_range 64 x -> in_range 64 m -> in_range 64 v ->
  (x &. htonll m =? htonll v) = (ntohll x &. m =? v).
Proof.
  intros Hx Hm Hv. apply eq_true_iff_eq. rewrite !Z.eqb_eq.
  assert (ntohll (x &. htonll m) = ntohll x &. m) as Hl.
  { by rewrite ntohll_land, ntohll_htonll. }
  split.
  - intros He. by rewrite <- Hl, He, ntohll_htonll.
  - intros He. apply ntohll_inj; auto using htonll_range.
    + apply land_in_range; [lia|done|]. apply htonll_range in Hm. apply Hm.
    + by rewrite Hl, ntohll_htonll.
Qed.

End order.

#[export] Hint Resolve ntohll_range htonll_range ntohll_htonll htonll_ntohll : collector.

(** ** Bytes of words *)

Lemma byte_at_div x j : 0 <= j -> byte_at x j = x / 2 ^ (8 * j) mod 2 ^ 8.
Proof.
  intros Hj. unfold byte_at. change 255 with (Z.ones 8). rewrite Z.land_ones by lia.
  by rewrite Z.shiftr_div_pow2 by lia.
Qed.

Lemma be_bytes_length n x : length (be_bytes n x) = n.
Proof. induction n; simpl; by rewrite ?IHn. Qed.

Lemma lor_shift_add a b k : 0 <= k -> in_range k b -> a <<. k |. b = a * 2 ^ k + b.
Proof.
  intros Hk Hb. rewrite Z.shiftl_mul_pow2 by done. symmetry.
  rewrite <- Z.lxor_lor, <- Z.add_nocarry_lxor; [done| |].
  - apply Z.bits_inj'. intros i Hi. rewrite Z.land_spec, Z.bits_0.
    destruct (Z.lt_ge_cases i k).
    + by rewrite Z.mul_pow2_bits_low by lia.
    + by rewrite (in_range_testbit k b), andb_false_r by (lia || done).
  - apply Z.bits_inj'. intros i Hi. rewrite Z.land_spec, Z.bits_0.
    destruct (Z.lt_ge_cases i k).
    + by rewrite Z.mul_pow2_bits_low by lia.
    + by rewrite (in_range_testbit k b), andb_false_r by (lia || done).
Qed.

Lemma be_value_bytes n x : be_value (be_bytes n x) = x mod 2 ^ (8 * Z.of_nat n).
Proof.
  induction n as [|n IH]; [by rewrite Z.mod_1_r|].
  cbn [be_bytes be_value]. rewrite be_bytes_length, IH.
  rewrite lor_shift_add by (lia || apply Z.mod_pos_bound; lia).
  rewrite byte_at_div by lia.
  replace (8 * Z.of_nat (S n)) with (8 * Z.of_nat n + 8) by lia.
  rewrite Z.pow_add_r, Z.rem_mul_r by lia. lia.
Qed.

Section load_store.
Context `{ho : HostOrder}.

Lemma load_store n x : in_range (8 * Z.of_nat n) x -> load_word (store_word n x) = x.
Proof.
  intros Hx. unfold load_word, store_word, le_value.
  destruct little_endian; rewrite ?rev_involutive, be_value_bytes; by apply Z.mod_small.
Qed.
Lemma load_store_word x : in_range 64 x -> load_word (store_word 8 x) = x.
Proof. apply (load_store 8). Qed.

Lemma store_word_length n x : length (store_word n x) = n.
Proof. unfold store_word. destruct little_endian; by rewrite ?length_rev, be_bytes_length. Qed.

End load_store.
