(* ===== verification/UMap.v ===== *)
(** * Unordered maps with a user-supplied key equality

    [Hash.h] defines [UnorderedMap<K, V, E>] as
    [std::unordered_map<K, V, Hasher, E>] and [UnorderedSet<E>] likewise.  A
    map is modelled as the list of its entries in iteration order; the key
    equality is the argument [keq], so that the two equalities the collector
    uses on [ContainerEndpoint] (the [==] operator and
    [AdvertisedEndpointEquality]) give two instances of the same code.  The
    iteration order of the library is unspecified: theorems speak of lookups
    and never of positions. *)

From S2P Require Import Prelude.

Abbreviation UMap K V := (list (K * V)).

(** What the named requirements of [std::unordered_map] ask of the equality. *)
Class KeyEquiv {K : Type} (keq : K -> K -> bool) : Prop := {
  keq_refl : forall x, keq x x = true;
  keq_sym : forall x y, keq x y = true -> keq y x = true;
  keq_trans : forall x y z, keq x y = true -> keq y z = true -> keq x z = true
}.

Section ops.
Context {K V : Type} (keq : K -> K -> bool).
Implicit Types (m : UMap K V) (k : K) (v : V).

(** [find]; [Lookup] of [Containers.h] returns the pointer to the value. *)
Fixpoint umap_find (k : K) (m : UMap K V) : option V :=
  match m with
  | [] => None
  | (k', v) :: r => if keq k k' then Some v else umap_find k r
  end.

(** [find(k) != end()]; [Contains] of [Containers.h]. *)
Definition umap_contains (k : K) (m : UMap K V) : bool :=
  match umap_find k m with Some _ => true | None => false end.

(** [emplace]/[insert]: no effect when the key is present; the flag tells
    whether the entry was added. *)
Definition umap_emplace (k : K) (v : V) (m : UMap K V) : UMap K V * bool :=
  if umap_contains k m then (m, false) else (m ++ [(k, v)], true).

(** Assignment through the iterator of an entry ([it->second = f(it->second)]). *)
Fixpoint umap_update (f : V -> V) (k : K) (m : UMap K V) : UMap K V :=
  match m with
  | [] => []
  | (k', v) :: r => if keq k k' then (k', f v) :: r else (k', v) :: umap_update f k r
  end.

(** [erase] of the entry of a key. *)
Fixpoint umap_erase (k : K) (m : UMap K V) : UMap K V :=
  match m with
  | [] => []
  | (k', v) :: r => if keq k k' then r else (k', v) :: umap_erase k r
  end.

(** [m[k] = v]. *)
Definition umap_assign (k : K) (v : V) (m : UMap K V) : UMap K V :=
  let '(m', added) := umap_emplace k v m in
  if added then m' else umap_update (fun _ => v) k m'.

(** The loop [for (it = begin; it != end;) keep ? ++it : it = erase(it)]. *)
Definition umap_filter (keep : K * V -> bool) (m : UMap K V) : UMap K V :=
  List.filter keep m.

(** A loop over the entries that assigns to [entry.second]. *)
Definition umap_map (f : V -> V) (m : UMap K V) : UMap K V :=
  map (fun kv => (kv.1, f kv.2)) m.

(** No two entries with equal keys. *)
Fixpoint umap_ok (m : UMap K V) : Prop :=
  match m with
  | [] => True
  | (k, _) :: r => umap_find k r = None /\ umap_ok r
  end.

End ops.

(** ** Lookup laws *)

Section laws.
Context {K V : Type} (keq : K -> K -> bool) `{!KeyEquiv keq}.
Implicit Types (m : UMap K V) (k : K) (v : V).

Lemma keq_sym_eq x y : keq x y = keq y x.
Proof. apply eq_true_iff_eq. split; apply keq_sym. Qed.

Lemma keq_subst x y z : keq x y = true -> keq x z = keq y z.
Proof.
  intros Hxy. apply eq_true_iff_eq. split; intros H.
  - eapply keq_trans; [|done]. by apply keq_sym.
  - by eapply keq_trans.
Qed.

Lemma keq_subst_r x y z : keq x y = true -> keq z x = keq z y.
Proof. intros Hxy. rewrite !(keq_sym_eq z). by apply keq_subst. Qed.

(** Lookups do not distinguish equal keys. *)
Lemma umap_find_proper k k' m : keq k k' = true -> umap_find keq k m = umap_find keq k' m.
Proof.
  intros Hk. induction m as [|[k'' v] r IH]; [done|]. simpl.
  rewrite (keq_subst k k') by done. by rewrite IH.
Qed.

Lemma umap_contains_find k m : umap_contains keq k m = true <-> is_Some (umap_find keq k m).
Proof. unfold umap_contains. destruct (umap_find keq k m); split; naive_solver. Qed.

Lemma umap_find_app k m1 m2 :
  umap_find keq k (m1 ++ m2) =
  match umap_find keq k m1 with Some v => Some v | None => umap_find keq k m2 end.
Proof. induction m1 as [|[k' v] r IH]; [done|]. simpl. by destruct (keq k k'). Qed.

Lemma umap_find_emplace k' k v m :
  umap_find keq k' (umap_emplace keq k v m).1 =
  match umap_find keq k' m with
  | Some v' => Some v'
  | None => if keq k' k then Some v else None
  end.
Proof.
  unfold umap_emplace, umap_contains.
  destruct (umap_find keq k m) as [w|] eqn:Hk; simpl.
  - destruct (umap_find keq k' m) eqn:Hk'; [done|].
    destruct (keq k' k) eqn:E; [|done].
    rewrite (umap_find_proper _ _ _ E) in Hk'. congruence.
  - rewrite umap_find_app. by destruct (umap_find keq k' m).
Qed.

Lemma umap_emplace_added k v m :
  (umap_emplace keq k v m).2 = negb (umap_contains keq k m).
Proof. unfold umap_emplace. by destruct (umap_contains keq k m). Qed.

Lemma umap_find_update f k' k m :
  umap_find keq k' (umap_update keq f k m) =
  if keq k' k then f <$> umap_find keq k' m else umap_find keq k' m.
Proof.
  induction m as [|[k0 v0] r IH]; simpl.
  - by destruct (keq k' k).
  - destruct (keq k k0) eqn:E; simpl.
    + rewrite (keq_subst_r k k0 k') by done. by destruct (keq k' k0).
    + destruct (keq k' k0) eqn:E0; [|apply IH].
      destruct (keq k' k) eqn:E1; [|done].
      rewrite (keq_subst k' k) in E0 by done. congruence.
Qed.

Lemma umap_find_erase k' k m :
  umap_ok keq m ->
  umap_find keq k' (umap_erase keq k m) = if keq k' k then None else umap_find keq k' m.
Proof.
  induction m as [|[k0 v0] r IH]; simpl.
  - by destruct (keq k' k).
  - intros [Hk0 Hr]. destruct (keq k k0) eqn:E; simpl.
    + rewrite (keq_subst_r k k0 k') by done. destruct (keq k' k0) eqn:E0; [|done].
      by rewrite (umap_find_proper k' k0).
    + destruct (keq k' k0) eqn:E0; [|by apply IH].
      destruct (keq k' k) eqn:E1; [|done].
      rewrite (keq_subst k' k) in E0 by done. congruence.
Qed.

Lemma umap_find_assign k' k v m :
  umap_find keq k' (umap_assign keq k v m) =
  if keq k' k then Some v else umap_find keq k' m.
Proof.
  unfold umap_assign. pose proof (umap_find_emplace k' k v m) as He.
  pose proof (umap_emplace_added k v m) as Ha. unfold umap_contains in Ha.
  destruct (umap_emplace keq k v m) as [m' added] eqn:Em. simpl in *. subst added.
  destruct (umap_find keq k m) as [w|] eqn:Hk; simpl.
  - rewrite umap_find_update, He.
    assert (m' = m) as ->.
    { unfold umap_emplace, umap_contains in Em. rewrite Hk in Em. by simplify_eq. }
    destruct (keq k' k) eqn:E.
    + by rewrite (umap_find_proper k' k), Hk.
    + by destruct (umap_find keq k' m).
  - rewrite He. destruct (keq k' k) eqn:E.
    + by rewrite (umap_find_proper k' k), Hk.
    + by destruct (umap_find keq k' m).
Qed.

Lemma umap_find_filter keep k m :
  umap_ok keq m ->
  (forall k1 k2 v, keq k1 k2 = true -> keep (k1, v) = keep (k2, v)) ->
  umap_find keq k (umap_filter keep m) =
  match umap_find keq k m with
  | Some v => if keep (k, v) then Some v else None
  | None => None
  end.
Proof.
  intros Hok Hkeep. induction m as [|[k0 v0] r IH]; [done|]. simpl.
  destruct Hok as [Hk0 Hr]. destruct (keq k k0) eqn:E.
  - rewrite (Hkeep k k0) by done. destruct (keep (k0, v0)); simpl; [by rewrite E|].
    rewrite IH by done. by rewrite (umap_find_proper k k0), Hk0.
  - destruct (keep (k0, v0)); simpl; [rewrite E|]; by apply IH.
Qed.

Lemma umap_find_map f k m : umap_find keq k (umap_map f m) = f <$> umap_find keq k m.
Proof.
  induction m as [|[k0 v0] r IH]; [done|]. simpl. by destruct (keq k k0).
Qed.

(** Every entry is found under its key, and conversely. *)
Lemma umap_find_In k v m : umap_find keq k m = Some v -> exists k', In (k', v) m /\ keq k k' = true.
Proof.
  induction m as [|[k0 v0] r IH]; [done|]. simpl. destruct (keq k k0) eqn:E.
  - intros [= ->]. exists k0. auto.
  - intros (k' & ? & ?)%IH. exists k'. auto.
Qed.

Lemma umap_In_find k v m : umap_ok keq m -> In (k, v) m -> umap_find keq k m = Some v.
Proof.
  induction m as [|[k0 v0] r IH]; [done|]. simpl. intros [Hk0 Hr] [[= -> ->]|Hin].
  - by rewrite keq_refl.
  - rewrite IH by done. destruct (keq k k0) eqn:E; [|done].
    rewrite <- (umap_find_proper k k0) in Hk0 by done. rewrite IH in Hk0; done.
Qed.

(** A key has one entry. *)
Lemma umap_In_unique k k1 v1 k2 v2 m : umap_ok keq m -> In (k1, v1) m -> In (k2, v2) m ->
  keq k k1 = true -> keq k k2 = true -> k1 = k2 /\ v1 = v2.
Proof.
  induction m as [|[k0 v0] r IH]; [done|]. simpl. intros [Hk0 Hr] H1 H2 E1 E2.
  assert (forall k' v', In (k', v') r -> keq k k' = true -> keq k k0 = true -> False) as Hno.
  { intros k' v' Hin E E0. apply umap_In_find in Hin; [|done]. rewrite <- (umap_find_proper k k') in Hin by done.
    rewrite (umap_find_proper k k0) in Hin by done. congruence. }
  destruct H1 as [[= <- <-]|H1], H2 as [[= <- <-]|H2]; [done|by destruct (Hno _ _ H2)..|by destruct (Hno _ _ H1)|by apply IH].
Qed.

(** ** Preservation of [umap_ok] *)

Lemma umap_ok_app m1 m2 :
  umap_ok keq (m1 ++ m2) <->
  umap_ok keq m1 /\ umap_ok keq m2 /\ (forall k v, In (k, v) m1 -> umap_find keq k m2 = None).
Proof.
  induction m1 as [|[k0 v0] r IH]; simpl; [naive_solver|].
  rewrite umap_find_app, IH. split.
  - intros [Hf (H1 & H2 & H3)]. destruct (umap_find keq k0 r) eqn:?; [done|].
    split_and!; auto. intros k v [[= -> ->]|]; eauto.
  - intros ((Hf & H1) & H2 & H3). rewrite Hf. split_and!; eauto.
Qed.

Lemma umap_ok_emplace k v m : umap_ok keq m -> umap_ok keq (umap_emplace keq k v m).1.
Proof.
  intros Hok. unfold umap_emplace, umap_contains.
  destruct (umap_find keq k m) eqn:Hk; [done|]. simpl. apply umap_ok_app.
  split_and!; simpl; auto. intros k' v' Hin. destruct (keq k' k) eqn:E; [|done].
  apply umap_In_find in Hin; [|done]. rewrite (umap_find_proper k' k) in Hin by done. congruence.
Qed.

Lemma umap_ok_update f k m : umap_ok keq m -> umap_ok keq (umap_update keq f k m).
Proof.
  induction m as [|[k0 v0] r IH]; [done|]. simpl. intros [Hk0 Hr].
  destruct (keq k k0) eqn:E; simpl; [done|]. split; [|auto].
  rewrite umap_find_update, Hk0. by destruct (keq k0 k).
Qed.

Lemma umap_find_erase_None k' k m :
  umap_find keq k' m = None -> umap_find keq k' (umap_erase keq k m) = None.
Proof.
  induction m as [|[k0 v0] r IH]; [done|]. simpl.
  destruct (keq k' k0) eqn:E; [done|]. destruct (keq k k0); [done|]. simpl. by rewrite E.
Qed.

Lemma umap_ok_erase k m : umap_ok keq m -> umap_ok keq (umap_erase keq k m).
Proof.
  induction m as [|[k0 v0] r IH]; [done|]. simpl. intros [Hk0 Hr].
  destruct (keq k k0); [done|]. simpl. auto using umap_find_erase_None.
Qed.

Lemma umap_ok_assign k v m : umap_ok keq m -> umap_ok keq (umap_assign keq k v m).
Proof.
  intros Hok. unfold umap_assign. pose proof (umap_ok_emplace k v m Hok).
  destruct (umap_emplace keq k v m) as [m' []]; simpl in *; auto using umap_ok_update.
Qed.

Lemma umap_find_filter_None keep k m :
  umap_find keq k m = None -> umap_find keq k (umap_filter keep m) = None.
Proof.
  induction m as [|[k0 v0] r IH]; [done|]. simpl. destruct (keq k k0) eqn:E; [done|].
  destruct (keep (k0, v0)); simpl; [by rewrite E; auto|auto].
Qed.

Lemma umap_ok_filter keep m : umap_ok keq m -> umap_ok keq (umap_filter keep m).
Proof.
  induction m as [|[k0 v0] r IH]; [done|]. simpl. intros [Hk0 Hr].
  destruct (keep (k0, v0)); simpl; auto using umap_find_filter_None.
Qed.

Lemma umap_ok_map f m : umap_ok keq m -> umap_ok keq (umap_map f m).
Proof.
  induction m as [|[k0 v0] r IH]; [done|]. simpl. intros [Hk0 Hr].
  split; [|auto]. by rewrite umap_find_map, Hk0.
Qed.

End laws.

#[export] Hint Resolve umap_ok_emplace umap_ok_update umap_ok_erase umap_ok_assign
  umap_ok_filter umap_ok_map : collector.

(** The entries of a map after an assignment. *)
Lemma umap_assign_In {K V} (keq : K -> K -> bool) `{!KeyEquiv keq} k v (m : UMap K V) kv :
  In kv (umap_assign keq k v m) -> In kv m \/ (kv.2 = v /\ keq k kv.1 = true).
Proof.
  unfold umap_assign, umap_emplace. destruct (umap_contains keq k m).
  - induction m as [|[k0 v0] r IH]; [done|]. simpl. destruct (keq k k0) eqn:E; simpl.
    + intros [<-|H]; auto.
    + intros [<-|H]; [auto|]. destruct (IH H); auto.
  - rewrite in_app_iff. intros [H|[<-|[]]]; [auto|]. right. split; [done|]. apply keq_refl.
Qed.

(** ** Loops over the entries of one map that edit another

    A loop body that touches only the entry of the current key acts pointwise:
    the final lookup of [k] depends on the lookups of [k] in the two maps. *)

Section loops.
Context {K V W : Type} (keq : K -> K -> bool) `{!KeyEquiv keq}.
Variable step : UMap K V -> K * W -> UMap K V.
Variable act : option V -> W -> option V.
Hypothesis step_ok : forall m kw, umap_ok keq m -> umap_ok keq (step m kw).
Hypothesis step_find : forall m k w k', umap_ok keq m ->
  umap_find keq k' (step m (k, w)) =
  if keq k' k then act (umap_find keq k' m) w else umap_find keq k' m.

Lemma umap_loop_ok m n : umap_ok keq m -> umap_ok keq (fold_left step n m).
Proof. revert m. induction n; simpl; auto. Qed.

Lemma umap_loop_find m n k :
  umap_ok keq m -> umap_ok keq n ->
  umap_find keq k (fold_left step n m) =
  match umap_find keq k n with
  | Some w => act (umap_find keq k m) w
  | None => umap_find keq k m
  end.
Proof.
  revert m. induction n as [|[k0 w0] r IH]; intros m Hm; [done|]. simpl.
  intros [Hk0 Hr]. rewrite IH by auto. rewrite step_find by done.
  destruct (keq k k0) eqn:E.
  - by rewrite (umap_find_proper _ k k0), Hk0.
  - done.
Qed.

End loops.

(** ** Sets *)

Abbreviation USet K := (list K).

Definition uset_contains {K} (keq : K -> K -> bool) (k : K) (s : USet K) : bool :=
  existsb (keq k) s.

Definition uset_insert {K} (keq : K -> K -> bool) (k : K) (s : USet K) : USet K :=
  if uset_contains keq k s then s else s ++ [k].

Section usets.
Context {K : Type} (keq : K -> K -> bool) `{!KeyEquiv keq}.

Lemma uset_contains_insert k' k (s : USet K) :
  uset_contains keq k' (uset_insert keq k s) = keq k' k || uset_contains keq k' s.
Proof.
  unfold uset_insert. destruct (uset_contains keq k s) eqn:Hc.
  - destruct (keq k' k) eqn:E; [|done]. simpl.
    unfold uset_contains in *. apply existsb_exists in Hc as (x & Hin & Hx).
    apply existsb_exists. exists x. split; [done|]. by eapply keq_trans.
  - unfold uset_contains. rewrite existsb_app. simpl.
    rewrite orb_false_r. apply orb_comm.
Qed.

End usets.
