(* ===== verification/NetAddress.v ===== *)
(** * IP addresses and networks ([NetworkConnection.h]: [Address], [IPNet])

    An address holds two 64-bit words in network byte order; a network keeps
    the address it was built from, the number of significant bits, the mask
    words precomputed by its constructor and the flag [is_addr_]. *)

From S2P Require Import Prelude HostOrder UMap.

Module Family.
Inductive t := UNKNOWN | IPV4 | IPV6.
Definition eqb (a b : t) : bool :=
  match a, b with
  | UNKNOWN, UNKNOWN | IPV4, IPV4 | IPV6, IPV6 => true
  | _, _ => false
  end.
(** The underlying [unsigned char]. *)
Definition to_Z (a : t) : Z := match a with UNKNOWN => 0 | IPV4 => 1 | IPV6 => 2 end.
#[export] Instance eq_dec : EqDecision t.
Proof. solve_decision. Defined.
Lemma eqb_eq a b : eqb a b = true <-> a = b.
Proof. destruct a, b; simpl; split; congruence. Qed.
End Family.

(** ** Address *)

Record Address := mkAddress { data_ : Z * Z; family_ : Family.t }.

Definition u64_data (a : Address) : list Z := [(data_ a).1; (data_ a).2].

Definition Length (f : Family.t) : Z :=
  match f with Family.IPV4 => 4 | Family.IPV6 => 16 | Family.UNKNOWN => 0 end.
Definition length_ (a : Address) : Z := Length (family_ a).

(** The constructors. *)
Definition Address_family (f : Family.t) : Address := mkAddress (0, 0) f.
Definition Address_default : Address := Address_family Family.UNKNOWN.
Definition Address_Any (f : Family.t) : Address := Address_family f.

Section address_order.
Context `{ho : HostOrder}.

Definition Address_u32 (ipv4 : Z) : Address :=
  mkAddress (htonll (u64 (ntohl ipv4 <<. 32)), 0) Family.IPV4.

Definition Address_octets (a b c d : Z) : Address :=
  Address_u32 (htonl (u32 (a <<. 24) |. u32 (b <<. 16) |. u32 (c <<. 8) |. d)).

Definition Address_v6 (ipv6_high ipv6_low : Z) : Address :=
  mkAddress (ipv6_high, ipv6_low) Family.IPV6.

Definition Address_words (f : Family.t) (data : Z * Z) : Address := mkAddress data f.

(** [memcpy] of [n] bytes over two zeroed words. *)
Definition memcpy_words (n : nat) (bytes : list Z) : Z * Z :=
  let mem := take n bytes ++ replicate (16 - n) 0 in
  (load_word (take 8 mem), load_word (drop 8 mem)).

Definition Address_bytes (f : Family.t) (data : list Z) : Address :=
  mkAddress (memcpy_words (Z.to_nat (Length f)) data) f.

(** From four network-encoded [uint32_t]. *)
Definition Address_u32x4 (ipv6 : list Z) : Address :=
  mkAddress (memcpy_words 16 (concat (map (store_word 4) ipv6))) Family.IPV6.

Definition Address_eq (a b : Address) : bool :=
  Family.eqb (family_ a) (family_ b) &&
  (((data_ a).1 =? (data_ b).1) && ((data_ a).2 =? (data_ b).2)).

(** The bytes [data()] points to. *)
Definition data_bytes (a : Address) : list Z :=
  store_word 8 (data_ a).1 ++ store_word 8 (data_ a).2.

Fixpoint memcmp_gt (p q : list Z) : bool :=
  match p, q with
  | x :: p', y :: q' => if x =? y then memcmp_gt p' q' else y <? x
  | _, _ => false
  end.

Definition Address_gt (a b : Address) : bool :=
  if negb (Family.eqb (family_ a) (family_ b))
  then Family.to_Z (family_ b) <? Family.to_Z (family_ a)
  else memcmp_gt (take (Z.to_nat (length_ a)) (data_bytes a))
                 (take (Z.to_nat (length_ a)) (data_bytes b)).

Definition Address_IsNull (a : Address) : bool := forallb (fun v => v =? 0) (u64_data a).

Definition ToV6 (a : Address) : Address :=
  match family_ a with
  | Family.IPV6 => a
  | Family.IPV4 =>
      Address_v6 0 (htonll (0x0000ffff00000000 |. (ntohll (data_ a).1 >>. 32)))
  | Family.UNKNOWN => Address_default
  end.

Definition IsLocal (a : Address) : bool :=
  match family_ a with
  | Family.IPV4 =>
      (data_ a).1 &. htonll 0xff00000000000000 =? htonll 0x7f00000000000000
  | Family.IPV6 =>
      if negb ((data_ a).1 =? 0) then false
      else ((data_ a).2 =? htonll 1) ||
           ((data_ a).2 &. htonll 0xffffffffff000000 =? htonll 0x0000ffff7f000000)
  | Family.UNKNOWN => false
  end.

Definition IsCanonicalExternalIp (a : Address) : bool :=
  match family_ a with
  | Family.IPV4 =>
      (data_ a).1 &. htonll 0xffffffff00000000 =? htonll 0xffffffff00000000
  | Family.IPV6 =>
      ((data_ a).1 =? 0xffffffffffffffff) && ((data_ a).2 =? 0xffffffffffffffff)
  | Family.UNKNOWN => false
  end.

(** ** IPNet *)

Record IPNet := mkIPNet {
  address_ : Address; mask_ : list Z; bits_ : Z; is_addr_ : bool
}.

(** [~(~static_cast<uint64_t>(0) >> bits)]. *)
Definition last_mask (bits : Z) : Z := not64 (not64 0 >>. bits).

(** The constructor's loop: full words are copied as they are, the last
    partial word is stored in host order. *)
Fixpoint fill_mask (in_mask : list Z) (bits_left : Z) : list Z :=
  match in_mask with
  | [] => []
  | w :: r =>
      if 64 <=? bits_left then w :: fill_mask r (bits_left - 64)
      else (if 0 <? bits_left then ntohll w &. last_mask bits_left else 0)
             :: map (fun _ => 0) r
  end.

Definition IPNet_make (address : Address) (bits : Z) (is_addr : bool) : IPNet :=
  let max_bits := Length (family_ address) * 8 in
  let bits := if max_bits <? bits then max_bits else bits in
  mkIPNet address (fill_mask (u64_data address) bits) bits is_addr.

Definition IPNet_default : IPNet := IPNet_make Address_default 0 false.
Definition IPNet_of_address (address : Address) : IPNet :=
  IPNet_make address (8 * length_ address) true.

Definition IPNet_family (n : IPNet) : Family.t := family_ (address_ n).

Definition net_mask_array (n : IPNet) : list Z :=
  if bits_ n <? 64 then [not64 (0xFFFFFFFFFFFFFFFF >>. bits_ n); 0]
  else if bits_ n =? 128 then [0xFFFFFFFFFFFFFFFF; 0xFFFFFFFFFFFFFFFF]
  else [0xFFFFFFFFFFFFFFFF; not64 (0xFFFFFFFFFFFFFFFF >>. (bits_ n mod 64))].

(** The comparison loop of [Contains]; the pointers stay inside the two-word
    arrays because [bits_] is at most 128. *)
Fixpoint contains_loop (addr mask : list Z) (bitsLeft : Z) : bool :=
  match addr, mask with
  | a :: addr', m :: mask' =>
      if 64 <=? bitsLeft
      then if a =? m then contains_loop addr' mask' (bitsLeft - 64) else false
      else if 0 <? bitsLeft then ntohll a &. last_mask bitsLeft =? m else true
  | _, _ => true
  end.

Definition Contains (n : IPNet) (a : Address) : bool :=
  if negb (Family.eqb (family_ a) (family_ (address_ n))) then false
  else contains_loop (u64_data a) (mask_ n) (bits_ n).

Definition IPNet_IsNull (n : IPNet) : bool := (bits_ n =? 0) && Address_IsNull (address_ n).

Fixpoint words_eq (p q : list Z) : bool :=
  match p, q with
  | [], [] => true
  | x :: p', y :: q' => (x =? y) && words_eq p' q'
  | _, _ => false
  end.

(** [operator==]: the flag of the left operand selects the comparison. *)
Definition IPNet_eq (n m : IPNet) : bool :=
  if negb (bits_ n =? bits_ m) then false
  else if is_addr_ n then Address_eq (address_ n) (address_ m)
  else words_eq (mask_ n) (mask_ m).

Definition IPNet_gt (n m : IPNet) : bool :=
  if negb (bits_ n =? bits_ m) then bits_ m <? bits_ n
  else Address_gt (address_ n) (address_ m).

(** ** Private networks *)

Definition PrivateIPv4Networks : list IPNet :=
  [ IPNet_make (Address_octets 10 0 0 0) 8 false;
    IPNet_make (Address_octets 100 64 0 0) 10 false;
    IPNet_make (Address_octets 169 254 0 0) 16 false;
    IPNet_make (Address_octets 172 16 0 0) 12 false;
    IPNet_make (Address_octets 192 168 0 0) 16 false ].

Definition PrivateIPv6Networks : list IPNet :=
  IPNet_make (Address_v6 (htonll 0xfd00000000000000) 0) 8 false ::
  map (fun n => IPNet_make (ToV6 (address_ n)) (bits_ n + 96) false) PrivateIPv4Networks.

Definition PrivateNetworks_family (f : Family.t) : list IPNet :=
  match f with
  | Family.IPV4 => PrivateIPv4Networks
  | Family.IPV6 => PrivateIPv6Networks
  | Family.UNKNOWN => []
  end.

(** The static vector of [PrivateNetworks()] after its first call, which is
    the only one: it initialises [private_networks_tree]. *)
Definition PrivateNetworks : list IPNet := PrivateIPv4Networks ++ PrivateIPv6Networks.

(** [Address::IsPublic], which returns at the first private network found. *)
Definition IsPublic (a : Address) : bool :=
  negb (existsb (fun net => Contains net a) (PrivateNetworks_family (family_ a))).

End address_order.

(** ** Addresses as bit strings

    The abstract view of an address: its 128 bits in network order, most
    significant first.  A network of [bits_] bits denotes a prefix of it. *)

Definition word_bits (w : Z) : list bool :=
  map (fun i => Z.testbit w (63 - Z.of_nat i)) (seq 0 64).

Section bit_strings.
Context `{ho : HostOrder}.

Definition addr_bits (a : Address) : list bool :=
  concat (map (fun w => word_bits (ntohll w)) (u64_data a)).

Definition net_path (n : IPNet) : list bool :=
  take (Z.to_nat (bits_ n)) (addr_bits (address_ n)).

Definition addr_wf (a : Address) : Prop := Forall (in_range 64) (u64_data a).

(** A network as its constructor builds it. *)
Definition ipnet_wf (n : IPNet) : Prop :=
  addr_wf (address_ n) /\ 0 <= bits_ n /\
  n = IPNet_make (address_ n) (bits_ n) (is_addr_ n).

Lemma word_bits_length w : length (word_bits w) = 64%nat.
Proof. unfold word_bits. by rewrite length_map, length_seq. Qed.

Lemma addr_bits_length a : length (addr_bits a) = 128%nat.
Proof. unfold addr_bits, u64_data. cbn [map concat]. by rewrite !length_app, !word_bits_length. Qed.

Lemma word_bits_lookup w (i : nat) :
  (i < 64)%nat -> word_bits w !! i = Some (Z.testbit w (63 - Z.of_nat i)).
Proof.
  intros Hi. unfold word_bits. rewrite list_lookup_fmap, lookup_seq_lt by lia. done.
Qed.

Lemma take_word_bits_eq (k : nat) x y :
  (k <= 64)%nat ->
  take k (word_bits x) = take k (word_bits y) <->
  (forall i, 64 - Z.of_nat k <= i < 64 -> Z.testbit x i = Z.testbit y i).
Proof.
  intros Hk. split.
  - intros He i Hi. assert (take k (word_bits x) !! Z.to_nat (63 - i) =
      take k (word_bits y) !! Z.to_nat (63 - i)) as Hl by (by rewrite He).
    rewrite !lookup_take_lt, !word_bits_lookup in Hl by lia. injection Hl as Hl.
    by replace (63 - Z.of_nat (Z.to_nat (63 - i))) with i in Hl by lia.
  - intros Hb. apply list_eq. intros j. destruct (decide (j < k)%nat).
    + rewrite !lookup_take_lt, !word_bits_lookup by lia. f_equal. apply Hb. lia.
    + by rewrite !lookup_take_ge by lia.
Qed.

Lemma word_bits_inj x y :
  in_range 64 x -> in_range 64 y -> word_bits x = word_bits y -> x = y.
Proof.
  intros Hx Hy He. apply (words_bits_eq 64); [lia|done|done|]. intros i Hi.
  apply (take_word_bits_eq 64 x y ltac:(lia)); [|lia].
  by rewrite He.
Qed.

Lemma last_mask_testbit k i :
  0 <= k <= 64 -> 0 <= i < 64 -> Z.testbit (last_mask k) i = (64 - k <=? i).
Proof.
  intros Hk Hi. unfold last_mask. rewrite not64_spec by lia.
  change (not64 0) with (Z.ones 64). rewrite Z.shiftr_spec, testbit_ones by lia.
  destruct (Z.ltb_spec (i + k) 64), (Z.leb_spec (64 - k) i); simpl; lia.
Qed.

Lemma last_mask_range k : 0 <= k -> in_range 64 (last_mask k).
Proof.
  intros Hk. unfold last_mask. apply not64_range. change (not64 0) with (Z.ones 64).
  apply testbit_in_range; [lia| |].
  - apply Z.shiftr_nonneg. by vm_compute.
  - intros i Hi. rewrite Z.shiftr_spec, testbit_ones by lia. apply Z.ltb_ge. lia.
Qed.

(** Masking two words with the same prefix mask compares their leading bits. *)
Lemma masked_words_eq (k : nat) x y :
  (k <= 64)%nat -> in_range 64 x -> in_range 64 y ->
  x &. last_mask (Z.of_nat k) = y &. last_mask (Z.of_nat k) <->
  take k (word_bits x) = take k (word_bits y).
Proof.
  intros Hk Hx Hy. rewrite take_word_bits_eq by done.
  pose proof (last_mask_range (Z.of_nat k) ltac:(lia)) as Hm.
  split; intros He.
  - intros i Hi. assert (Z.testbit (x &. last_mask (Z.of_nat k)) i =
      Z.testbit (y &. last_mask (Z.of_nat k)) i) as Hl by (by rewrite He).
    rewrite !Z.land_spec, last_mask_testbit in Hl by lia.
    rewrite (proj2 (Z.leb_le _ _)), !andb_true_r in Hl by lia. done.
  - apply (words_bits_eq 64); [lia|by apply land_in_range; [lia| |apply Hm]..|].
    intros i Hi. rewrite !Z.land_spec, last_mask_testbit by lia.
    destruct (Z.leb_spec (64 - Z.of_nat k) i); [|by rewrite !andb_false_r].
    by rewrite (He i) by lia.
Qed.

Lemma IPNet_make_bits a b f :
  0 <= b -> 0 <= bits_ (IPNet_make a b f) <= Length (family_ a) * 8.
Proof.
  intros Hb. unfold IPNet_make. simpl. destruct (Z.ltb_spec (Length (family_ a) * 8) b).
  - destruct (family_ a); simpl; lia.
  - lia.
Qed.

Lemma IPNet_make_id a b f :
  0 <= b <= Length (family_ a) * 8 -> bits_ (IPNet_make a b f) = b.
Proof.
  intros Hb. unfold IPNet_make. simpl. by rewrite (proj2 (Z.ltb_ge _ _)) by lia.
Qed.

Lemma IPNet_make_address a b f : address_ (IPNet_make a b f) = a.
Proof. done. Qed.

Lemma IPNet_make_wf a b f : addr_wf a -> 0 <= b -> ipnet_wf (IPNet_make a b f).
Proof.
  intros Ha Hb. pose proof (IPNet_make_bits a b f Hb). split_and!; [done|lia|].
  unfold IPNet_make in *. simpl in *. set (b' := if _ <? _ then _ else _) in *.
  assert ((Length (family_ a) * 8 <? b') = false) as ->; [|done]. apply Z.ltb_ge. lia.
Qed.

Lemma ipnet_wf_bits n : ipnet_wf n -> 0 <= bits_ n <= Length (IPNet_family n) * 8.
Proof.
  intros (Ha & Hb & Hn). rewrite Hn. unfold IPNet_family.
  by apply IPNet_make_bits.
Qed.

Lemma ipnet_wf_bits_128 n : ipnet_wf n -> 0 <= bits_ n <= 128.
Proof. intros H%ipnet_wf_bits. destruct (IPNet_family n); simpl in H; lia. Qed.

Lemma ipnet_wf_mask n : ipnet_wf n -> mask_ n = fill_mask (u64_data (address_ n)) (bits_ n).
Proof.
  intros Hw. pose proof (ipnet_wf_bits n Hw) as Hb. destruct Hw as (Ha & _ & Hn).
  rewrite Hn at 1. unfold IPNet_make, IPNet_family in *. simpl.
  by rewrite (proj2 (Z.ltb_ge _ _)) by lia.
Qed.

Lemma net_path_length n : ipnet_wf n -> length (net_path n) = Z.to_nat (bits_ n).
Proof.
  intros Hb%ipnet_wf_bits_128. unfold net_path. rewrite length_take, addr_bits_length. lia.
Qed.

(** The comparison loop on two pairs of words decides equality of prefixes. *)
Lemma contains_loop_spec a b k :
  Forall (in_range 64) a -> Forall (in_range 64) b -> length a = length b -> 0 <= k ->
  contains_loop a (fill_mask b k) k = true <->
  take (Z.to_nat k) (concat (map (fun w => word_bits (ntohll w)) a)) =
  take (Z.to_nat k) (concat (map (fun w => word_bits (ntohll w)) b)).
Proof.
  revert b k. induction a as [|x a IH]; intros [|y b] k Ha Hb Hlen Hk; try done; cbn [map concat fill_mask].
  inv Ha. inv Hb. assert (length a = length b) by (simpl in *; lia).
  destruct (Z.leb_spec 64 k); cbn [contains_loop].
  - rewrite (proj2 (Z.leb_le 64 k)) by lia. rewrite !take_app_ge by (rewrite word_bits_length; lia).
    rewrite !word_bits_length. destruct (Z.eqb_spec x y) as [->|Hne].
    + rewrite IH by (done || lia). replace (Z.to_nat (k - 64)) with (Z.to_nat k - 64)%nat by lia.
      split; [by intros ->|]. by intros He%app_inv_head.
    + split; [done|]. intros He. apply app_inj_1 in He as [He _].
      2: by rewrite !word_bits_length.
      exfalso. apply Hne, ntohll_inj, word_bits_inj; auto with collector.
  - rewrite (proj2 (Z.leb_gt 64 k)) by lia. rewrite !take_app_le by (rewrite word_bits_length; lia).
    destruct (Z.ltb_spec 0 k).
    + rewrite Z.eqb_eq. rewrite <- (masked_words_eq (Z.to_nat k)) by (auto with collector || lia).
      by rewrite Z2Nat.id by lia.
    + assert (Z.to_nat k = 0%nat) as -> by lia. by rewrite !take_0.
Qed.

Lemma Contains_path n a :
  ipnet_wf n -> addr_wf a ->
  Contains n a = true <->
  family_ a = IPNet_family n /\ take (Z.to_nat (bits_ n)) (addr_bits a) = net_path n.
Proof.
  intros Hn Ha. unfold Contains, IPNet_family, net_path, addr_bits.
  destruct (Family.eqb (family_ a) (family_ (address_ n))) eqn:E; cbn [negb].
  - apply Family.eqb_eq in E. rewrite (ipnet_wf_mask n Hn).
    rewrite contains_loop_spec; [|done|apply Hn|done|apply Hn].
    split; [by intros He|by intros [_ He]].
  - split; [done|]. intros [He _]. apply Family.eqb_eq in He. congruence.
Qed.

Lemma Contains_self a b f : addr_wf a -> 0 <= b -> Contains (IPNet_make a b f) a = true.
Proof. intros Ha Hb. apply Contains_path; auto using IPNet_make_wf. Qed.

Lemma Contains_default a : addr_wf a -> family_ a = Family.UNKNOWN -> Contains IPNet_default a = true.
Proof.
  intros Ha Hf. apply Contains_path; [|done|].
  - apply IPNet_make_wf; [|lia]. repeat constructor; unfold in_range; simpl; lia.
  - split; [by rewrite Hf|]. unfold net_path, IPNet_default. rewrite IPNet_make_id by (simpl; lia). done.
Qed.

(** *** Addresses in memory *)

(** The bytes beyond the length of the family are zero, as all constructors
    of the code leave them. *)
Definition addr_padded (a : Address) : Prop :=
  drop (Z.to_nat (length_ a)) (data_bytes a) = replicate (16 - Z.to_nat (length_ a)) 0.

Lemma data_bytes_length a : length (data_bytes a) = 16%nat.
Proof.
  unfold data_bytes.
  by rewrite !length_app, !store_word_length.
Qed.

Lemma memcpy_words_data a rest :
  addr_wf a -> addr_padded a ->
  memcpy_words (Z.to_nat (length_ a)) (take (Z.to_nat (length_ a)) (data_bytes a) ++ rest) = data_ a.
Proof.
  intros Ha Hp. assert (Z.to_nat (length_ a) <= 16)%nat as Hl.
  { unfold length_. destruct (family_ a); simpl; lia. }
  unfold memcpy_words.
  rewrite (take_app_length' (take (Z.to_nat (length_ a)) (data_bytes a)))
    by (rewrite length_take, data_bytes_length; lia).
  rewrite <- Hp, take_drop. unfold data_bytes.
  rewrite take_app_length', drop_app_length' by (by rewrite store_word_length).
  unfold addr_wf, u64_data in Ha. apply Forall_cons in Ha as [H1 Ha]. apply Forall_cons in Ha as [H2 _].
  rewrite !load_store_word by done. by destruct (data_ a).
Qed.

(** *** Prefix masks *)

Lemma net_mask_word_bits k :
  0 <= k <= 64 ->
  word_bits (last_mask k) =
  replicate (Z.to_nat k) true ++ replicate (64 - Z.to_nat k) false.
Proof.
  intros Hk. apply list_eq. intros j. destruct (decide (j < 64)%nat) as [Hj|Hj].
  - rewrite word_bits_lookup, last_mask_testbit by lia.
    destruct (decide (j < Z.to_nat k)%nat).
    + rewrite lookup_app_l by (rewrite length_replicate; lia).
      rewrite lookup_replicate_2 by lia. f_equal. apply Z.leb_le. lia.
    + rewrite lookup_app_r by (rewrite length_replicate; lia).
      rewrite length_replicate, lookup_replicate_2 by lia. f_equal. apply Z.leb_gt. lia.
  - rewrite !lookup_ge_None_2; [done| |].
    + rewrite length_app, !length_replicate. lia.
    + rewrite word_bits_length. lia.
Qed.

Lemma net_mask_array_bits n :
  0 <= bits_ n <= 128 ->
  concat (map word_bits (net_mask_array n)) =
  replicate (Z.to_nat (bits_ n)) true ++ replicate (128 - Z.to_nat (bits_ n)) false.
Proof.
  intros Hn. unfold net_mask_array. destruct (Z.ltb_spec (bits_ n) 64) as [Hb|Hb].
  - cbn [map concat app]. change (not64 (0xFFFFFFFFFFFFFFFF >>. bits_ n)) with (last_mask (bits_ n)).
    rewrite net_mask_word_bits by lia. change (word_bits 0) with (replicate 64 false).
    rewrite app_nil_r, <- app_assoc, <- replicate_add. do 2 f_equal. lia.
  - destruct (Z.eqb_spec (bits_ n) 128) as [->|Hne]; [done|].
    cbn [map concat app].
    change (not64 (0xFFFFFFFFFFFFFFFF >>. (bits_ n mod 64))) with (last_mask (bits_ n mod 64)).
    pose proof (Z.mod_pos_bound (bits_ n) 64 ltac:(lia)).
    assert (bits_ n mod 64 = bits_ n - 64) as ->.
    { rewrite <- (Z.mod_small (bits_ n - 64) 64) by lia.
      rewrite <- (Z.mod_add (bits_ n - 64) 1 64) by lia. f_equal. lia. }
    rewrite net_mask_word_bits by lia. change (word_bits _) with (replicate 64 true) at 1.
    rewrite app_nil_r, app_assoc, <- replicate_add. f_equal; f_equal; lia.
Qed.

End bit_strings.

(** *** IPv4 values and IPv4-mapped addresses *)

Section v4.
Context `{ho : HostOrder}.

(** The 32-bit value of an IPv4 address, in host order. *)
Definition v4_value (a : Address) : Z := ntohll (data_ a).1 >>. 32.

Lemma land_last_mask x k :
  0 <= k <= 64 -> in_range 64 x ->
  x &. last_mask k = (x / 2 ^ (64 - k)) * 2 ^ (64 - k).
Proof.
  intros Hk Hx. rewrite <- Z.shiftl_mul_pow2, <- Z.shiftr_div_pow2 by lia.
  pose proof (last_mask_range k ltac:(lia)) as Hm.
  apply Z.bits_inj'. intros i Hi. rewrite Z.land_spec.
  destruct (Z.lt_ge_cases i 64).
  - rewrite last_mask_testbit, Z.shiftl_spec by lia.
    destruct (Z.leb_spec (64 - k) i).
    + rewrite andb_true_r, Z.shiftr_spec by lia. f_equal. lia.
    + rewrite andb_false_r. symmetry. apply Z.testbit_neg_r. lia.
  - rewrite (in_range_testbit 64 x) by (lia || done). simpl.
    rewrite Z.shiftl_spec, Z.shiftr_spec by lia.
    rewrite (in_range_testbit 64 x) by (lia || done). done.
Qed.

(** A masked IPv4 comparison is an interval test on the value. *)
Lemma masked_interval x k c :
  0 <= k <= 32 -> in_range 64 x -> c mod 2 ^ (32 - k) = 0 ->
  (x &. last_mask k =? c * 2 ^ 32) = true <-> c <= x >>. 32 < c + 2 ^ (32 - k).
Proof.
  intros Hk Hx Hc. rewrite Z.eqb_eq, land_last_mask by (lia || done).
  rewrite Z.shiftr_div_pow2 by lia.
  replace (2 ^ (64 - k)) with (2 ^ (32 - k) * 2 ^ 32) by (rewrite <- Z.pow_add_r by lia; f_equal; lia).
  assert (0 < 2 ^ (32 - k)) by (apply Z.pow_pos_nonneg; lia).
  rewrite (Z.mul_comm (2 ^ (32 - k))), <- Z.div_div by lia.
  apply Z.mod_divide in Hc as [q ->]; [|lia].
  set (v := x / 2 ^ 32). set (p := 2 ^ (32 - k)) in *.
  pose proof (Z.div_mod v p ltac:(lia)). pose proof (Z.mod_pos_bound v p ltac:(lia)).
  transitivity (v / p = q).
  - split; [|intros ->; lia]. intros Hv. apply (Z.mul_reg_r _ _ (2 ^ 32 * p)); lia.
  - split; [intros <-; nia|]. intros Hv. symmetry. apply (Z.div_unique_pos v p q (v - q * p)); nia.
Qed.

Lemma v6_low_word_bits x :
  in_range 64 x ->
  word_bits (0x0000ffff00000000 |. (x >>. 32)) =
  (replicate 16 false ++ replicate 16 true) ++ take 32 (word_bits x).
Proof.
  intros Hx. change 0x0000ffff00000000 with (Z.shiftl (Z.ones 16) 32).
  apply list_eq. intros j.
  assert (length ((replicate 16 false ++ replicate 16 true) ++ take 32 (word_bits x)) = 64%nat).
  { by rewrite length_app, length_take, word_bits_length. }
  destruct (decide (j < 64)%nat) as [Hj|Hj].
  2: { rewrite !lookup_ge_None_2; rewrite ?word_bits_length; lia || done. }
  rewrite word_bits_lookup, Z.lor_spec, Z.shiftl_spec, Z.shiftr_spec by lia.
  destruct (decide (j < 32)%nat) as [Hj'|Hj'].
  - rewrite (in_range_testbit 64 x), orb_false_r by (lia || done).
    rewrite lookup_app_l by (simpl; lia).
    rewrite testbit_ones by lia.
    destruct (decide (j < 16)%nat).
    + rewrite lookup_app_l, lookup_replicate_2 by (simpl; lia). f_equal. apply Z.ltb_ge. lia.
    + rewrite lookup_app_r by (simpl; lia). rewrite length_replicate.
      rewrite lookup_replicate_2 by lia. f_equal. apply Z.ltb_lt. lia.
  - rewrite Z.testbit_neg_r by lia. rewrite orb_false_l.
    rewrite lookup_app_r by (simpl; lia).
    change (length (replicate 16 false ++ replicate 16 true)) with 32%nat.
    rewrite lookup_take_lt, word_bits_lookup by lia. do 2 f_equal. lia.
Qed.

Lemma lor_range_64 x y : in_range 64 x -> in_range 64 y -> in_range 64 (x |. y).
Proof.
  intros Hx Hy. apply testbit_in_range; [lia|apply Z.lor_nonneg; by destruct Hx, Hy|].
  intros i Hi. rewrite Z.lor_spec, !(in_range_testbit 64) by (lia || done). done.
Qed.

Lemma shiftr_range_64 x n : 0 <= n -> in_range 64 x -> in_range 64 (x >>. n).
Proof.
  intros Hn Hx. apply testbit_in_range; [lia|apply Z.shiftr_nonneg; apply Hx|].
  intros i Hi. rewrite Z.shiftr_spec by lia. apply (in_range_testbit 64); lia || done.
Qed.

Lemma addr_wf_word0 a : addr_wf a -> in_range 64 (data_ a).1.
Proof. by intros [H _]%Forall_cons_1. Qed.

Lemma Address_octets_wf a b c d : addr_wf (Address_octets a b c d).
Proof.
  unfold addr_wf, Address_octets, Address_u32, u64_data. cbn [data_ fst snd].
  repeat constructor; try lia; apply htonll_range, wrap_range; lia.
Qed.

Lemma ToV6_wf a : addr_wf a -> addr_wf (ToV6 a).
Proof.
  intros Ha. pose proof (addr_wf_word0 a Ha). unfold ToV6. destruct (family_ a); [by repeat constructor| |done].
  repeat constructor; simpl; try lia. all: apply htonll_range, lor_range_64;
    [by vm_compute|apply shiftr_range_64; [lia|auto with collector]].
Qed.

Lemma ToV6_bits a :
  addr_wf a -> family_ a = Family.IPV4 ->
  addr_bits (ToV6 a) =
  (replicate 80 false ++ replicate 16 true) ++ take 32 (addr_bits a).
Proof.
  intros Ha Hf. pose proof (addr_wf_word0 a Ha) as Hw.
  unfold ToV6. rewrite Hf. unfold addr_bits, u64_data, Address_v6.
  cbn [map concat data_ fst snd]. rewrite ntohll_0, ntohll_htonll.
  2:{ apply lor_range_64; [by vm_compute|apply shiftr_range_64; [lia|auto with collector]]. }
  rewrite v6_low_word_bits, app_nil_r by auto with collector.
  rewrite (take_app_le _ _ 32) by (rewrite word_bits_length; lia).
  change (word_bits 0) with (replicate 64 false). by rewrite !app_assoc.
Qed.

Lemma Contains_ToV6 n b a :
  addr_wf n -> addr_wf a -> family_ n = Family.IPV4 -> family_ a = Family.IPV4 -> 0 <= b <= 32 ->
  Contains (IPNet_make (ToV6 n) (b + 96) false) (ToV6 a) = Contains (IPNet_make n b false) a.
Proof.
  intros Hn Ha Hfn Hfa Hb. apply eq_true_iff_eq.
  assert (family_ (ToV6 n) = Family.IPV6) as Hn6 by (unfold ToV6; by rewrite Hfn).
  assert (family_ (ToV6 a) = Family.IPV6) as Ha6 by (unfold ToV6; by rewrite Hfa).
  rewrite !Contains_path by (try apply IPNet_make_wf; auto using ToV6_wf; lia).
  unfold IPNet_family, net_path.
  rewrite !IPNet_make_address.
  rewrite !IPNet_make_id by (rewrite ?Hn6, ?Hfn; simpl; lia).
  rewrite Hn6, Ha6, Hfn, Hfa, !ToV6_bits by done.
  set (p := replicate 80 false ++ replicate 16 true).
  assert (length p = 96%nat) as Hp by done.
  replace (Z.to_nat (b + 96)) with (96 + Z.to_nat b)%nat by lia.
  rewrite !take_app_ge by lia. rewrite Hp.
  replace (96 + Z.to_nat b - 96)%nat with (Z.to_nat b) by lia.
  rewrite !take_take. replace (Z.to_nat b `min` 32)%nat with (Z.to_nat b) by lia.
  split; intros [_ He]; split; try done; [by apply app_inv_head in He|by rewrite He].
Qed.

End v4.

(** ** Equalities as map keys *)

(** Two networks match as parts of a map key when [==] holds and they are
    hashed from the same kind of data: [IPNet::Hash] combines the address,
    the mask and the bits of a network flagged [is_addr_], but only the mask
    and the bits of the others. *)
Definition IPNet_key_eq (n m : IPNet) : bool :=
  Bool.eqb (is_addr_ n) (is_addr_ m) && IPNet_eq n m.

Lemma words_eq_eq p q : words_eq p q = true <-> p = q.
Proof.
  revert q. induction p as [|x p IH]; intros [|y q]; simpl; try (split; congruence).
  rewrite andb_true_iff, Z.eqb_eq, IH. split; [by intros [-> ->]|by intros [= -> ->]].
Qed.

Lemma Address_eq_eq a b : Address_eq a b = true <-> a = b.
Proof.
  destruct a as [[x y] f], b as [[x' y'] f']. unfold Address_eq. simpl.
  rewrite !andb_true_iff, Family.eqb_eq, !Z.eqb_eq.
  split; [by intros (-> & -> & ->)|by intros [= -> -> ->]].
Qed.

#[export] Instance Address_eq_equiv : KeyEquiv Address_eq.
Proof. constructor; intros *; rewrite !Address_eq_eq; congruence. Qed.

#[export] Instance Family_eqb_equiv : KeyEquiv Family.eqb.
Proof. constructor; intros *; rewrite !Family.eqb_eq; congruence. Qed.

Lemma IPNet_key_eq_spec n m :
  IPNet_key_eq n m = true <->
  is_addr_ n = is_addr_ m /\ bits_ n = bits_ m /\
  (if is_addr_ n then address_ n = address_ m else mask_ n = mask_ m).
Proof.
  unfold IPNet_key_eq, IPNet_eq. rewrite andb_true_iff, eqb_true_iff.
  destruct (Z.eqb_spec (bits_ n) (bits_ m)); simpl.
  - destruct (is_addr_ n); rewrite ?Address_eq_eq, ?words_eq_eq; tauto.
  - split; [by intros []|]. by intros (_ & ? & _).
Qed.

#[export] Instance IPNet_key_eq_equiv : KeyEquiv IPNet_key_eq.
Proof.
  constructor.
  - intros x. apply IPNet_key_eq_spec. by destruct (is_addr_ x).
  - intros x y (H1 & H2 & H3)%IPNet_key_eq_spec. apply IPNet_key_eq_spec.
    rewrite <- H1. destruct (is_addr_ x); auto.
  - intros x y z (H1 & H2 & H3)%IPNet_key_eq_spec (H1' & H2' & H3')%IPNet_key_eq_spec.
    apply IPNet_key_eq_spec. rewrite <- H1 in H3'. destruct (is_addr_ x); split_and!; congruence.
Qed.

(** ** Properties *)

Section theorems.
Context `{ho : HostOrder}.

(** Membership by prefix, for a network as it is built. *)
Lemma Contains_prefix n b f a :
  addr_wf n -> addr_wf a -> 0 <= b ->
  Contains (IPNet_make n b f) a = true <->
  family_ a = family_ n /\
  let k := Z.to_nat (Z.min b (Length (family_ n) * 8)) in
  take k (addr_bits a) = take k (addr_bits n).
Proof.
  intros Hn Ha Hb. rewrite Contains_path by auto using IPNet_make_wf.
  unfold IPNet_family, net_path, IPNet_make. cbn [address_ bits_].
  replace (if _ <? b then _ else b) with (Z.min b (Length (family_ n) * 8)); [done|].
  destruct (Z.ltb_spec (Length (family_ n) * 8) b); lia.
Qed.

(** [IPNet::Contains] decides prefix membership: for a network built from
    an address and a prefix length, an address is contained exactly when it
    has the same family and agrees with the network's address on its first
    [bits] bits (in network order; the length is clipped to the family's). *)
Theorem Contains_iff_prefix n b f a :
  addr_wf n -> addr_wf a -> 0 <= b ->
  Contains (IPNet_make n b f) a = true <->
  family_ a = family_ n /\
  let k := Z.to_nat (Z.min b (Length (family_ n) * 8)) in
  take k (addr_bits a) = take k (addr_bits n).
Proof. apply Contains_prefix. Qed.

(** [Address::IsPublic] on an IPv4 address: the address is not public
    exactly when its 32-bit value lies in 10.0.0.0/8, 100.64.0.0/10,
    169.254.0.0/16, 172.16.0.0/12 or 192.168.0.0/16. *)
Theorem IsPublic_v4_iff a :
  addr_wf a -> family_ a = Family.IPV4 ->
  IsPublic a = false <->
  let v := v4_value a in
  10 * 2 ^ 24 <= v < 11 * 2 ^ 24 \/
  100 * 2 ^ 24 + 64 * 2 ^ 16 <= v < 100 * 2 ^ 24 + 128 * 2 ^ 16 \/
  169 * 2 ^ 24 + 254 * 2 ^ 16 <= v < 169 * 2 ^ 24 + 255 * 2 ^ 16 \/
  172 * 2 ^ 24 + 16 * 2 ^ 16 <= v < 172 * 2 ^ 24 + 32 * 2 ^ 16 \/
  192 * 2 ^ 24 + 168 * 2 ^ 16 <= v < 192 * 2 ^ 24 + 169 * 2 ^ 16.
Proof.
  intros Ha Hf. pose proof (addr_wf_word0 a Ha) as Hw%ntohll_range.
  unfold IsPublic. rewrite Hf, negb_false_iff. unfold PrivateNetworks_family, PrivateIPv4Networks.
  assert (forall o1 o2 k c, 0 < k <= 32 -> c mod 2 ^ (32 - k) = 0 ->
    ntohll (htonll (u64 (ntohl (htonl (u32 (o1 <<. 24) |. u32 (o2 <<. 16) |. u32 (0 <<. 8) |. 0)) <<. 32)))
      &. last_mask k = c * 2 ^ 32 ->
    Contains (IPNet_make (Address_octets o1 o2 0 0) k false) a = true <->
    c <= v4_value a < c + 2 ^ (32 - k)) as Hnet.
  { intros o1 o2 k c Hk Hc He. unfold Contains, v4_value. cbn [IPNet_make address_ family_ Address_octets Address_u32].
    rewrite Hf. cbn [Family.eqb negb]. unfold IPNet_make, u64_data. cbn [mask_ bits_].
    change (Length (family_ (Address_octets o1 o2 0 0)) * 8) with 32.
    rewrite (proj2 (Z.ltb_ge 32 k)) by lia. cbn [fill_mask contains_loop Address_octets Address_u32 data_ fst].
    rewrite (proj2 (Z.leb_gt 64 k)), (proj2 (Z.ltb_lt 0 k)) by lia. rewrite He.
    apply masked_interval; [lia|done|done]. }
  cbn [existsb]. rewrite !orb_true_iff.
  rewrite (Hnet 10 0 8 (10 * 2 ^ 24)), (Hnet 100 64 10 (100 * 2 ^ 24 + 64 * 2 ^ 16)),
    (Hnet 169 254 16 (169 * 2 ^ 24 + 254 * 2 ^ 16)), (Hnet 172 16 12 (172 * 2 ^ 24 + 16 * 2 ^ 16)),
    (Hnet 192 168 16 (192 * 2 ^ 24 + 168 * 2 ^ 16)) by (lia || done || (by destruct ho)).
  change (2 ^ (32 - 8)) with (2 ^ 24). change (2 ^ (32 - 10)) with (64 * 2 ^ 16).
  change (2 ^ (32 - 16)) with (2 ^ 16). change (2 ^ (32 - 12)) with (16 * 2 ^ 16).
  cbv zeta. lia.
Qed.

(** Mapping an IPv4 address to IPv6 ([ToV6]) keeps its classification:
    [IsPublic] gives the same answer on both representations. *)
Theorem IsPublic_ToV6 a :
  addr_wf a -> family_ a = Family.IPV4 -> IsPublic (ToV6 a) = IsPublic a.
Proof.
  intros Ha Hf. unfold IsPublic. assert (family_ (ToV6 a) = Family.IPV6) as Hf6.
  { unfold ToV6. by rewrite Hf. }
  rewrite Hf, Hf6. unfold PrivateNetworks_family, PrivateIPv6Networks. f_equal.
  cbn [existsb]. replace (Contains _ (ToV6 a)) with false.
  2:{ unfold Contains. rewrite Hf6. unfold ToV6. rewrite Hf.
      cbn -[Z.land bswap64]. rewrite ntohll_0. by destruct ho. }
  rewrite orb_false_l. unfold PrivateIPv4Networks. cbn [map existsb].
  rewrite !IPNet_make_address, !IPNet_make_id by (simpl; lia).
  rewrite !Contains_ToV6 by (apply Address_octets_wf || assumption || reflexivity || lia). reflexivity.
Qed.

(** The [==] operator of [IPNet] is not symmetric: a network and a flagged
    address of that network with the same number of bits compare equal in one
    direction only, so it is not the equivalence relation that the
    unordered containers keyed by connections require. *)
Theorem IPNet_eq_not_symmetric :
  exists n m, ipnet_wf n /\ ipnet_wf m /\ IPNet_eq n m = true /\ IPNet_eq m n = false.
Proof.
  exists (IPNet_make (Address_octets 8 8 0 0) 16 false), (IPNet_make (Address_octets 8 8 8 8) 16 true).
  split_and!.
  - apply IPNet_make_wf; [apply Address_octets_wf|lia].
  - apply IPNet_make_wf; [apply Address_octets_wf|lia].
  - by destruct ho.
  - by destruct ho.
Qed.

End theorems.

(** The octets 8.8.8.8 on a little-endian host, inside 8.8.0.0/16. *)
Lemma Contains_iff_prefix_witness :
  Contains (ho := true) (IPNet_make (ho := true) (Address_octets (ho := true) 8 8 0 0) 16 false)
    (Address_octets (ho := true) 8 8 8 8) = true.
Proof.
  apply (Contains_iff_prefix (ho := true)).
  - apply Address_octets_wf.
  - apply Address_octets_wf.
  - lia.
  - split; [reflexivity|]. vm_compute. reflexivity.
Defined.

(** 100.64.0.1 is in the shared address space, hence not public. *)
Lemma IsPublic_v4_iff_witness :
  IsPublic (ho := true) (Address_octets (ho := true) 100 64 0 1) = false.
Proof.
  apply (IsPublic_v4_iff (ho := true)).
  - apply Address_octets_wf.
  - reflexivity.
  - vm_compute. right. left. split; discriminate || reflexivity.
Defined.

Lemma IsPublic_ToV6_witness :
  IsPublic (ho := true) (ToV6 (ho := true) (Address_octets (ho := true) 8 8 8 8)) = true.
Proof.
  rewrite (IsPublic_ToV6 (ho := true)).
  - vm_compute. reflexivity.
  - apply Address_octets_wf.
  - reflexivity.
Defined.
