(* ===== verification/NRadix.v ===== *)
(** * The radix tree of networks ([NRadix.h], [NRadix.cpp])

    Nodes are addressed by the bits of a network, most significant first.
    [Insert] and [Find] are modelled as the loops of the code (a probe bit
    shifted right, pointers into the two address words and the two mask
    words, the counter [i] of exhausted words); [Insert] rebuilds the nodes
    it passes instead of writing through the pointer.  The reference
    definitions [trie_insert] and [trie_best] work on the bit string of the
    network, and the loops are proved equal to them. *)

From S2P Require Import Prelude HostOrder UMap NetAddress.

(** [nRadixNode*]: null, or a node with its value and its two children. *)
Inductive nRadixNode :=
  | nullptr
  | Node (value_ : option IPNet) (left_ right_ : nRadixNode).

Definition new_nRadixNode : nRadixNode := Node None nullptr nullptr.

Definition node_value (n : nRadixNode) : option IPNet :=
  match n with nullptr => None | Node v _ _ => v end.
Definition node_left (n : nRadixNode) : nRadixNode :=
  match n with nullptr => nullptr | Node _ l _ => l end.
Definition node_right (n : nRadixNode) : nRadixNode :=
  match n with nullptr => nullptr | Node _ _ r => r end.
Definition is_null (n : nRadixNode) : bool :=
  match n with nullptr => true | Node _ _ _ => false end.

(** [node->value_ = new IPNet(network)]. *)
Definition set_value (net : IPNet) (n : nRadixNode) : nRadixNode :=
  Node (Some net) (node_left n) (node_right n).

(** [node->right_ = next] or [node->left_ = next], by the tested bit. *)
Definition set_child (go_right : bool) (n next : nRadixNode) : nRadixNode :=
  if go_right then Node (node_value n) (node_left n) next
  else Node (node_value n) next (node_right n).
Definition child (go_right : bool) (n : nRadixNode) : nRadixNode :=
  if go_right then node_right n else node_left n.

(** [*p] and the increment of a pointer into the words. *)
Definition deref (p : list Z) : Z := hd 0 p.

Definition top_bit : Z := 0x8000000000000000.
Definition kU64MaxLen : Z := 2.

(** 128 bits are walked at most, one iteration each. *)
Definition loop_fuel : nat := 129.

Section loops.
Context `{ho : HostOrder}.

(** What the walk does between two nodes: shift the probe; when it is
    exhausted, stop after [kU64MaxLen] words or move to the next word. *)
Inductive advance_result := Stop | Continue (bit i : Z) (addr_p net_mask_p : list Z).

Definition advance (bits bit i : Z) (addr_p net_mask_p : list Z) : advance_result :=
  let bit := bit >>. 1 in
  if bit =? 0 then
    let i := i + 1 in
    if kU64MaxLen <=? i then Stop
    else if 64 <=? bits then Continue top_bit i (tl addr_p) (tl net_mask_p)
    else Continue top_bit i addr_p net_mask_p
  else Continue bit i addr_p net_mask_p.

Definition mask_set (bit : Z) (net_mask_p : list Z) : bool := negb (bit &. deref net_mask_p =? 0).
Definition addr_set (bit : Z) (addr_p : list Z) : bool := negb (ntohll (deref addr_p) &. bit =? 0).

(** The second loop of [Insert]: append fresh nodes for the remaining bits
    and store the network in the last one. *)
Fixpoint insert_build (fuel : nat) (net : IPNet) (bit i : Z) (addr_p net_mask_p : list Z)
    (node : nRadixNode) : nRadixNode :=
  match fuel with
  | O => node
  | S fuel =>
      if mask_set bit net_mask_p then
        let next := new_nRadixNode in
        let next' :=
          match advance (bits_ net) bit i addr_p net_mask_p with
          | Stop => set_value net next
          | Continue bit' i' a' m' => insert_build fuel net bit' i' a' m' next
          end in
        set_child (addr_set bit addr_p) node next'
      else set_value net node
  end.

(** A node that already exists at the end of the walk. *)
Definition insert_existing (net : IPNet) (node : nRadixNode) : nRadixNode * bool :=
  match node_value node with
  | Some _ => (node, false)
  | None => (set_value net node, true)
  end.

(** The first loop of [Insert]: follow the nodes that exist. *)
Fixpoint insert_walk (fuel : nat) (net : IPNet) (bit i : Z) (addr_p net_mask_p : list Z)
    (node : nRadixNode) : nRadixNode * bool :=
  match fuel with
  | O => (node, false)
  | S fuel' =>
      if mask_set bit net_mask_p then
        let right := addr_set bit addr_p in
        let next := child right node in
        if is_null next then (insert_build fuel net bit i addr_p net_mask_p node, true)
        else
          let '(next', inserted) :=
            match advance (bits_ net) bit i addr_p net_mask_p with
            | Stop => insert_existing net next
            | Continue bit' i' a' m' => insert_walk fuel' net bit' i' a' m' next
            end in
          (set_child right node next', inserted)
      else insert_existing net node
  end.

(** [NRadixTree::Insert] on the root; the flag is the returned value. *)
Definition Insert (root : nRadixNode) (network : IPNet) : nRadixNode * bool :=
  if IPNet_IsNull network then (root, false)
  else if (bits_ network <? 1) || (128 <? bits_ network) then (root, false)
  else insert_walk loop_fuel network top_bit 0 (u64_data (address_ network))
         (net_mask_array network) root.

(** The loop of [Find]: [ret] is the last value seen. *)
Fixpoint find_loop (fuel : nat) (bits bit i : Z) (addr_p net_mask_p : list Z)
    (node : nRadixNode) (ret : IPNet) : IPNet :=
  match fuel with
  | O => ret
  | S fuel =>
      match node with
      | nullptr => ret
      | Node value_ _ _ =>
          let ret := match value_ with Some v => v | None => ret end in
          let node' := child (addr_set bit addr_p) node in
          if negb (mask_set bit net_mask_p) then ret
          else
            match advance bits bit i addr_p net_mask_p with
            | Stop => match node_value node' with Some v => v | None => ret end
            | Continue bit' i' a' m' => find_loop fuel bits bit' i' a' m' node' ret
            end
      end
  end.

Definition Find_net (root : nRadixNode) (network : IPNet) : IPNet :=
  if IPNet_IsNull network then IPNet_default
  else if bits_ network =? 0 then IPNet_default
  else
    let ret := find_loop loop_fuel (bits_ network) top_bit 0 (u64_data (address_ network))
                 (net_mask_array network) root IPNet_default in
    if Family.eqb (IPNet_family network) (IPNet_family ret) then ret else IPNet_default.

Definition Find (root : nRadixNode) (addr : Address) : IPNet :=
  Find_net root (IPNet_of_address addr).

(** The constructor from a vector inserts the networks in order. *)
Definition NRadixTree_of (networks : list IPNet) : nRadixNode :=
  fold_left (fun root n => (Insert root n).1) networks new_nRadixNode.

End loops.

Fixpoint getAll (node : nRadixNode) : list IPNet :=
  match node with
  | nullptr => []
  | Node v l r => option_list v ++ getAll l ++ getAll r
  end.

Definition GetAll (root : nRadixNode) : list IPNet := getAll root.

Definition IsEmpty (root : nRadixNode) : bool :=
  is_null (node_left root) && is_null (node_right root) &&
  match node_value root with None => true | Some _ => false end.

(** Recursion on the second tree; the first may run out earlier. *)
Fixpoint isAnyIPNetSubsetUtil (family : Family.t) (n1 n2 : nRadixNode)
    (containing_net contained_net : option IPNet) : bool :=
  let found :=
    match containing_net, contained_net with
    | Some c1, Some c2 =>
        match family with
        | Family.UNKNOWN => Family.eqb (IPNet_family c1) (IPNet_family c2)
        | _ => Family.eqb (IPNet_family c1) family && Family.eqb (IPNet_family c2) family
        end
    | _, _ => false
    end in
  if found then true
  else
    match n2 with
    | nullptr => false
    | Node v2 l2 r2 =>
        let containing_net :=
          match node_value n1 with Some v => Some v | None => containing_net end in
        let contained_net := match v2 with Some v => Some v | None => contained_net end in
        isAnyIPNetSubsetUtil family (node_left n1) l2 containing_net contained_net ||
        isAnyIPNetSubsetUtil family (node_right n1) r2 containing_net contained_net
    end.

Definition IsAnyIPNetSubset_family (family : Family.t) (root other : nRadixNode) : bool :=
  isAnyIPNetSubsetUtil family root other None None.

Definition IsAnyIPNetSubset (root other : nRadixNode) : bool :=
  IsAnyIPNetSubset_family Family.UNKNOWN root other.

(** ** Reference definitions on bit strings *)

Definition or_new (n : nRadixNode) : nRadixNode := if is_null n then new_nRadixNode else n.

(** Store a network at the node reached by a path, creating the nodes that
    are missing; a filled node is left alone. *)
Fixpoint trie_insert (path : list bool) (net : IPNet) (node : nRadixNode) : nRadixNode * bool :=
  match path with
  | [] => insert_existing net node
  | b :: path =>
      let '(next, inserted) := trie_insert path net (or_new (child b node)) in
      (set_child b node next, inserted)
  end.

(** The last value met on a path. *)
Fixpoint trie_best (path : list bool) (node : nRadixNode) (ret : IPNet) : IPNet :=
  match node with
  | nullptr => ret
  | Node v _ _ =>
      let ret := default ret v in
      match path with
      | [] => ret
      | b :: path => trie_best path (child b node) ret
      end
  end.

(** A tree as a partial map from paths to networks. *)
Fixpoint tree_lookup (path : list bool) (node : nRadixNode) : option IPNet :=
  match path with
  | [] => node_value node
  | b :: path => tree_lookup path (child b node)
  end.

(** The invariant: a stored network sits at its own path, below the root,
    and every node under the root leads to a stored network. *)
Definition inhabited_tree (n : nRadixNode) : Prop :=
  n = nullptr \/ exists q, is_Some (tree_lookup q n).
Fixpoint tree_live (n : nRadixNode) : Prop :=
  match n with
  | nullptr => True
  | Node _ l r => inhabited_tree l /\ tree_live l /\ inhabited_tree r /\ tree_live r
  end.

Section specs.
Context `{ho : HostOrder}.

Definition stored_ok (path : list bool) (net : IPNet) : Prop :=
  ipnet_wf net /\ net_path net = path /\ path <> [].

Definition tree_wf (root : nRadixNode) : Prop :=
  is_null root = false /\ tree_live root /\
  forall q v, tree_lookup q root = Some v -> stored_ok q v.

(** Every stored network has the family [f]. *)
Definition single_family (f : Family.t) (root : nRadixNode) : Prop :=
  forall v, In v (GetAll root) -> IPNet_family v = f.

(** [n] contains [m]: same family and the path of [n] starts that of [m]. *)
Definition net_covers (n m : IPNet) : Prop :=
  IPNet_family n = IPNet_family m /\ net_path n `prefix_of` net_path m.

End specs.

(** ** The loops follow the path *)

Section walk.
Context `{ho : HostOrder}.

Definition probe (p : nat) : Z := 2 ^ (63 - Z.of_nat (p mod 64)).

Lemma land_pow2_zero k w : 0 <= k -> (2 ^ k &. w =? 0) = negb (Z.testbit w k).
Proof.
  intros Hk. destruct (Z.testbit w k) eqn:E; simpl.
  - apply Z.eqb_neq. intros H. apply (f_equal (fun z => Z.testbit z k)) in H.
    rewrite Z.land_spec, Z.pow2_bits_true, E, Z.bits_0 in H by lia. done.
  - apply Z.eqb_eq, Z.bits_inj'. intros i Hi. rewrite Z.land_spec, Z.bits_0.
    rewrite Z.pow2_bits_eqb by lia. destruct (Z.eqb_spec k i); [by subst; rewrite E|done].
Qed.

Lemma concat_words_lookup (f : Z -> Z) ws p :
  length ws = 2%nat -> (p < 128)%nat ->
  concat (map (fun w => word_bits (f w)) ws) !! p =
  Some (Z.testbit (f (deref (drop (p / 64) ws))) (63 - Z.of_nat (p mod 64))).
Proof.
  intros Hlen Hp. destruct ws as [|x [|y [|]]]; try done. cbn [map concat].
  destruct (decide (p < 64)%nat) as [Hl|Hl].
  - rewrite lookup_app_l by (rewrite word_bits_length; lia).
    rewrite word_bits_lookup by lia. rewrite Nat.div_small, Nat.mod_small by lia. done.
  - rewrite lookup_app_r by (rewrite word_bits_length; lia). rewrite word_bits_length, app_nil_r.
    rewrite word_bits_lookup by lia.
    assert (p / 64 = 1)%nat as -> by (symmetry; apply (Nat.div_unique _ _ _ (p - 64)); lia).
    assert (p mod 64 = p - 64)%nat as -> by (symmetry; apply (Nat.mod_unique _ _ 1); lia).
    done.
Qed.

Lemma probe_exponent p : 0 <= 63 - Z.of_nat (p mod 64).
Proof. pose proof (Nat.mod_upper_bound p 64). lia. Qed.

Lemma mask_set_at net p :
  ipnet_wf net -> (p < 128)%nat ->
  mask_set (probe p) (drop (p / 64) (net_mask_array net)) =
  bool_decide (p < length (net_path net))%nat.
Proof.
  intros Hw Hp. pose proof (ipnet_wf_bits_128 net Hw) as Hb.
  unfold mask_set, probe. rewrite land_pow2_zero, negb_involutive by apply probe_exponent.
  pose proof (net_mask_array_bits net Hb) as Hm.
  assert (length (net_mask_array net) = 2%nat) as Hlen.
  { unfold net_mask_array. by repeat case_match. }
  pose proof (concat_words_lookup id (net_mask_array net) p Hlen Hp) as Hl.
  change (map (fun w => word_bits (id w))) with (map word_bits) in Hl.
  rewrite Hm in Hl. rewrite net_path_length by done. case_bool_decide.
  - rewrite lookup_app_l, lookup_replicate_2 in Hl by (rewrite ?length_replicate; lia).
    by injection Hl.
  - rewrite lookup_app_r in Hl by (rewrite length_replicate; lia).
    rewrite length_replicate, lookup_replicate_2 in Hl by lia. by injection Hl.
Qed.

Lemma addr_set_at net p :
  ipnet_wf net -> (p < length (net_path net))%nat ->
  net_path net !! p = Some (addr_set (probe p) (drop (p / 64) (u64_data (address_ net)))).
Proof.
  intros Hw Hp. rewrite net_path_length in Hp by done.
  pose proof (ipnet_wf_bits_128 net Hw) as Hb.
  unfold net_path, addr_bits. rewrite lookup_take_lt by lia.
  rewrite concat_words_lookup by (done || lia). f_equal.
  unfold addr_set, probe. rewrite Z.land_comm, land_pow2_zero, negb_involutive; [done|].
  apply probe_exponent.
Qed.

Lemma advance_at net p :
  ipnet_wf net -> (p < length (net_path net))%nat ->
  advance (bits_ net) (probe p) (Z.of_nat (p / 64)) (drop (p / 64) (u64_data (address_ net)))
    (drop (p / 64) (net_mask_array net)) =
  if (S p =? 128)%nat then Stop
  else Continue (probe (S p)) (Z.of_nat (S p / 64)) (drop (S p / 64) (u64_data (address_ net)))
         (drop (S p / 64) (net_mask_array net)).
Proof.
  intros Hw Hp. rewrite net_path_length in Hp by done.
  pose proof (ipnet_wf_bits_128 net Hw) as Hb. unfold advance.
  destruct (decide (p mod 64 = 63)%nat) as [E|E].
  - assert (probe p >>. 1 = 0) as -> by (unfold probe; rewrite E; reflexivity). cbn [Z.eqb].
    pose proof (Nat.div_mod_eq p 64) as Hd. destruct (decide (p = 127)%nat) as [->|Hne]; [done|].
    assert (p = 63)%nat as ->.
    { assert (p / 64 < 2)%nat by (apply Nat.Div0.div_lt_upper_bound; lia). lia. }
    cbn -[u64_data net_mask_array Z.leb]. rewrite (proj2 (Z.leb_le 64 (bits_ net))) by lia.
    unfold u64_data. by destruct (net_mask_array net).
  - pose proof (Nat.mod_upper_bound p 64 ltac:(lia)).
    pose proof (Nat.div_mod_eq p 64) as Hd.
    assert (S p / 64 = p / 64)%nat as ->.
    { symmetry. apply (Nat.div_unique _ _ _ (S (p mod 64))); lia. }
    assert (S p mod 64 = S (p mod 64))%nat as Hm.
    { symmetry. apply (Nat.mod_unique _ _ (p / 64)); lia. }
    assert (probe p >>. 1 = probe (S p)) as ->.
    { unfold probe. rewrite Hm, Z.shiftr_div_pow2, <- Z.pow_sub_r by lia. f_equal. lia. }
    rewrite (proj2 (Z.eqb_neq (probe (S p)) 0)).
    2:{ unfold probe. apply Z.pow_nonzero; [lia|]. apply probe_exponent. }
    destruct (Nat.eqb_spec (S p) 128) as [He|]; [|done].
    exfalso. injection He as ->. by apply E.
Qed.

(** The path from position [p] on, one bit at a time. *)
Lemma path_step net p :
  ipnet_wf net -> (p < length (net_path net))%nat ->
  drop p (net_path net) =
  addr_set (probe p) (drop (p / 64) (u64_data (address_ net))) :: drop (S p) (net_path net).
Proof. intros Hw Hp. apply drop_S. by apply addr_set_at. Qed.

Lemma path_end net p : ~ (p < length (net_path net))%nat -> drop p (net_path net) = [].
Proof. intros. apply drop_ge. lia. Qed.

Lemma path_bound net : ipnet_wf net -> (length (net_path net) <= 128)%nat.
Proof. intros Hw. rewrite net_path_length by done. pose proof (ipnet_wf_bits_128 net Hw). lia. Qed.

Lemma advance_stop_end net p :
  ipnet_wf net -> (S p =? 128)%nat = true -> drop (S p) (net_path net) = [].
Proof. intros Hw ->%Nat.eqb_eq. apply drop_ge, path_bound, Hw. Qed.

(** Whether the nodes below [node] are free for the remaining path. *)
Definition fits (path : list bool) (node : nRadixNode) : Prop :=
  match path with [] => node_value node = None | b :: _ => child b node = nullptr end.

Lemma fits_new path : fits path new_nRadixNode.
Proof. by destruct path as [|[]]. Qed.

Lemma insert_build_spec net fuel p node :
  ipnet_wf net -> (p < 128)%nat -> (length (net_path net) - p < fuel)%nat ->
  fits (drop p (net_path net)) node ->
  trie_insert (drop p (net_path net)) net node =
  (insert_build fuel net (probe p) (Z.of_nat (p / 64)) (drop (p / 64) (u64_data (address_ net)))
     (drop (p / 64) (net_mask_array net)) node, true).
Proof.
  intros Hw. revert p node. induction fuel as [|fuel IH]; intros p node Hp Hf Hfit; [lia|].
  cbn [insert_build]. rewrite mask_set_at by done. case_bool_decide as Hlt.
  - rewrite advance_at by done. rewrite path_step in * by done. cbn [trie_insert fits] in *.
    rewrite Hfit. change (or_new nullptr) with new_nRadixNode.
    destruct (S p =? 128)%nat eqn:E.
    + by rewrite advance_stop_end.
    + apply Nat.eqb_neq in E. rewrite (IH (S p)); [done|lia|lia|apply fits_new].
  - rewrite path_end in * by done. cbn [trie_insert]. unfold insert_existing.
    simpl in Hfit. by rewrite Hfit.
Qed.

Lemma insert_walk_spec net fuel p node :
  ipnet_wf net -> (p < 128)%nat -> (length (net_path net) - p < fuel)%nat ->
  insert_walk fuel net (probe p) (Z.of_nat (p / 64)) (drop (p / 64) (u64_data (address_ net)))
    (drop (p / 64) (net_mask_array net)) node =
  trie_insert (drop p (net_path net)) net node.
Proof.
  intros Hw. revert p node. induction fuel as [|fuel IH]; intros p node Hp Hf; [lia|].
  cbn [insert_walk]. rewrite mask_set_at by done. case_bool_decide as Hlt.
  - destruct (is_null (child _ node)) eqn:Hnull.
    + rewrite <- insert_build_spec; [done|done|done|done|].
      rewrite path_step by done. simpl. by destruct (child _ node).
    + rewrite advance_at by done. rewrite (path_step net p) by done. cbn [trie_insert].
      unfold or_new. rewrite Hnull. destruct (S p =? 128)%nat eqn:E.
      * by rewrite advance_stop_end.
      * apply Nat.eqb_neq in E. rewrite (IH (S p)) by lia. done.
  - by rewrite path_end.
Qed.

Lemma find_loop_spec net fuel p node ret :
  ipnet_wf net -> (p < 128)%nat -> (length (net_path net) - p < fuel)%nat ->
  find_loop fuel (bits_ net) (probe p) (Z.of_nat (p / 64))
    (drop (p / 64) (u64_data (address_ net))) (drop (p / 64) (net_mask_array net)) node ret =
  trie_best (drop p (net_path net)) node ret.
Proof.
  intros Hw. revert p node ret. induction fuel as [|fuel IH]; intros p node ret Hp Hf; [lia|].
  cbn [find_loop]. destruct node as [|v l r]; [by destruct (drop p _)|].
  rewrite mask_set_at by done. case_bool_decide as Hlt; cbn [negb].
  - rewrite advance_at by done. rewrite (path_step net p) by done. cbn [trie_best].
    fold (@default IPNet). destruct (S p =? 128)%nat eqn:E.
    + rewrite advance_stop_end by done. by destruct (child _ _).
    + apply Nat.eqb_neq in E. by rewrite (IH (S p)) by lia.
  - by rewrite path_end.
Qed.

(** The guards of [Insert] and [Find] on a well-formed network. *)
Lemma null_path net : ipnet_wf net -> IPNet_IsNull net = true -> net_path net = [].
Proof.
  intros Hw. unfold IPNet_IsNull, net_path. destruct (Z.eqb_spec (bits_ net) 0) as [->|]; done.
Qed.

Lemma path_nil_bits net : ipnet_wf net -> (bits_ net =? 0) = bool_decide (net_path net = []).
Proof.
  intros Hw. pose proof (ipnet_wf_bits_128 net Hw). pose proof (net_path_length net Hw) as Hl.
  case_bool_decide as E.
  - rewrite E in Hl. simpl in Hl. lia.
  - apply Z.eqb_neq. intros Hz. rewrite Hz in Hl. apply E. by apply nil_length_inv.
Qed.

Lemma Insert_trie root net :
  ipnet_wf net ->
  Insert root net =
  if bool_decide (net_path net = []) then (root, false) else trie_insert (net_path net) net root.
Proof.
  intros Hw. unfold Insert. destruct (IPNet_IsNull net) eqn:Hn.
  { by rewrite null_path. }
  pose proof (path_nil_bits net Hw) as Hb. pose proof (ipnet_wf_bits_128 net Hw).
  pose proof (path_bound net Hw).
  case_bool_decide as E.
  - apply Z.eqb_eq in Hb. by rewrite Hb.
  - apply Z.eqb_neq in Hb. rewrite (proj2 (Z.ltb_ge _ _)), (proj2 (Z.ltb_ge _ _)) by lia. simpl orb.
    cbn match. rewrite <- (drop_0 (net_path net)).
    rewrite <- (insert_walk_spec net loop_fuel) by (done || unfold loop_fuel; lia). done.
Qed.

Lemma Find_trie root net :
  ipnet_wf net ->
  Find_net root net =
  if bool_decide (net_path net = []) then IPNet_default
  else let ret := trie_best (net_path net) root IPNet_default in
       if Family.eqb (IPNet_family net) (IPNet_family ret) then ret else IPNet_default.
Proof.
  intros Hw. unfold Find_net. destruct (IPNet_IsNull net) eqn:Hn.
  { by rewrite null_path. }
  rewrite path_nil_bits by done. case_bool_decide; [done|].
  pose proof (path_bound net Hw). cbv zeta. rewrite <- (drop_0 (net_path net)).
  rewrite <- (find_loop_spec net loop_fuel) by (done || unfold loop_fuel; lia). reflexivity.
Qed.

End walk.

(** ** Trees as maps *)

Section trees.
Implicit Types (n : nRadixNode) (q path : list bool) (b : bool) (net v : IPNet).

Lemma child_set_child b b' n next :
  child b (set_child b' n next) = if Bool.eqb b b' then next else child b n.
Proof. by destruct b, b'. Qed.

Lemma value_set_child b n next : node_value (set_child b n next) = node_value n.
Proof. by destruct b. Qed.

Lemma tree_lookup_null q : tree_lookup q nullptr = None.
Proof. induction q as [|[] q IH]; done. Qed.

Lemma tree_lookup_or_new q n : tree_lookup q (or_new n) = tree_lookup q n.
Proof. destruct n; [|done]. rewrite tree_lookup_null. destruct q as [|[]]; try done; apply tree_lookup_null. Qed.

Lemma trie_insert_flag path net n :
  (trie_insert path net n).2 = match tree_lookup path n with Some _ => false | None => true end.
Proof.
  revert n. induction path as [|b path IH]; intros n; simpl.
  - unfold insert_existing. by destruct (node_value n).
  - specialize (IH (or_new (child b n))). destruct (trie_insert path net _). simpl in *.
    by rewrite IH, tree_lookup_or_new.
Qed.

Lemma trie_insert_lookup path net n q :
  tree_lookup q (trie_insert path net n).1 =
  match tree_lookup q n with
  | Some v => Some v
  | None => if decide (q = path) then Some net else None
  end.
Proof.
  revert n q. induction path as [|b path IH]; intros n q; simpl.
  - unfold insert_existing. destruct (node_value n) eqn:Hv; simpl.
    + case_decide; subst; simpl; [by rewrite Hv|by destruct (tree_lookup q n)].
    + destruct q as [|[] q]; simpl; [by rewrite Hv| ..]; by destruct (tree_lookup q _).
  - specialize (IH (or_new (child b n))). destruct (trie_insert path net _) as [next ok].
    destruct q as [|b' q]; simpl in *.
    + rewrite value_set_child. by destruct (node_value n).
    + rewrite child_set_child. destruct (Bool.eqb_spec b' b) as [->|Hne].
      * rewrite IH, tree_lookup_or_new. destruct (tree_lookup q _); [done|].
        do 2 case_decide; naive_solver.
      * destruct (tree_lookup q _); [done|]. case_decide; naive_solver.
Qed.

(** A refused insertion leaves the tree as it was. *)
Lemma set_child_id b n : is_null n = false -> set_child b n (child b n) = n.
Proof. by destruct n, b. Qed.

Lemma trie_insert_refused path net n :
  is_null n = false -> (trie_insert path net n).2 = false -> (trie_insert path net n).1 = n.
Proof.
  revert n. induction path as [|b path IH]; intros n Hn; simpl.
  - unfold insert_existing. by destruct (node_value n).
  - pose proof (trie_insert_flag path net (or_new (child b n))) as Hf.
    specialize (IH (or_new (child b n))).
    destruct (child b n) as [|v l r] eqn:Hc.
    + rewrite (tree_lookup_or_new path nullptr), tree_lookup_null in Hf.
      destruct (trie_insert path net _) as [next ok]. simpl in *. by intros ->.
    + cbn [or_new is_null] in *. destruct (trie_insert path net _) as [next ok]. simpl in *.
      intros Hok. rewrite IH by done. rewrite <- Hc. by apply set_child_id.
Qed.

Lemma inhabited_lookup n q v : tree_lookup q n = Some v -> inhabited_tree n.
Proof. intros H. right. exists q. by rewrite H. Qed.

Lemma tree_live_set_child b n next :
  tree_live n -> tree_live next -> inhabited_tree next -> tree_live (set_child b n next).
Proof. destruct n, b; simpl; intros; destruct_and?; split_and!; try done; by left. Qed.

Lemma tree_live_child b n : tree_live n -> inhabited_tree (child b n) /\ tree_live (child b n).
Proof. destruct n, b; simpl; try tauto; intros; split; try done; by left. Qed.

Lemma tree_live_or_new n : tree_live n -> tree_live (or_new n).
Proof. destruct n; [|done]. simpl. intros. split_and!; try done; by left. Qed.

Lemma trie_insert_live path net n : tree_live n -> tree_live (trie_insert path net n).1.
Proof.
  revert n. induction path as [|b path IH]; intros n Hn; simpl.
  - unfold insert_existing. destruct (node_value n); [done|]. destruct n; simpl; [|done].
    split_and!; try done; by left.
  - pose proof (trie_insert_lookup path net (or_new (child b n)) path) as Hl.
    destruct (tree_live_child b n Hn) as [_ Hc%tree_live_or_new%IH].
    destruct (trie_insert path net _) as [next ok]. simpl in *.
    apply tree_live_set_child; [done|done|]. rewrite decide_True in Hl by done.
    destruct (tree_lookup path (or_new _)); by eapply inhabited_lookup.
Qed.

Lemma trie_insert_not_null path net n : is_null n = false -> is_null (trie_insert path net n).1 = false.
Proof.
  destruct path as [|b path]; simpl; [unfold insert_existing|].
  - by destruct (node_value n).
  - destruct (trie_insert path net _). by destruct b.
Qed.

(** *** Enumeration *)

Lemma getAll_lookup n v : In v (getAll n) <-> exists q, tree_lookup q n = Some v.
Proof.
  induction n as [|w l IHl r IHr].
  - split; [done|]. intros [q Hq]. by rewrite tree_lookup_null in Hq.
  - cbn [getAll]. rewrite !in_app_iff, IHl, IHr. split.
    + intros [Hw|[[q Hq]|[q Hq]]]; [|by exists (false :: q)|by exists (true :: q)].
      exists []. destruct w; simpl in *; [|done]. destruct Hw; by subst.
    + intros [[|[] q] Hq]; simpl in Hq; [|by eauto..].
      subst w. left. by left.
Qed.

Lemma getAll_set_child b n next :
  is_null n = false ->
  getAll (set_child b n next) ≡ₚ option_list (node_value n) ++ getAll next ++ getAll (child (negb b) n).
Proof. destruct n, b; simpl; try done; intros _. by rewrite (Permutation_app_comm (getAll n1)). Qed.

Lemma getAll_children b n :
  is_null n = false ->
  getAll n ≡ₚ option_list (node_value n) ++ getAll (child b n) ++ getAll (child (negb b) n).
Proof. intros Hn. rewrite <- (set_child_id b n) at 1 by done. by apply getAll_set_child. Qed.

Lemma getAll_or_new n : getAll (or_new n) = getAll n.
Proof. by destruct n. Qed.

Lemma trie_insert_getAll path net n :
  is_null n = false -> (trie_insert path net n).2 = true ->
  getAll (trie_insert path net n).1 ≡ₚ net :: getAll n.
Proof.
  revert n. induction path as [|b path IH]; intros n Hn; simpl.
  - unfold insert_existing. destruct n as [|[v|] l r]; simpl; try done.
  - specialize (IH (or_new (child b n))). destruct (trie_insert path net _) as [next ok]. simpl in *.
    intros Hok. rewrite getAll_set_child by done. rewrite IH; [|by destruct (child b n)|done].
    rewrite getAll_or_new, (getAll_children b n) by done.
    simpl. rewrite <- !Permutation_middle. done.
Qed.

(** *** Best match *)

Lemma trie_best_spec path n ret :
  (exists q, q `prefix_of` path /\ tree_lookup q n = Some (trie_best path n ret) /\
     forall q' v, q' `prefix_of` path -> tree_lookup q' n = Some v -> (length q' <= length q)%nat) \/
  (trie_best path n ret = ret /\ forall q, q `prefix_of` path -> tree_lookup q n = None).
Proof.
  revert n ret. induction path as [|b path IH]; intros n ret.
  - destruct n as [|[v|] l r]; simpl.
    + right. split; [done|]. intros q _. apply tree_lookup_null.
    + left. exists []. split_and!; try done. by intros q' v' ->%prefix_nil_inv.
    + right. split; [done|]. by intros q ->%prefix_nil_inv.
  - destruct n as [|v l r].
    + right. split; [done|]. intros q _. apply tree_lookup_null.
    + cbn [trie_best]. destruct (IH (child b (Node v l r)) (default ret v)) as [(q & Hq & Hl & Hmax)|[He Hnone]].
      * left. exists (b :: q). split_and!; [by apply prefix_cons|done|].
        intros [|b' q'] v' Hp Hv'; simpl; [lia|]. apply le_n_S.
        pose proof (prefix_cons_inv_1 _ _ _ _ Hp) as ->. apply prefix_cons_inv_2 in Hp. by eapply Hmax.
      * rewrite He. assert (forall b' q', b' :: q' `prefix_of` b :: path ->
          tree_lookup (b' :: q') (Node v l r) = None) as Hdeep.
        { intros b' q' Hp. pose proof (prefix_cons_inv_1 _ _ _ _ Hp) as ->.
          apply prefix_cons_inv_2 in Hp. by apply Hnone. }
        destruct v as [v|]; simpl default.
        -- left. exists []. split_and!; [apply prefix_nil|done|].
           intros [|b' q'] v' Hp Hv'; [done|]. by rewrite Hdeep in Hv'.
        -- right. split; [done|]. intros [|b' q'] Hp; [done|]. by apply Hdeep.
Qed.

End trees.

(** *** Subset search *)

Section subset.
Variables (f fam : Family.t).
Hypothesis Hfam : fam = f \/ fam = Family.UNKNOWN.

Definition all_family (n : nRadixNode) : Prop :=
  forall q v, tree_lookup q n = Some v -> IPNet_family v = f.
Definition opt_family (o : option IPNet) : Prop := forall v, o = Some v -> IPNet_family v = f.

Lemma all_family_child b n : all_family n -> all_family (child b n).
Proof. intros H q v. apply (H (b :: q)). Qed.

Lemma all_family_value n o : all_family n -> opt_family o ->
  opt_family (match node_value n with Some v => Some v | None => o end).
Proof.
  intros Hn Ho v. destruct (node_value n) eqn:E; [|by auto]. intros [= <-]. by apply (Hn []).
Qed.

(** With one family around, the test of the code is "both were seen". *)
Lemma found_one_family (c1 c2 : option IPNet) :
  opt_family c1 -> opt_family c2 ->
  match c1, c2 with
  | Some n, Some m =>
      match fam with
      | Family.UNKNOWN => Family.eqb (IPNet_family n) (IPNet_family m)
      | _ => Family.eqb (IPNet_family n) fam && Family.eqb (IPNet_family m) fam
      end
  | _, _ => false
  end = match c1, c2 with Some _, Some _ => true | _, _ => false end.
Proof.
  intros H1 H2. destruct c1 as [n|], c2 as [m|]; try done.
  rewrite (H1 n), (H2 m) by done. destruct Hfam as [->| ->]; by destruct f.
Qed.

(** A stored network of [n2] at or below a stored network of [n1]; [c1]
    tells whether [n1] has one above. *)
Definition subset_pair (c1 : option IPNet) (n1 n2 : nRadixNode) : Prop :=
  exists q2, is_Some (tree_lookup q2 n2) /\
    (is_Some c1 \/ exists q1, q1 `prefix_of` q2 /\ is_Some (tree_lookup q1 n1)).

Lemma subset_pair_node c1 n1 v2 l2 r2 :
  subset_pair c1 n1 (Node v2 l2 r2) <->
  let c1' := match node_value n1 with Some v => Some v | None => c1 end in
  (is_Some v2 /\ is_Some c1') \/
  subset_pair c1' (node_left n1) l2 \/ subset_pair c1' (node_right n1) r2.
Proof.
  unfold subset_pair. cbv zeta. split.
  - intros ([|b q2] & H2 & Hq1).
    + left. split; [done|]. destruct Hq1 as [Hc|(q1 & ->%prefix_nil_inv & H1)].
      * by destruct (node_value n1).
      * simpl in H1. by destruct (node_value n1).
    + assert (is_Some (match node_value n1 with Some v => Some v | None => c1 end) \/
        exists q1, q1 `prefix_of` q2 /\ is_Some (tree_lookup q1 (child b n1))) as Hq.
      { destruct Hq1 as [Hc|([|b' q1] & Hp & H1)].
        - left. by destruct (node_value n1).
        - left. simpl in H1. by destruct (node_value n1).
        - right. pose proof (prefix_cons_inv_1 _ _ _ _ Hp) as ->.
          apply prefix_cons_inv_2 in Hp. by exists q1. }
      right. destruct b; [right|left]; by exists q2.
  - assert (forall b n2' q2, is_Some (tree_lookup q2 n2') -> n2' = child b (Node v2 l2 r2) ->
      (is_Some (match node_value n1 with Some v => Some v | None => c1 end) \/
       exists q1, q1 `prefix_of` q2 /\ is_Some (tree_lookup q1 (child b n1))) ->
      exists q, is_Some (tree_lookup q (Node v2 l2 r2)) /\
        (is_Some c1 \/ exists q1, q1 `prefix_of` q /\ is_Some (tree_lookup q1 n1))) as Hdown.
    { intros b n2' q2 H2 -> Hq. exists (b :: q2). split; [done|].
      destruct Hq as [Hc|(q1 & Hp & H1)].
      - destruct (node_value n1) eqn:E; [|by left]. right. exists [].
        split; [apply prefix_nil|]. simpl. by rewrite E.
      - right. exists (b :: q1). split; [by apply prefix_cons|done]. }
    intros [[H2 Hc]|[(q2 & H2 & Hq)|(q2 & H2 & Hq)]].
    + exists []. split; [done|]. destruct (node_value n1) eqn:E; [|by left].
      right. exists []. split; [done|]. simpl. by rewrite E.
    + by apply (Hdown false l2 q2).
    + by apply (Hdown true r2 q2).
Qed.

Lemma subset_pair_None n1 n2 :
  subset_pair None n1 n2 <->
  exists q1 q2, q1 `prefix_of` q2 /\ is_Some (tree_lookup q1 n1) /\ is_Some (tree_lookup q2 n2).
Proof.
  unfold subset_pair. split.
  - intros (q2 & H2 & [[? [=]]|(q1 & Hp & H1)]). by exists q1, q2.
  - intros (q1 & q2 & Hp & H1 & H2). exists q2. split; [done|]. right. by exists q1.
Qed.

Lemma isAny_spec n2 n1 c1 c2 :
  all_family n1 -> all_family n2 -> opt_family c1 -> opt_family c2 ->
  tree_live n2 -> (is_Some c2 -> inhabited_tree n2) ->
  isAnyIPNetSubsetUtil fam n1 n2 c1 c2 = true <->
  (is_Some c1 /\ is_Some c2) \/ subset_pair c1 n1 n2.
Proof.
  revert n1 c1 c2. induction n2 as [|v2 l2 IHl r2 IHr]; intros n1 c1 c2 Hn1 Hn2 Hc1 Hc2 Hlive Hinh;
    cbn [isAnyIPNetSubsetUtil]; rewrite found_one_family by done.
  - assert (~ subset_pair c1 n1 nullptr) as Hno.
    { intros (q & Hq & _). rewrite tree_lookup_null in Hq. by destruct Hq. }
    destruct c1 as [x|], c2 as [y|]; (split; [try done; intros _; left; by eauto|]);
      intros [[[] []]|]; done.
  - destruct (match c1, c2 with Some _, Some _ => true | _, _ => false end) eqn:Hf.
    { split; [|done]. intros _. left. destruct c1, c2; done. }
    set (c1' := match node_value n1 with Some v => Some v | None => c1 end).
    set (c2' := match v2 with Some v => Some v | None => c2 end).
    assert (opt_family c1') as Hc1' by by apply all_family_value.
    assert (opt_family c2') as Hc2' by by apply (all_family_value (Node v2 l2 r2)).
    destruct Hlive as (Hil & Hll & Hir & Hlr).
    rewrite orb_true_iff.
    rewrite (IHl (node_left n1) c1' c2'); [|by apply (all_family_child false)
      |by apply (all_family_child false (Node v2 l2 r2))|done|done|done|done].
    rewrite (IHr (node_right n1) c1' c2'); [|by apply (all_family_child true)
      |by apply (all_family_child true (Node v2 l2 r2))|done|done|done|done].
    rewrite (subset_pair_node c1 n1). fold c1'. cbv zeta.
    assert (is_Some c1' /\ is_Some c2' ->
      (is_Some v2 /\ is_Some c1') \/ subset_pair c1' (node_left n1) l2 \/
      subset_pair c1' (node_right n1) r2) as Hboth.
    { intros [H1 H2]. destruct v2 as [v|]; [left; by eauto|]. subst c2'. cbn match in H2.
      destruct (Hinh H2) as [Hn|([|[] q] & Hq)]; [done|by destruct Hq|right|right].
      - right. exists q. by auto.
      - left. exists q. by auto. }
    assert (is_Some v2 -> is_Some c2') by (subst c2'; by destruct v2).
    assert (~ (is_Some c1 /\ is_Some c2)) by (intros [[] []]; by subst).
    tauto.
Qed.

End subset.

(** ** The invariant *)

Section invariant.
Context `{ho : HostOrder}.

Lemma new_tree_wf : tree_wf new_nRadixNode.
Proof.
  split_and!; [done|split_and!; try done; by left|]. intros q v Hq.
  change new_nRadixNode with (or_new nullptr) in Hq.
  by rewrite tree_lookup_or_new, tree_lookup_null in Hq.
Qed.

Lemma Insert_wf root net : tree_wf root -> ipnet_wf net -> tree_wf (Insert root net).1.
Proof.
  intros (Hn & Hl & Hs) Hw. rewrite Insert_trie by done. case_bool_decide; [done|]. split_and!.
  - by apply trie_insert_not_null.
  - by apply trie_insert_live.
  - intros q v. rewrite trie_insert_lookup. destruct (tree_lookup q root) eqn:E.
    + intros [= <-]. by apply Hs.
    + case_decide; [|done]. intros [= <-]. by subst.
Qed.

Lemma NRadixTree_of_wf nets : Forall ipnet_wf nets -> tree_wf (NRadixTree_of nets).
Proof.
  unfold NRadixTree_of. generalize new_tree_wf. generalize new_nRadixNode.
  induction nets as [|n nets IH]; intros root Hr Hf; [done|]. inv Hf. simpl.
  by apply IH; [apply Insert_wf|].
Qed.

Lemma stored_wf root v : tree_wf root -> In v (GetAll root) ->
  stored_ok (net_path v) v /\ tree_lookup (net_path v) root = Some v.
Proof.
  intros (_ & _ & Hs) [q Hq]%getAll_lookup. pose proof (Hs _ _ Hq) as Hok.
  destruct Hok as (? & ? & ?). subst q. done.
Qed.

Lemma stored_family_known path v : stored_ok path v -> IPNet_family v <> Family.UNKNOWN.
Proof.
  intros (Hw & <- & Hne) Hf. apply Hne. pose proof (ipnet_wf_bits v Hw) as Hb.
  rewrite Hf in Hb. simpl in Hb. apply nil_length_inv. rewrite net_path_length by done. lia.
Qed.

Lemma of_address_wf a : addr_wf a -> ipnet_wf (IPNet_of_address a).
Proof. intros Ha. apply IPNet_make_wf; [done|]. unfold length_. destruct (family_ a); simpl; lia. Qed.

Lemma of_address_bits a : bits_ (IPNet_of_address a) = 8 * length_ a.
Proof. unfold IPNet_of_address. apply IPNet_make_id. unfold length_. destruct (family_ a); simpl; lia. Qed.

(** A network covers the host network of an address iff it contains it. *)
Lemma net_covers_address v a :
  ipnet_wf v -> addr_wf a -> net_covers v (IPNet_of_address a) <-> Contains v a = true.
Proof.
  intros Hv Ha. rewrite Contains_path by done. unfold net_covers, IPNet_family.
  cbn [address_ IPNet_of_address IPNet_make]. rewrite prefix_take_iff, net_path_length by done.
  unfold net_path at 1. rewrite of_address_bits. cbn [address_ IPNet_of_address IPNet_make].
  pose proof (ipnet_wf_bits v Hv) as Hb. unfold IPNet_family in Hb.
  split; intros [Hf He]; (split; [done|]); rewrite take_take in *;
    replace (Z.to_nat (bits_ v) `min` Z.to_nat (8 * length_ a))%nat with (Z.to_nat (bits_ v)) in *
      by (unfold length_; rewrite ?Hf, <- ?Hf in *; lia); done.
Qed.

(** Whatever the families stored, a network that is found contains the address. *)
Lemma Find_sound root a :
  tree_wf root -> addr_wf a ->
  Find root a = IPNet_default \/
  (ipnet_wf (Find root a) /\ Contains (Find root a) a = true /\ In (Find root a) (GetAll root)).
Proof.
  intros Hr Ha. unfold Find. pose proof (of_address_wf a Ha) as Hw. rewrite Find_trie by done.
  case_bool_decide as E; [by left|]. cbv zeta.
  destruct (trie_best_spec (net_path (IPNet_of_address a)) root IPNet_default)
    as [(q & Hq & Hl & _)|[He _]]; [|rewrite He; left; by destruct (Family.eqb _ _)].
  set (r := trie_best _ _ _) in *. destruct (Family.eqb _ _) eqn:Ef; [right|by left].
  apply Family.eqb_eq in Ef. pose proof Hr as (_ & _ & Hs). apply Hs in Hl as Hok.
  destruct Hok as (Hrw & Hp & _). split_and!; [done| |apply getAll_lookup; by eauto].
  apply net_covers_address; [done|done|]. split; [done|]. by rewrite Hp.
Qed.

(** The deepest stored network on the path of a query, when all stored
    networks have one family. *)
Lemma Find_single root f net :
  tree_wf root -> single_family f root -> ipnet_wf net ->
  (In (Find_net root net) (GetAll root) /\ net_covers (Find_net root net) net /\
     forall m, In m (GetAll root) -> net_covers m net -> bits_ m <= bits_ (Find_net root net)) \/
  (Find_net root net = IPNet_default /\ forall m, In m (GetAll root) -> ~ net_covers m net).
Proof.
  intros Hr Hf Hw. rewrite Find_trie by done.
  case_bool_decide as E.
  { right. split; [done|]. intros m Hm [_ Hp]. destruct (stored_wf root m Hr Hm) as [(_ & _ & Hne) _].
    rewrite E in Hp. apply Hne. by apply prefix_nil_inv. }
  cbv zeta. destruct (trie_best_spec (net_path net) root IPNet_default) as [(q & Hq & Hl & Hmax)|[He Hnone]].
  - set (r := trie_best _ _ _) in *. assert (In r (GetAll root)) as Hin by (apply getAll_lookup; by eauto).
    destruct (stored_wf root r Hr Hin) as [(Hrw & _ & _) _].
    assert (net_path r = q) as Hpath by (destruct Hr as (_ & _ & Hs); apply Hs in Hl; apply Hl).
    destruct (Family.eqb _ _) eqn:Efam.
    + apply Family.eqb_eq in Efam. left. split_and!; [done| |].
      * split; [done|]. by rewrite Hpath.
      * intros m Hm [_ Hp]. destruct (stored_wf root m Hr Hm) as [(Hmw & _ & _) Hml].
        specialize (Hmax _ _ Hp Hml). rewrite <- Hpath, !net_path_length in Hmax by done.
        pose proof (ipnet_wf_bits_128 m Hmw). pose proof (ipnet_wf_bits_128 r Hrw). lia.
    + right. split; [done|]. intros m Hm [Hmf _]. rewrite (Hf m), <- (Hf r) in Hmf by done.
      symmetry in Hmf. apply Family.eqb_eq in Hmf. congruence.
  - rewrite He. right. split; [by destruct (Family.eqb _ _)|]. intros m Hm [_ Hp].
    destruct (stored_wf root m Hr Hm) as [_ Hml]. by rewrite Hnone in Hml.
Qed.

End invariant.

(** ** Properties *)

Section theorems.
Context `{ho : HostOrder}.

(** C4: [Insert] refines insertion into a partial map from bit strings to
    networks: on a well-formed tree it succeeds exactly when the network has
    at least one bit and no network is stored under the same bits, it adds
    that one entry and keeps all the others, and the tree stays well-formed
    (every stored network sits at the node its bits lead to). *)
Theorem Insert_refines_map root net :
  tree_wf root -> ipnet_wf net ->
  let '(root', inserted) := Insert root net in
  tree_wf root' /\
  (inserted = true <-> 1 <= bits_ net /\ tree_lookup (net_path net) root = None) /\
  forall q, tree_lookup q root' =
    if inserted && bool_decide (q = net_path net) then Some net else tree_lookup q root.
Proof.
  intros Hr Hw. pose proof (Insert_wf root net Hr Hw) as Hwf. pose proof (path_nil_bits net Hw) as Hb.
  pose proof (ipnet_wf_bits_128 net Hw). rewrite Insert_trie in * by done.
  case_bool_decide as E.
  - apply Z.eqb_eq in Hb. split_and!; [done| |done]. split; [done|lia].
  - apply Z.eqb_neq in Hb. pose proof (trie_insert_flag (net_path net) net root) as Hf.
    pose proof (trie_insert_lookup (net_path net) net root) as Hl.
    destruct (trie_insert _ _ _) as [root' ok]. simpl in *. split_and!; [done| |].
    + destruct (tree_lookup (net_path net) root); subst; split; try done.
      * by intros [_ [=]].
      * intros _. split; [lia|done].
    + intros q. rewrite Hl. case_bool_decide as Eq; [subst q|]; rewrite ?decide_True, ?decide_False by done.
      * by destruct (tree_lookup (net_path net) root); subst ok.
      * rewrite andb_false_r. by destruct (tree_lookup q root).
Qed.

(** What [GetAll] returns: after a successful insertion it is the previous
    networks and the new one, in some order and each once; a refused insertion
    leaves the tree unchanged. *)
Theorem GetAll_Insert root net :
  tree_wf root -> ipnet_wf net ->
  let '(root', inserted) := Insert root net in
  if inserted then GetAll root' ≡ₚ net :: GetAll root else root' = root.
Proof.
  intros (Hn & _ & _) Hw. rewrite Insert_trie by done. case_bool_decide; [done|].
  pose proof (trie_insert_getAll (net_path net) net root Hn) as Hall.
  pose proof (trie_insert_refused (net_path net) net root Hn) as Href.
  destruct (trie_insert _ _ _) as [root' []]; simpl in *; auto.
Qed.

(** C3: [Find] is the longest prefix match: in a tree whose networks share one
    family, the search for an address returns a stored network that contains
    the address and has at least as many bits as any other stored network that
    contains it, and the null network exactly when no stored network does. *)
Theorem Find_longest_prefix root f a :
  tree_wf root -> single_family f root -> addr_wf a ->
  (In (Find root a) (GetAll root) /\ Contains (Find root a) a = true /\
     forall m, In m (GetAll root) -> Contains m a = true -> bits_ m <= bits_ (Find root a)) \/
  (Find root a = IPNet_default /\ forall m, In m (GetAll root) -> Contains m a = false).
Proof.
  intros Hr Hf Ha. assert (forall m, In m (GetAll root) ->
    net_covers m (IPNet_of_address a) <-> Contains m a = true) as Hc.
  { intros m Hm. apply net_covers_address; [|done]. apply (stored_wf root m Hr Hm). }
  unfold Find. destruct (Find_single root f (IPNet_of_address a)) as [(Hin & Hcov & Hmax)|[He Hno]];
    [done|done|by apply of_address_wf|left|right].
  - split_and!; [done|by apply Hc|]. intros m Hm Hcm. apply Hmax; [done|by apply Hc].
  - split; [done|]. intros m Hm. apply not_true_iff_false. rewrite <- Hc by done. by apply Hno.
Qed.

(** [IsAnyIPNetSubset] is exact on two trees of one family (asked for that
    family or for any): it answers true precisely when some network of the
    other tree lies inside some network of this tree. *)
Theorem IsAnyIPNetSubset_iff f fam root other :
  tree_wf root -> tree_wf other -> single_family f root -> single_family f other ->
  fam = f \/ fam = Family.UNKNOWN ->
  IsAnyIPNetSubset_family fam root other = true <->
  exists n m, In n (GetAll root) /\ In m (GetAll other) /\ net_covers n m.
Proof.
  intros Hr Ho Hfr Hfo Hfam. unfold IsAnyIPNetSubset_family.
  assert (forall t, single_family f t -> all_family f t) as Hall.
  { intros t Ht q v Hq. apply Ht, getAll_lookup. by exists q. }
  rewrite (isAny_spec f fam Hfam); [|by apply Hall|by apply Hall|done|done|apply Ho|by intros []].
  rewrite subset_pair_None. split.
  - intros [[[] _]|(q1 & q2 & Hp & [n Hn] & [m Hm])]; [done|]. exists n, m.
    assert (In n (GetAll root)) by (apply getAll_lookup; by eauto).
    assert (In m (GetAll other)) by (apply getAll_lookup; by eauto).
    destruct Hr as (_ & _ & Hsr), Ho as (_ & _ & Hso).
    apply Hsr in Hn as (_ & <- & _). apply Hso in Hm as (_ & <- & _).
    split_and!; [done|done|]. split; [|done]. by rewrite (Hfr n), (Hfo m).
  - intros (n & m & Hn & Hm & Hc). right. exists (net_path n), (net_path m).
    destruct (stored_wf root n Hr Hn) as [_ ->]. destruct (stored_wf other m Ho Hm) as [_ ->].
    split_and!; [apply Hc|done|done].
Qed.

(** With both families in one tree the match can be lost: the tree of
    8.0.0.0/6 (IPv4) and 800::/8 (IPv6) does not find 8.8.8.8 although 8.0.0.0/6 contains it,
    because the IPv6 network is deeper on the same bits and the family is
    compared after the walk; and a network whose bits an entry of the other
    family occupies is refused. *)
Theorem Find_mixed_families :
  let v4 := IPNet_make (Address_octets 8 0 0 0) 6 false in
  let v6 := IPNet_make (Address_v6 (htonll 0x0800000000000000) 0) 8 false in
  let v4' := IPNet_make (Address_octets 8 0 0 0) 8 false in
  let tree := NRadixTree_of [v4; v6] in
  In v4 (GetAll tree) /\ Contains v4 (Address_octets 8 8 8 8) = true /\
  Find tree (Address_octets 8 8 8 8) = IPNet_default /\ (Insert tree v4').2 = false.
Proof. destruct ho; vm_compute; split_and!; auto. Qed.

End theorems.

(** ** Witnesses: 10.0.0.0/8 and 10.1.0.0/16 on a little-endian host *)

Definition net8 : IPNet := IPNet_make (ho := true) (Address_octets (ho := true) 10 0 0 0) 8 false.
Definition net16 : IPNet := IPNet_make (ho := true) (Address_octets (ho := true) 10 1 0 0) 16 false.

Lemma net8_wf : ipnet_wf (ho := true) net8.
Proof. apply IPNet_make_wf; [apply Address_octets_wf|lia]. Defined.

Lemma net16_wf : ipnet_wf (ho := true) net16.
Proof. apply IPNet_make_wf; [apply Address_octets_wf|lia]. Defined.

Lemma tree8_wf : tree_wf (ho := true) (NRadixTree_of (ho := true) [net8]).
Proof. apply NRadixTree_of_wf. apply Forall_singleton, net8_wf. Qed.

Lemma tree16_wf : tree_wf (ho := true) (NRadixTree_of (ho := true) [net8; net16]).
Proof. apply NRadixTree_of_wf. apply Forall_cons. split; [apply net8_wf|apply Forall_singleton, net16_wf]. Qed.

Lemma tree16_family : single_family Family.IPV4 (NRadixTree_of (ho := true) [net8; net16]).
Proof. intros v. vm_compute. intros [<-|[<-|[]]]; reflexivity. Qed.

Lemma tree8_family : single_family Family.IPV4 (NRadixTree_of (ho := true) [net8]).
Proof. intros v. vm_compute. intros [<-|[]]; reflexivity. Qed.

Lemma Insert_refines_map_witness :
  let '(root', inserted) := Insert (ho := true) (NRadixTree_of (ho := true) [net8]) net16 in
  tree_wf (ho := true) root' /\ inserted = true.
Proof.
  pose proof (Insert_refines_map (ho := true) _ net16 tree8_wf net16_wf) as H.
  destruct (Insert _ _) as [root' inserted] eqn:E. destruct H as [Hwf [Hiff _]].
  split; [exact Hwf|]. apply Hiff. split; [vm_compute; discriminate|vm_compute; reflexivity].
Defined.

Lemma GetAll_Insert_witness :
  GetAll (Insert (ho := true) (NRadixTree_of (ho := true) [net8]) net16).1 ≡ₚ [net16; net8].
Proof.
  pose proof (GetAll_Insert (ho := true) _ net16 tree8_wf net16_wf) as H.
  assert ((Insert (ho := true) (NRadixTree_of (ho := true) [net8]) net16).2 = true) as E
    by (vm_compute; reflexivity).
  destruct (Insert _ _) as [root' inserted]. cbn [snd] in E. subst inserted. exact H.
Defined.

Lemma Find_longest_prefix_witness :
  let tree := NRadixTree_of (ho := true) [net8; net16] in
  let a := Address_octets (ho := true) 10 1 2 3 in
  Find (ho := true) tree a = net16 /\
  forall m, In m (GetAll tree) -> Contains (ho := true) m a = true -> bits_ m <= 16.
Proof.
  destruct (Find_longest_prefix (ho := true) _ _ (Address_octets (ho := true) 10 1 2 3)
    tree16_wf tree16_family (Address_octets_wf 10 1 2 3)) as [(_ & _ & H)|[H _]].
  - split; [vm_compute; reflexivity|]. exact H.
  - exfalso. vm_compute in H. discriminate.
Defined.

Lemma IsAnyIPNetSubset_iff_witness :
  exists n m, In n (GetAll (NRadixTree_of (ho := true) [net8])) /\
    In m (GetAll (NRadixTree_of (ho := true) [net8; net16])) /\ net_covers (ho := true) n m.
Proof.
  apply (IsAnyIPNetSubset_iff (ho := true) Family.IPV4 Family.UNKNOWN _ _
    tree8_wf tree16_wf tree8_family tree16_family).
  - right. reflexivity.
  - vm_compute. reflexivity.
Defined.

