(* ===== verification/Connection.v ===== *)
(** * Endpoints, connections and their map keys ([NetworkConnection.h], [Hash.h])

    [Endpoint], [ContainerEndpoint] and [Connection] with their equalities,
    the hash functions of [Hash.h] over them, and the small predicates on
    ports and addresses.  [std::hash] is a parameter of the hash functions. *)

From S2P Require Import Prelude HostOrder UMap NetAddress.

(** ** Layer-4 protocols *)

Module L4Proto.
Inductive t := UNKNOWN | TCP | UDP | ICMP.

Definition to_Z (p : t) : Z := match p with UNKNOWN => 0 | TCP => 1 | UDP => 2 | ICMP => 3 end.

(** [static_cast<L4Proto>] of the values the code stores. *)
Definition of_Z (z : Z) : t :=
  if z =? 1 then TCP else if z =? 2 then UDP else if z =? 3 then ICMP else UNKNOWN.

Definition eqb (p q : t) : bool := to_Z p =? to_Z q.

Lemma l4_eqb_eq p q : eqb p q = true <-> p = q.
Proof. destruct p, q; split; done. Qed.

Lemma of_to p : of_Z (to_Z p) = p.
Proof. by destruct p. Qed.
End L4Proto.

(** ** Endpoints *)

Record Endpoint := mkEndpoint { network_ : IPNet; port_ : Z }.

Definition Endpoint_IsNull (e : Endpoint) : bool := (port_ e =? 0) && IPNet_IsNull (network_ e).

Definition Endpoint_address (e : Endpoint) : Address := address_ (network_ e).

Section endpoint_order.
Context `{ho : HostOrder}.

Definition Endpoint_default : Endpoint := mkEndpoint IPNet_default 0.
Definition Endpoint_of_address (a : Address) (port : Z) : Endpoint :=
  mkEndpoint (IPNet_of_address a) port.
Definition Endpoint_of_net (n : IPNet) (port : Z) : Endpoint := mkEndpoint n port.

End endpoint_order.

(** ** Container endpoints

    [IProcess] as the attributes the network code reads; [proc_ptr] is the
    identity of the shared object, which [==] of container endpoints compares. *)

Record IProcess := mkProcess {
  proc_ptr : Z; proc_comm : string; proc_exe_path : string; proc_args : string
}.

Record ContainerEndpoint := mkContainerEndpoint {
  cep_container_ : string; cep_endpoint_ : Endpoint; cep_l4proto_ : L4Proto.t;
  cep_originator_ : option IProcess
}.

Definition ptr_eq (p q : option IProcess) : bool :=
  match p, q with
  | None, None => true
  | Some p, Some q => proc_ptr p =? proc_ptr q
  | _, _ => false
  end.

(** ** Connections *)

Record Connection := mkConnection {
  container_ : string; local_ : Endpoint; remote_ : Endpoint; flags_ : Z
}.

(** The protocol and the role share one byte. *)
Definition Connection_make (container : string) (local remote : Endpoint) (l4proto : L4Proto.t)
    (is_server : bool) : Connection :=
  mkConnection container local remote
    (u8 ((L4Proto.to_Z l4proto <<. 1) |. (if is_server then 1 else 0))).

Definition is_server (c : Connection) : bool := negb (flags_ c &. 1 =? 0).
Definition l4proto (c : Connection) : L4Proto.t := L4Proto.of_Z (flags_ c >>. 1).

(** ** Equalities

    The [==] operators, over the equality of networks: [IPNet_eq] gives the
    operators of the code, [IPNet_key_eq] the way the unordered containers
    match their keys, by hash and operator (see [IPNet_key_eq]). *)

Section equalities.
Variable net_eq : IPNet -> IPNet -> bool.

Definition Endpoint_eq (e f : Endpoint) : bool :=
  (port_ e =? port_ f) && net_eq (network_ e) (network_ f).

Definition ContainerEndpoint_eq (x y : ContainerEndpoint) : bool :=
  String.eqb (cep_container_ x) (cep_container_ y) &&
  Endpoint_eq (cep_endpoint_ x) (cep_endpoint_ y) &&
  L4Proto.eqb (cep_l4proto_ x) (cep_l4proto_ y) &&
  ptr_eq (cep_originator_ x) (cep_originator_ y).

(** [bool(lhs.originator()) != bool(rhs.originator())] and the comparison of
    the attributes, the early returns of [AdvertisedEndpointEquality]. *)
Definition originators_differ (p q : option IProcess) : bool :=
  match p, q with
  | Some p, Some q =>
      negb (String.eqb (proc_comm p) (proc_comm q)) ||
      negb (String.eqb (proc_exe_path p) (proc_exe_path q)) ||
      negb (String.eqb (proc_args p) (proc_args q))
  | None, None => false
  | _, _ => true
  end.

Definition AdvertisedEndpointEquality (lhs rhs : ContainerEndpoint) : bool :=
  if originators_differ (cep_originator_ lhs) (cep_originator_ rhs) then false
  else
    String.eqb (cep_container_ lhs) (cep_container_ rhs) &&
    Endpoint_eq (cep_endpoint_ lhs) (cep_endpoint_ rhs) &&
    L4Proto.eqb (cep_l4proto_ lhs) (cep_l4proto_ rhs).

Definition Connection_eq (c d : Connection) : bool :=
  String.eqb (container_ c) (container_ d) && Endpoint_eq (local_ c) (local_ d) &&
  Endpoint_eq (remote_ c) (remote_ d) && (flags_ c =? flags_ d).

End equalities.

(** The key equalities of [ConnMap], [ContainerEndpointMap] and
    [AdvertisedEndpointMap]. *)
Definition conn_keq : Connection -> Connection -> bool := Connection_eq IPNet_key_eq.
Definition cep_keq : ContainerEndpoint -> ContainerEndpoint -> bool := ContainerEndpoint_eq IPNet_key_eq.
Definition advertised_keq : ContainerEndpoint -> ContainerEndpoint -> bool :=
  AdvertisedEndpointEquality IPNet_key_eq.

(** [L4ProtoPortPair], a [std::pair]. *)
Definition L4ProtoPortPair : Type := L4Proto.t * Z.
Definition L4ProtoPortPair_eq (p q : L4ProtoPortPair) : bool :=
  L4Proto.eqb p.1 q.1 && (p.2 =? q.2).

Section relevance.
Context `{ho : HostOrder}.

Definition IsRelevantConnection (c : Connection) : bool := negb (IsLocal (Endpoint_address (remote_ c))).
Definition IsRelevantEndpoint (e : Endpoint) : bool := negb (IsLocal (Endpoint_address e)).

End relevance.

Definition IsEphemeralPort (port : Z) : Z :=
  if 49152 <=? port then 4
  else if 32768 <=? port then 3
  else if (1025 <=? port) && (port <=? 5000) then 2
  else if port =? 1024 then 1
  else 0.

(** ** Hashes ([Hash.h])

    [std_hash] and [std_hash_string] are the hash functions of the standard
    library on integers and strings. *)

Section hashes.
Variable std_hash : Z -> Z.
Variable std_hash_string : string -> Z.

Definition CombineHashes (seed hash : Z) : Z :=
  Z.lxor seed (u64 (hash + 0x9e3779b9 + u64 (seed <<. 6) + (seed >>. 2))).

(** The array overload: from the left. *)
Definition Hash_array (a : list Z) : Z :=
  match a with
  | [] => 0
  | x :: r => fold_left (fun h y => CombineHashes h (std_hash y)) r (std_hash x)
  end.

(** [HashAll(first, rest...)]: from the right. *)
Fixpoint HashAll (first : Z) (rest : list Z) : Z :=
  match rest with
  | [] => first
  | y :: r => CombineHashes first (HashAll y r)
  end.

Definition Address_Hash (a : Address) : Z :=
  HashAll (Hash_array (u64_data a)) [std_hash (Family.to_Z (family_ a))].

Definition IPNet_Hash (n : IPNet) : Z :=
  if is_addr_ n
  then HashAll (Hash_array (u64_data (address_ n))) [Hash_array (mask_ n); std_hash (bits_ n)]
  else HashAll (Hash_array (mask_ n)) [std_hash (bits_ n)].

Definition Endpoint_Hash (e : Endpoint) : Z := HashAll (IPNet_Hash (network_ e)) [std_hash (port_ e)].

Definition ContainerEndpoint_Hash (c : ContainerEndpoint) : Z :=
  HashAll (std_hash_string (cep_container_ c))
    [Endpoint_Hash (cep_endpoint_ c); std_hash (L4Proto.to_Z (cep_l4proto_ c))].

Definition Connection_Hash (c : Connection) : Z :=
  HashAll (std_hash_string (container_ c))
    [Endpoint_Hash (local_ c); Endpoint_Hash (remote_ c); std_hash (flags_ c)].

Definition L4ProtoPortPair_Hash (p : L4ProtoPortPair) : Z :=
  HashAll (std_hash (L4Proto.to_Z p.1)) [std_hash p.2].

End hashes.

(** ** Equivalences *)

Section equiv.
Variable net_eq : IPNet -> IPNet -> bool.
Context `{!KeyEquiv net_eq}.

#[export] Instance String_eqb_equiv : KeyEquiv String.eqb.
Proof. constructor; intros *; rewrite !String.eqb_eq; congruence. Qed.

#[export] Instance Z_eqb_equiv : KeyEquiv Z.eqb.
Proof. constructor; intros *; rewrite !Z.eqb_eq; congruence. Qed.

#[export] Instance L4Proto_eqb_equiv : KeyEquiv L4Proto.eqb.
Proof. constructor; intros *; rewrite !L4Proto.l4_eqb_eq; congruence. Qed.

#[export] Instance ptr_eq_equiv : KeyEquiv ptr_eq.
Proof.
  constructor.
  - intros [p|]; simpl; [apply Z.eqb_refl|done].
  - intros [p|] [q|]; simpl; try done. apply keq_sym.
  - intros [p|] [q|] [r|]; simpl; try done. apply keq_trans.
Qed.

(** A comparison of several parts, each compared by an equivalence. *)
Lemma and_equiv {A} (f g : A -> A -> bool) :
  KeyEquiv f -> KeyEquiv g -> KeyEquiv (fun x y => f x y && g x y).
Proof.
  intros Hf Hg. constructor.
  - intros x. by rewrite !keq_refl.
  - intros x y [H1 H2]%andb_prop. apply andb_true_intro. by split; apply keq_sym.
  - intros x y z [H1 H2]%andb_prop [H3 H4]%andb_prop. apply andb_true_intro.
    split; by eapply keq_trans.
Qed.

Lemma part_equiv {A B} (p : A -> B) (f : B -> B -> bool) :
  KeyEquiv f -> KeyEquiv (fun x y => f (p x) (p y)).
Proof. intros Hf. constructor; intros *; [apply keq_refl|apply keq_sym|apply keq_trans]. Qed.

#[export] Instance Endpoint_eq_equiv : KeyEquiv (Endpoint_eq net_eq).
Proof. apply and_equiv; [apply (part_equiv port_)|apply (part_equiv network_)]; apply _. Qed.

#[export] Instance ContainerEndpoint_eq_equiv : KeyEquiv (ContainerEndpoint_eq net_eq).
Proof.
  apply and_equiv; [apply and_equiv; [apply and_equiv|]|].
  - apply (part_equiv cep_container_), _.
  - apply (part_equiv cep_endpoint_), _.
  - apply (part_equiv cep_l4proto_), _.
  - apply (part_equiv cep_originator_), _.
Qed.

Lemma originators_differ_equiv : KeyEquiv (fun p q => negb (originators_differ p q)).
Proof.
  constructor.
  - intros [p|]; simpl; by rewrite ?String.eqb_refl.
  - intros [p|] [q|]; simpl; try done. rewrite !negb_orb, !negb_involutive, !andb_true_iff.
    rewrite !String.eqb_eq. intuition congruence.
  - intros [p|] [q|] [r|]; simpl; try done. rewrite !negb_orb, !negb_involutive, !andb_true_iff.
    rewrite !String.eqb_eq. intuition congruence.
Qed.

#[export] Instance AdvertisedEndpointEquality_equiv : KeyEquiv (AdvertisedEndpointEquality net_eq).
Proof.
  assert (KeyEquiv (fun x y => negb (originators_differ (cep_originator_ x) (cep_originator_ y)) &&
    (String.eqb (cep_container_ x) (cep_container_ y) &&
     Endpoint_eq net_eq (cep_endpoint_ x) (cep_endpoint_ y) &&
     L4Proto.eqb (cep_l4proto_ x) (cep_l4proto_ y)))) as H.
  { apply and_equiv; [|apply and_equiv; [apply and_equiv|]].
    - apply (part_equiv cep_originator_ _ originators_differ_equiv).
    - apply (part_equiv cep_container_), _.
    - apply (part_equiv cep_endpoint_), _.
    - apply (part_equiv cep_l4proto_), _. }
  unfold AdvertisedEndpointEquality. constructor.
  - intros x. pose proof (keq_refl (KeyEquiv := H) x) as E. simpl in E.
    by destruct (originators_differ _ _).
  - intros x y Hxy. pose proof (keq_sym (KeyEquiv := H) x y) as E. simpl in E.
    do 2 destruct (originators_differ _ _); auto; discriminate.
  - intros x y z Hxy Hyz. pose proof (keq_trans (KeyEquiv := H) x y z) as E. simpl in E.
    do 3 destruct (originators_differ _ _); auto; discriminate.
Qed.

#[export] Instance Connection_eq_equiv : KeyEquiv (Connection_eq net_eq).
Proof.
  apply and_equiv; [apply and_equiv; [apply and_equiv|]|].
  - apply (part_equiv container_), _.
  - apply (part_equiv local_), _.
  - apply (part_equiv remote_), _.
  - apply (part_equiv flags_), _.
Qed.

#[export] Instance L4ProtoPortPair_eq_equiv : KeyEquiv L4ProtoPortPair_eq.
Proof. apply and_equiv; [apply (part_equiv (@fst L4Proto.t Z))|apply (part_equiv (@snd L4Proto.t Z))]; apply _. Qed.

End equiv.

#[export] Instance conn_keq_equiv : KeyEquiv conn_keq := Connection_eq_equiv IPNet_key_eq.
#[export] Instance cep_keq_equiv : KeyEquiv cep_keq := ContainerEndpoint_eq_equiv IPNet_key_eq.
#[export] Instance advertised_keq_equiv : KeyEquiv advertised_keq :=
  AdvertisedEndpointEquality_equiv IPNet_key_eq.

(** ** The fields of a connection *)

Lemma Connection_make_flags c l r p s :
  flags_ (Connection_make c l r p s) = 2 * L4Proto.to_Z p + (if s then 1 else 0).
Proof. by destruct p, s. Qed.

Lemma is_server_make c l r p s : is_server (Connection_make c l r p s) = s.
Proof. unfold is_server. rewrite Connection_make_flags. by destruct p, s. Qed.

Lemma l4proto_make c l r p s : l4proto (Connection_make c l r p s) = p.
Proof. unfold l4proto. rewrite Connection_make_flags. by destruct p, s. Qed.

Section key_hash.
Context `{ho : HostOrder}.
Variable std_hash : Z -> Z.
Variable std_hash_string : string -> Z.

Definition conn_wf (c : Connection) : Prop :=
  ipnet_wf (network_ (local_ c)) /\ ipnet_wf (network_ (remote_ c)).

Lemma IPNet_key_eq_hash n m :
  ipnet_wf n -> ipnet_wf m -> IPNet_key_eq n m = true ->
  IPNet_Hash std_hash n = IPNet_Hash std_hash m.
Proof.
  intros Hn Hm (Hf & Hb & He)%IPNet_key_eq_spec. unfold IPNet_Hash.
  rewrite <- Hf, <- Hb. destruct (is_addr_ n) eqn:E.
  - rewrite (ipnet_wf_mask n Hn), (ipnet_wf_mask m Hm). by rewrite <- He, <- Hb.
  - by rewrite <- He.
Qed.

Lemma Endpoint_key_eq_hash e f :
  ipnet_wf (network_ e) -> ipnet_wf (network_ f) -> Endpoint_eq IPNet_key_eq e f = true ->
  Endpoint_Hash std_hash e = Endpoint_Hash std_hash f.
Proof.
  intros He Hf [Hp%Z.eqb_eq Hn]%andb_prop. unfold Endpoint_Hash.
  by rewrite (IPNet_key_eq_hash _ (network_ f)), Hp.
Qed.

Lemma advertised_eq_parts x y :
  advertised_keq x y = true ->
  cep_container_ x = cep_container_ y /\
  Endpoint_eq IPNet_key_eq (cep_endpoint_ x) (cep_endpoint_ y) = true /\
  cep_l4proto_ x = cep_l4proto_ y.
Proof.
  unfold advertised_keq, AdvertisedEndpointEquality.
  destruct (originators_differ _ _); [done|]. rewrite !andb_true_iff, String.eqb_eq, L4Proto.l4_eqb_eq.
  tauto.
Qed.

(** Keys that match have equal hashes, for every hash function of the
    standard library on integers and strings: equal connections hash alike,
    and so do container endpoints equal under [AdvertisedEndpointEquality],
    although that comparison ignores the identity of the originator. *)
Theorem key_eq_hash_eq :
  (forall c d, conn_wf c -> conn_wf d -> conn_keq c d = true ->
    Connection_Hash std_hash std_hash_string c = Connection_Hash std_hash std_hash_string d) /\
  (forall x y, ipnet_wf (network_ (cep_endpoint_ x)) -> ipnet_wf (network_ (cep_endpoint_ y)) ->
    advertised_keq x y = true ->
    ContainerEndpoint_Hash std_hash std_hash_string x =
    ContainerEndpoint_Hash std_hash std_hash_string y).
Proof.
  split.
  - intros c d [Hc1 Hc2] [Hd1 Hd2] H. apply andb_prop in H as [[[H1 H2]%andb_prop H3]%andb_prop H4].
    apply String.eqb_eq in H1. apply Z.eqb_eq in H4. unfold Connection_Hash.
    rewrite (Endpoint_key_eq_hash (local_ c) (local_ d)), (Endpoint_key_eq_hash (remote_ c) (remote_ d)) by done.
    by rewrite H1, H4.
  - intros x y Hx Hy (H1 & H2 & H3)%advertised_eq_parts. unfold ContainerEndpoint_Hash.
    by rewrite H1, H3, (Endpoint_key_eq_hash (cep_endpoint_ x) (cep_endpoint_ y)).
Qed.

End key_hash.
