(* ===== verification/ConnStatus.v ===== *)
(** * Connection status ([ConnStatus] of [ConnTracker.h])

    One 64-bit word: the top bit is the activity flag, the other 63 hold the
    time of the last activity in microseconds. *)

From S2P Require Import Prelude.

Record ConnStatus := mkConnStatus { status_data : Z }.

Definition kActiveFlag : Z := 1 <<. 63.

Definition MakeActive (data : Z) (active : bool) : Z :=
  if active then data |. kActiveFlag else data &. not64 kActiveFlag.

Definition ConnStatus_default : ConnStatus := mkConnStatus 0.

Definition ConnStatus_make (microtimestamp : Z) (active : bool) : ConnStatus :=
  mkConnStatus (MakeActive (u64 microtimestamp) active).

Definition LastActiveTime (s : ConnStatus) : Z := s64 (status_data s &. not64 kActiveFlag).
Definition IsActive (s : ConnStatus) : bool := negb (status_data s &. kActiveFlag =? 0).

Definition SetActive (active : bool) (s : ConnStatus) : ConnStatus :=
  mkConnStatus (MakeActive (status_data s) active).

Definition MergeFrom (s other : ConnStatus) : ConnStatus :=
  mkConnStatus (Z.max (status_data s) (status_data other)).

Definition WithStatus (s : ConnStatus) (active : bool) : ConnStatus :=
  mkConnStatus (MakeActive (status_data s) active).

Definition ConnStatus_eq (s t : ConnStatus) : bool := status_data s =? status_data t.

(** The subtraction is on [int64_t]; [afterglow_no_overflow] below shows that
    it cannot overflow for a clock reading after the epoch. *)
Definition IsInAfterglowPeriod (s : ConnStatus) (time_micros afterglow_period_micros : Z) : bool :=
  time_micros - LastActiveTime s <? afterglow_period_micros.

Definition WasRecentlyActive (s : ConnStatus) (time_micros afterglow_period_micros : Z) : bool :=
  IsActive s || IsInAfterglowPeriod s time_micros afterglow_period_micros.

(** ** The word as a flag and a time *)

Definition status_wf (s : ConnStatus) : Prop := in_range 64 (status_data s).

(** The two parts, put together. *)
Definition pack (t : Z) (active : bool) : Z := t + (if active then 2 ^ 63 else 0).

Section split.
Implicit Types (s : ConnStatus) (d : Z).

Lemma flag_clear d : in_range 64 d -> d &. not64 kActiveFlag = d mod 2 ^ 63.
Proof.
  intros Hd. apply (words_bits_eq 64); [lia| | |].
  - apply land_in_range; [lia|done|]. vm_compute. discriminate.
  - pose proof (Z.mod_pos_bound d (2 ^ 63) ltac:(lia)). unfold in_range. lia.
  - intros i Hi. rewrite Z.land_spec, not64_spec by lia. unfold kActiveFlag.
    rewrite Z.shiftl_1_l, Z.pow2_bits_eqb by lia. destruct (Z.eqb_spec 63 i) as [<-|].
    + rewrite andb_false_r, Z.mod_pow2_bits_high by lia. done.
    + rewrite andb_true_r, Z.mod_pow2_bits_low by lia. done.
Qed.

Lemma flag_test d : in_range 64 d -> negb (d &. kActiveFlag =? 0) = (2 ^ 63 <=? d).
Proof.
  intros Hd. assert (Z.testbit d 63 = (2 ^ 63 <=? d)) as <-.
  { rewrite Z.testbit_eqb by lia. destruct Hd as [Hd1 Hd2].
    destruct (Z.leb_spec (2 ^ 63) d).
    - rewrite (proj2 (Z.eqb_eq _ _)); [done|].
      assert (d / 2 ^ 63 = 1) as ->; [|done]. symmetry. apply (Z.div_unique _ _ _ (d - 2 ^ 63)); lia.
    - rewrite Z.div_small by lia. done. }
  unfold kActiveFlag. rewrite Z.shiftl_1_l. destruct (Z.testbit d 63) eqn:E.
  - apply negb_true_iff, Z.eqb_neq. intros H. apply (f_equal (fun z => Z.testbit z 63)) in H.
    by rewrite Z.land_spec, E, Z.pow2_bits_true, Z.bits_0 in H by lia.
  - apply negb_false_iff, Z.eqb_eq, Z.bits_inj'. intros i Hi.
    rewrite Z.land_spec, Z.pow2_bits_eqb, Z.bits_0 by lia.
    destruct (Z.eqb_spec 63 i) as [<-|]; [by rewrite E|by rewrite andb_false_r].
Qed.

Lemma flag_set d : in_range 64 d -> d |. kActiveFlag = pack (d mod 2 ^ 63) true.
Proof.
  intros Hd. unfold pack. rewrite <- flag_clear by done.
  rewrite Z.add_nocarry_lxor, Z.lxor_lor; unfold kActiveFlag; rewrite ?Z.shiftl_1_l.
  - apply Z.bits_inj'. intros i Hi. rewrite !Z.lor_spec, Z.land_spec, Z.pow2_bits_eqb by lia.
    destruct (Z.eqb_spec 63 i) as [<-|]; [by rewrite !orb_true_r|].
    destruct (Z.lt_ge_cases i 64).
    + rewrite not64_spec, Z.pow2_bits_false by lia. by rewrite andb_true_r.
    + by rewrite (in_range_testbit 64 d) by (lia || done).
  - apply Z.bits_inj'. intros i Hi. rewrite !Z.land_spec, Z.pow2_bits_eqb, Z.bits_0 by lia.
    destruct (Z.eqb_spec 63 i) as [<-|]; [|by rewrite andb_false_r].
    rewrite not64_spec, Z.pow2_bits_true by lia. by rewrite andb_false_r.
  - apply Z.bits_inj'. intros i Hi. rewrite !Z.land_spec, Z.pow2_bits_eqb, Z.bits_0 by lia.
    destruct (Z.eqb_spec 63 i) as [<-|]; [|by rewrite andb_false_r].
    rewrite not64_spec, Z.pow2_bits_true by lia. by rewrite andb_false_r.
Qed.

Lemma mod63_range d : 0 <= d mod 2 ^ 63 < 2 ^ 63.
Proof. apply Z.mod_pos_bound. lia. Qed.

Lemma s64_small t : 0 <= t < 2 ^ 63 -> s64 t = t.
Proof.
  intros Ht. unfold s64, wrap. rewrite Z.mod_small by lia. by rewrite (proj2 (Z.ltb_lt _ _)) by lia.
Qed.

Lemma LastActiveTime_mod s : status_wf s -> LastActiveTime s = status_data s mod 2 ^ 63.
Proof.
  intros Hs. unfold LastActiveTime. rewrite flag_clear by done. apply s64_small, mod63_range.
Qed.

Lemma IsActive_leb s : status_wf s -> IsActive s = (2 ^ 63 <=? status_data s).
Proof. intros Hs. by apply flag_test. Qed.

Lemma LastActiveTime_range s : status_wf s -> 0 <= LastActiveTime s < 2 ^ 63.
Proof. intros Hs. rewrite LastActiveTime_mod by done. apply mod63_range. Qed.

(** A status is its time and its flag. *)
Lemma status_pack s : status_wf s -> status_data s = pack (LastActiveTime s) (IsActive s).
Proof.
  intros Hs. rewrite LastActiveTime_mod, IsActive_leb by done. unfold pack.
  unfold status_wf, in_range in Hs. destruct (Z.leb_spec (2 ^ 63) (status_data s)).
  - rewrite <- (Z.mod_add (status_data s) (-1)) by lia. rewrite Z.mod_small; lia.
  - rewrite Z.mod_small; lia.
Qed.

Lemma pack_range t a : 0 <= t < 2 ^ 63 -> in_range 64 (pack t a).
Proof. unfold pack, in_range. destruct a; lia. Qed.

Lemma LastActiveTime_pack t a : 0 <= t < 2 ^ 63 -> LastActiveTime (mkConnStatus (pack t a)) = t.
Proof.
  intros Ht. rewrite LastActiveTime_mod by by apply pack_range. simpl. unfold pack. destruct a.
  - rewrite <- (Z.mod_add _ (-1)) by lia. rewrite Z.mod_small; lia.
  - rewrite Z.mod_small; lia.
Qed.

Lemma IsActive_pack t a : 0 <= t < 2 ^ 63 -> IsActive (mkConnStatus (pack t a)) = a.
Proof.
  intros Ht. rewrite IsActive_leb by by apply pack_range. simpl. unfold pack. destruct a.
  - apply Z.leb_le. lia.
  - apply Z.leb_gt. lia.
Qed.

Lemma MakeActive_pack d a : in_range 64 d -> MakeActive d a = pack (d mod 2 ^ 63) a.
Proof.
  intros Hd. destruct a; simpl; [by apply flag_set|]. rewrite flag_clear by done.
  unfold pack. lia.
Qed.

Lemma ConnStatus_make_pack t a : ConnStatus_make t a = mkConnStatus (pack (t mod 2 ^ 63) a).
Proof.
  unfold ConnStatus_make. rewrite MakeActive_pack by (apply wrap_range; lia). do 2 f_equal.
  unfold wrap. change (2 ^ 64) with (2 ^ 63 * 2). rewrite Z.rem_mul_r by lia.
  rewrite Z.mul_comm, Z.mod_add by lia. apply Z.mod_mod. lia.
Qed.

Lemma ConnStatus_make_wf t a : status_wf (ConnStatus_make t a).
Proof. rewrite ConnStatus_make_pack. apply pack_range, mod63_range. Qed.

Lemma IsActive_make t a : IsActive (ConnStatus_make t a) = a.
Proof. rewrite ConnStatus_make_pack. apply IsActive_pack, mod63_range. Qed.

Lemma LastActiveTime_make t a : 0 <= t < 2 ^ 63 -> LastActiveTime (ConnStatus_make t a) = t.
Proof.
  intros Ht. rewrite ConnStatus_make_pack, LastActiveTime_pack by apply mod63_range.
  by rewrite Z.mod_small.
Qed.

Lemma SetActive_pack a s :
  status_wf s -> SetActive a s = mkConnStatus (pack (LastActiveTime s) a).
Proof.
  intros Hs. unfold SetActive. by rewrite MakeActive_pack, LastActiveTime_mod by done.
Qed.

Lemma SetActive_wf a s : status_wf s -> status_wf (SetActive a s).
Proof. intros Hs. rewrite SetActive_pack by done. by apply pack_range, LastActiveTime_range. Qed.

Lemma IsActive_SetActive a s : status_wf s -> IsActive (SetActive a s) = a.
Proof. intros Hs. rewrite SetActive_pack by done. by apply IsActive_pack, LastActiveTime_range. Qed.

Lemma LastActiveTime_SetActive a s : status_wf s -> LastActiveTime (SetActive a s) = LastActiveTime s.
Proof. intros Hs. rewrite SetActive_pack by done. by apply LastActiveTime_pack, LastActiveTime_range. Qed.

Lemma MergeFrom_wf s t : status_wf s -> status_wf t -> status_wf (MergeFrom s t).
Proof. unfold status_wf, in_range. simpl. lia. Qed.

Lemma status_ext s t :
  status_wf s -> status_wf t -> LastActiveTime s = LastActiveTime t -> IsActive s = IsActive t -> s = t.
Proof.
  intros Hs Ht Hl Ha. destruct s as [d], t as [e]. f_equal.
  apply status_pack in Hs, Ht. simpl in *. congruence.
Qed.

Lemma IsActive_cleared s : IsActive (SetActive false s) = false.
Proof.
  unfold IsActive, SetActive, MakeActive. cbn [status_data]. rewrite <- Z.land_assoc.
  change (not64 kActiveFlag &. kActiveFlag) with 0. by rewrite Z.land_0_r.
Qed.

Lemma LastActiveTime_cleared s : LastActiveTime (SetActive false s) = LastActiveTime s.
Proof.
  unfold LastActiveTime, SetActive, MakeActive. cbn [status_data].
  by rewrite <- Z.land_assoc, Z.land_diag.
Qed.

(** The subtraction of [IsInAfterglowPeriod] stays in [int64_t]. *)
Lemma afterglow_no_overflow s t :
  status_wf s -> 0 <= t < 2 ^ 63 -> - 2 ^ 63 < t - LastActiveTime s < 2 ^ 63.
Proof. intros Hs%LastActiveTime_range Ht. lia. Qed.

Lemma afterglow_monotone s t t' p :
  t' <= t -> IsInAfterglowPeriod s t p = true -> IsInAfterglowPeriod s t' p = true.
Proof. unfold IsInAfterglowPeriod. rewrite !Z.ltb_lt. lia. Qed.

End split.

#[export] Hint Resolve ConnStatus_make_wf SetActive_wf MergeFrom_wf : collector.

(** ** Properties *)

(** Merging two statuses keeps the flag and the most recent time of the
    side that dominates: the result is active iff one of the two is; its time
    is the latest time among the active ones when there is one, and the latest
    of both times otherwise. *)
Theorem MergeFrom_spec s t :
  status_wf s -> status_wf t ->
  IsActive (MergeFrom s t) = IsActive s || IsActive t /\
  LastActiveTime (MergeFrom s t) =
    if Bool.eqb (IsActive s) (IsActive t) then Z.max (LastActiveTime s) (LastActiveTime t)
    else if IsActive s then LastActiveTime s else LastActiveTime t.
Proof.
  intros Hs Ht. pose proof (status_pack s Hs) as Es. pose proof (status_pack t Ht) as Et.
  pose proof (LastActiveTime_range s Hs). pose proof (LastActiveTime_range t Ht).
  assert (MergeFrom s t = mkConnStatus (pack
    (if Bool.eqb (IsActive s) (IsActive t) then Z.max (LastActiveTime s) (LastActiveTime t)
     else if IsActive s then LastActiveTime s else LastActiveTime t)
    (IsActive s || IsActive t))) as ->.
  { unfold MergeFrom. f_equal. rewrite Es, Et. unfold pack.
    destruct (IsActive s), (IsActive t); simpl; lia. }
  split; [apply IsActive_pack|apply LastActiveTime_pack];
    destruct (IsActive s), (IsActive t); simpl; lia.
Qed.

Lemma MergeFrom_spec_witness :
  IsActive (MergeFrom (ConnStatus_make 5 true) (ConnStatus_make 9 false)) = true /\
  LastActiveTime (MergeFrom (ConnStatus_make 5 true) (ConnStatus_make 9 false)) = 5.
Proof.
  destruct (MergeFrom_spec (ConnStatus_make 5 true) (ConnStatus_make 9 false)) as [H1 H2].
  - apply ConnStatus_make_wf.
  - apply ConnStatus_make_wf.
  - split; [rewrite H1|rewrite H2]; vm_compute; reflexivity.
Defined.
