(* ===== verification/Delta.v ===== *)
(** * Deltas between two scrapes (the templates of [ConnTracker.h])

    [ComputeDelta], [ComputeDeltaAfterglow] with its helpers, and
    [UpdateOldState], for any key type and key equality, as loops over
    unordered maps.  The first part characterises each of them key by key; the
    second relates a run of scrapes to what the receiver of the deltas knows. *)

From S2P Require Import Prelude UMap ConnStatus.

Section delta.
Context {T : Type} (keq : T -> T -> bool).

Abbreviation StateMap := (UMap T ConnStatus).

(** ** Operations *)

(** *** [UpdateOldState] *)

Definition update_old_step (old_state : StateMap) (conn : T * ConnStatus) : StateMap :=
  let '(old_state', added) := umap_emplace keq conn.1 conn.2 old_state in
  if added then old_state' else umap_update keq (fun _ => conn.2) conn.1 old_state'.

Definition UpdateOldState (old_state new_state : StateMap)
    (time_micros afterglow_period_micros : Z) : StateMap :=
  let old_state :=
    umap_filter (fun old_conn => IsInAfterglowPeriod old_conn.2 time_micros afterglow_period_micros)
      old_state in
  fold_left update_old_step new_state old_state.

(** *** [ComputeDelta] *)

Definition compute_delta_step (old_state : StateMap) (conn : T * ConnStatus) : StateMap :=
  let '(old_state', added) := umap_emplace keq conn.1 conn.2 old_state in
  if added then old_state'
  else
    match umap_find keq conn.1 old_state' with
    | None => old_state'
    | Some old_conn =>
        if negb (Bool.eqb (IsActive conn.2) (IsActive old_conn))
        then umap_update keq (fun _ => conn.2) conn.1 old_state'
        else if IsActive conn.2 then umap_erase keq conn.1 old_state'
        else if LastActiveTime old_conn <? LastActiveTime conn.2
        then umap_update keq (fun _ => conn.2) conn.1 old_state'
        else umap_erase keq conn.1 old_state'
    end.

(** The second loop, over the entries of [old_state]. *)
Fixpoint compute_delta_close (new_state old_state : StateMap) : StateMap :=
  match old_state with
  | [] => []
  | (key, status) :: rest =>
      if umap_contains keq key new_state then (key, status) :: compute_delta_close new_state rest
      else if IsActive status
      then (key, SetActive false status) :: compute_delta_close new_state rest
      else compute_delta_close new_state rest
  end.

(** The delta replaces [*old_state]. *)
Definition ComputeDelta (new_state old_state : StateMap) : StateMap :=
  compute_delta_close new_state (fold_left compute_delta_step new_state old_state).

(** *** [ComputeDeltaAfterglow] *)

Definition ChangeConnToActiveIfNeeded (new_conn : T * ConnStatus) (new_recently_active : bool)
    : T * ConnStatus :=
  if new_recently_active && negb (IsActive new_conn.2)
  then (new_conn.1, ConnStatus_make (LastActiveTime new_conn.2) true)
  else new_conn.

Definition delta_insert (entry : T * ConnStatus) (delta : StateMap) : StateMap :=
  (umap_emplace keq entry.1 entry.2 delta).1.

Definition ComputeDeltaForAConnectionInOldAndNewStates (new_conn : T * ConnStatus)
    (old_conn_status : ConnStatus) (delta : StateMap)
    (time_micros time_at_last_scrape afterglow_period_micros : Z) : StateMap :=
  let new_recently_active := WasRecentlyActive new_conn.2 time_micros afterglow_period_micros in
  let old_recently_active :=
    WasRecentlyActive old_conn_status time_at_last_scrape afterglow_period_micros in
  if negb (Bool.eqb new_recently_active old_recently_active)
  then delta_insert (ChangeConnToActiveIfNeeded new_conn new_recently_active) delta
  else if negb new_recently_active then
    if LastActiveTime old_conn_status <? LastActiveTime new_conn.2
    then delta_insert new_conn delta else delta
  else delta.

Definition ComputeDeltaForAConnectionInNewState (new_conn : T * ConnStatus) (delta : StateMap)
    (time_micros afterglow_period_micros : Z) : StateMap :=
  let new_recently_active := WasRecentlyActive new_conn.2 time_micros afterglow_period_micros in
  delta_insert (ChangeConnToActiveIfNeeded new_conn new_recently_active) delta.

Definition CheckIfOldConnShouldBeInactiveInDelta (conn_key : T) (conn_status : ConnStatus)
    (new_state : StateMap) (time_micros time_at_last_scrape afterglow_period_micros : Z) : bool :=
  if umap_contains keq conn_key new_state then false
  else if negb (WasRecentlyActive conn_status time_at_last_scrape afterglow_period_micros) then false
  else if IsInAfterglowPeriod conn_status time_micros afterglow_period_micros then false
  else true.

Definition ComputeDeltaAfterglow (new_state old_state delta : StateMap)
    (time_micros time_at_last_scrape afterglow_period_micros : Z) : StateMap :=
  let delta :=
    fold_left (fun delta new_conn =>
      match umap_find keq new_conn.1 old_state with
      | Some old_status =>
          ComputeDeltaForAConnectionInOldAndNewStates new_conn old_status delta
            time_micros time_at_last_scrape afterglow_period_micros
      | None =>
          ComputeDeltaForAConnectionInNewState new_conn delta time_micros afterglow_period_micros
      end) new_state delta in
  fold_left (fun delta old_conn =>
    if CheckIfOldConnShouldBeInactiveInDelta old_conn.1 old_conn.2 new_state
         time_micros time_at_last_scrape afterglow_period_micros
    then delta_insert (old_conn.1, ConnStatus_make (LastActiveTime old_conn.2) false) delta
    else delta) old_state delta.

(** ** Specifications, key by key *)

(** What [ComputeDelta] reports of a key with new status [n] and old status [o]. *)
Definition delta_spec (n o : option ConnStatus) : option ConnStatus :=
  match n, o with
  | Some n, None => Some n
  | Some n, Some o =>
      if Bool.eqb (IsActive n) (IsActive o)
      then if negb (IsActive n) && (LastActiveTime o <? LastActiveTime n) then Some n else None
      else Some n
  | None, Some o => if IsActive o then Some (SetActive false o) else None
  | None, None => None
  end.

Definition activated (n : ConnStatus) (recent : bool) : ConnStatus :=
  if recent && negb (IsActive n) then ConnStatus_make (LastActiveTime n) true else n.

(** The same for [ComputeDeltaAfterglow]: "recently active" replaces "active". *)
Definition afterglow_spec (t t_last p : Z) (n o : option ConnStatus) : option ConnStatus :=
  match n, o with
  | Some n, None => Some (activated n (WasRecentlyActive n t p))
  | Some n, Some o =>
      let nr := WasRecentlyActive n t p in
      if Bool.eqb nr (WasRecentlyActive o t_last p)
      then if negb nr && (LastActiveTime o <? LastActiveTime n) then Some n else None
      else Some (activated n nr)
  | None, Some o =>
      if WasRecentlyActive o t_last p && negb (IsInAfterglowPeriod o t p)
      then Some (ConnStatus_make (LastActiveTime o) false) else None
  | None, None => None
  end.

Definition update_old_spec (t p : Z) (n o : option ConnStatus) : option ConnStatus :=
  match n, o with
  | Some n, _ => Some n
  | None, Some o => if IsInAfterglowPeriod o t p then Some o else None
  | None, None => None
  end.

End delta.

Arguments UpdateOldState {T} keq.
Arguments ComputeDelta {T} keq.
Arguments ComputeDeltaAfterglow {T} keq.

(** ** The loops implement the specifications *)

Section delta_proofs.
Context {T : Type} (keq : T -> T -> bool) `{!KeyEquiv keq}.
Implicit Types (m new_state old_state delta : UMap T ConnStatus) (k : T).

Lemma update_old_step_assign m kv : update_old_step keq m kv = umap_assign keq kv.1 kv.2 m.
Proof. done. Qed.

Lemma UpdateOldState_ok old_state new_state t p :
  umap_ok keq old_state -> umap_ok keq (UpdateOldState keq old_state new_state t p).
Proof.
  intros Ho. apply umap_loop_ok; [|by auto with collector].
  intros m kv Hm. rewrite update_old_step_assign. auto with collector.
Qed.

Lemma UpdateOldState_find old_state new_state t p k :
  umap_ok keq old_state -> umap_ok keq new_state ->
  umap_find keq k (UpdateOldState keq old_state new_state t p) =
  update_old_spec t p (umap_find keq k new_state) (umap_find keq k old_state).
Proof.
  intros Ho Hn. unfold UpdateOldState. rewrite (umap_loop_find keq _ (fun _ w => Some w)).
  - rewrite (umap_find_filter keq) by done. by destruct (umap_find keq k new_state).
  - intros m kv Hm. rewrite update_old_step_assign. auto with collector.
  - intros m k' w k'' Hm. rewrite update_old_step_assign. apply umap_find_assign, _.
  - auto with collector.
  - done.
Qed.

(** *** [ComputeDelta] *)

Definition delta_act (o : option ConnStatus) (n : ConnStatus) : option ConnStatus :=
  delta_spec (Some n) o.

Lemma compute_delta_step_ok m kv : umap_ok keq m -> umap_ok keq (compute_delta_step keq m kv).
Proof.
  intros Hm. unfold compute_delta_step. pose proof (umap_ok_emplace keq kv.1 kv.2 m Hm).
  destruct (umap_emplace _ _ _ m) as [m' []]; simpl in *; [done|].
  repeat case_match; auto with collector.
Qed.

Lemma compute_delta_step_find m k n k' :
  umap_ok keq m ->
  umap_find keq k' (compute_delta_step keq m (k, n)) =
  if keq k' k then delta_act (umap_find keq k' m) n else umap_find keq k' m.
Proof.
  intros Hm. unfold compute_delta_step, umap_emplace, umap_contains, delta_act. simpl.
  destruct (umap_find keq k m) as [o|] eqn:Hk; simpl.
  - rewrite Hk. destruct (keq k' k) eqn:E.
    + rewrite (umap_find_proper keq k' k m E), Hk. simpl.
      destruct (Bool.eqb (IsActive n) (IsActive o)); simpl.
      * destruct (IsActive n); simpl; [by rewrite (umap_find_erase keq), E|].
        destruct (_ <? _); [|by rewrite (umap_find_erase keq), E].
        by rewrite (umap_find_update keq), E, (umap_find_proper keq k' k m E), Hk.
      * by rewrite (umap_find_update keq), E, (umap_find_proper keq k' k m E), Hk.
    + repeat case_match; rewrite ?(umap_find_update keq), ?(umap_find_erase keq), E; done.
  - rewrite umap_find_app. simpl. destruct (keq k' k) eqn:E.
    + by rewrite (umap_find_proper keq k' k m E), Hk.
    + by destruct (umap_find keq k' m).
Qed.

Lemma compute_delta_close_None new_state m k :
  umap_find keq k m = None -> umap_find keq k (compute_delta_close keq new_state m) = None.
Proof.
  induction m as [|[k0 s0] r IH]; [done|]. simpl. destruct (keq k k0) eqn:E; [done|].
  intros Hr. repeat case_match; simpl; rewrite ?E; auto.
Qed.

Lemma compute_delta_close_find new_state m k :
  umap_ok keq m ->
  umap_find keq k (compute_delta_close keq new_state m) =
  match umap_find keq k m with
  | Some s =>
      if umap_contains keq k new_state then Some s
      else if IsActive s then Some (SetActive false s) else None
  | None => None
  end.
Proof.
  induction m as [|[k0 s0] r IH]; [done|]. simpl. intros [Hk0 Hr].
  destruct (keq k k0) eqn:E.
  - assert (umap_contains keq k new_state = umap_contains keq k0 new_state) as ->.
    { unfold umap_contains. by rewrite (umap_find_proper keq k k0). }
    destruct (umap_contains keq k0 new_state); simpl; [by rewrite E|].
    destruct (IsActive s0); simpl; [by rewrite E|].
    apply compute_delta_close_None. by rewrite (umap_find_proper keq k k0).
  - destruct (umap_contains keq k0 new_state); simpl; [rewrite E; by apply IH|].
    destruct (IsActive s0); simpl; rewrite ?E; by apply IH.
Qed.

Lemma compute_delta_close_ok new_state m :
  umap_ok keq m -> umap_ok keq (compute_delta_close keq new_state m).
Proof.
  induction m as [|[k s] r IH]; [done|]. simpl. intros [Hk Hr].
  repeat case_match; simpl; auto using compute_delta_close_None.
Qed.

Lemma ComputeDelta_ok new_state old_state :
  umap_ok keq old_state -> umap_ok keq (ComputeDelta keq new_state old_state).
Proof.
  intros Ho. apply compute_delta_close_ok, umap_loop_ok; [|done]. apply compute_delta_step_ok.
Qed.

Lemma ComputeDelta_find new_state old_state k :
  umap_ok keq new_state -> umap_ok keq old_state ->
  umap_find keq k (ComputeDelta keq new_state old_state) =
  delta_spec (umap_find keq k new_state) (umap_find keq k old_state).
Proof.
  intros Hn Ho. unfold ComputeDelta. set (m := fold_left _ _ _).
  assert (umap_ok keq m) as Hm by (apply umap_loop_ok; [apply compute_delta_step_ok|done]).
  assert (umap_find keq k m = match umap_find keq k new_state with
    | Some n => delta_act (umap_find keq k old_state) n | None => umap_find keq k old_state end) as Hf.
  { apply (umap_loop_find keq); auto using compute_delta_step_ok, compute_delta_step_find. }
  rewrite compute_delta_close_find, Hf by done. unfold umap_contains.
  destruct (umap_find keq k new_state) as [n|]; [unfold delta_act; by repeat case_match|].
  by destruct (umap_find keq k old_state).
Qed.

(** *** [ComputeDeltaAfterglow] *)

Lemma delta_insert_ok e delta : umap_ok keq delta -> umap_ok keq (delta_insert keq e delta).
Proof. intros. unfold delta_insert. auto with collector. Qed.

Lemma delta_insert_find e delta k :
  umap_find keq k (delta_insert keq e delta) =
  match umap_find keq k delta with
  | Some s => Some s
  | None => if keq k e.1 then Some e.2 else None
  end.
Proof. apply umap_find_emplace, _. Qed.

Lemma change_active_parts n b :
  ChangeConnToActiveIfNeeded n b = ((n : T * ConnStatus).1, activated n.2 b).
Proof. unfold ChangeConnToActiveIfNeeded, activated. destruct n. by case_match. Qed.

(** One iteration of each loop adds at most one entry, for its own key. *)
Lemma afterglow_insert_find delta k (e : option ConnStatus) k' :
  umap_find keq k' (match e with Some s => delta_insert keq (k, s) delta | None => delta end) =
  if keq k' k then match umap_find keq k' delta with Some s => Some s | None => e end
  else umap_find keq k' delta.
Proof.
  destruct e as [s|].
  - rewrite delta_insert_find. simpl. destruct (umap_find keq k' delta); by destruct (keq k' k).
  - destruct (keq k' k); [by destruct (umap_find keq k' delta)|done].
Qed.

Lemma afterglow_insert_ok delta k (e : option ConnStatus) :
  umap_ok keq delta ->
  umap_ok keq (match e with Some s => delta_insert keq (k, s) delta | None => delta end).
Proof. destruct e; auto using delta_insert_ok. Qed.

(** A loop whose body adds at most one entry [e k w] for the key [k]. *)
Lemma insert_loop_find {W} (e : T -> W -> option ConnStatus) (n : UMap T W) delta k :
  (forall k1 k2 w, keq k1 k2 = true -> e k1 w = e k2 w) ->
  umap_ok keq delta -> umap_ok keq n ->
  umap_find keq k (fold_left (fun d kw =>
    match e kw.1 kw.2 with Some s => delta_insert keq (kw.1, s) d | None => d end) n delta) =
  match umap_find keq k delta with
  | Some s => Some s
  | None => match umap_find keq k n with Some w => e k w | None => None end
  end.
Proof.
  intros He Hd. revert delta Hd. induction n as [|[k0 w0] r IH]; intros delta Hd Hn; simpl.
  - by destruct (umap_find keq k delta).
  - destruct Hn as [Hk0 Hr]. rewrite IH by auto using afterglow_insert_ok.
    rewrite afterglow_insert_find. destruct (keq k k0) eqn:E; [|done].
    destruct (umap_find keq k delta); [done|]. rewrite (umap_find_proper keq k k0), Hk0 by done.
    rewrite <- (He k k0) by done. by destruct (e k w0).
Qed.

Lemma insert_loop_ok {W} (e : T -> W -> option ConnStatus) (n : UMap T W) delta :
  umap_ok keq delta ->
  umap_ok keq (fold_left (fun d kw =>
    match e kw.1 kw.2 with Some s => delta_insert keq (kw.1, s) d | None => d end) n delta).
Proof. revert delta. induction n; intros delta Hd; simpl; auto using afterglow_insert_ok. Qed.

(** The two loops as loops of at most one insertion. *)
Lemma ComputeDeltaAfterglow_loops new_state old_state delta t tl p :
  ComputeDeltaAfterglow keq new_state old_state delta t tl p =
  fold_left (fun d kw => match (fun k (o : ConnStatus) =>
      match umap_find keq k new_state with
      | Some _ => None | None => afterglow_spec t tl p None (Some o) end) kw.1 kw.2
    with Some s => delta_insert keq (kw.1, s) d | None => d end) old_state
    (fold_left (fun d kw => match (fun k n => afterglow_spec t tl p (Some n) (umap_find keq k old_state))
        kw.1 kw.2
      with Some s => delta_insert keq (kw.1, s) d | None => d end) new_state delta).
Proof.
  unfold ComputeDeltaAfterglow. erewrite fold_left_ext, (fold_left_ext _ _ new_state).
  - reflexivity.
  - intros d [k n]. unfold ComputeDeltaForAConnectionInOldAndNewStates,
      ComputeDeltaForAConnectionInNewState. rewrite change_active_parts. simpl.
    destruct (umap_find keq k old_state) as [o|]; [|done].
    destruct (Bool.eqb _ _); simpl; [|done].
    destruct (WasRecentlyActive n t p); simpl; [done|]. by destruct (_ <? _).
  - intros d [k o]. unfold CheckIfOldConnShouldBeInactiveInDelta, umap_contains. simpl.
    destruct (umap_find keq k new_state); [done|].
    destruct (WasRecentlyActive o tl p); simpl; [|done]. by destruct (IsInAfterglowPeriod o t p).
Qed.

Lemma ComputeDeltaAfterglow_ok new_state old_state delta t tl p :
  umap_ok keq delta -> umap_ok keq (ComputeDeltaAfterglow keq new_state old_state delta t tl p).
Proof.
  intros Hd. rewrite ComputeDeltaAfterglow_loops.
  apply (insert_loop_ok (fun k o => match umap_find keq k new_state with
    | Some _ => None | None => afterglow_spec t tl p None (Some o) end)).
  apply (insert_loop_ok (fun k n => afterglow_spec t tl p (Some n) (umap_find keq k old_state))). done.
Qed.

Lemma ComputeDeltaAfterglow_find new_state old_state t tl p k :
  umap_ok keq new_state -> umap_ok keq old_state ->
  umap_find keq k (ComputeDeltaAfterglow keq new_state old_state [] t tl p) =
  afterglow_spec t tl p (umap_find keq k new_state) (umap_find keq k old_state).
Proof.
  intros Hn Ho. rewrite ComputeDeltaAfterglow_loops.
  rewrite (insert_loop_find (fun k o => match umap_find keq k new_state with
    | Some _ => None | None => afterglow_spec t tl p None (Some o) end)).
  - rewrite (insert_loop_find (fun k n => afterglow_spec t tl p (Some n) (umap_find keq k old_state))).
    + simpl umap_find at 1. cbn match.
      destruct (umap_find keq k new_state) as [n|]; [|by destruct (umap_find keq k old_state)].
      destruct (afterglow_spec _ _ _ _ _); [done|]. by destruct (umap_find keq k old_state).
    + intros k1 k2 w E. by rewrite (umap_find_proper keq k1 k2).
    + done.
    + done.
  - intros k1 k2 w E. by rewrite (umap_find_proper keq k1 k2).
  - apply (insert_loop_ok (fun k n => afterglow_spec t tl p (Some n) (umap_find keq k old_state))). done.
  - done.
Qed.

End delta_proofs.

#[export] Hint Resolve UpdateOldState_ok ComputeDelta_ok ComputeDeltaAfterglow_ok : collector.

(** ** What the receiver knows

    The receiver keeps, for every key, whether the last update it got was an
    active one.  The sender keeps the state of the last scrape; after each
    scrape it sends the delta and moves on. *)

Section receiver.
Context {T : Type} (keq : T -> T -> bool).

Definition receive (delta : UMap T ConnStatus) (view : T -> bool) : T -> bool :=
  fun k => match umap_find keq k delta with Some s => IsActive s | None => view k end.

(** A scrape without afterglow: [old_conn_state = new_conn_state] at the end. *)
Definition plain_step (st : UMap T ConnStatus * (T -> bool)) (new_state : UMap T ConnStatus)
    : UMap T ConnStatus * (T -> bool) :=
  (new_state, receive (ComputeDelta keq new_state st.1) st.2).

(** The sender with afterglow: old state, time of the last scrape; and the
    view of the receiver. *)
Record glow_state := mkGlow {
  glow_old : UMap T ConnStatus; glow_time : Z; glow_view : T -> bool
}.

Definition glow_step (p : Z) (st : glow_state) (scrape : UMap T ConnStatus * Z) : glow_state :=
  let '(new_state, t) := scrape in
  mkGlow (UpdateOldState keq (glow_old st) new_state t p) t
    (receive (ComputeDeltaAfterglow keq new_state (glow_old st) [] t (glow_time st) p) (glow_view st)).

Definition glow_init (t : Z) : glow_state := mkGlow [] t (fun _ => false).

(** Clock readings that do not go backwards. *)
Fixpoint times_from (t : Z) (scrapes : list (UMap T ConnStatus * Z)) : Prop :=
  match scrapes with
  | [] => True
  | (_, t') :: r => t <= t' /\ times_from t' r
  end.

(** The last status of a key, in a history with the latest scrape first. *)
Fixpoint last_seen (k : T) (history : list (UMap T ConnStatus * Z)) : option ConnStatus :=
  match history with
  | [] => None
  | (m, _) :: r => match umap_find keq k m with Some s => Some s | None => last_seen k r end
  end.

(** A key should be open when its last status is active and comes from the
    latest scrape, or when its last activity is less than [p] ago. *)
Definition should_be_open (p : Z) (k : T) (history : list (UMap T ConnStatus * Z)) : bool :=
  match history with
  | [] => false
  | (m, t) :: r =>
      match last_seen k history with
      | Some s => (umap_contains keq k m && IsActive s) || IsInAfterglowPeriod s t p
      | None => false
      end
  end.

End receiver.

Arguments glow_state T : clear implicits.

Section receiver_proofs.
Context {T : Type} (keq : T -> T -> bool) `{!KeyEquiv keq}.
Implicit Types (m : UMap T ConnStatus) (k : T).

Definition active_in (k : T) m : bool :=
  match umap_find keq k m with Some s => IsActive s | None => false end.

Lemma plain_step_view m old view k :
  umap_ok keq m -> umap_ok keq old -> view k = active_in k old ->
  receive keq (ComputeDelta keq m old) view k = active_in k m.
Proof.
  intros Hm Ho Hv. unfold receive. rewrite ComputeDelta_find by done. rewrite Hv. unfold active_in.
  destruct (umap_find keq k m) as [n|], (umap_find keq k old) as [o|]; simpl; try done.
  - destruct (Bool.eqb_spec (IsActive n) (IsActive o)) as [E|]; [|done].
    destruct (negb (IsActive n) && _); congruence.
  - destruct (IsActive o); [apply IsActive_cleared|done].
Qed.

Lemma plain_run_view ms old view k :
  Forall (umap_ok keq) ms -> umap_ok keq old -> view k = active_in k old ->
  (fold_left (plain_step keq) ms (old, view)).2 k = active_in k (List.last ms old).
Proof.
  intros Hms. revert old view. induction Hms as [|m ms Hm Hms IH]; intros old view Ho Hv; [done|].
  cbn [fold_left]. unfold plain_step at 2. simpl fst. simpl snd.
  rewrite IH by auto using plain_step_view. by rewrite last_cons_default.
Qed.

Lemma active_activated s b : IsActive (activated s b) = b || IsActive s.
Proof.
  unfold activated. destruct b; simpl; [|done]. destruct (IsActive s) eqn:E; simpl; [done|].
  apply IsActive_make.
Qed.

(** The invariant of a run with afterglow. *)
Definition glow_inv (p : Z) (history : list (UMap T ConnStatus * Z)) (st : glow_state T) : Prop :=
  umap_ok keq (glow_old st) /\
  (forall k, umap_find keq k (glow_old st) =
    match history with
    | [] => None
    | (m, _) :: _ =>
        match last_seen keq k history with
        | Some s => if umap_contains keq k m || IsInAfterglowPeriod s (glow_time st) p then Some s else None
        | None => None
        end
    end) /\
  (forall k, glow_view st k =
    match umap_find keq k (glow_old st) with
    | Some o => WasRecentlyActive o (glow_time st) p
    | None => false
    end).

Lemma glow_step_view p st m t k :
  umap_ok keq m -> umap_ok keq (glow_old st) -> glow_time st <= t ->
  glow_view st k = match umap_find keq k (glow_old st) with
    | Some o => WasRecentlyActive o (glow_time st) p | None => false end ->
  glow_view (glow_step keq p st (m, t)) k =
  match umap_find keq k (UpdateOldState keq (glow_old st) m t p) with
  | Some o => WasRecentlyActive o t p | None => false end.
Proof.
  intros Hm Ho Ht Hv. simpl. unfold receive. rewrite ComputeDeltaAfterglow_find, UpdateOldState_find by done.
  rewrite Hv. destruct (umap_find keq k m) as [n|], (umap_find keq k (glow_old st)) as [o|]; simpl; try done.
  - destruct (Bool.eqb_spec (WasRecentlyActive n t p) (WasRecentlyActive o (glow_time st) p)) as [E|E].
    + rewrite <- E. unfold WasRecentlyActive. destruct (IsActive n) eqn:En; simpl; [done|].
      destruct (IsInAfterglowPeriod n t p); simpl; [done|]. by destruct (_ <? _).
    + rewrite active_activated. unfold WasRecentlyActive. by destruct (IsActive n), (IsInAfterglowPeriod n t p).
  - rewrite active_activated. unfold WasRecentlyActive. by destruct (IsActive n), (IsInAfterglowPeriod n t p).
  - destruct (IsInAfterglowPeriod o t p) eqn:Eg; simpl.
    + rewrite andb_false_r. pose proof (afterglow_monotone _ _ (glow_time st) _ Ht Eg) as Eg'.
      unfold WasRecentlyActive. by rewrite Eg, Eg', !orb_true_r.
    + rewrite andb_true_r. destruct (WasRecentlyActive o (glow_time st) p); [apply IsActive_make|done].
Qed.

Lemma glow_inv_step p history st m t :
  umap_ok keq m -> glow_time st <= t -> glow_inv p history st ->
  glow_inv p ((m, t) :: history) (glow_step keq p st (m, t)).
Proof.
  intros Hm Ht (Hok & Hold & Hview). split_and!.
  - simpl. auto with collector.
  - intros k. cbn [glow_step glow_old glow_time]. rewrite UpdateOldState_find, Hold by done.
    cbn [last_seen]. unfold umap_contains. destruct (umap_find keq k m) as [n|]; [done|]. simpl.
    destruct history as [|[m' t'] r]; [done|].
    destruct (last_seen keq k ((m', t') :: r)) as [s|]; [|done].
    destruct (IsInAfterglowPeriod s t p) eqn:Eg.
    + rewrite (afterglow_monotone _ _ _ _ Ht Eg), orb_true_r. simpl. by rewrite Eg.
    + destruct (_ || _); simpl; [by rewrite Eg|done].
  - intros k. rewrite glow_step_view by auto. done.
Qed.

Lemma glow_inv_run p scrapes history st :
  Forall (fun sc => umap_ok keq sc.1) scrapes -> times_from (glow_time st) scrapes ->
  glow_inv p history st ->
  glow_inv p (rev scrapes ++ history) (fold_left (glow_step keq p) scrapes st).
Proof.
  intros Hs. revert history st. induction Hs as [|[m t] r Hm Hr IH]; intros history st Ht Hinv; [done|].
  destruct Ht as [Ht Htr]. simpl rev. rewrite <- app_assoc. apply IH; [done|].
  by apply glow_inv_step.
Qed.

Lemma glow_inv_init p t : glow_inv p [] (glow_init t).
Proof. done. Qed.

Lemma glow_inv_open p history st k :
  glow_inv p history st ->
  (forall m t r, history = (m, t) :: r -> glow_time st = t) ->
  glow_view st k = should_be_open keq p k history.
Proof.
  intros (_ & Hold & Hview) Ht. rewrite Hview, Hold. destruct history as [|[m t] r]; [done|].
  rewrite (Ht m t r) by done. unfold should_be_open.
  destruct (last_seen keq k _) as [s|]; [|done]. unfold WasRecentlyActive.
  destruct (umap_contains keq k m); simpl; [done|].
  destruct (IsInAfterglowPeriod s t p) eqn:E; [|done]. by rewrite E, orb_true_r.
Qed.

Lemma glow_run_time p scrapes st m t r :
  rev scrapes = (m, t) :: r -> glow_time (fold_left (glow_step keq p) scrapes st) = t.
Proof.
  intros H. apply (f_equal (@rev _)) in H. rewrite rev_involutive in H. subst scrapes.
  simpl. by rewrite fold_left_app.
Qed.

(** ** Properties *)

(** [ComputeDelta], key by key: a new object is reported as it is; a
    known object is reported when its activity changed, or when it stays
    inactive and has been seen more recently; an object that disappeared is
    reported as closed (with its last time) if it was active; nothing else is
    reported, and no key twice. *)
Theorem ComputeDelta_exact new_state old_state :
  umap_ok keq new_state -> umap_ok keq old_state ->
  umap_ok keq (ComputeDelta keq new_state old_state) /\
  forall k, umap_find keq k (ComputeDelta keq new_state old_state) =
    delta_spec (umap_find keq k new_state) (umap_find keq k old_state).
Proof. intros Hn Ho. split; [by apply ComputeDelta_ok|]. intros k. by apply ComputeDelta_find. Qed.

(** C2: the receiver of the plain deltas always knows the active keys: after
    any sequence of scrapes, the keys it holds open are exactly the keys that
    are active in the last scraped state. *)
Theorem plain_deltas_track_active states k :
  Forall (umap_ok keq) states ->
  (fold_left (plain_step keq) states ([], fun _ => false)).2 k = active_in k (List.last states []).
Proof. intros Hs. by apply plain_run_view. Qed.

(** C1: the receiver of the deltas with afterglow: after any sequence of
    scrapes with clock readings that do not go backwards, the receiver holds a
    key open exactly when the key is active in the latest scrape or its last
    known activity is less than the afterglow period before the latest scrape,
    however long ago the key was last scraped. *)
Theorem afterglow_deltas_track_recent p t0 scrapes k :
  Forall (fun sc => umap_ok keq sc.1) scrapes -> times_from t0 scrapes ->
  glow_view (fold_left (glow_step keq p) scrapes (glow_init t0)) k =
  should_be_open keq p k (rev scrapes).
Proof.
  intros Hs Ht. pose proof (glow_inv_run p scrapes [] (glow_init t0) Hs Ht (glow_inv_init p t0)) as Hinv.
  rewrite app_nil_r in Hinv. apply (glow_inv_open _ _ _ k Hinv).
  intros m t r Hr. by eapply glow_run_time.
Qed.

End receiver_proofs.

(** ** Witnesses: integer keys, a connection that stops and then expires *)

Lemma ComputeDelta_exact_witness :
  umap_find Z.eqb 7 (ComputeDelta Z.eqb [(5, ConnStatus_make 9 true)] [(7, ConnStatus_make 3 true)]) =
  Some (ConnStatus_make 3 false).
Proof.
  assert (KeyEquiv Z.eqb) as HK by (constructor; intros *; rewrite !Z.eqb_eq; congruence).
  destruct (ComputeDelta_exact Z.eqb [(5, ConnStatus_make 9 true)] [(7, ConnStatus_make 3 true)])
    as [_ ->]; [split; reflexivity || exact I|split; reflexivity || exact I|].
  vm_compute. reflexivity.
Defined.

Lemma plain_deltas_track_active_witness :
  (fold_left (plain_step Z.eqb) [[(5, ConnStatus_make 9 true)]; [(5, ConnStatus_make 9 false)]]
    ([], fun _ => false)).2 5 = false.
Proof.
  assert (KeyEquiv Z.eqb) as HK by (constructor; intros *; rewrite !Z.eqb_eq; congruence).
  rewrite (plain_deltas_track_active Z.eqb).
  - vm_compute. reflexivity.
  - repeat constructor.
Defined.

Lemma afterglow_deltas_track_recent_witness :
  let scrapes := [([(5, ConnStatus_make 9 true)], 10); ([(5, ConnStatus_make 11 false)], 20); ([], 30)] in
  glow_view (fold_left (glow_step Z.eqb 15) scrapes (glow_init 0)) 5 = false /\
  glow_view (fold_left (glow_step Z.eqb 20) scrapes (glow_init 0)) 5 = true.
Proof.
  assert (KeyEquiv Z.eqb) as HK by (constructor; intros *; rewrite !Z.eqb_eq; congruence).
  cbv zeta. rewrite !(afterglow_deltas_track_recent Z.eqb).
  - vm_compute. split; reflexivity.
  - repeat constructor.
  - simpl. lia.
  - repeat constructor.
  - simpl. lia.
Defined.
