(* ===== verification/RateLimit.v ===== *)
(** * Rate limiting ([RateLimit.h], [RateLimit.cpp], [TimeUtil.h])

    A token bucket refilled by a clock, a cache of buckets, and a plain
    counter per key.  The clock is outside the program: each reading of
    [NowMicros()] is an argument, in the order in which the code takes them. *)

From S2P Require Import Prelude UMap Connection.

(** ** Token buckets *)

Record TokenBucket := mkTokenBucket { tokens : Z; last_time : Z }.
Definition TokenBucket_default : TokenBucket := mkTokenBucket 0 0.

Record TimeLimiter := mkTimeLimiter { burst_size_ : Z; refill_time_ : Z }.

(** The constructor takes seconds; the field is in microseconds. *)
Definition TimeLimiter_make (burst_size refill_time : Z) : TimeLimiter :=
  mkTimeLimiter burst_size (refill_time * 1000000).

(** The readings of one call of [AllowN]: by the first [fill_bucket], by
    [refill_count], and by the second [fill_bucket]. *)
Record Readings := mkReadings { now_first : Z; now_refill : Z; now_last : Z }.

Definition refill_count (l : TimeLimiter) (b : TokenBucket) (now : Z) : Z :=
  Z.quot (now - last_time b) (refill_time_ l).

Definition fill_bucket (l : TimeLimiter) (now : Z) : TokenBucket := mkTokenBucket (burst_size_ l) now.

Definition Tokens (l : TimeLimiter) (b : TokenBucket) (now : Z) : Z :=
  Z.min (burst_size_ l) (tokens b + refill_count l b now * burst_size_ l).

Definition AllowN (l : TimeLimiter) (b : TokenBucket) (n : Z) (r : Readings) : TokenBucket * bool :=
  let b := if last_time b =? 0 then fill_bucket l (now_first r) else b in
  let refill := refill_count l b (now_refill r) in
  let b := mkTokenBucket (tokens b + refill * burst_size_ l) (last_time b + refill * refill_time_ l) in
  let b := if burst_size_ l <=? tokens b then fill_bucket l (now_last r) else b in
  if tokens b <? n then (b, false)
  else (mkTokenBucket (tokens b - n) (last_time b), true).

Definition Allow (l : TimeLimiter) (b : TokenBucket) (r : Readings) : TokenBucket * bool :=
  AllowN l b 1 r.

(** ** The cache of buckets

    [limiter_] is a [unique_ptr]; dereferencing it when it is null is [None]. *)

Record RateLimitCache := mkRateLimitCache {
  capacity_ : Z; limiter_ : option TimeLimiter; cache_ : UMap string TokenBucket
}.

Definition RateLimitCache_make (capacity burst_size refill_time : Z) : RateLimitCache :=
  mkRateLimitCache capacity (Some (TimeLimiter_make burst_size refill_time)) [].
Definition RateLimitCache_default : RateLimitCache := RateLimitCache_make 4096 10 (30 * 60).

Definition ResetRateLimitCache (c : RateLimitCache) : RateLimitCache :=
  mkRateLimitCache (capacity_ c) None (cache_ c).

Definition cache_size {V} (m : UMap string V) : Z := Z.of_nat (length m).

Definition RateLimitCache_Allow (c : RateLimitCache) (key : string) (r : Readings)
    : option (RateLimitCache * bool) :=
  let '(cache, inserted) := umap_emplace String.eqb key TokenBucket_default (cache_ c) in
  if inserted && (capacity_ c <? cache_size cache)
  then Some (mkRateLimitCache (capacity_ c) (limiter_ c) [], true)
  else
    match limiter_ c with
    | None => None
    | Some l =>
        let b := default TokenBucket_default (umap_find String.eqb key cache) in
        let '(b', allowed) := Allow l b r in
        Some (mkRateLimitCache (capacity_ c) (limiter_ c)
                (umap_update String.eqb (fun _ => b') key cache), allowed)
    end.

(** ** The counter *)

Record CountLimiter := mkCountLimiter { count_ : Z; count_cache_ : UMap string TokenBucket }.
Definition CountLimiter_default : CountLimiter := mkCountLimiter 4096 [].
Definition CountLimiter_make (count : Z) : CountLimiter := mkCountLimiter count [].

Definition CountLimiter_Allow (c : CountLimiter) (key : string) : CountLimiter * bool :=
  let cache := (umap_emplace String.eqb key TokenBucket_default (count_cache_ c)).1 in
  let bump b := mkTokenBucket (tokens b + 1) (last_time b) in
  let cache := umap_update String.eqb bump key cache in
  let n := from_option tokens 0 (umap_find String.eqb key cache) in
  (mkCountLimiter (count_ c) cache, n <=? count_ c).

(** A sequence of calls, with the answers. *)
Fixpoint CountLimiter_run (c : CountLimiter) (keys : list string) : list bool :=
  match keys with
  | [] => []
  | k :: r => let '(c', ok) := CountLimiter_Allow c k in ok :: CountLimiter_run c' r
  end.

Fixpoint Allow_run (l : TimeLimiter) (b : TokenBucket) (rs : list Readings) : TokenBucket * list bool :=
  match rs with
  | [] => (b, [])
  | r :: rs =>
      let '(b', ok) := Allow l b r in
      let '(b'', oks) := Allow_run l b' rs in (b'', ok :: oks)
  end.

(** ** Token bucket: how many calls are allowed *)

Section bucket.
Variable l : TimeLimiter.
Hypothesis Hburst : 0 <= burst_size_ l.
Hypothesis Hrefill : 0 < refill_time_ l.

(** Readings after the epoch that do not go backwards, from time [t] on. *)
Fixpoint readings_from (t : Z) (rs : list Readings) : Prop :=
  match rs with
  | [] => True
  | r :: rs =>
      0 < now_first r /\ t <= now_first r <= now_refill r /\ now_refill r <= now_last r /\
      readings_from (now_last r) rs
  end.

Definition bucket_ok (t : Z) (b : TokenBucket) : Prop :=
  0 <= tokens b <= burst_size_ l /\ 0 <= last_time b <= t.

Definition allowed_count (oks : list bool) : Z := Z.of_nat (length (filter (fun b => b = true) oks)).

(** Refilling: what one call does before it takes its token. *)
Definition refilled (b : TokenBucket) (r : Readings) : TokenBucket :=
  let b := if last_time b =? 0 then fill_bucket l (now_first r) else b in
  let refill := refill_count l b (now_refill r) in
  let b := mkTokenBucket (tokens b + refill * burst_size_ l) (last_time b + refill * refill_time_ l) in
  if burst_size_ l <=? tokens b then fill_bucket l (now_last r) else b.

Lemma Allow_refilled b r :
  Allow l b r = let b' := refilled b r in
  if tokens b' <? 1 then (b', false) else (mkTokenBucket (tokens b' - 1) (last_time b'), true).
Proof. done. Qed.

(** Number of refill periods since the first reading [t0]. *)
Definition periods (t0 t : Z) : Z := (t - t0) / refill_time_ l.

Lemma periods_shift t0 t k : periods t0 (t + k * refill_time_ l) = periods t0 t + k.
Proof.
  unfold periods. replace (t + k * refill_time_ l - t0) with (t - t0 + k * refill_time_ l) by lia.
  by rewrite Z.div_add by lia.
Qed.

Lemma periods_mono t0 t t' : t <= t' -> periods t0 t <= periods t0 t'.
Proof. intros. apply Z.div_le_mono; lia. Qed.

(** A bucket in use: at most the tokens of the periods elapsed since [t0]
    have been put in; [used] were taken out. *)
Definition budget (t0 used : Z) (b : TokenBucket) : Prop :=
  used + tokens b <= burst_size_ l * (1 + periods t0 (last_time b)).

Lemma refill_steps b now :
  last_time b <= now ->
  0 <= refill_count l b now /\ last_time b + refill_count l b now * refill_time_ l <= now.
Proof.
  intros H. unfold refill_count. rewrite Z.quot_div_nonneg by lia.
  pose proof (Z.div_pos (now - last_time b) (refill_time_ l) ltac:(lia) Hrefill).
  pose proof (Z.mul_div_le (now - last_time b) (refill_time_ l) Hrefill). lia.
Qed.

Lemma refilled_ok t b r :
  bucket_ok t b -> 0 < now_first r -> t <= now_first r <= now_refill r -> now_refill r <= now_last r ->
  bucket_ok (now_last r) (refilled b r) /\ 0 < last_time (refilled b r).
Proof.
  intros Hb Ht0 Ht Ht2. unfold refilled. set (b1 := if _ =? _ then _ else _).
  assert (0 <= tokens b1 <= burst_size_ l /\ 0 < last_time b1 <= now_refill r) as [Hb1 Hl1].
  { subst b1. unfold bucket_ok in Hb. destruct (Z.eqb_spec (last_time b) 0); simpl; lia. }
  destruct (refill_steps b1 (now_refill r) ltac:(lia)) as [Hc1 Hc2].
  cbn [tokens last_time]. destruct (Z.leb_spec (burst_size_ l) (tokens b1 + refill_count l b1 (now_refill r) * burst_size_ l)) as [Hge|Hlt];
    unfold bucket_ok, fill_bucket; cbn [tokens last_time]; nia.
Qed.

Lemma refilled_budget t0 used b r :
  budget t0 used b -> 0 < last_time b <= now_refill r -> now_refill r <= now_last r ->
  budget t0 used (refilled b r).
Proof.
  intros Hb Hl Hr. unfold refilled. rewrite (proj2 (Z.eqb_neq (last_time b) 0)) by lia.
  destruct (refill_steps b (now_refill r) ltac:(lia)) as [Hc1 Hc2].
  set (c := refill_count l b (now_refill r)) in *. unfold budget in *. cbn [tokens last_time].
  destruct (Z.leb_spec (burst_size_ l) (tokens b + c * burst_size_ l)); cbn [tokens last_time fill_bucket].
  - pose proof (periods_mono t0 (last_time b + c * refill_time_ l) (now_last r) ltac:(lia)) as Hm.
    rewrite periods_shift in Hm. nia.
  - rewrite periods_shift. nia.
Qed.

(** A whole run on a bucket that is in use. *)
Lemma Allow_run_budget t0 t rs b used :
  bucket_ok t b -> 0 < last_time b -> budget t0 used b -> readings_from t rs ->
  let '(b', oks) := Allow_run l b rs in
  budget t0 (used + allowed_count oks) b' /\
  bucket_ok (List.last (map now_last rs) t) b'.
Proof.
  revert t b used. induction rs as [|r rs IH]; intros t b used Hb Hpos Hbud Hrs.
  { simpl. rewrite Z.add_0_r. done. }
  destruct Hrs as (H0 & H1 & H2 & Hrs).
  destruct (refilled_ok t b r Hb H0 H1 H2) as [Hok Hpos'].
  assert (budget t0 used (refilled b r)) as Hbud'.
  { apply refilled_budget; [done| |done]. unfold bucket_ok in Hb. lia. }
  cbn [Allow_run map]. rewrite last_cons_default, Allow_refilled. cbv zeta.
  destruct (Z.ltb_spec (tokens (refilled b r)) 1) as [Hlt|Hge].
  - specialize (IH (now_last r) (refilled b r) used Hok Hpos' Hbud' Hrs).
    by destruct (Allow_run l (refilled b r) rs) as [b' oks].
  - set (b1 := mkTokenBucket (tokens (refilled b r) - 1) (last_time (refilled b r))).
    assert (bucket_ok (now_last r) b1) as Hok1 by (unfold bucket_ok, b1 in *; simpl; lia).
    assert (budget t0 (used + 1) b1) as Hbud1 by (unfold budget, b1 in *; simpl; lia).
    specialize (IH (now_last r) b1 (used + 1) Hok1 Hpos' Hbud1 Hrs).
    destruct (Allow_run l b1 rs) as [b' oks]. destruct IH as [IHb IHo]. split; [|done].
    replace (used + allowed_count (true :: oks)) with (used + 1 + allowed_count oks); [done|].
    unfold allowed_count. rewrite filter_cons_True by done. simpl length. lia.
Qed.

(** The first call on a fresh bucket fills it. *)
Lemma fresh_run_same r rs :
  Allow_run l TokenBucket_default (r :: rs) = Allow_run l (fill_bucket l (now_first r)) (r :: rs) \/
  now_first r = 0.
Proof.
  destruct (Z.eq_dec (now_first r) 0) as [|Hne]; [by right|left].
  cbn [Allow_run]. unfold Allow, AllowN. cbn [last_time TokenBucket_default fill_bucket Z.eqb].
  by rewrite (proj2 (Z.eqb_neq (now_first r) 0)).
Qed.

Lemma fresh_budget t0 : budget t0 0 (fill_bucket l t0).
Proof.
  unfold budget, periods, fill_bucket. simpl. rewrite Z.sub_diag, Z.div_0_l by lia. lia.
Qed.

End bucket.

(** ** Counters *)

Section counting.

Definition seen (k : string) (c : CountLimiter) : Z :=
  from_option tokens 0 (umap_find String.eqb k (count_cache_ c)).

Definition occurrences (k : string) (keys : list string) : Z :=
  Z.of_nat (count_occ String.string_dec keys k).

Lemma CountLimiter_Allow_seen c k k' :
  seen k' (CountLimiter_Allow c k).1 = seen k' c + (if String.eqb k' k then 1 else 0) /\
  count_ (CountLimiter_Allow c k).1 = count_ c /\
  (CountLimiter_Allow c k).2 = (seen k c + 1 <=? count_ c).
Proof.
  unfold CountLimiter_Allow, seen. cbn [fst snd count_ count_cache_].
  rewrite !(umap_find_update String.eqb), !(umap_find_emplace String.eqb), String.eqb_refl.
  split_and!; [|done|].
  - destruct (String.eqb k' k); destruct (umap_find String.eqb k' (count_cache_ c)); simpl; lia.
  - destruct (umap_find String.eqb k (count_cache_ c)); done.
Qed.

Lemma CountLimiter_run_nth c keys (i : nat) k :
  keys !! i = Some k ->
  CountLimiter_run c keys !! i =
  Some (seen k c + occurrences k (take (S i) keys) <=? count_ c).
Proof.
  revert c i. induction keys as [|k0 keys IH]; intros c i Hi; [done|].
  pose proof (CountLimiter_Allow_seen c k0 k) as (Hs & Hc & Ha). cbn [CountLimiter_run].
  destruct (CountLimiter_Allow c k0) as [c' ok] eqn:E. simpl in Hs, Hc, Ha.
  destruct i as [|i].
  - simpl in Hi. injection Hi as ->. simpl. rewrite Ha. unfold occurrences. simpl.
    destruct (String.string_dec k k); [done|congruence].
  - simpl in Hi. cbn [lookup list_lookup]. change (CountLimiter_run c' keys !! i = Some (seen k c + occurrences k (take (S (S i)) (k0 :: keys)) <=? count_ c)).
    rewrite IH by done. rewrite Hs, Hc. f_equal. f_equal. unfold occurrences.
    cbn [take count_occ]. destruct (String.string_dec k0 k) as [->|Hne].
    + rewrite String.eqb_refl. lia.
    + rewrite (proj2 (String.eqb_neq k k0)) by congruence. lia.
Qed.

End counting.

(** ** Properties *)

(** C37: the token bucket limits the rate: on a fresh bucket, with clock
    readings that do not go backwards, the number of allowed calls is at most
    the burst size times one plus the number of whole refill periods between
    the first and the last reading. *)
Theorem TimeLimiter_rate l r rs :
  0 <= burst_size_ l -> 0 < refill_time_ l -> readings_from 0 (r :: rs) ->
  let '(_, oks) := Allow_run l TokenBucket_default (r :: rs) in
  allowed_count oks <=
  burst_size_ l * (1 + (List.last (map now_last (r :: rs)) 0 - now_first r) / refill_time_ l).
Proof.
  intros Hb Hr Hrs. pose proof Hrs as (H0 & H1 & H2 & H3).
  destruct (fresh_run_same l r rs) as [->|]; [|lia].
  assert (readings_from (now_first r) (r :: rs)) as Hrs' by (split_and!; done || lia).
  pose proof (Allow_run_budget l Hb Hr (now_first r) (now_first r) (r :: rs)
    (fill_bucket l (now_first r)) 0) as Hrun.
  destruct (Allow_run l (fill_bucket l (now_first r)) (r :: rs)) as [b' oks].
  destruct Hrun as [Hbud [Ht Hl]]; [unfold bucket_ok; simpl; lia|done|by apply fresh_budget|done|].
  unfold budget, periods in Hbud. cbn [map] in *. rewrite last_cons_default in *.
  pose proof (Z.div_le_mono (last_time b' - now_first r)
    (List.last (map now_last rs) (now_last r) - now_first r) (refill_time_ l) Hr ltac:(simpl in *; lia)).
  nia.
Qed.

(** The token bucket does not starve a caller: once a refill period has
    passed since the bucket was last filled, the next call is allowed. *)
Theorem TimeLimiter_refills l b r :
  1 <= burst_size_ l -> 0 < refill_time_ l -> 0 <= tokens b ->
  last_time b <> 0 -> last_time b + refill_time_ l <= now_refill r ->
  (Allow l b r).2 = true.
Proof.
  intros Hb Hr Ht Hl Hn. unfold Allow, AllowN.
  rewrite (proj2 (Z.eqb_neq (last_time b) 0)) by done. cbn [tokens last_time].
  assert (1 <= refill_count l b (now_refill r)) as Hc.
  { unfold refill_count. rewrite Z.quot_div_nonneg by lia. apply Z.div_le_lower_bound; lia. }
  rewrite (proj2 (Z.leb_le (burst_size_ l) _)) by nia. cbn [tokens fill_bucket].
  by rewrite (proj2 (Z.ltb_ge _ _)) by lia.
Qed.

(** The cache never holds more entries than its capacity: [Allow] either
    clears it or leaves at most [capacity_] buckets. *)
Theorem RateLimitCache_bounded c key r c' ok :
  0 <= capacity_ c -> cache_size (cache_ c) <= capacity_ c ->
  RateLimitCache_Allow c key r = Some (c', ok) ->
  capacity_ c' = capacity_ c /\ cache_size (cache_ c') <= capacity_ c'.
Proof.
  intros Hc Hs. unfold RateLimitCache_Allow.
  pose proof (umap_emplace_added String.eqb key TokenBucket_default (cache_ c)) as Ha.
  destruct (umap_emplace _ _ _ (cache_ c)) as [cache inserted] eqn:E. simpl in Ha.
  assert (inserted = false -> cache = cache_ c) as Hsame.
  { intros ->. unfold umap_emplace in E. by destruct (umap_contains _ _ _); simplify_eq. }
  destruct (inserted && (capacity_ c <? cache_size cache)) eqn:Ef.
  - intros [= <- <-]. simpl. unfold cache_size. simpl. lia.
  - destruct (limiter_ c) as [l|]; [|done]. destruct (Allow l _ r) as [b' allowed].
    intros [= <- <-]. cbn [capacity_ cache_]. split; [done|].
    assert (cache_size (umap_update String.eqb (fun _ => b') key cache) = cache_size cache) as ->.
    { unfold cache_size. f_equal. clear. induction cache as [|[k v] m IH]; simpl; [done|].
      destruct (String.eqb key k); simpl; by rewrite ?IH. }
    destruct inserted; simpl in Ef.
    + breflect. lia.
    + by rewrite Hsame.
Qed.

(** After [ResetRateLimitCache] the limiter is gone: the next call for a
    key dereferences the null limiter, unless it is the call that overflows
    the cache. *)
Theorem Allow_after_reset c key r :
  cache_size (cache_ c) < capacity_ c ->
  RateLimitCache_Allow (ResetRateLimitCache c) key r = None.
Proof.
  intros Hs. unfold RateLimitCache_Allow, ResetRateLimitCache. cbn [cache_ capacity_ limiter_].
  unfold umap_emplace. destruct (umap_contains _ _ _); [done|].
  unfold cache_size in *. rewrite length_app. simpl. by rewrite (proj2 (Z.ltb_ge _ _)) by lia.
Qed.

(** The counter allows exactly the first [count] calls of each key, in
    any interleaving with calls for other keys. *)
Theorem CountLimiter_first_n count keys (i : nat) k :
  keys !! i = Some k ->
  CountLimiter_run (CountLimiter_make count) keys !! i =
  Some (occurrences k (take (S i) keys) <=? count).
Proof. intros Hi. by rewrite CountLimiter_run_nth with (k := k). Qed.

(** ** Witnesses *)

Definition limiter_2_per_10 : TimeLimiter := mkTimeLimiter 2 10.

Lemma TimeLimiter_rate_witness :
  let at_ t := mkReadings t t t in
  allowed_count (Allow_run limiter_2_per_10 TokenBucket_default (map at_ [5; 5; 6; 15; 16; 17])).2 <= 4.
Proof.
  pose proof (TimeLimiter_rate limiter_2_per_10 (mkReadings 5 5 5)
    (map (fun t => mkReadings t t t) [5; 6; 15; 16; 17]) ltac:(simpl; lia) ltac:(simpl; lia)
    ltac:(simpl; lia)) as H.
  vm_compute in H |- *. exact H.
Defined.

Lemma TimeLimiter_refills_witness :
  (Allow limiter_2_per_10 (mkTokenBucket 0 5) (mkReadings 15 15 15)).2 = true.
Proof.
  apply TimeLimiter_refills; simpl; lia.
Defined.

Lemma RateLimitCache_bounded_witness :
  let c := RateLimitCache_make 1 2 5 in
  let c' := mkRateLimitCache 1 (limiter_ c) [("a"%string, mkTokenBucket 1 1)] in
  RateLimitCache_Allow c "a" (mkReadings 1 1 1) = Some (c', true) /\ cache_size (cache_ c') <= 1.
Proof.
  cbv zeta. assert (RateLimitCache_Allow (RateLimitCache_make 1 2 5) "a" (mkReadings 1 1 1) =
    Some (mkRateLimitCache 1 (limiter_ (RateLimitCache_make 1 2 5)) [("a"%string, mkTokenBucket 1 1)], true))
    as E by (vm_compute; reflexivity).
  split; [exact E|]. eapply (RateLimitCache_bounded (RateLimitCache_make 1 2 5)); [| |exact E].
  - vm_compute. discriminate.
  - vm_compute. discriminate.
Defined.

Lemma Allow_after_reset_witness :
  RateLimitCache_Allow (ResetRateLimitCache RateLimitCache_default) "a" (mkReadings 1 1 1) = None.
Proof. apply Allow_after_reset. vm_compute. reflexivity. Defined.

Lemma CountLimiter_first_n_witness :
  CountLimiter_run (CountLimiter_make 1) ["a"; "b"; "a"]%string !! 2%nat = Some false.
Proof. rewrite (CountLimiter_first_n 1 _ 2%nat "a"%string); vm_compute; reflexivity. Defined.
