(* ===== verification/CollectorStats.v ===== *)
(** * Metrics counters ([CollectorStats.h], [CollectorStats.cpp])

    The singleton's arrays, as maps from their index; every cell is an
    [int64_t] that starts at zero. *)

From S2P Require Import Prelude UMap.

Module Counter.
Inductive t :=
  | net_conn_updates | net_conn_deltas | net_conn_inactive | net_conn_rate_limited
  | net_cep_updates | net_cep_deltas | net_cep_inactive
  | net_known_ip_networks | net_known_public_ips
  | process_lineage_counts | process_lineage_total | process_lineage_sqr_total
  | process_lineage_string_total | process_info_hit | process_info_miss
  | rate_limit_flushing_counts
  | procfs_could_not_open_fd_dir | procfs_could_not_open_proc_dir | procfs_could_not_open_pid_dir
  | procfs_could_not_get_network_namespace | procfs_could_not_get_socket_inodes
  | procfs_could_not_read_exe | procfs_could_not_read_cmdline | procfs_zombie_process
  | event_timestamp_distant_past | event_timestamp_future.

#[global] Instance t_eq_dec : EqDecision t.
Proof. solve_decision. Defined.

Definition eqb (c d : t) : bool := bool_decide (c = d).

#[global] Instance eqb_equiv : KeyEquiv eqb.
Proof.
  unfold eqb. constructor; intros *; rewrite !bool_decide_eq_true; congruence.
Qed.
End Counter.

Module Timer.
Inductive t :=
  | net_scrape_read | net_scrape_update | net_fetch_state | net_create_message
  | net_write_message | process_info_wait.

#[global] Instance t_eq_dec : EqDecision t.
Proof. solve_decision. Defined.

Definition eqb (c d : t) : bool := bool_decide (c = d).

#[global] Instance eqb_equiv : KeyEquiv eqb.
Proof.
  unfold eqb. constructor; intros *; rewrite !bool_decide_eq_true; congruence.
Qed.
End Timer.

Record CollectorStats := mkStats {
  timer_count_ : UMap Timer.t Z; timer_total_us_ : UMap Timer.t Z; counter_ : UMap Counter.t Z
}.

(** [GetOrCreate] before any update, and [Reset]. *)
Definition Stats_Reset : CollectorStats := mkStats [] [] [].

Definition GetCounter (c : Counter.t) (s : CollectorStats) : Z :=
  default 0 (umap_find Counter.eqb c (counter_ s)).
Definition GetTimerCount (i : Timer.t) (s : CollectorStats) : Z :=
  default 0 (umap_find Timer.eqb i (timer_count_ s)).
Definition GetTimerDurationMicros (i : Timer.t) (s : CollectorStats) : Z :=
  default 0 (umap_find Timer.eqb i (timer_total_us_ s)).

Definition CounterSet (c : Counter.t) (val : Z) (s : CollectorStats) : CollectorStats :=
  mkStats (timer_count_ s) (timer_total_us_ s) (umap_assign Counter.eqb c (s64 val) (counter_ s)).
Definition CounterAdd (c : Counter.t) (val : Z) (s : CollectorStats) : CollectorStats :=
  CounterSet c (GetCounter c s + s64 val) s.
Definition COUNTER_INC (c : Counter.t) : CollectorStats -> CollectorStats := CounterAdd c 1.
Definition COUNTER_ZERO (c : Counter.t) : CollectorStats -> CollectorStats := CounterSet c 0.

Definition EndTimerAt (i : Timer.t) (duration_us : Z) (s : CollectorStats) : CollectorStats :=
  mkStats (umap_assign Timer.eqb i (s64 (GetTimerCount i s + 1)) (timer_count_ s))
    (umap_assign Timer.eqb i (s64 (GetTimerDurationMicros i s + duration_us)) (timer_total_us_ s))
    (counter_ s).

Lemma GetCounter_Set c c' v s :
  GetCounter c (CounterSet c' v s) = if Counter.eqb c c' then s64 v else GetCounter c s.
Proof.
  unfold GetCounter, CounterSet. cbn [counter_]. rewrite (umap_find_assign Counter.eqb).
  by destruct (Counter.eqb c c').
Qed.

Lemma GetCounter_Add c c' v s :
  GetCounter c (CounterAdd c' v s) =
  if Counter.eqb c c' then s64 (GetCounter c s + s64 v) else GetCounter c s.
Proof.
  unfold CounterAdd. rewrite GetCounter_Set. destruct (Counter.eqb c c') eqn:E; [|done].
  unfold Counter.eqb in E. apply bool_decide_eq_true in E. by subst.
Qed.
