(* ===== verification/ExternalIPs.v ===== *)
(** * The External-IPs setting ([ExternalIPsConfig.h], [ExternalIPsConfig.cpp]) *)

From S2P Require Import Prelude.

(** [ExternalIPsConfig::Direction], bit flags. *)
Definition NONE : Z := 0.
Definition INGRESS : Z := 1 <<. 0.
Definition EGRESS : Z := 1 <<. 1.
Definition BOTH : Z := INGRESS |. EGRESS.

Record ExternalIPsConfig := mkExternalIPs { direction_enabled_ : Z }.

(** The assertion [direction != NONE] is a precondition. *)
Definition IsEnabled (c : ExternalIPsConfig) (direction : Z) : bool :=
  direction &. direction_enabled_ c =? direction.

Definition GetDirection (c : ExternalIPsConfig) : Z := direction_enabled_ c.

(** The fields read from the runtime configuration message. *)
Inductive ExternalIpsEnabled := DISABLED | ENABLED.
Inductive ExternalIpsDirection := DIR_UNSPECIFIED | DIR_BOTH | DIR_INGRESS | DIR_EGRESS.
Record RuntimeConfig := mkRuntimeConfig {
  external_ips_enabled : ExternalIpsEnabled;
  external_ips_direction : ExternalIpsDirection;
  max_connections_per_minute : Z
}.

Definition ExternalIPsConfig_make (runtime_config : option RuntimeConfig) (default_enabled : bool)
    : ExternalIPsConfig :=
  match runtime_config with
  | None => mkExternalIPs (if default_enabled then BOTH else NONE)
  | Some rc =>
      match external_ips_enabled rc with
      | ENABLED =>
          mkExternalIPs match external_ips_direction rc with
            | DIR_INGRESS => INGRESS
            | DIR_EGRESS => EGRESS
            | _ => BOTH
            end
      | _ => mkExternalIPs NONE
      end
  end.

Definition ExternalIPs_to_string (c : ExternalIPsConfig) : string :=
  ("direction(" ++
   (if (direction_enabled_ c =? NONE)%Z then "NONE"
    else if (direction_enabled_ c =? INGRESS)%Z then "INGRESS"
    else if (direction_enabled_ c =? EGRESS)%Z then "EGRESS"
    else if (direction_enabled_ c =? BOTH)%Z then "BOTH" else "invalid") ++ ")")%string.

(** What each configuration enables, in each direction. *)
Lemma IsEnabled_make rc d dir :
  dir = INGRESS \/ dir = EGRESS ->
  IsEnabled (ExternalIPsConfig_make rc d) dir = true <->
  match rc with
  | None => d = true
  | Some rc =>
      external_ips_enabled rc = ENABLED /\
      (external_ips_direction rc = DIR_INGRESS -> dir = INGRESS) /\
      (external_ips_direction rc = DIR_EGRESS -> dir = EGRESS)
  end.
Proof.
  intros [-> | ->]; (destruct rc as [[[] [] ?]|]; [..|by destruct d]); vm_compute;
    intuition (discriminate || congruence).
Qed.
