(* ===== verification/ConnTracker.v ===== *)
(** * The connection tracker ([ConnTracker.h], [ConnTracker.cpp])

    The tracker's state as one record and one definition per operation.  Each
    public operation runs under the tracker's mutex and is one step on the
    state.  The counters of [CollectorStats] that the operations touch are part
    of the state. *)

From stdpp Require Import relations.
From S2P Require Import Prelude HostOrder UMap NetAddress NRadix Connection.
From S2P Require Import ConnStatus Delta CollectorStats ExternalIPs.

Abbreviation ConnMap := (UMap Connection ConnStatus).
Abbreviation ContainerEndpointMap := (UMap ContainerEndpoint ConnStatus).
Abbreviation AdvertisedEndpointMap := (UMap ContainerEndpoint ConnStatus).

(** [Stats]: [unsigned int] counters by direction and kind of peer. *)
Record PeerStats := mkPeerStats { public_ : Z; private_ : Z }.
Record ConnStats := mkConnStats { inbound : PeerStats; outbound : PeerStats }.
Definition ConnStats_zero : ConnStats := mkConnStats (mkPeerStats 0 0) (mkPeerStats 0 0).

Record ConnectionTracker := mkTracker {
  conn_state_ : ConnMap;
  endpoint_state_ : ContainerEndpointMap;
  known_public_ips_ : USet Address;
  known_ip_networks_ : nRadixNode;
  external_ips_config_ : ExternalIPsConfig;
  known_private_networks_exists_ : UMap Family.t bool;
  ignored_l4proto_port_pairs_ : USet L4ProtoPortPair;
  ignored_networks_ : nRadixNode;
  non_aggregated_networks_ : nRadixNode;
  inserted_connections_counters_ : ConnStats;
  stats_ : CollectorStats
}.

Definition ConnectionTracker_default : ConnectionTracker :=
  mkTracker [] [] [] new_nRadixNode (mkExternalIPs NONE) [] [] new_nRadixNode new_nRadixNode
    ConnStats_zero Stats_Reset.

(** Field updates. *)
Definition set_conn_state (m : ConnMap) (t : ConnectionTracker) : ConnectionTracker :=
  mkTracker m (endpoint_state_ t) (known_public_ips_ t) (known_ip_networks_ t)
    (external_ips_config_ t) (known_private_networks_exists_ t) (ignored_l4proto_port_pairs_ t)
    (ignored_networks_ t) (non_aggregated_networks_ t) (inserted_connections_counters_ t) (stats_ t).
Definition set_endpoint_state (m : ContainerEndpointMap) (t : ConnectionTracker) : ConnectionTracker :=
  mkTracker (conn_state_ t) m (known_public_ips_ t) (known_ip_networks_ t)
    (external_ips_config_ t) (known_private_networks_exists_ t) (ignored_l4proto_port_pairs_ t)
    (ignored_networks_ t) (non_aggregated_networks_ t) (inserted_connections_counters_ t) (stats_ t).
Definition set_inserted (c : ConnStats) (t : ConnectionTracker) : ConnectionTracker :=
  mkTracker (conn_state_ t) (endpoint_state_ t) (known_public_ips_ t) (known_ip_networks_ t)
    (external_ips_config_ t) (known_private_networks_exists_ t) (ignored_l4proto_port_pairs_ t)
    (ignored_networks_ t) (non_aggregated_networks_ t) c (stats_ t).
Definition set_stats (f : CollectorStats -> CollectorStats) (t : ConnectionTracker) : ConnectionTracker :=
  mkTracker (conn_state_ t) (endpoint_state_ t) (known_public_ips_ t) (known_ip_networks_ t)
    (external_ips_config_ t) (known_private_networks_exists_ t) (ignored_l4proto_port_pairs_ t)
    (ignored_networks_ t) (non_aggregated_networks_ t) (inserted_connections_counters_ t) (f (stats_ t)).

(** ** Emplacing and updating statuses *)

Definition EmplaceOrUpdate {T} (keq : T -> T -> bool) (m : UMap T ConnStatus) (obj : T)
    (status : ConnStatus) : UMap T ConnStatus * bool :=
  let '(m', added) := umap_emplace keq obj status m in
  if negb added &&
     match umap_find keq obj m' with
     | Some old => LastActiveTime old <? LastActiveTime status
     | None => false
     end
  then (umap_update keq (fun _ => status) obj m', added)
  else (m', added).

(** ** Fetching a snapshot

    [FetchState]: [process_fn] is [None] for [dont_normalize], [filter_fn] is
    [None] for [dont_filter].  The result is the snapshot, keyed by [ekeq], and
    the state left behind. *)

Definition fetch_step {T} (ekeq : T -> T -> bool) (process_fn : option (T -> T))
    (filter_fn : option (T -> bool)) (fetched : UMap T ConnStatus) (entry : T * ConnStatus)
    : UMap T ConnStatus :=
  if match filter_fn with Some f => f entry.1 | None => true end then
    match process_fn with
    | Some process =>
        let key := process entry.1 in
        let '(fetched', added) := umap_emplace ekeq key entry.2 fetched in
        if added then fetched'
        else umap_update ekeq (fun s => MergeFrom s entry.2) key fetched'
    | None => (umap_emplace ekeq entry.1 entry.2 fetched).1
    end
  else fetched.

Definition FetchState {T} (ekeq : T -> T -> bool) (state : UMap T ConnStatus) (clear_inactive : bool)
    (process_fn : option (T -> T)) (filter_fn : option (T -> bool))
    : UMap T ConnStatus * UMap T ConnStatus :=
  (fold_left (fetch_step ekeq process_fn filter_fn) state [],
   umap_filter (fun entry => negb (clear_inactive && negb (IsActive entry.2))) state).

Section tracker.
Context `{ho : HostOrder}.

Definition canonical_external_ipv4_addr : Address := Address_octets 255 255 255 255.
Definition canonical_external_ipv6_addr : Address := Address_v6 0xffffffffffffffff 0xffffffffffffffff.
Definition private_networks_tree : nRadixNode := NRadixTree_of PrivateNetworks.

Definition ContainsPrivateNetwork (family : Family.t) (tree : nRadixNode) : bool :=
  IsAnyIPNetSubset_family family tree private_networks_tree ||
  IsAnyIPNetSubset_family family private_networks_tree tree.

(** ** Filters *)

Definition HasConnectionFilters (t : ConnectionTracker) : bool :=
  negb (match ignored_l4proto_port_pairs_ t with [] => true | _ => false end) ||
  negb (IsEmpty (ignored_networks_ t)).

Definition IsIgnoredL4ProtoPortPair (t : ConnectionTracker) (p : L4ProtoPortPair) : bool :=
  uset_contains L4ProtoPortPair_eq p (ignored_l4proto_port_pairs_ t).

Definition ShouldFetchConnection (t : ConnectionTracker) (conn : Connection) : bool :=
  negb (IsIgnoredL4ProtoPortPair t (l4proto conn, port_ (local_ conn))) &&
  negb (IsIgnoredL4ProtoPortPair t (l4proto conn, port_ (remote_ conn))) &&
  IPNet_IsNull (Find (ignored_networks_ t) (Endpoint_address (remote_ conn))).

Definition ShouldFetchContainerEndpoint (t : ConnectionTracker) (cep : ContainerEndpoint) : bool :=
  negb (IsIgnoredL4ProtoPortPair t (cep_l4proto_ cep, port_ (cep_endpoint_ cep))).

(** ** Normalization *)

Definition NormalizeAddressNoLock (t : ConnectionTracker) (address : Address)
    (enable_external_ips : bool) : IPNet :=
  if Address_IsNull address then IPNet_default
  else
    let private_addr := negb (IsPublic address) in
    let do_not_aggregate_addr := negb (IPNet_IsNull (Find (non_aggregated_networks_ t) address)) in
    let keep_addr := private_addr || do_not_aggregate_addr in
    if keep_addr &&
       match umap_find Family.eqb (family_ address) (known_private_networks_exists_ t) with
       | Some known_private_networks_exists => negb known_private_networks_exists
       | None => false
       end
    then IPNet_make address 0 true
    else
      let network := Find (known_ip_networks_ t) address in
      if keep_addr || uset_contains Address_eq address (known_public_ips_ t)
      then IPNet_make address (bits_ network) true
      else if negb (IPNet_IsNull network) then network
      else if enable_external_ips then IPNet_make address (length_ address * 8) false
      else
        match family_ address with
        | Family.IPV4 => IPNet_make canonical_external_ipv4_addr 0 true
        | Family.IPV6 => IPNet_make canonical_external_ipv6_addr 0 true
        | Family.UNKNOWN => IPNet_default
        end.

Definition ShouldNormalizeConnection (t : ConnectionTracker) (conn : Connection) : bool :=
  IsCanonicalExternalIp (address_ (NormalizeAddressNoLock t (Endpoint_address (remote_ conn)) false)).

Definition NormalizeConnectionNoLock (t : ConnectionTracker) (conn : Connection) : Connection :=
  let server :=
    match l4proto conn with
    | L4Proto.UDP => IsEphemeralPort (port_ (local_ conn)) <? IsEphemeralPort (port_ (remote_ conn))
    | _ => is_server conn
    end in
  let extIPs_ingress := IsEnabled (external_ips_config_ t) INGRESS in
  let extIPs_egress := IsEnabled (external_ips_config_ t) EGRESS in
  let remote_address := Endpoint_address (remote_ conn) in
  if server then
    Connection_make (container_ conn)
      (Endpoint_of_net (IPNet_of_address Address_default) (port_ (local_ conn)))
      (Endpoint_of_net (NormalizeAddressNoLock t remote_address extIPs_ingress) 0)
      (l4proto conn) server
  else
    Connection_make (container_ conn)
      Endpoint_default
      (Endpoint_of_net (NormalizeAddressNoLock t remote_address extIPs_egress) (port_ (remote_ conn)))
      (l4proto conn) server.

Definition NormalizeContainerEndpoint (cep : ContainerEndpoint) : ContainerEndpoint :=
  let ep := cep_endpoint_ cep in
  mkContainerEndpoint (cep_container_ cep)
    (Endpoint_of_address (Address_family (family_ (Endpoint_address ep))) (port_ ep))
    (cep_l4proto_ cep) (cep_originator_ cep).

(** ** Connection statistics *)

Definition bump_peer (is_public : bool) (s : PeerStats) : PeerStats :=
  if is_public then mkPeerStats (u32 (public_ s + 1)) (private_ s)
  else mkPeerStats (public_ s) (u32 (private_ s + 1)).

Definition IncrementConnectionStats (t : ConnectionTracker) (conn : Connection) (stats : ConnStats)
    : ConnStats :=
  if negb (ShouldFetchConnection t conn) then stats
  else
    let is_public := IsPublic (Endpoint_address (remote_ conn)) in
    if is_server conn then mkConnStats (bump_peer is_public (inbound stats)) (outbound stats)
    else mkConnStats (inbound stats) (bump_peer is_public (outbound stats)).

Definition GetConnectionStats_StoredConnections (t : ConnectionTracker) : ConnStats :=
  fold_left (fun stats conn => IncrementConnectionStats t conn.1 stats) (conn_state_ t) ConnStats_zero.

Definition GetConnectionStats_NewConnectionCounters (t : ConnectionTracker) : ConnStats :=
  inserted_connections_counters_ t.

(** ** Updates *)

Definition EmplaceOrUpdateConnNoLock (t : ConnectionTracker) (conn : Connection) (status : ConnStatus)
    : ConnectionTracker :=
  let t := set_stats (COUNTER_INC Counter.net_conn_updates) t in
  let '(m, added) := EmplaceOrUpdate conn_keq (conn_state_ t) conn status in
  let t := set_conn_state m t in
  if added then set_inserted (IncrementConnectionStats t conn (inserted_connections_counters_ t)) t
  else t.

Definition EmplaceOrUpdateEndpointNoLock (t : ConnectionTracker) (ep : ContainerEndpoint)
    (status : ConnStatus) : ConnectionTracker :=
  let t := set_stats (COUNTER_INC Counter.net_cep_updates) t in
  set_endpoint_state (EmplaceOrUpdate cep_keq (endpoint_state_ t) ep status).1 t.

Definition UpdateConnection (t : ConnectionTracker) (conn : Connection) (timestamp : Z) (added : bool)
    : ConnectionTracker :=
  EmplaceOrUpdateConnNoLock t conn (ConnStatus_make timestamp added).

Definition AddConnection (t : ConnectionTracker) (conn : Connection) (timestamp : Z) : ConnectionTracker :=
  UpdateConnection t conn timestamp true.
Definition RemoveConnection (t : ConnectionTracker) (conn : Connection) (timestamp : Z) : ConnectionTracker :=
  UpdateConnection t conn timestamp false.

Definition Update (t : ConnectionTracker) (all_conns : list Connection)
    (all_listen_endpoints : list ContainerEndpoint) (timestamp : Z) : ConnectionTracker :=
  let t := set_conn_state (umap_map (SetActive false) (conn_state_ t)) t in
  let t := set_endpoint_state (umap_map (SetActive false) (endpoint_state_ t)) t in
  let new_status := ConnStatus_make timestamp true in
  let t := fold_left (fun t c => EmplaceOrUpdateConnNoLock t c new_status) all_conns t in
  fold_left (fun t ep => EmplaceOrUpdateEndpointNoLock t ep new_status) all_listen_endpoints t.

(** ** Snapshots *)

Definition map_size {K V} (m : UMap K V) : Z := Z.of_nat (length m).

Definition FetchConnState (t : ConnectionTracker) (normalize clear_inactive : bool)
    : ConnMap * ConnectionTracker :=
  let state_size := map_size (conn_state_ t) in
  let process := if normalize then Some (NormalizeConnectionNoLock t) else None in
  let filter := if HasConnectionFilters t then Some (ShouldFetchConnection t) else None in
  let '(cm, rest) := FetchState conn_keq (conn_state_ t) clear_inactive process filter in
  (cm, set_stats (CounterAdd Counter.net_conn_inactive (u64 (state_size - map_size rest)))
         (set_conn_state rest t)).

Definition FetchEndpointState (t : ConnectionTracker) (normalize clear_inactive : bool)
    : AdvertisedEndpointMap * ConnectionTracker :=
  let state_size := map_size (conn_state_ t) in
  let process := if normalize then Some NormalizeContainerEndpoint else None in
  let filter := if HasConnectionFilters t then Some (ShouldFetchContainerEndpoint t) else None in
  let '(cem, rest) := FetchState advertised_keq (endpoint_state_ t) clear_inactive process filter in
  (cem, set_stats (CounterAdd Counter.net_cep_inactive (u64 (state_size - map_size rest)))
          (set_endpoint_state rest t)).

(** ** Settings *)

Definition SetExternalIPsConfig (t : ConnectionTracker) (config : ExternalIPsConfig) : ConnectionTracker :=
  mkTracker (conn_state_ t) (endpoint_state_ t) (known_public_ips_ t) (known_ip_networks_ t)
    config (known_private_networks_exists_ t) (ignored_l4proto_port_pairs_ t)
    (ignored_networks_ t) (non_aggregated_networks_ t) (inserted_connections_counters_ t) (stats_ t).

Definition UpdateKnownPublicIPs (t : ConnectionTracker) (known_public_ips : USet Address)
    : ConnectionTracker :=
  mkTracker (conn_state_ t) (endpoint_state_ t) known_public_ips (known_ip_networks_ t)
    (external_ips_config_ t) (known_private_networks_exists_ t) (ignored_l4proto_port_pairs_ t)
    (ignored_networks_ t) (non_aggregated_networks_ t) (inserted_connections_counters_ t)
    (CounterSet Counter.net_known_public_ips (Z.of_nat (length known_public_ips)) (stats_ t)).

Definition UpdateKnownIPNetworks (t : ConnectionTracker) (known_ip_networks : UMap Family.t (list IPNet))
    : ConnectionTracker :=
  let tree :=
    fold_left (fun tree network_pair =>
      fold_left (fun tree network => (Insert tree network).1) network_pair.2 tree)
      known_ip_networks new_nRadixNode in
  let '(exists_, stats) :=
    fold_left (fun '(m, stats) network_pair =>
      (umap_assign Family.eqb network_pair.1 (ContainsPrivateNetwork network_pair.1 tree) m,
       CounterAdd Counter.net_known_ip_networks (Z.of_nat (length network_pair.2)) stats))
      known_ip_networks ([], COUNTER_ZERO Counter.net_known_ip_networks (stats_ t)) in
  mkTracker (conn_state_ t) (endpoint_state_ t) (known_public_ips_ t) tree
    (external_ips_config_ t) exists_ (ignored_l4proto_port_pairs_ t)
    (ignored_networks_ t) (non_aggregated_networks_ t) (inserted_connections_counters_ t) stats.

Definition UpdateIgnoredL4ProtoPortPairs (t : ConnectionTracker) (pairs : USet L4ProtoPortPair)
    : ConnectionTracker :=
  mkTracker (conn_state_ t) (endpoint_state_ t) (known_public_ips_ t) (known_ip_networks_ t)
    (external_ips_config_ t) (known_private_networks_exists_ t) pairs
    (ignored_networks_ t) (non_aggregated_networks_ t) (inserted_connections_counters_ t) (stats_ t).

Definition UpdateIgnoredNetworks (t : ConnectionTracker) (network_list : list IPNet) : ConnectionTracker :=
  mkTracker (conn_state_ t) (endpoint_state_ t) (known_public_ips_ t) (known_ip_networks_ t)
    (external_ips_config_ t) (known_private_networks_exists_ t) (ignored_l4proto_port_pairs_ t)
    (NRadixTree_of network_list) (non_aggregated_networks_ t) (inserted_connections_counters_ t) (stats_ t).

Definition UpdateNonAggregatedNetworks (t : ConnectionTracker) (network_list : list IPNet)
    : ConnectionTracker :=
  mkTracker (conn_state_ t) (endpoint_state_ t) (known_public_ips_ t) (known_ip_networks_ t)
    (external_ips_config_ t) (known_private_networks_exists_ t) (ignored_l4proto_port_pairs_ t)
    (ignored_networks_ t) (NRadixTree_of network_list) (inserted_connections_counters_ t) (stats_ t).

End tracker.

(** ** Closing connections when the External-IPs setting changes *)

(** The loop of [CloseConnections]: matching entries move to the delta, closed;
    the result is the old state and the delta. *)
Fixpoint CloseConnections (old_conn_state delta_conn : ConnMap) (predicate : Connection -> bool)
    : ConnMap * ConnMap :=
  match old_conn_state with
  | [] => ([], delta_conn)
  | (key, status) :: rest =>
      if predicate key then
        let status := if IsActive status then SetActive false status else status in
        CloseConnections rest (umap_emplace conn_keq key status delta_conn).1 predicate
      else
        let '(rest', delta') := CloseConnections rest delta_conn predicate in
        ((key, status) :: rest', delta')
  end.

Section close.
Context `{ho : HostOrder}.

(** The lambda [should_close]. *)
Definition should_close (t : ConnectionTracker) (enabling_extIPs : bool) (conn : Connection) : bool :=
  if enabling_extIPs then IsCanonicalExternalIp (Endpoint_address (remote_ conn))
  else negb (IsCanonicalExternalIp (Endpoint_address (remote_ conn))) && ShouldNormalizeConnection t conn.

Definition CloseConnectionsOnExternalIPsConfigChange (t : ConnectionTracker)
    (prev_config : ExternalIPsConfig) (old_conn_state delta_conn : ConnMap) : ConnMap * ConnMap :=
  let ingress := IsEnabled (external_ips_config_ t) INGRESS in
  let egress := IsEnabled (external_ips_config_ t) EGRESS in
  let '(old, delta) :=
    if negb (Bool.eqb egress (IsEnabled prev_config EGRESS))
    then CloseConnections old_conn_state delta_conn
           (fun conn => negb (is_server conn) && should_close t egress conn)
    else (old_conn_state, delta_conn) in
  if negb (Bool.eqb ingress (IsEnabled prev_config INGRESS))
  then CloseConnections old delta (fun conn => is_server conn && should_close t ingress conn)
  else (old, delta).

End close.

(** ** Lemmas on the status maps *)

Section status_maps.
Context {T : Type} (keq : T -> T -> bool) `{!KeyEquiv keq}.
Implicit Types (m : UMap T ConnStatus) (k : T) (st : ConnStatus).

(** The later of the stored status and the reported one. *)
Definition newer (o : option ConnStatus) (st : ConnStatus) : ConnStatus :=
  match o with
  | Some old => if LastActiveTime old <? LastActiveTime st then st else old
  | None => st
  end.

Lemma EmplaceOrUpdate_find m k st k' :
  umap_find keq k' (EmplaceOrUpdate keq m k st).1 =
  if keq k' k then Some (newer (umap_find keq k' m) st) else umap_find keq k' m.
Proof.
  unfold EmplaceOrUpdate, umap_emplace, umap_contains.
  destruct (umap_find keq k m) as [o|] eqn:Hk; cbn [negb andb].
  - rewrite Hk. destruct (LastActiveTime o <? LastActiveTime st) eqn:Hlt; cbn [fst].
    + rewrite (umap_find_update keq). destruct (keq k' k) eqn:E; [|done].
      rewrite (umap_find_proper keq k' k m E), Hk. simpl. by rewrite Hlt.
    + destruct (keq k' k) eqn:E; [|done].
      rewrite (umap_find_proper keq k' k m E), Hk. simpl. by rewrite Hlt.
  - cbn [fst]. rewrite umap_find_app. simpl. destruct (keq k' k) eqn:E.
    + by rewrite (umap_find_proper keq k' k m E), Hk.
    + by destruct (umap_find keq k' m).
Qed.

Lemma EmplaceOrUpdate_added m k st : (EmplaceOrUpdate keq m k st).2 = negb (umap_contains keq k m).
Proof.
  unfold EmplaceOrUpdate. pose proof (umap_emplace_added keq k st m) as Ha.
  destruct (umap_emplace keq k st m) as [m' added]. simpl in *. by destruct (_ && _).
Qed.

Lemma EmplaceOrUpdate_ok m k st : umap_ok keq m -> umap_ok keq (EmplaceOrUpdate keq m k st).1.
Proof.
  intros Hm. unfold EmplaceOrUpdate. pose proof (umap_ok_emplace keq k st m Hm).
  destruct (umap_emplace keq k st m) as [m' added]. simpl in *.
  destruct (_ && _); simpl; auto with collector.
Qed.

(** Reporting the same status for a list of keys. *)
Definition emplace_all m (ks : list T) st : UMap T ConnStatus :=
  fold_left (fun m k => (EmplaceOrUpdate keq m k st).1) ks m.

Lemma newer_idem o st : newer (Some (newer o st)) st = newer o st.
Proof.
  unfold newer. destruct o as [old|].
  - destruct (LastActiveTime old <? LastActiveTime st) eqn:E; [|by rewrite E]. by rewrite Z.ltb_irrefl.
  - by rewrite Z.ltb_irrefl.
Qed.

Lemma emplace_all_find m ks st k :
  umap_find keq k (emplace_all m ks st) =
  if uset_contains keq k ks then Some (newer (umap_find keq k m) st) else umap_find keq k m.
Proof.
  unfold emplace_all. revert m. induction ks as [|k0 ks IH]; intros m; [done|]. simpl.
  rewrite IH, EmplaceOrUpdate_find. unfold uset_contains. cbn [existsb].
  destruct (keq k k0); cbn [orb]; [|done]. rewrite newer_idem. by destruct (existsb (keq k) ks).
Qed.

Lemma emplace_all_ok m ks st : umap_ok keq m -> umap_ok keq (emplace_all m ks st).
Proof. unfold emplace_all. revert m. induction ks; intros m Hm; simpl; auto using EmplaceOrUpdate_ok. Qed.

Lemma newer_time o st s : o = Some s -> LastActiveTime s <= LastActiveTime (newer o st).
Proof. intros ->. simpl. destruct (Z.ltb_spec (LastActiveTime s) (LastActiveTime st)); lia. Qed.

(** All statuses are 64-bit words. *)
Definition statuses_wf m : Prop := Forall (fun kv => status_wf kv.2) m.

Lemma statuses_wf_find m k s : statuses_wf m -> umap_find keq k m = Some s -> status_wf s.
Proof.
  intros Hm (k' & Hin & _)%umap_find_In. unfold statuses_wf in Hm.
  rewrite List.Forall_forall in Hm. by apply (Hm (k', s)).
Qed.

End status_maps.

(** *** Snapshots *)

Section fetch.
Context {T : Type} (keq ekeq : T -> T -> bool) `{!KeyEquiv ekeq}.
Variable process_fn : option (T -> T).
Variable filter_fn : option (T -> bool).

Definition fetch_key (k : T) : T := match process_fn with Some f => f k | None => k end.
Definition fetch_kept (k : T) : bool := match filter_fn with Some f => f k | None => true end.

(** The entries of the state that end up under the key [k]. *)
Definition lands_on (k : T) (entry : T * ConnStatus) : Prop :=
  fetch_kept entry.1 = true /\ ekeq k (fetch_key entry.1) = true.

(** One entry, with normalization. *)
Lemma fetch_step_find f fetched entry k :
  process_fn = Some f ->
  umap_find ekeq k (fetch_step ekeq process_fn filter_fn fetched entry) =
  if fetch_kept entry.1 && ekeq k (f entry.1)
  then Some match umap_find ekeq k fetched with
       | Some s => MergeFrom s entry.2 | None => entry.2 end
  else umap_find ekeq k fetched.
Proof.
  intros ->. unfold fetch_step, fetch_kept.
  destruct (match filter_fn with Some g => g entry.1 | None => true end); [|done].
  unfold umap_emplace, umap_contains. simpl andb.
  destruct (umap_find ekeq (f entry.1) fetched) as [s|] eqn:Hs.
  - rewrite (umap_find_update ekeq). destruct (ekeq k (f entry.1)) eqn:E; [|done].
    by rewrite (umap_find_proper ekeq k (f entry.1)), Hs.
  - rewrite umap_find_app. simpl. destruct (ekeq k (f entry.1)) eqn:E.
    + by rewrite (umap_find_proper ekeq k (f entry.1)), Hs.
    + by destruct (umap_find ekeq k fetched).
Qed.

(** The snapshot holds, under each key, the largest status word. *)
Definition is_max (k : T) (entries : list (T * ConnStatus)) (o : option ConnStatus) : Prop :=
  match o with
  | None => forall e, In e entries -> ~ lands_on k e
  | Some s =>
      (exists e, In e entries /\ lands_on k e /\ e.2 = s) /\
      (forall e, In e entries -> lands_on k e -> status_data e.2 <= status_data s)
  end.

Lemma is_max_snoc k entries o e :
  is_max k entries o ->
  is_max k (entries ++ [e])
    (if fetch_kept e.1 && ekeq k (fetch_key e.1)
     then Some match o with Some s => MergeFrom s e.2 | None => e.2 end else o).
Proof.
  intros Hmax. destruct (fetch_kept e.1 && ekeq k (fetch_key e.1)) eqn:El.
  - apply andb_prop in El. fold (lands_on k e) in El. destruct o as [s|]; simpl in *.
    + destruct Hmax as [(e0 & Hin & Hl & He) Hle]. split.
      * unfold MergeFrom. destruct (Z.max_spec (status_data s) (status_data e.2)) as [[_ ->]|[_ ->]].
        -- exists e. rewrite in_app_iff. simpl. split_and!; auto. by destruct e as [? []].
        -- exists e0. rewrite in_app_iff. split_and!; auto. rewrite He. by destruct s.
      * intros e1 [Hin1|[<-|[]]]%in_app_iff Hl1; simpl; [|lia].
        specialize (Hle e1 Hin1 Hl1). lia.
    + split.
      * exists e. rewrite in_app_iff. simpl. auto.
      * intros e1 [Hin1|[<-|[]]]%in_app_iff Hl1; [|lia]. by destruct (Hmax e1 Hin1).
  - assert (~ lands_on k e) as Hno.
    { unfold lands_on. intros [H1 H2]. by rewrite H1, H2 in El. }
    destruct o as [s|]; simpl in *.
    + destruct Hmax as [(e0 & Hin & Hl & He) Hle]. split.
      * exists e0. rewrite in_app_iff. auto.
      * intros e1 [Hin1|[<-|[]]]%in_app_iff Hl1; [auto|by destruct Hno].
    + intros e1 [Hin1|[<-|[]]]%in_app_iff; auto.
Qed.

Lemma fetch_normalized_max f state k :
  process_fn = Some f ->
  is_max k state (umap_find ekeq k (fold_left (fetch_step ekeq process_fn filter_fn) state [])).
Proof.
  intros Hf. induction state as [|e state IH] using rev_ind; [intros e []|].
  rewrite fold_left_app. simpl. rewrite (fetch_step_find f) by done.
  replace (f e.1) with (fetch_key e.1) by (unfold fetch_key; by rewrite Hf).
  by apply is_max_snoc.
Qed.

Lemma fetch_step_ok fetched entry :
  umap_ok ekeq fetched -> umap_ok ekeq (fetch_step ekeq process_fn filter_fn fetched entry).
Proof.
  intros Hf. unfold fetch_step. destruct (match filter_fn with Some g => g entry.1 | None => true end); [|done].
  destruct process_fn as [f|]; [|by auto with collector].
  pose proof (umap_ok_emplace ekeq (f entry.1) entry.2 fetched Hf).
  destruct (umap_emplace _ _ _ fetched) as [m []]; simpl in *; auto with collector.
Qed.

Lemma fetch_ok state :
  umap_ok ekeq (fold_left (fetch_step ekeq process_fn filter_fn) state []).
Proof.
  generalize (I : umap_ok ekeq (@nil (T * ConnStatus))). generalize (@nil (T * ConnStatus)).
  induction state; intros m Hm; simpl; auto using fetch_step_ok.
Qed.

End fetch.

(** ** Lemmas on the tracker *)

Section tracker_lemmas.
Context `{ho : HostOrder}.
Implicit Types t : ConnectionTracker.

(** The trees and the maps of a tracker are well-formed. *)
Definition tracker_wf t : Prop :=
  umap_ok conn_keq (conn_state_ t) /\ umap_ok cep_keq (endpoint_state_ t) /\
  tree_wf (known_ip_networks_ t) /\ tree_wf (ignored_networks_ t) /\
  tree_wf (non_aggregated_networks_ t).

Lemma emplace_conn_state t conn st :
  conn_state_ (EmplaceOrUpdateConnNoLock t conn st) =
  (EmplaceOrUpdate conn_keq (conn_state_ t) conn st).1.
Proof.
  unfold EmplaceOrUpdateConnNoLock. cbn [conn_state_ set_stats].
  by destruct (EmplaceOrUpdate _ _ _ _) as [m []].
Qed.

Lemma emplace_conn_endpoints t conn st :
  endpoint_state_ (EmplaceOrUpdateConnNoLock t conn st) = endpoint_state_ t.
Proof.
  unfold EmplaceOrUpdateConnNoLock. cbn [conn_state_ set_stats].
  by destruct (EmplaceOrUpdate _ _ _ _) as [m []].
Qed.

Lemma emplace_conns_state t conns st :
  conn_state_ (fold_left (fun t c => EmplaceOrUpdateConnNoLock t c st) conns t) =
    emplace_all conn_keq (conn_state_ t) conns st /\
  endpoint_state_ (fold_left (fun t c => EmplaceOrUpdateConnNoLock t c st) conns t) = endpoint_state_ t.
Proof.
  revert t. induction conns as [|c conns IH]; intros t; [done|]. simpl.
  destruct (IH (EmplaceOrUpdateConnNoLock t c st)) as [-> ->].
  by rewrite emplace_conn_state, emplace_conn_endpoints.
Qed.

Lemma emplace_endpoints_state t eps st :
  endpoint_state_ (fold_left (fun t c => EmplaceOrUpdateEndpointNoLock t c st) eps t) =
    emplace_all cep_keq (endpoint_state_ t) eps st /\
  conn_state_ (fold_left (fun t c => EmplaceOrUpdateEndpointNoLock t c st) eps t) = conn_state_ t.
Proof.
  revert t. induction eps as [|c eps IH]; intros t; [done|]. simpl.
  by destruct (IH (EmplaceOrUpdateEndpointNoLock t c st)) as [-> ->].
Qed.

Lemma Update_conn_state t conns eps ts :
  conn_state_ (Update t conns eps ts) =
  emplace_all conn_keq (umap_map (SetActive false) (conn_state_ t)) conns (ConnStatus_make ts true).
Proof.
  unfold Update. cbv zeta. rewrite (proj2 (emplace_endpoints_state _ _ _)).
  by rewrite (proj1 (emplace_conns_state _ _ _)).
Qed.

Lemma Update_endpoint_state t conns eps ts :
  endpoint_state_ (Update t conns eps ts) =
  emplace_all cep_keq (umap_map (SetActive false) (endpoint_state_ t)) eps (ConnStatus_make ts true).
Proof.
  unfold Update. cbv zeta. rewrite (proj1 (emplace_endpoints_state _ _ _)).
  by rewrite (proj2 (emplace_conns_state _ _ _)).
Qed.

(** What [Update] makes of the status of one key, in either map. *)
Definition updated_status (o : option ConnStatus) (reported : bool) (ts : Z) : option ConnStatus :=
  match o with
  | None => if reported then Some (ConnStatus_make ts true) else None
  | Some s =>
      if reported && (LastActiveTime s <? ts) then Some (ConnStatus_make ts true)
      else Some (SetActive false s)
  end.

Lemma update_map_find {T} (keq : T -> T -> bool) `{!KeyEquiv keq} (m : UMap T ConnStatus) ks ts k :
  0 <= ts < 2 ^ 63 ->
  umap_find keq k (emplace_all keq (umap_map (SetActive false) m) ks (ConnStatus_make ts true)) =
  updated_status (umap_find keq k m) (uset_contains keq k ks) ts.
Proof.
  intros Hts. rewrite (emplace_all_find keq), (umap_find_map keq). unfold updated_status.
  destruct (umap_find keq k m) as [s|]; simpl; [|by destruct (uset_contains _ _ _)].
  rewrite LastActiveTime_cleared, LastActiveTime_make by done.
  destruct (uset_contains _ _ _); [|done]. simpl. by destruct (_ <? _).
Qed.

(** *** Sequences of updates *)

Inductive tracker_update : ConnectionTracker -> ConnectionTracker -> Prop :=
  | tu_conn t conn ts added : tracker_update t (UpdateConnection t conn ts added)
  | tu_all t conns eps ts : tracker_update t (Update t conns eps ts).

Lemma emplace_all_time {T} (keq : T -> T -> bool) `{!KeyEquiv keq} (m : UMap T ConnStatus) ks st k s :
  umap_find keq k m = Some s ->
  exists s', umap_find keq k (emplace_all keq m ks st) = Some s' /\ LastActiveTime s <= LastActiveTime s'.
Proof.
  intros Hs. rewrite (emplace_all_find keq). destruct (uset_contains _ _ _).
  - eexists. split; [done|]. by apply newer_time.
  - exists s. split; [done|]. lia.
Qed.

Lemma tracker_update_time t t' k s :
  tracker_update t t' -> umap_find conn_keq k (conn_state_ t) = Some s ->
  exists s', umap_find conn_keq k (conn_state_ t') = Some s' /\ LastActiveTime s <= LastActiveTime s'.
Proof.
  intros Hstep Hs. destruct Hstep as [t conn ts added|t conns eps ts].
  - unfold UpdateConnection. rewrite emplace_conn_state.
    by apply (emplace_all_time conn_keq (conn_state_ t) [conn] (ConnStatus_make ts added)).
  - rewrite Update_conn_state, <- (LastActiveTime_cleared s).
    apply (emplace_all_time conn_keq). by rewrite (umap_find_map conn_keq), Hs.
Qed.

(** *** Normalization *)

Lemma IPNet_default_null : IPNet_IsNull IPNet_default = true.
Proof. done. Qed.

Lemma found_bits root a : tree_wf root -> addr_wf a -> 0 <= bits_ (Find root a).
Proof.
  intros Hr Ha. destruct (Find_sound root a Hr Ha) as [-> | (Hw & _)]; [done|].
  apply ipnet_wf_bits_128 in Hw. lia.
Qed.

(** An address that must be reported as "the rest of the internet". *)
Definition hidden_address t (a : Address) : Prop :=
  Address_IsNull a = false /\ IsPublic a = true /\
  IPNet_IsNull (Find (non_aggregated_networks_ t) a) = true /\
  IPNet_IsNull (Find (known_ip_networks_ t) a) = true /\
  uset_contains Address_eq a (known_public_ips_ t) = false.

Lemma canonical_is_canonical :
  IsCanonicalExternalIp canonical_external_ipv4_addr = true /\
  IsCanonicalExternalIp canonical_external_ipv6_addr = true.
Proof. split; destruct ho; vm_compute; reflexivity. Qed.

End tracker_lemmas.

(** *** Closing *)

Lemma CloseConnections_old old delta pred :
  (CloseConnections old delta pred).1 = umap_filter (fun kv => negb (pred kv.1)) old.
Proof.
  revert delta. induction old as [|[k s] r IH]; intros delta; [done|]. simpl.
  destruct (pred k); simpl; [apply IH|]. specialize (IH delta).
  destruct (CloseConnections r delta pred). simpl in *. by rewrite IH.
Qed.

Lemma CloseConnections_delta old delta pred k :
  umap_ok conn_keq old ->
  (forall c d, conn_keq c d = true -> pred c = pred d) ->
  umap_find conn_keq k (CloseConnections old delta pred).2 =
  match umap_find conn_keq k delta with
  | Some s => Some s
  | None =>
      match umap_find conn_keq k old with
      | Some s => if pred k then Some (if IsActive s then SetActive false s else s) else None
      | None => None
      end
  end.
Proof.
  intros Hok Hp. revert delta Hok. induction old as [|[k0 s0] r IH]; intros delta; simpl.
  - by destruct (umap_find conn_keq k delta).
  - intros [Hk0 Hr]. destruct (conn_keq k k0) eqn:E.
    + rewrite (Hp k k0 E). destruct (pred k0) eqn:Ep.
      * rewrite IH by done. rewrite (umap_find_emplace conn_keq), E.
        rewrite (umap_find_proper conn_keq k k0 r E), Hk0. by destruct (umap_find conn_keq k delta).
      * specialize (IH delta Hr). destruct (CloseConnections r delta pred). simpl in *. rewrite IH.
        by rewrite (umap_find_proper conn_keq k k0 r E), Hk0.
    + destruct (pred k0) eqn:Ep.
      * rewrite IH by done. rewrite (umap_find_emplace conn_keq), E. by destruct (umap_find conn_keq k delta).
      * specialize (IH delta Hr). destruct (CloseConnections r delta pred). simpl in *. by rewrite IH.
Qed.

(** ** Properties *)

Section theorems.
Context `{ho : HostOrder}.
Implicit Types t : ConnectionTracker.

(** [Update] with a full list of the current connections: every listed
    connection that is new or was last seen before the timestamp becomes
    active at that time; every other known connection keeps its time and
    becomes inactive; no connection is forgotten, and none is invented. *)
Theorem Update_exact t conns eps ts k :
  0 <= ts < 2 ^ 63 ->
  umap_find conn_keq k (conn_state_ (Update t conns eps ts)) =
  updated_status (umap_find conn_keq k (conn_state_ t)) (uset_contains conn_keq k conns) ts.
Proof. intros Hts. rewrite Update_conn_state. by apply (update_map_find conn_keq). Qed.

(** The same connection listed by two scrapes with the same timestamp
    ends up inactive, although [Update] is to mark all current connections as
    active: the second call first clears the flag and then skips the entry,
    whose time is not older. *)
Theorem Update_same_timestamp conn ts :
  0 <= ts < 2 ^ 63 ->
  let t := Update (Update ConnectionTracker_default [conn] [] ts) [conn] [] ts in
  umap_find conn_keq conn (conn_state_ t) = Some (ConnStatus_make ts false).
Proof.
  intros Hts t. subst t. rewrite Update_conn_state, Update_conn_state.
  rewrite (emplace_all_find conn_keq), (umap_find_map conn_keq), (emplace_all_find conn_keq). unfold uset_contains. simpl.
  rewrite keq_refl. simpl. rewrite LastActiveTime_SetActive, LastActiveTime_make by auto with collector.
  rewrite Z.ltb_irrefl. f_equal. apply status_ext; auto with collector.
  - by rewrite LastActiveTime_SetActive, !LastActiveTime_make by auto with collector.
  - by rewrite IsActive_SetActive, IsActive_make by auto with collector.
Qed.

(** The time of the last activity of a connection never decreases, and
    no connection is lost, in any sequence of [UpdateConnection] and [Update]
    calls, whatever their timestamps. *)
Theorem last_active_monotone t t' k s :
  rtc tracker_update t t' -> umap_find conn_keq k (conn_state_ t) = Some s ->
  exists s', umap_find conn_keq k (conn_state_ t') = Some s' /\ LastActiveTime s <= LastActiveTime s'.
Proof.
  intros Hrtc. revert s. induction Hrtc as [t|t t1 t' Hstep Hrtc IH]; intros s Hs.
  { exists s. split; [done|lia]. }
  destruct (tracker_update_time t t1 k s Hstep Hs) as (s1 & Hs1 & Hle).
  destruct (IH s1 Hs1) as (s' & ? & ?). exists s'. split; [done|lia].
Qed.

(** C36: a normalized snapshot merges the entries that become the same key:
    each key holds the status, among the entries that pass the filter and
    normalize to it, whose word is largest (so an active one if there is one,
    and then the latest), and no key is there without such an entry; exactly
    the inactive entries leave the state when they are to be cleared. *)
Theorem FetchConnState_exact t clear_inactive k :
  let '(cm, t') := FetchConnState t true clear_inactive in
  is_max conn_keq (Some (NormalizeConnectionNoLock t))
    (if HasConnectionFilters t then Some (ShouldFetchConnection t) else None)
    k (conn_state_ t) (umap_find conn_keq k cm) /\
  conn_state_ t' =
    List.filter (fun e => if clear_inactive then IsActive e.2 else true) (conn_state_ t) /\
  endpoint_state_ t' = endpoint_state_ t.
Proof.
  unfold FetchConnState, FetchState. split_and!; [|cbn [conn_state_ set_stats set_conn_state]|done].
  - by apply (fetch_normalized_max conn_keq _ _ (NormalizeConnectionNoLock t)).
  - unfold umap_filter. apply List.filter_ext. intros [c s]. simpl.
    destruct clear_inactive; simpl; [apply negb_involutive|done].
Qed.

(** Filtered connections are never in a snapshot: when any filter is set,
    every connection of a snapshot that is not normalized has a local and a
    remote port outside the ignored pairs and a remote address outside the
    ignored networks. *)
Theorem FetchConnState_filtered t clear_inactive c s :
  HasConnectionFilters t = true -> In (c, s) (FetchConnState t false clear_inactive).1 ->
  In (c, s) (conn_state_ t) /\ ShouldFetchConnection t c = true.
Proof.
  intros Hf. unfold FetchConnState, FetchState. cbn [fst]. rewrite Hf.
  cut (forall st acc, In (c, s) (fold_left (fetch_step conn_keq None (Some (ShouldFetchConnection t))) st acc) ->
    In (c, s) acc \/ (In (c, s) st /\ ShouldFetchConnection t c = true)).
  { intros Hcut H. by destruct (Hcut _ _ H) as [[]|?]. }
  induction st as [|[c0 s0] st IH]; intros acc H; [by left|]. apply IH in H as [H|[H1 H2]].
  - unfold fetch_step in H. cbn [fst snd] in H. destruct (ShouldFetchConnection t c0) eqn:E; [|by left].
    unfold umap_emplace in H. destruct (umap_contains _ _ _); [by left|].
    apply in_app_iff in H as [H|[[= -> ->]|[]]]; [by left|]. right. split; [by left|done].
  - right. split; [by right|done].
Qed.

(** A normalized address never misleads: what is reported for a non-null
    address is a network that contains it (the address itself with the bits of
    the best known network, or that network), or the canonical external
    address, and the latter only for a public address in no known network with
    External-IPs off. *)
Theorem NormalizeAddress_sound t a ext :
  tracker_wf t -> addr_wf a -> Address_IsNull a = false ->
  let r := NormalizeAddressNoLock t a ext in
  Contains r a = true \/
  (IsCanonicalExternalIp (address_ r) = true /\ bits_ r = 0 /\ ext = false /\ hidden_address t a).
Proof.
  intros (_ & _ & Hk & _ & Hna) Ha Hn. unfold NormalizeAddressNoLock. rewrite Hn. cbv zeta.
  set (keep := _ || _). destruct (keep && _); [left; by apply Contains_self|].
  pose proof (found_bits _ a Hk Ha) as Hb.
  destruct (keep || uset_contains _ _ _) eqn:Ek; [left; by apply Contains_self|].
  destruct (IPNet_IsNull (Find (known_ip_networks_ t) a)) eqn:Enull; cbn [negb].
  2:{ left. destruct (Find_sound _ a Hk Ha) as [E|(_ & Hc & _)]; [|done].
      by rewrite E, IPNet_default_null in Enull. }
  destruct ext; [left; apply Contains_self; [done|unfold length_; destruct (family_ a); simpl; lia]|].
  apply orb_false_elim in Ek as [Ekeep Epub]. subst keep. apply orb_false_elim in Ekeep as [Ep Ena].
  apply negb_false_iff in Ep, Ena. destruct canonical_is_canonical as [Hc4 Hc6].
  destruct (family_ a) eqn:Ef.
  - left. by apply Contains_default.
  - right. rewrite IPNet_make_address, IPNet_make_id by (simpl; lia).
    repeat split; assumption || reflexivity.
  - right. rewrite IPNet_make_address, IPNet_make_id by (simpl; lia).
    repeat split; assumption || reflexivity.
Qed.

(** With External-IPs off, two public addresses of one family that are in
    no known network, not known individually and not exempt from aggregation
    are reported identically; a private address is always reported as itself. *)
Theorem NormalizeAddress_aggregates t a b :
  (hidden_address t a -> hidden_address t b -> family_ a = family_ b ->
   NormalizeAddressNoLock t a false = NormalizeAddressNoLock t b false) /\
  (forall ext, Address_IsNull a = false -> IsPublic a = false ->
   address_ (NormalizeAddressNoLock t a ext) = a /\ is_addr_ (NormalizeAddressNoLock t a ext) = true).
Proof.
  split.
  - intros (Ha1 & Ha2 & Ha3 & Ha4 & Ha5) (Hb1 & Hb2 & Hb3 & Hb4 & Hb5) Hf.
    unfold NormalizeAddressNoLock. rewrite Ha1, Hb1, Ha2, Hb2, Ha3, Hb3. cbn [negb orb andb].
    by rewrite Ha4, Hb4, Ha5, Hb5, Hf.
  - intros ext Hn Hp. unfold NormalizeAddressNoLock. rewrite Hn, Hp. cbn [negb orb andb].
    by destruct (match umap_find _ _ _ with Some e => negb e | None => false end).
Qed.

(** What a normalized TCP connection keeps: two client connections of a
    container that differ only in their local endpoint become one, and so do
    two server connections that differ in the remote port and the local
    address; the container, the protocol and the role are always kept. *)
Theorem NormalizeConnection_merges t c d :
  l4proto c = L4Proto.TCP -> l4proto d = L4Proto.TCP -> container_ c = container_ d ->
  is_server c = is_server d ->
  Endpoint_address (remote_ c) = Endpoint_address (remote_ d) ->
  (if is_server c then port_ (local_ c) = port_ (local_ d) else port_ (remote_ c) = port_ (remote_ d)) ->
  let n := NormalizeConnectionNoLock t c in
  n = NormalizeConnectionNoLock t d /\
  container_ n = container_ c /\ l4proto n = L4Proto.TCP /\ is_server n = is_server c.
Proof.
  intros Hc Hd Hcont Hs Hr Hp. unfold NormalizeConnectionNoLock. rewrite Hc, Hd, <- Hs, <- Hr, <- Hcont.
  destruct (is_server c); rewrite Hp; cbv zeta; rewrite l4proto_make, is_server_make; done.
Qed.

(** Closing the connections that match a predicate: exactly the matching
    ones leave the old state, the delta reports each of them as closed unless
    it already holds an entry for it, and nothing else changes. *)
Theorem CloseConnections_exact old delta pred k :
  umap_ok conn_keq old -> (forall c d, conn_keq c d = true -> pred c = pred d) ->
  let '(old', delta') := CloseConnections old delta pred in
  umap_find conn_keq k old' = (if pred k then None else umap_find conn_keq k old) /\
  umap_find conn_keq k delta' =
    match umap_find conn_keq k delta with
    | Some s => Some s
    | None => if pred k then (fun s => if IsActive s then SetActive false s else s) <$> umap_find conn_keq k old
              else None
    end.
Proof.
  intros Hok Hp. pose proof (CloseConnections_old old delta pred) as H1.
  pose proof (CloseConnections_delta old delta pred k Hok Hp) as H2.
  destruct (CloseConnections old delta pred) as [old' delta']. simpl in *. split.
  - rewrite H1, (umap_find_filter conn_keq); [|done|by intros c d v E; cbn; rewrite (Hp c d E)].
    simpl. destruct (umap_find conn_keq k old); by destruct (pred k).
  - rewrite H2. destruct (umap_find conn_keq k delta); [done|].
    by destruct (umap_find conn_keq k old), (pred k).
Qed.

(** [FetchEndpointState] counts the removed endpoints against the number
    of stored connections: on a tracker with one connection and no endpoint it
    adds one to [net_cep_inactive] although no endpoint was removed. *)
Theorem FetchEndpointState_counter conn :
  let t := AddConnection ConnectionTracker_default conn 1 in
  let '(cem, t') := FetchEndpointState t true true in
  endpoint_state_ t = [] /\ cem = [] /\ endpoint_state_ t' = [] /\
  GetCounter Counter.net_cep_inactive (stats_ t') = GetCounter Counter.net_cep_inactive (stats_ t) + 1.
Proof.
  cbv zeta. unfold AddConnection, UpdateConnection, EmplaceOrUpdateConnNoLock, EmplaceOrUpdate,
    umap_emplace. cbn. repeat split; reflexivity.
Qed.

End theorems.

(** ** Witnesses: a client connection to 8.8.8.8:443 on a little-endian host *)

Definition wit_conn : Connection :=
  Connection_make "c1" (Endpoint_of_address (ho := true) (Address_octets (ho := true) 10 0 0 1) 4000)
    (Endpoint_of_address (ho := true) (Address_octets (ho := true) 8 8 8 8) 443) L4Proto.TCP false.

(** The same connection from another local port. *)
Definition wit_conn' : Connection :=
  Connection_make "c1" (Endpoint_of_address (ho := true) (Address_octets (ho := true) 10 0 0 1) 4001)
    (Endpoint_of_address (ho := true) (Address_octets (ho := true) 8 8 8 8) 443) L4Proto.TCP false.

Lemma default_tracker_wf : tracker_wf (ho := true) ConnectionTracker_default.
Proof. split; [exact I|]. split; [exact I|]. split; [|split]; apply new_tree_wf. Qed.

Lemma Update_exact_witness :
  umap_find conn_keq wit_conn
    (conn_state_ (Update (ho := true) (AddConnection (ho := true) ConnectionTracker_default wit_conn 3) [] [] 7)) =
  Some (ConnStatus_make 3 false).
Proof. rewrite (Update_exact (ho := true)); [vm_compute; reflexivity|lia]. Defined.

Lemma Update_same_timestamp_witness :
  umap_find conn_keq wit_conn
    (conn_state_ (Update (ho := true) (Update (ho := true) ConnectionTracker_default [wit_conn] [] 7)
       [wit_conn] [] 7)) = Some (ConnStatus_make 7 false).
Proof. apply (Update_same_timestamp (ho := true) wit_conn 7). lia. Defined.

Lemma last_active_monotone_witness :
  let t := AddConnection (ho := true) ConnectionTracker_default wit_conn 9 in
  exists s', umap_find conn_keq wit_conn (conn_state_ (RemoveConnection (ho := true) t wit_conn 4)) = Some s' /\
    9 <= LastActiveTime s'.
Proof.
  apply (last_active_monotone (ho := true)
    (AddConnection (ho := true) ConnectionTracker_default wit_conn 9)
    (RemoveConnection (ho := true) (AddConnection (ho := true) ConnectionTracker_default wit_conn 9) wit_conn 4)
    wit_conn (ConnStatus_make 9 true)).
  - eapply rtc_l; [|apply rtc_refl]. apply (tu_conn (ho := true)).
  - vm_compute. reflexivity.
Defined.

Lemma FetchConnState_filtered_witness :
  let t := UpdateIgnoredL4ProtoPortPairs (AddConnection (ho := true) ConnectionTracker_default wit_conn 1)
    [(L4Proto.UDP, 53)] in
  ShouldFetchConnection (ho := true) t wit_conn = true.
Proof.
  cbv zeta. eapply (FetchConnState_filtered (ho := true) _ true wit_conn (ConnStatus_make 1 true)).
  - vm_compute. reflexivity.
  - vm_compute. left. reflexivity.
Defined.

Lemma NormalizeAddress_sound_witness :
  let a := Address_octets (ho := true) 8 8 8 8 in
  let r := NormalizeAddressNoLock (ho := true) ConnectionTracker_default a false in
  Contains (ho := true) r a = true \/ IsCanonicalExternalIp (ho := true) (address_ r) = true.
Proof.
  destruct (NormalizeAddress_sound (ho := true) ConnectionTracker_default
    (Address_octets (ho := true) 8 8 8 8) false default_tracker_wf) as [H|[H _]].
  - apply Address_octets_wf.
  - vm_compute. reflexivity.
  - left. exact H.
  - right. exact H.
Defined.

Lemma NormalizeAddress_aggregates_witness :
  NormalizeAddressNoLock (ho := true) ConnectionTracker_default (Address_octets (ho := true) 8 8 8 8) false =
  NormalizeAddressNoLock (ho := true) ConnectionTracker_default (Address_octets (ho := true) 1 1 1 1) false.
Proof.
  apply (NormalizeAddress_aggregates (ho := true)).
  - vm_compute. repeat split.
  - vm_compute. repeat split.
  - reflexivity.
Defined.

Lemma NormalizeConnection_merges_witness :
  NormalizeConnectionNoLock (ho := true) ConnectionTracker_default wit_conn =
  NormalizeConnectionNoLock (ho := true) ConnectionTracker_default wit_conn'.
Proof.
  apply (NormalizeConnection_merges (ho := true) ConnectionTracker_default wit_conn wit_conn');
    vm_compute; reflexivity.
Defined.

Lemma CloseConnections_exact_witness :
  umap_find conn_keq wit_conn
    (CloseConnections [(wit_conn, ConnStatus_make 5 true)] [] (fun _ => true)).2 =
  Some (ConnStatus_make 5 false).
Proof.
  pose proof (CloseConnections_exact [(wit_conn, ConnStatus_make 5 true)] [] (fun _ => true) wit_conn) as H.
  destruct (CloseConnections _ _ _) as [old' delta']. cbn [snd].
  destruct H as [_ ->]; [repeat split|reflexivity|]. vm_compute. reflexivity.
Defined.
