(* ===== verification/Notifier.v ===== *)
(** * The network status notifier ([NetworkStatusNotifier.h], [NetworkStatusNotifier.cpp])

    What the notifier receives (public addresses and networks), what it sends
    (connections and endpoints as messages), and the body of its loop.  Messages
    are records with the fields the code sets; a close timestamp is kept as the
    microseconds handed to [MicrosecondsToTimestamp].  The scraper, the clock and
    the configuration are inputs of an iteration. *)

From S2P Require Import Prelude HostOrder UMap NetAddress NRadix Connection.
From S2P Require Import ConnStatus Delta CollectorStats ExternalIPs RateLimit ConnTracker.

(** ** Messages *)

Module Wire.
Inductive L4Protocol := L4_PROTOCOL_UNKNOWN | L4_PROTOCOL_TCP | L4_PROTOCOL_UDP | L4_PROTOCOL_ICMP.
Inductive SocketFamily := SOCKET_FAMILY_UNKNOWN | SOCKET_FAMILY_IPV4 | SOCKET_FAMILY_IPV6.
Inductive ClientServerRole := ROLE_CLIENT | ROLE_SERVER.
End Wire.

Record NetworkAddress := mkNetworkAddress {
  address_data : list Z; ip_network : list Z; wire_port : Z
}.

Record NetworkProcessUniqueKey := mkProcessKey {
  process_name : string; process_exec_file_path : string; process_args : string
}.

Record NetworkConnection := mkNetworkConnection {
  nc_container_id : string; nc_role : Wire.ClientServerRole; nc_protocol : Wire.L4Protocol;
  nc_socket_family : Wire.SocketFamily; nc_local : option NetworkAddress;
  nc_remote : option NetworkAddress; nc_close_timestamp : option Z
}.

Record NetworkEndpoint := mkNetworkEndpoint {
  ne_container_id : string; ne_protocol : Wire.L4Protocol; ne_socket_family : Wire.SocketFamily;
  ne_listen_address : option NetworkAddress; ne_originator : option NetworkProcessUniqueKey;
  ne_close_timestamp : option Z
}.

Record InfoMessage := mkInfoMessage {
  updated_connections : list NetworkConnection; updated_endpoints : list NetworkEndpoint; info_time : Z
}.

Record IPAddressList := mkIPAddressList { ipv4_addresses : list Z; ipv6_addresses : list Z }.
Record IPNetworkList := mkIPNetworkList { ipv4_networks : list Z; ipv6_networks : list Z }.

(** [NetworkFlowsControlMessage]: an unset field reads as the empty message. *)
Record ControlMessage := mkControlMessage {
  public_ip_addresses : option IPAddressList; ip_networks : option IPNetworkList
}.

Definition TranslateL4Protocol (p : L4Proto.t) : Wire.L4Protocol :=
  match p with
  | L4Proto.TCP => Wire.L4_PROTOCOL_TCP
  | L4Proto.UDP => Wire.L4_PROTOCOL_UDP
  | L4Proto.ICMP => Wire.L4_PROTOCOL_ICMP
  | _ => Wire.L4_PROTOCOL_UNKNOWN
  end.

Definition TranslateAddressFamily (f : Family.t) : Wire.SocketFamily :=
  match f with
  | Family.IPV4 => Wire.SOCKET_FAMILY_IPV4
  | Family.IPV6 => Wire.SOCKET_FAMILY_IPV6
  | _ => Wire.SOCKET_FAMILY_UNKNOWN
  end.

(** Whether [char] is signed, which the platform decides. *)
Class CharSign := char_signed : bool.

Section notifier.
Context `{ho : HostOrder} `{cs : CharSign}.

(** ** Receiving *)

(** [static_cast<int>] of a [char], then the conversion to [size_t]. *)
Definition char_to_size (byte : Z) : Z :=
  if char_signed && (128 <=? byte) then u64 (byte - 256) else byte.

Definition read_network (family : Family.t) (tuple : list Z) : IPNet :=
  let len := Z.to_nat (Length family) in
  IPNet_make (Address_words family (memcpy_words len tuple))
    (char_to_size (nth len tuple 0)) false.

Definition readNetworks (networks : list Z) (family : Family.t) : list IPNet :=
  let tuple_size := Z.to_nat (Length family + 1) in
  let num_nets := (length networks / tuple_size)%nat in
  map (fun i => read_network family (drop (tuple_size * i) networks)) (seq 0 num_nets).

Fixpoint insert_pairs (words : list Z) (s : USet Address) : USet Address :=
  match words with
  | hi :: lo :: rest => insert_pairs rest (uset_insert Address_eq (Address_v6 (htonll hi) (htonll lo)) s)
  | _ => s
  end.

Definition ReceivePublicIPs (t : ConnectionTracker) (public_ips : IPAddressList) : ConnectionTracker :=
  let known_public_ips :=
    fold_left (fun s public_ip =>
      let addr := Address_u32 (htonl public_ip) in
      uset_insert Address_eq (ToV6 addr) (uset_insert Address_eq addr s))
      (ipv4_addresses public_ips) [] in
  let known_public_ips :=
    if Nat.even (length (ipv6_addresses public_ips))
    then insert_pairs (ipv6_addresses public_ips) known_public_ips
    else known_public_ips in
  UpdateKnownPublicIPs t known_public_ips.

Definition ReceiveIPNetworks (t : ConnectionTracker) (networks : IPNetworkList) : ConnectionTracker :=
  let known : UMap Family.t (list IPNet) := [] in
  let known :=
    if (length (ipv4_networks networks) mod 5 =? 0)%nat
    then umap_assign Family.eqb Family.IPV4 (readNetworks (ipv4_networks networks) Family.IPV4) known
    else known in
  let known :=
    if (length (ipv6_networks networks) mod 17 =? 0)%nat
    then umap_assign Family.eqb Family.IPV6 (readNetworks (ipv6_networks networks) Family.IPV6) known
    else known in
  UpdateKnownIPNetworks t known.

Definition OnRecvControlMessage (t : ConnectionTracker) (msg : option ControlMessage) : ConnectionTracker :=
  match msg with
  | None => t
  | Some msg =>
      let t :=
        match ip_networks msg with
        | Some _ => ReceivePublicIPs t (default (mkIPAddressList [] []) (public_ip_addresses msg))
        | None => t
        end in
      match ip_networks msg with
      | Some networks => ReceiveIPNetworks t networks
      | None => t
      end
  end.

(** ** Sending *)

Definition EndpointToProto (endpoint : Endpoint) : option NetworkAddress :=
  if Endpoint_IsNull endpoint then None
  else
    let addr_length := Z.to_nat (length_ (Endpoint_address endpoint)) in
    let bytes := take addr_length (data_bytes (Endpoint_address endpoint)) in
    Some (mkNetworkAddress
      (if is_addr_ (network_ endpoint) then bytes else [])
      (if 0 <? bits_ (network_ endpoint) then bytes ++ [u8 (bits_ (network_ endpoint))] else [])
      (port_ endpoint)).

Definition ProcessToProto (p : IProcess) : NetworkProcessUniqueKey :=
  mkProcessKey (proc_comm p) (proc_exe_path p) (proc_args p).

Definition ConnToProto (conn : Connection) (close_timestamp : option Z) : NetworkConnection :=
  mkNetworkConnection (container_ conn)
    (if is_server conn then Wire.ROLE_SERVER else Wire.ROLE_CLIENT)
    (TranslateL4Protocol (l4proto conn))
    (TranslateAddressFamily (family_ (Endpoint_address (local_ conn))))
    (EndpointToProto (local_ conn)) (EndpointToProto (remote_ conn)) close_timestamp.

Definition ContainerEndpointToProto (cep : ContainerEndpoint) (close_timestamp : option Z) : NetworkEndpoint :=
  mkNetworkEndpoint (cep_container_ cep) (TranslateL4Protocol (cep_l4proto_ cep))
    (TranslateAddressFamily (family_ (Endpoint_address (cep_endpoint_ cep))))
    (EndpointToProto (cep_endpoint_ cep)) (ProcessToProto <$> cep_originator_ cep) close_timestamp.

Definition close_time (status : ConnStatus) : option Z :=
  if IsActive status then None else Some (LastActiveTime status).

(** One iteration of the loop of [AddConnections]: the limiter is asked only
    for active entries; the flag tells whether the entry is sent. *)
Definition add_connection (rate_limiter : CountLimiter) (entry : Connection * ConnStatus)
    : CountLimiter * bool :=
  if IsActive entry.2 then CountLimiter_Allow rate_limiter (container_ entry.1)
  else (rate_limiter, true).

Fixpoint add_connections (rate_limiter : CountLimiter) (stats : CollectorStats) (delta : ConnMap)
    : ConnMap * CollectorStats :=
  match delta with
  | [] => ([], stats)
  | entry :: rest =>
      let '(rate_limiter, sent) := add_connection rate_limiter entry in
      if sent then
        let '(added, stats) := add_connections rate_limiter stats rest in (entry :: added, stats)
      else add_connections rate_limiter (COUNTER_INC Counter.net_conn_rate_limited stats) rest
  end.

Definition AddConnections (per_container_limit : Z) (stats : CollectorStats) (delta : ConnMap)
    : list NetworkConnection * CollectorStats :=
  let '(added, stats) := add_connections (CountLimiter_make per_container_limit) stats delta in
  (map (fun entry => ConnToProto entry.1 (close_time entry.2)) added, stats).

Definition AddContainerEndpoints (delta : AdvertisedEndpointMap) : list NetworkEndpoint :=
  map (fun entry => ContainerEndpointToProto entry.1 (close_time entry.2)) delta.

(** [now] is the clock that [CurrentTimeProto] reads. *)
Definition CreateInfoMessage (per_container_limit now : Z) (stats : CollectorStats) (conn_delta : ConnMap)
    (endpoint_delta : AdvertisedEndpointMap) : option InfoMessage * CollectorStats :=
  match conn_delta, endpoint_delta with
  | [], [] => (None, stats)
  | _, _ =>
      let '(connections, stats) := AddConnections per_container_limit stats conn_delta in
      let stats := CounterAdd Counter.net_conn_deltas (map_size conn_delta) stats in
      let endpoints := AddContainerEndpoints endpoint_delta in
      let stats := CounterAdd Counter.net_cep_deltas (map_size endpoint_delta) stats in
      (Some (mkInfoMessage connections endpoints now), stats)
  end.

(** ** The loop *)

(** The configuration read by an iteration. *)
Record NotifierConfig := mkNotifierConfig {
  cfg_turn_off_scrape : bool; cfg_scrape_listen_endpoints : bool; cfg_enable_afterglow : bool;
  cfg_afterglow_period : Z; cfg_per_container_limit : Z
}.

(** What an iteration reads from outside: the result of the scrape, its
    timestamp, the clock at the fetch, the clock of the message, the External-IPs
    setting, and whether the write succeeds. *)
Record Tick := mkTick {
  tick_scrape : option (list Connection * list ContainerEndpoint); tick_ts : Z;
  tick_time : Z; tick_now : Z; tick_external : ExternalIPsConfig; tick_write_ok : bool
}.

(** The local variables of [RunSingle] and the shared tracker. *)
Record RunState := mkRunState {
  rs_tracker : ConnectionTracker; rs_old_conn : ConnMap; rs_old_cep : AdvertisedEndpointMap;
  rs_time_at_last_scrape : Z; rs_prev_external : ExternalIPsConfig
}.

Definition set_tracker (t : ConnectionTracker) (st : RunState) : RunState :=
  mkRunState t (rs_old_conn st) (rs_old_cep st) (rs_time_at_last_scrape st) (rs_prev_external st).

Definition UpdateAllConnsAndEndpoints (cfg : NotifierConfig) (t : ConnectionTracker) (tick : Tick)
    : ConnectionTracker * bool :=
  if cfg_turn_off_scrape cfg then (t, true)
  else
    match tick_scrape tick with
    | None => (t, false)
    | Some (all_conns, all_listen_endpoints) =>
        (Update t all_conns (if cfg_scrape_listen_endpoints cfg then all_listen_endpoints else [])
           (tick_ts tick), true)
    end.

(** The deltas of one iteration and the state it leaves; [None] when the
    scrape failed. *)
Definition RunSingle_deltas (cfg : NotifierConfig) (st : RunState) (t : ConnectionTracker) (tick : Tick)
    : RunState * ConnMap * AdvertisedEndpointMap :=
  let time_micros := tick_time tick in
  let period := cfg_afterglow_period cfg in
  let t := SetExternalIPsConfig t (tick_external tick) in
  let '(new_conn_state, t) := FetchConnState t true true in
  let '(old_conn_state, delta_conn, prev_external) :=
    if cfg_enable_afterglow cfg then
      let delta := ComputeDeltaAfterglow conn_keq new_conn_state (rs_old_conn st) []
                     time_micros (rs_time_at_last_scrape st) period in
      let '(old, delta) :=
        CloseConnectionsOnExternalIPsConfigChange t (rs_prev_external st) (rs_old_conn st) delta in
      (UpdateOldState conn_keq old new_conn_state time_micros period, delta, tick_external tick)
    else (new_conn_state, ComputeDelta conn_keq new_conn_state (rs_old_conn st), rs_prev_external st) in
  let '(new_cep_state, t) := FetchEndpointState t true true in
  let cep_delta := ComputeDelta advertised_keq new_cep_state (rs_old_cep st) in
  (mkRunState t old_conn_state new_cep_state time_micros prev_external, delta_conn, cep_delta).

(** One iteration of the loop; the result is the new state, the message, if
    any, and whether the loop goes on. *)
Definition RunSingle_step (cfg : NotifierConfig) (st : RunState) (tick : Tick)
    : RunState * option InfoMessage * bool :=
  let '(t, updated) := UpdateAllConnsAndEndpoints cfg (rs_tracker st) tick in
  if negb updated then (set_tracker t st, None, true)
  else
    let '(st', conn_delta, cep_delta) := RunSingle_deltas cfg st t tick in
    let '(msg, stats) :=
      CreateInfoMessage (cfg_per_container_limit cfg) (tick_now tick) (stats_ (rs_tracker st'))
        conn_delta cep_delta in
    let st' := set_tracker (set_stats (fun _ => stats) (rs_tracker st')) st' in
    match msg with
    | None => (st', None, true)
    | Some m => (st', Some m, tick_write_ok tick)
    end.

(** Other threads use the tracker between two iterations: a control message
    arrives, or a connection event is observed. *)
Inductive RunEvent :=
  | EvTick (tick : Tick)
  | EvControl (msg : option ControlMessage)
  | EvConnection (conn : Connection) (timestamp : Z) (added : bool).

(** The loop over the iterations that [writer->Sleep] lets through, with the
    events in between; it ends after a failed write. *)
Fixpoint RunSingle (cfg : NotifierConfig) (st : RunState) (events : list RunEvent)
    : RunState * list InfoMessage :=
  match events with
  | [] => (st, [])
  | EvTick tick :: rest =>
      let '(st', msg, go) := RunSingle_step cfg st tick in
      if go then
        let '(st'', msgs) := RunSingle cfg st' rest in (st'', option_list msg ++ msgs)
      else (st', option_list msg)
  | EvControl msg :: rest =>
      RunSingle cfg (set_tracker (OnRecvControlMessage (rs_tracker st) msg) st) rest
  | EvConnection conn ts added :: rest =>
      RunSingle cfg (set_tracker (UpdateConnection (rs_tracker st) conn ts added) st) rest
  end.

Definition RunSingle_start (t : ConnectionTracker) (now : Z) (external : ExternalIPsConfig) : RunState :=
  mkRunState t [] [] now external.

End notifier.

(** ** Lemmas *)

Section notifier_lemmas.
Context `{ho : HostOrder} `{cs : CharSign}.

(** *** Networks on the wire *)

Definition wire_network (n : IPNet) : list Z :=
  take (Z.to_nat (length_ (address_ n))) (data_bytes (address_ n)) ++ [u8 (bits_ n)].

Definition wire_ok (f : Family.t) (n : IPNet) : Prop :=
  ipnet_wf n /\ IPNet_family n = f /\ addr_padded (address_ n) /\ 1 <= bits_ n.

Lemma wire_network_length f n : wire_ok f n -> length (wire_network n) = Z.to_nat (Length f + 1).
Proof.
  intros (_ & Hf & _). unfold wire_network, length_, IPNet_family in *. rewrite Hf.
  rewrite length_app, length_take, data_bytes_length. destruct f; simpl; lia.
Qed.

Lemma char_to_size_bits a b :
  0 <= b <= Length (family_ a) * 8 -> IPNet_make a (char_to_size (u8 b)) false = IPNet_make a b false.
Proof.
  intros Hb. assert (b <= 128) by (destruct (family_ a); simpl in Hb; lia).
  unfold wrap. rewrite Z.mod_small by lia. unfold char_to_size.
  destruct (char_signed && (128 <=? b)) eqn:E; [|done]. apply andb_prop in E as [_ E%Z.leb_le].
  assert (b = 128) as -> by lia. assert (family_ a = Family.IPV6) as Hf.
  { destruct (family_ a); simpl in Hb; try lia. done. }
  unfold IPNet_make. rewrite Hf. done.
Qed.

Lemma read_network_wire f n rest :
  wire_ok f n -> read_network f (wire_network n ++ rest) = IPNet_make (address_ n) (bits_ n) false.
Proof.
  intros (Hw & Hf & Hp & Hb). unfold read_network, wire_network. rewrite <- app_assoc.
  pose proof (ipnet_wf_bits n Hw) as Hbits. unfold IPNet_family in *. rewrite <- Hf in *.
  assert (length (take (Z.to_nat (length_ (address_ n))) (data_bytes (address_ n))) =
    Z.to_nat (length_ (address_ n))) as Hlen.
  { rewrite length_take, data_bytes_length. unfold length_. destruct (family_ (address_ n)); simpl; lia. }
  change (Length (family_ (address_ n))) with (length_ (address_ n)).
  rewrite memcpy_words_data by (apply Hw || done).
  rewrite app_nth2 by (rewrite Hlen; lia). rewrite Hlen, Nat.sub_diag. cbn [app nth].
  replace (Address_words (family_ (address_ n)) (data_ (address_ n))) with (address_ n)
    by (by destruct (address_ n)).
  apply char_to_size_bits. unfold length_ in *. lia.
Qed.

Lemma drop_wire f ns (i : nat) :
  Forall (wire_ok f) ns -> (i < length ns)%nat ->
  exists n rest, ns !! i = Some n /\
    drop (Z.to_nat (Length f + 1) * i) (concat (map wire_network ns)) = wire_network n ++ rest.
Proof.
  intros Hns. revert i. induction Hns as [|n ns Hn Hns IH]; intros i Hi; simpl in Hi; [lia|].
  pose proof (wire_network_length f n Hn) as Hlen. destruct i as [|i].
  - exists n, (concat (map wire_network ns)). rewrite Nat.mul_0_r. done.
  - destruct (IH i ltac:(lia)) as (n' & rest & Hl & Hd). exists n', rest. split; [done|].
    cbn [map concat]. rewrite <- Hd, Nat.mul_succ_r, Nat.add_comm. by apply drop_app_add'.
Qed.

Lemma concat_wire_length f ns :
  Forall (wire_ok f) ns ->
  length (concat (map wire_network ns)) = (Z.to_nat (Length f + 1) * length ns)%nat.
Proof.
  induction 1 as [|n ns Hn Hns IH]; simpl; [lia|].
  rewrite length_app, IH, (wire_network_length f n Hn). lia.
Qed.

(** *** Rate limiting of a delta *)

Definition entry_of (c : string) (entry : Connection * ConnStatus) : bool :=
  IsActive entry.2 && String.eqb (container_ entry.1) c.
Definition active_of (c : string) (delta : ConnMap) : Z :=
  Z.of_nat (length (List.filter (entry_of c) delta)).

Lemma active_of_cons c e delta :
  active_of c (e :: delta) = (if entry_of c e then 1 else 0) + active_of c delta.
Proof. unfold active_of. simpl. destruct (entry_of c e); simpl length; lia. Qed.

(** The effect of one entry on what is added. *)
Lemma add_connections_cons lim stats e delta :
  exists stats',
  (add_connections lim stats (e :: delta)).1 =
  let '(lim', sent) := add_connection lim e in
  (if sent then [e] else []) ++ (add_connections lim' stats' delta).1.
Proof.
  cbn [add_connections]. destruct (add_connection lim e) as [lim' []].
  - exists stats. by destruct (add_connections lim' stats delta).
  - by eexists.
Qed.

Lemma add_connections_active lim stats delta c :
  active_of c (add_connections lim stats delta).1 =
  Z.min (active_of c delta) (Z.max 0 (count_ lim - seen c lim)).
Proof.
  revert lim stats. induction delta as [|e delta IH]; intros lim stats.
  { unfold active_of. simpl. lia. }
  destruct (add_connections_cons lim stats e delta) as [stats' ->].
  rewrite active_of_cons. unfold add_connection. assert (0 <= active_of c delta) by (unfold active_of; lia).
  destruct (IsActive e.2) eqn:Ha.
  - pose proof (CountLimiter_Allow_seen lim (container_ e.1) c) as (Hs & Hc & Hok).
    destruct (CountLimiter_Allow lim (container_ e.1)) as [lim' ok]. simpl in Hs, Hc, Hok.
    assert (entry_of c e = String.eqb c (container_ e.1)) as He.
    { unfold entry_of. rewrite Ha. simpl. apply String.eqb_sym. }
    destruct ok; cbn [app]; [rewrite active_of_cons|]; rewrite IH, Hc, Hs, ?He;
      destruct (String.eqb_spec c (container_ e.1)) as [->|]; symmetry in Hok; breflect; lia.
  - cbn [fst snd app]. rewrite active_of_cons, IH. unfold entry_of. rewrite Ha. simpl. lia.
Qed.

Lemma add_connections_closed lim stats delta :
  List.filter (fun e => negb (IsActive e.2)) (add_connections lim stats delta).1 =
  List.filter (fun e => negb (IsActive e.2)) delta.
Proof.
  revert lim stats. induction delta as [|e delta IH]; intros lim stats; [done|].
  destruct (add_connections_cons lim stats e delta) as [stats' ->].
  cbn [List.filter]. unfold add_connection. destruct (IsActive e.2) eqn:Ha; cbn [negb].
  - destruct (CountLimiter_Allow lim (container_ e.1)) as [lim' []]; cbn [app List.filter]; rewrite ?Ha; apply IH.
  - cbn [app List.filter]. rewrite Ha. cbn [negb]. by rewrite IH.
Qed.

Lemma add_connections_sublist lim stats delta : (add_connections lim stats delta).1 `sublist_of` delta.
Proof.
  revert lim stats. induction delta as [|e delta IH]; intros lim stats; [constructor|].
  destruct (add_connections_cons lim stats e delta) as [stats' ->].
  destruct (add_connection lim e) as [lim' []]; cbn [app].
  - by apply sublist_skip.
  - by apply sublist_cons.
Qed.

(** *** The loop and its receiver *)

(** What the receiver of the deltas knows after the events. *)
Fixpoint receiver_view (cfg : NotifierConfig) (st : RunState) (view : Connection -> bool)
    (events : list RunEvent) : Connection -> bool :=
  match events with
  | [] => view
  | EvTick tick :: rest =>
      let '(t, updated) := UpdateAllConnsAndEndpoints cfg (rs_tracker st) tick in
      let '(st', _, go) := RunSingle_step cfg st tick in
      let view' :=
        if updated then receive conn_keq (RunSingle_deltas cfg st t tick).1.2 view else view in
      if go then receiver_view cfg st' view' rest else view'
  | EvControl msg :: rest =>
      receiver_view cfg (set_tracker (OnRecvControlMessage (rs_tracker st) msg) st) view rest
  | EvConnection conn ts added :: rest =>
      receiver_view cfg (set_tracker (UpdateConnection (rs_tracker st) conn ts added) st) view rest
  end.

(** The connections that a change of the External-IPs setting closes. *)
Definition closes (t : ConnectionTracker) (prev : ExternalIPsConfig) (conn : Connection) : bool :=
  let ingress := IsEnabled (external_ips_config_ t) INGRESS in
  let egress := IsEnabled (external_ips_config_ t) EGRESS in
  (negb (Bool.eqb egress (IsEnabled prev EGRESS)) && (negb (is_server conn) && should_close t egress conn)) ||
  (negb (Bool.eqb ingress (IsEnabled prev INGRESS)) && (is_server conn && should_close t ingress conn)).

(** The connections that a change of the setting closes are gone from the new snapshot,
    where they have other remote addresses now. *)
Definition renamed (cfg : NotifierConfig) (st : RunState) (tick : Tick) : Prop :=
  let '(t, updated) := UpdateAllConnsAndEndpoints cfg (rs_tracker st) tick in
  let '(new, t) := FetchConnState (SetExternalIPsConfig t (tick_external tick)) true true in
  updated = true -> forall k s, In (k, s) (rs_old_conn st) -> closes t (rs_prev_external st) k = true -> umap_find conn_keq k new = None.

(** The clock does not go back; and with afterglow, where connections are closed when the
    setting changes, these have been renamed. *)
Fixpoint orderly (cfg : NotifierConfig) (st : RunState) (events : list RunEvent) : Prop :=
  match events with
  | [] => True
  | EvTick tick :: rest =>
      rs_time_at_last_scrape st <= tick_time tick /\ (cfg_enable_afterglow cfg = true -> renamed cfg st tick) /\
      orderly cfg (RunSingle_step cfg st tick).1.1 rest
  | EvControl msg :: rest => orderly cfg (set_tracker (OnRecvControlMessage (rs_tracker st) msg) st) rest
  | EvConnection conn ts added :: rest => orderly cfg (set_tracker (UpdateConnection (rs_tracker st) conn ts added) st) rest
  end.

(** The same, as a test. *)
Definition renamed_test (cfg : NotifierConfig) (st : RunState) (tick : Tick) : bool :=
  let '(t, updated) := UpdateAllConnsAndEndpoints cfg (rs_tracker st) tick in
  let '(new, t) := FetchConnState (SetExternalIPsConfig t (tick_external tick)) true true in
  negb updated || forallb (fun e => negb (closes t (rs_prev_external st) e.1) || negb (umap_contains conn_keq e.1 new)) (rs_old_conn st).
Lemma renamed_tested cfg st tick : renamed_test cfg st tick = true -> renamed cfg st tick.
Proof.
  unfold renamed_test, renamed. destruct (UpdateAllConnsAndEndpoints _ _ _) as [t u]. destruct (FetchConnState _ _ _) as [new t2].
  intros H -> k s Hin Hc. cbn [negb orb] in H. rewrite forallb_forall in H. specialize (H _ Hin). cbn [fst] in H. rewrite Hc in H.
  unfold umap_contains in H. by destruct (umap_find conn_keq k new).
Qed.

(** The setting stays [ext] and the clock does not go back. *)
Fixpoint steady (ext : ExternalIPsConfig) (t : Z) (events : list RunEvent) : Prop :=
  match events with
  | [] => True
  | EvTick tick :: rest => tick_external tick = ext /\ t <= tick_time tick /\ steady ext (tick_time tick) rest
  | _ :: rest => steady ext t rest
  end.

Lemma steady_weaken ext t t' events : t' <= t -> steady ext t events -> steady ext t' events.
Proof.
  intros Hle. induction events as [|[tick|m|c ts a] events IH]; simpl; auto. intuition lia.
Qed.

Definition status_open (cfg : NotifierConfig) (t : Z) (s : ConnStatus) : bool :=
  if cfg_enable_afterglow cfg then WasRecentlyActive s t (cfg_afterglow_period cfg) else IsActive s.

(** The receiver's view matches the notifier's record of what it reported. *)
Definition run_inv (cfg : NotifierConfig) (st : RunState) (view : Connection -> bool) : Prop :=
  umap_ok conn_keq (rs_old_conn st) /\
  forall k, view k =
    match umap_find conn_keq k (rs_old_conn st) with
    | Some s => status_open cfg (rs_time_at_last_scrape st) s
    | None => false
    end.

(** What closing does to a key: nothing, unless its entry is closed; then it leaves the
    record and the delta says so, if it says nothing else. *)
Definition closed_at (old old' delta delta' : ConnMap) (closed : Connection -> bool) (k : Connection) : Prop :=
  (umap_find conn_keq k old = None /\ umap_find conn_keq k old' = None /\ umap_find conn_keq k delta' = umap_find conn_keq k delta) \/
  exists k0 s, In (k0, s) old /\ conn_keq k k0 = true /\ umap_find conn_keq k old = Some s /\
    if closed k0
    then umap_find conn_keq k old' = None /\ exists c, IsActive c = false /\ umap_find conn_keq k delta' = Some (default c (umap_find conn_keq k delta))
    else In (k0, s) old' /\ umap_find conn_keq k old' = Some s /\ umap_find conn_keq k delta' = umap_find conn_keq k delta.

Lemma CloseConnections_at old delta pred k : umap_ok conn_keq old ->
  closed_at old (CloseConnections old delta pred).1 delta (CloseConnections old delta pred).2 pred k.
Proof.
  revert delta. induction old as [|[k0 s] r IH]; intros delta; [by left|]. intros [Hk0 Hr]. cbn [CloseConnections].
  destruct (conn_keq k k0) eqn:E.
  - assert (umap_find conn_keq k r = None) as Hn by (by rewrite (umap_find_proper conn_keq k k0 r E)).
    right. exists k0, s. cbn [umap_find]. rewrite E. split; [by left|]. do 2 (split; [done|]). destruct (pred k0) eqn:Ep.
    + set (d := (umap_emplace conn_keq k0 _ delta).1). destruct (IH d Hr) as [(_ & H1 & H2)|(k1 & s1 & _ & _ & H & _)]; [|congruence].
      split; [exact H1|]. exists (if IsActive s then SetActive false s else s). split; [destruct (IsActive s) eqn:Ea; [apply IsActive_cleared|done]|].
      rewrite H2. subst d. rewrite (umap_find_emplace conn_keq), E. by destruct (umap_find conn_keq k delta).
    + destruct (IH delta Hr) as [(_ & H1 & H2)|(k1 & s1 & _ & _ & H & _)]; [|congruence].
      destruct (CloseConnections r delta pred) as [r' d']. cbn [fst snd umap_find] in *. rewrite E. split_and!; [by left|done|done].
  - destruct (pred k0) eqn:Ep.
    + set (d := (umap_emplace conn_keq k0 _ delta).1). assert (umap_find conn_keq k d = umap_find conn_keq k delta) as Hd.
      { subst d. rewrite (umap_find_emplace conn_keq), E. by destruct (umap_find conn_keq k delta). }
      specialize (IH d Hr). unfold closed_at in *. rewrite Hd in IH. cbn [umap_find]. rewrite E. destruct IH as [IH|(k1 & s1 & Hin & IH)]; [by left|right].
      exists k1, s1. split; [by right|]. done.
    + specialize (IH delta Hr). destruct (CloseConnections r delta pred) as [r' d']. unfold closed_at in *. cbn [fst snd umap_find] in *. rewrite E.
      destruct IH as [IH|(k1 & s1 & Hin & H1 & H2 & H3)]; [by left|right]. exists k1, s1. split; [by right|]. do 2 (split; [done|]).
      destruct (pred k1); [done|]. destruct H3 as (? & ? & ?). split_and!; [by right|done|done].
Qed.

Lemma close_change_at t prev old delta k : umap_ok conn_keq old ->
  let '(old', delta') := CloseConnectionsOnExternalIPsConfigChange t prev old delta in
  umap_ok conn_keq old' /\ closed_at old old' delta delta' (closes t prev) k.
Proof.
  intros Hok. unfold CloseConnectionsOnExternalIPsConfigChange, closes.
  set (ch1 := negb (Bool.eqb (IsEnabled (external_ips_config_ t) EGRESS) _)). set (ch2 := negb (Bool.eqb (IsEnabled (external_ips_config_ t) INGRESS) _)).
  set (p1 := fun conn : Connection => negb (is_server conn) && _). set (p2 := fun conn : Connection => is_server conn && _).
  assert (forall (ch : bool) old delta p, umap_ok conn_keq old -> let '(old', delta') := if ch then CloseConnections old delta p else (old, delta) in
    umap_ok conn_keq old' /\ closed_at old old' delta delta' (fun k => ch && p k) k) as Hone.
  { clear. intros ch old delta p Hok. destruct ch.
    - pose proof (CloseConnections_at old delta p k Hok) as H. pose proof (CloseConnections_old old delta p) as Ho.
      destruct (CloseConnections old delta p) as [old' delta']. cbn [fst snd] in *. split; [rewrite Ho; by apply umap_ok_filter|exact H].
    - split; [done|]. destruct (umap_find conn_keq k old) as [s|] eqn:E; [|by left]. right. destruct (umap_find_In conn_keq k s old E) as (k0 & Hin & Hk).
      exists k0, s. by split_and!. }
  pose proof (Hone ch1 old delta p1 Hok) as H1. destruct (if ch1 then _ else _) as [old1 delta1]. destruct H1 as [Hok1 H1].
  pose proof (Hone ch2 old1 delta1 p2 Hok1) as H2. destruct (if ch2 then _ else _) as [old2 delta2]. destruct H2 as [Hok2 H2]. split; [done|].
  destruct H1 as [(N1 & N2 & N3)|(k0 & s & Hin & Hk & Hf & H1)].
  - destruct H2 as [(_ & M2 & M3)|(k1 & s1 & _ & _ & M & _)]; [|congruence]. left. by rewrite M3.
  - right. exists k0, s. do 3 (split; [done|]). subst p1 p2. cbn beta in *. destruct (ch1 && _); cbn [orb].
    + destruct H1 as (Ho & c & Hc & Hd). destruct H2 as [(_ & M2 & M3)|(k1 & s1 & _ & _ & M & _)]; [|congruence]. split; [done|]. exists c. by rewrite M3.
    + destruct H1 as (Hin1 & Ho & Hd). destruct H2 as [(M1 & _)|(k1 & s1 & Hin' & Hk' & Hf' & H2)]; [congruence|].
      assert (k1 = k0 /\ s1 = s) as [-> ->].
      { by apply (umap_In_unique conn_keq k _ _ _ _ old1). }
      rewrite Hd in H2. exact H2.
Qed.

Lemma fetch_conn_ok t a b : umap_ok conn_keq (FetchConnState t a b).1.
Proof. apply fetch_ok, _. Qed.

(** A key that closing leaves alone changes as without it; one that it closes is in
    nobody's record afterwards. *)
Lemma glow_closed_view p st (new old' delta' : ConnMap) t closed k :
  umap_ok conn_keq new -> umap_ok conn_keq (glow_old st) -> umap_ok conn_keq old' -> glow_time st <= t ->
  glow_view st k = match umap_find conn_keq k (glow_old st) with Some o => WasRecentlyActive o (glow_time st) p | None => false end ->
  (forall k0 s, In (k0, s) (glow_old st) -> closed k0 = true -> umap_find conn_keq k0 new = None) ->
  closed_at (glow_old st) old' (ComputeDeltaAfterglow conn_keq new (glow_old st) [] t (glow_time st) p) delta' closed k ->
  receive conn_keq delta' (glow_view st) k =
  match umap_find conn_keq k (UpdateOldState conn_keq old' new t p) with Some o => WasRecentlyActive o t p | None => false end.
Proof.
  intros Hn Ho Ho' Ht Hv Hr Hc. pose proof (glow_step_view conn_keq p st new t k Hn Ho Ht Hv) as Hs. cbn [glow_step glow_view] in Hs.
  unfold receive in *. rewrite UpdateOldState_find in Hs |- * by (done || apply _).
  destruct Hc as [(E1 & E2 & ->)|(k0 & s & Hin & Hk & E1 & Hc)]; [by rewrite E2; rewrite E1 in Hs|].
  destruct (closed k0) eqn:Ec; [|by destruct Hc as (_ & -> & ->); rewrite E1 in Hs].
  destruct Hc as (-> & c & Hc & ->). rewrite ComputeDeltaAfterglow_find, E1 by (done || apply _).
  assert (umap_find conn_keq k new = None) as ->.
  { rewrite (umap_find_proper conn_keq k k0) by done. by eapply Hr. }
  cbn [afterglow_spec update_old_spec]. destruct (_ && _); cbn [default id]; [|done]. apply IsActive_make.
Qed.

Lemma deltas_inv cfg st view t tick :
  run_inv cfg st view -> rs_time_at_last_scrape st <= tick_time tick ->
  (cfg_enable_afterglow cfg = true -> let '(new, t) := FetchConnState (SetExternalIPsConfig t (tick_external tick)) true true in
     forall k s, In (k, s) (rs_old_conn st) -> closes t (rs_prev_external st) k = true -> umap_find conn_keq k new = None) ->
  let '(st', conn_delta, _) := RunSingle_deltas cfg st t tick in
  run_inv cfg st' (receive conn_keq conn_delta view) /\ rs_time_at_last_scrape st' = tick_time tick.
Proof.
  intros (Hok & Hview) Ht Hr. unfold RunSingle_deltas.
  set (t1 := SetExternalIPsConfig t (tick_external tick)) in *.
  pose proof (fetch_conn_ok t1 true true) as Hn. destruct (FetchConnState t1 true true) as [new t2]. cbn [fst snd] in Hn.
  unfold run_inv, status_open in *. destruct (cfg_enable_afterglow cfg) eqn:Eg.
  - set (delta := ComputeDeltaAfterglow _ _ _ _ _ _ _). pose proof (fun k => close_change_at t2 (rs_prev_external st) (rs_old_conn st) delta k Hok) as Hc.
    destruct (CloseConnectionsOnExternalIPsConfigChange t2 _ _ _) as [old' delta'].
    destruct (FetchEndpointState t2 true true) as [cep t3].
    cbn [rs_old_conn rs_prev_external rs_time_at_last_scrape].
    split; [|done]. split; [apply (UpdateOldState_ok conn_keq), (Hc (mkConnection "" Endpoint_default Endpoint_default 0))|].
    intros k. destruct (Hc k) as [Hok' Hck]. apply (glow_closed_view (cfg_afterglow_period cfg)
      (mkGlow (rs_old_conn st) (rs_time_at_last_scrape st) view) new old' delta' (tick_time tick) (closes t2 (rs_prev_external st)));
      [done..|apply Hview|by apply Hr|exact Hck].
  - destruct (FetchEndpointState t2 true true) as [cep t3].
    cbn [rs_old_conn rs_prev_external rs_time_at_last_scrape]. split_and!; [done| |done].
    intros k. by apply (plain_step_view conn_keq).
Qed.

Lemma step_inv cfg st view tick :
  run_inv cfg st view -> rs_time_at_last_scrape st <= tick_time tick -> (cfg_enable_afterglow cfg = true -> renamed cfg st tick) ->
  let '(t, updated) := UpdateAllConnsAndEndpoints cfg (rs_tracker st) tick in
  run_inv cfg (RunSingle_step cfg st tick).1.1
    (if updated then receive conn_keq (RunSingle_deltas cfg st t tick).1.2 view else view).
Proof.
  intros Hinv Ht Hr. unfold RunSingle_step, renamed in *.
  destruct (UpdateAllConnsAndEndpoints cfg (rs_tracker st) tick) as [t []]; cbn [negb]; [|done].
  pose proof (deltas_inv cfg st view t tick Hinv Ht) as H. destruct (FetchConnState _ _ _) as [new t2].
  specialize (H (fun Hg => Hr Hg eq_refl)). destruct (RunSingle_deltas cfg st t tick) as [[st' cd] ed]. destruct H as [H1 H2].
  by destruct (CreateInfoMessage _ _ _ cd ed) as [[m|] stats].
Qed.

Lemma run_view_inv cfg events st view :
  run_inv cfg st view -> orderly cfg st events ->
  run_inv cfg (RunSingle cfg st events).1 (receiver_view cfg st view events).
Proof.
  revert st view. induction events as [|[tick|msg|conn ts added] events IH]; intros st view Hinv Hs.
  - done.
  - destruct Hs as (Ht & Hr & Hs). pose proof (step_inv cfg st view tick Hinv Ht Hr) as H.
    cbn [RunSingle receiver_view]. destruct (UpdateAllConnsAndEndpoints _ _ tick) as [t updated].
    destruct (RunSingle_step cfg st tick) as [[st' msg] go]. cbn [fst] in H, Hs.
    destruct go; [|done]. specialize (IH st' _ H Hs). by destruct (RunSingle cfg st' events).
  - by apply IH.
  - by apply IH.
Qed.

(** With a setting that stays, nothing is closed for a change. *)
Lemma steady_orderly cfg ext events : forall st, rs_prev_external st = ext -> steady ext (rs_time_at_last_scrape st) events -> orderly cfg st events.
Proof.
  induction events as [|[tick|msg|conn ts added] events IH]; intros st Hp Hs; [done| |by apply IH..].
  destruct Hs as (He & Ht & Hs). cbn [orderly]. split; [done|]. split.
  - intros _. unfold renamed. destruct (UpdateAllConnsAndEndpoints _ _ _) as [t u]. destruct (FetchConnState _ true true) as [new t2] eqn:Ef.
    intros _ k s _. assert (external_ips_config_ t2 = ext) as Hx.
    { apply (f_equal snd) in Ef. cbn [snd] in Ef. rewrite <- Ef. exact He. }
    unfold closes. by rewrite Hx, Hp, !eqb_reflx.
  - apply IH.
    + unfold RunSingle_step. destruct (UpdateAllConnsAndEndpoints _ _ _) as [t []]; cbn [negb]; [|done]. unfold RunSingle_deltas.
      destruct (FetchConnState _ _ _) as [new t2]. destruct (cfg_enable_afterglow cfg); [destruct (CloseConnectionsOnExternalIPsConfigChange _ _ _ _)|];
        destruct (FetchEndpointState _ _ _); destruct (CreateInfoMessage _ _ _ _ _) as [[m|] stats]; done.
    + unfold RunSingle_step. destruct (UpdateAllConnsAndEndpoints _ _ _) as [t []]; cbn [negb]; [|by eapply steady_weaken]. unfold RunSingle_deltas.
      destruct (FetchConnState _ _ _) as [new t2]. destruct (cfg_enable_afterglow cfg); [destruct (CloseConnectionsOnExternalIPsConfigChange _ _ _ _)|];
        destruct (FetchEndpointState _ _ _); destruct (CreateInfoMessage _ _ _ _ _) as [[m|] stats]; done.
Qed.

End notifier_lemmas.

(** ** Properties *)

Section theorems.
Context `{ho : HostOrder} `{cs : CharSign}.

(** The [ip_network] field sent for a network. *)
Definition sent_network (n : IPNet) : list Z :=
  from_option ip_network [] (EndpointToProto (Endpoint_of_net n 0)).

Lemma sent_network_wire f n : wire_ok f n -> sent_network n = wire_network n.
Proof.
  intros (Hw & Hf & Hp & Hb). unfold sent_network, EndpointToProto, Endpoint_IsNull, IPNet_IsNull.
  cbn [Endpoint_of_net network_ port_ Z.eqb].
  rewrite (proj2 (Z.eqb_neq (bits_ n) 0)) by lia. cbn [andb from_option ip_network].
  rewrite (proj2 (Z.ltb_lt 0 (bits_ n))) by lia. done.
Qed.

(** Networks survive the wire: decoding the concatenation of the
    [ip_network] fields sent for any list of networks of one family gives the
    same addresses and prefix lengths, whether [char] is signed or not. *)
Theorem readNetworks_roundtrip f ns :
  Forall (wire_ok f) ns ->
  readNetworks (concat (map sent_network ns)) f =
  map (fun n => IPNet_make (address_ n) (bits_ n) false) ns.
Proof.
  intros Hns. replace (map sent_network ns) with (map wire_network ns).
  2:{ apply map_ext_in. intros n Hn. rewrite List.Forall_forall in Hns.
      symmetry. by apply (sent_network_wire f), Hns. }
  unfold readNetworks. rewrite (concat_wire_length f) by done.
  rewrite Nat.mul_comm, Nat.div_mul by (destruct f; simpl; lia).
  apply list_eq. intros i. rewrite !list_lookup_fmap. destruct (decide (i < length ns)%nat) as [Hi|Hi].
  - rewrite lookup_seq_lt by done. destruct (drop_wire f ns i Hns Hi) as (n & rest & Hl & Hd).
    rewrite Hl. simpl. rewrite Hd. f_equal. apply read_network_wire.
    by apply (proj1 (Forall_lookup _ _) Hns i).
  - rewrite !lookup_ge_None_2; [done|lia|rewrite length_seq; lia].
Qed.

(** The per-container limit: of each container at most [limit] opened
    connections of a delta are sent, and all of them when they are not more;
    every closed connection is sent, whatever the limit; the order is kept and
    nothing is added. *)
Theorem AddConnections_limit limit stats delta c :
  0 <= limit ->
  let sent := (add_connections (CountLimiter_make limit) stats delta).1 in
  active_of c sent = Z.min (active_of c delta) limit /\
  List.filter (fun e => negb (IsActive e.2)) sent = List.filter (fun e => negb (IsActive e.2)) delta /\
  sent `sublist_of` delta /\
  (AddConnections limit stats delta).1 = map (fun e => ConnToProto e.1 (close_time e.2)) sent.
Proof.
  intros Hl sent. subst sent. split_and!; [|apply add_connections_closed|apply add_connections_sublist|].
  2:{ unfold AddConnections. by destruct (add_connections _ stats delta). }
  rewrite add_connections_active. unfold seen, CountLimiter_make. simpl. rewrite Z.sub_0_r. lia.
Qed.

(** C5: the receiver stays in step with the notifier: along any run of scrapes (failed ones
    included), control messages, connection events and changes of the External-IPs
    setting, the deltas that the messages are made of keep the receiver's open
    connections equal to the ones the notifier's own record has open, with or without
    afterglow; provided that the clock does not go back and, with afterglow, that the
    connections that a change of the setting closes have other names in the snapshot
    taken under it.  A setting that stays closes none. *)
Theorem RunSingle_receiver_in_step cfg t now ext events :
  (orderly cfg (RunSingle_start t now ext) events \/ steady ext now events) ->
  forall k, let st := (RunSingle cfg (RunSingle_start t now ext) events).1 in
  receiver_view cfg (RunSingle_start t now ext) (fun _ => false) events k =
  match umap_find conn_keq k (rs_old_conn st) with
  | Some s => status_open cfg (rs_time_at_last_scrape st) s
  | None => false
  end.
Proof.
  intros Hs. assert (run_inv cfg (RunSingle_start t now ext) (fun _ => false)) as Hinv by done.
  apply (run_view_inv cfg events _ _ Hinv). destruct Hs as [Hs|Hs]; [done|by apply (steady_orderly cfg ext)].
Qed.

(** A control message with public addresses and no networks is ignored:
    the guard of the public addresses tests the networks field. *)
Theorem OnRecvControlMessage_drops_public_ips t ips :
  OnRecvControlMessage t (Some (mkControlMessage (Some ips) None)) = t.
Proof. done. Qed.

(** What a control message with both fields sets: an IPv4 address is
    known afterwards, also as a mapped IPv6 address, exactly when the message
    lists it, if no IPv6 address is listed. *)
Theorem ReceivePublicIPs_known t v4s a :
  uset_contains Address_eq a (known_public_ips_ (ReceivePublicIPs t (mkIPAddressList v4s []))) = true <->
  exists ip, In ip v4s /\ (a = Address_u32 (htonl ip) \/ a = ToV6 (Address_u32 (htonl ip))).
Proof.
  unfold ReceivePublicIPs. cbn [ipv4_addresses ipv6_addresses length Nat.even insert_pairs
    UpdateKnownPublicIPs known_public_ips_].
  cut (forall s, uset_contains Address_eq a (fold_left (fun s ip => uset_insert Address_eq
      (ToV6 (Address_u32 (htonl ip))) (uset_insert Address_eq (Address_u32 (htonl ip)) s)) v4s s) = true <->
    uset_contains Address_eq a s = true \/
    exists ip, In ip v4s /\ (a = Address_u32 (htonl ip) \/ a = ToV6 (Address_u32 (htonl ip)))).
  { intros H. rewrite H. split; [by intros [[=]|?]|by right]. }
  induction v4s as [|ip v4s IH]; intros s; cbn [fold_left].
  - split; [by left|]. intros [?|(ip & [] & _)]. done.
  - rewrite IH, !(uset_contains_insert Address_eq), !orb_true_iff, !Address_eq_eq. split.
    + intros [[H|[H|H]]|(ip' & Hin & H)]; [right; exists ip; simpl; by auto..|by left|].
      right. exists ip'. simpl. by auto.
    + intros [H|(ip' & [->|Hin] & [H|H])]; [by auto..| |]; right; by eauto.
Qed.

End theorems.

(** ** Witnesses *)

Lemma readNetworks_roundtrip_witness :
  let n := IPNet_make (ho := true) (Address_v6 0 1) 128 false in
  readNetworks (ho := true) (cs := true) (concat (map (sent_network (ho := true)) [n])) Family.IPV6 = [n].
Proof.
  cbv zeta. rewrite (readNetworks_roundtrip (ho := true) (cs := true) Family.IPV6).
  - reflexivity.
  - apply Forall_singleton. split; [|split; [reflexivity|split; [reflexivity|vm_compute; discriminate]]].
    apply IPNet_make_wf; [|lia]. repeat constructor; vm_compute; discriminate || reflexivity.
Defined.

Lemma AddConnections_limit_witness :
  active_of "c1" (add_connections (CountLimiter_make 1) Stats_Reset
    [(wit_conn, ConnStatus_make 1 true); (wit_conn', ConnStatus_make 1 true)]).1 = 1.
Proof.
  destruct (AddConnections_limit (ho := true) 1 Stats_Reset
    [(wit_conn, ConnStatus_make 1 true); (wit_conn', ConnStatus_make 1 true)] "c1" ltac:(lia)) as [-> _].
  vm_compute. reflexivity.
Defined.

Definition wit_cfg : NotifierConfig := mkNotifierConfig false true true 100 1000.
Definition wit_events : list RunEvent :=
  [EvTick (mkTick (Some ([wit_conn], [])) 10 10 11 (mkExternalIPs NONE) true);
   EvControl None;
   EvTick (mkTick None 20 20 21 (mkExternalIPs NONE) true);
   EvTick (mkTick (Some ([], [])) 30 30 31 (mkExternalIPs NONE) true)].

(** The setting changes while a public connection is in its afterglow: the connection is
    closed under its old name and open under the new one. *)
Definition wit_public : Connection :=
  Connection_make "c1" (Endpoint_of_address (ho := true) (Address_octets (ho := true) 10 0 0 1) 40000) (Endpoint_of_address (ho := true) (Address_octets (ho := true) 8 8 8 8) 443) L4Proto.TCP false.
Definition wit_change : list RunEvent :=
  [EvTick (mkTick (Some ([wit_public], [])) 10 10 11 (mkExternalIPs NONE) true); EvControl None;
   EvTick (mkTick None 15 15 16 (mkExternalIPs NONE) true);
   EvTick (mkTick (Some ([wit_public], [])) 20 20 21 (mkExternalIPs EGRESS) true)].
Abbreviation wit_start := (RunSingle_start ConnectionTracker_default 5 (mkExternalIPs NONE)).
Abbreviation wit_view := (receiver_view (ho := true) (cs := true) wit_cfg wit_start (fun _ => false)).
Abbreviation wit_name ext := (NormalizeConnectionNoLock (ho := true) (SetExternalIPsConfig ConnectionTracker_default (mkExternalIPs ext)) wit_public).

Lemma wit_change_orderly : orderly (ho := true) (cs := true) wit_cfg wit_start wit_change.
Proof. cbn [orderly wit_change]. repeat split; try (intros _; apply renamed_tested); by vm_compute. Qed.

Lemma RunSingle_receiver_in_step_witness :
  wit_view (take 3 wit_change) (wit_name NONE) = true /\ wit_view wit_change (wit_name NONE) = false /\ wit_view wit_change (wit_name EGRESS) = true.
Proof.
  assert (steady (mkExternalIPs NONE) 5 (take 3 wit_change)) as Hs by (cbn [take wit_change steady tick_external tick_time]; repeat split; lia).
  split; [|split].
  - rewrite (RunSingle_receiver_in_step (ho := true) (cs := true) wit_cfg _ _ _ _ (or_intror Hs)). vm_compute. reflexivity.
  - rewrite (RunSingle_receiver_in_step (ho := true) (cs := true) wit_cfg _ _ _ _ (or_introl wit_change_orderly)). vm_compute. reflexivity.
  - rewrite (RunSingle_receiver_in_step (ho := true) (cs := true) wit_cfg _ _ _ _ (or_introl wit_change_orderly)). vm_compute. reflexivity.
Defined.
