(* ===== verification/CStrings.v ===== *)
(** * Characters and strings of the C++ standard library

    The functions on [std::string] and [std::string_view] that the parsing code
    uses, over lists of characters.  Positions are [nat]; [npos] is [None]. *)

From Stdlib Require Export Ascii.
From S2P Require Import Prelude UMap.

Abbreviation chars := (list ascii).

(** The numeric value of a [char], as an unsigned byte. *)
Definition ord (c : ascii) : Z := Z.of_N (N_of_ascii c).
(** Conversion of an integer to [char], by truncation to a byte. *)
Definition chr (z : Z) : ascii := ascii_of_N (Z.to_N (u8 z)).

Definition in_chars (lo hi : ascii) (c : ascii) : bool := (ord lo <=? ord c) && (ord c <=? ord hi).

(** Character classes of the C locale. *)
Definition isdigit : ascii -> bool := in_chars "0" "9".
Definition isupper : ascii -> bool := in_chars "A" "Z".
Definition islower : ascii -> bool := in_chars "a" "z".
Definition isalnum (c : ascii) : bool := isdigit c || isupper c || islower c.
Definition isxdigit (c : ascii) : bool := isdigit c || in_chars "A" "F" c || in_chars "a" "f" c.
Definition isspace (c : ascii) : bool := (ord c =? 32) || ((9 <=? ord c) && (ord c <=? 13)).

(** Case conversion in the C locale. *)
Definition tolower (c : ascii) : ascii := if isupper c then chr (ord c + 32) else c.
Definition toupper (c : ascii) : ascii := if islower c then chr (ord c - 32) else c.

Definition ch_eqb (c d : ascii) : bool := Ascii.eqb c d.
Definition chars_eqb (s t : chars) : bool := bool_decide (s = t).

Definition is_empty (s : chars) : bool := match s with [] => true | _ => false end.

(** [s.find(c)] in a suffix that starts at position [pos]. *)
Fixpoint find_from (c : ascii) (s : chars) (pos : nat) : option nat :=
  match s with
  | [] => None
  | d :: r => if ch_eqb d c then Some pos else find_from c r (S pos)
  end.

(** [s.find(c, pos)]. *)
Definition find_char (c : ascii) (s : chars) (pos : nat) : option nat := find_from c (drop pos s) pos.

Fixpoint starts_with (pat s : chars) : bool :=
  match pat, s with
  | [], _ => true
  | p :: pat, c :: s => ch_eqb p c && starts_with pat s
  | _, [] => false
  end.

Definition ends_with (pat s : chars) : bool := starts_with (rev pat) (rev s).

(** [s.rfind(pat)], for a non-empty pattern: the last position where it starts. *)
Fixpoint rfind_from (pat s : chars) (pos : nat) : option nat :=
  match s with
  | [] => None
  | _ :: r =>
      match rfind_from pat r (S pos) with
      | Some n => Some n
      | None => if starts_with pat s then Some pos else None
      end
  end.
Definition rfind (pat s : chars) : option nat := rfind_from pat s 0.

(** [s.find(pat, pos)], for a non-empty pattern. *)
Fixpoint find_str_from (pat s : chars) (pos : nat) : option nat :=
  match s with
  | [] => None
  | _ :: r => if starts_with pat s then Some pos else find_str_from pat r (S pos)
  end.
Definition find_str (pat s : chars) (pos : nat) : option nat := find_str_from pat (drop pos s) pos.

(** Decimal digits from the left: the value so far and the rest. *)
Fixpoint digits (s : chars) (acc : Z) : Z * chars :=
  match s with
  | c :: r => if isdigit c then digits r (acc * 10 + (ord c - 48)) else (acc, s)
  | [] => (acc, [])
  end.

Fixpoint skip_spaces (s : chars) : chars :=
  match s with
  | c :: r => if isspace c then skip_spaces r else s
  | [] => []
  end.

(** [strtoumax(s, &end, 10)]: spaces, an optional sign, digits; the value
    saturates, a minus sign negates it modulo 2^64, and [end] is the start of
    the string when there is no digit. *)
Definition strtoumax (s : chars) : Z * chars :=
  let t := skip_spaces s in
  let '(neg, u) :=
    match t with
    | c :: r => if ch_eqb c "-" then (true, r) else if ch_eqb c "+" then (false, r) else (false, t)
    | [] => (false, [])
    end in
  match u with
  | c :: _ =>
      if isdigit c then
        let '(v, rest) := digits u 0 in
        if 2 ^ 64 <=? v then (2 ^ 64 - 1, rest) else (if neg then u64 (- v) else v, rest)
      else (0, s)
  | [] => (0, s)
  end.

(** ** Lemmas *)

Lemma ch_eqb_eq c d : ch_eqb c d = true <-> c = d.
Proof. apply Ascii.eqb_eq. Qed.

Lemma ch_eqb_refl c : ch_eqb c c = true.
Proof. apply Ascii.eqb_refl. Qed.

Lemma ord_range c : in_range 8 (ord c).
Proof.
  unfold in_range, ord. pose proof (N_ascii_bounded c). change (2 ^ 8) with (Z.of_N 256). lia.
Qed.

Lemma chr_ord c : chr (ord c) = c.
Proof.
  unfold chr. rewrite wrap_id by apply ord_range. unfold ord. rewrite N2Z.id. apply ascii_N_embedding.
Qed.

Lemma ord_chr z : in_range 8 z -> ord (chr z) = z.
Proof.
  intros Hz. unfold chr, ord. rewrite wrap_id by done. unfold in_range in Hz.
  rewrite N_ascii_embedding by (change 256%N with (Z.to_N (2 ^ 8)); lia). lia.
Qed.

Lemma starts_with_spec pat s : starts_with pat s = true <-> exists r, s = pat ++ r.
Proof.
  revert s. induction pat as [|p pat IH]; intros s; simpl.
  - split; [by eauto|done].
  - destruct s as [|c s]; simpl.
    + split; [done|]. by intros [r [=]].
    + rewrite andb_true_iff, ch_eqb_eq, IH. split.
      * intros [-> [r ->]]. by exists r.
      * intros [r [= -> ->]]. split; [done|by exists r].
Qed.

Lemma find_from_None c s pos : find_from c s pos = None <-> ~ In c s.
Proof.
  revert pos. induction s as [|d s IH]; intros pos; simpl; [tauto|].
  destruct (ch_eqb d c) eqn:E.
  - apply ch_eqb_eq in E. subst. intuition done.
  - rewrite IH. split; [|tauto]. intros H [->|]; [|tauto]. by rewrite ch_eqb_refl in E.
Qed.

Lemma find_from_Some c s pos n :
  find_from c s pos = Some n <->
  exists l r, s = l ++ c :: r /\ n = (pos + length l)%nat /\ ~ In c l.
Proof.
  revert pos. induction s as [|d s IH]; intros pos; simpl.
  - split; [done|]. by intros ([|? l] & r & [=] & _).
  - destruct (ch_eqb d c) eqn:E.
    + apply ch_eqb_eq in E. subst d. split.
      * intros [= <-]. exists [], s. simpl. split_and!; [done|lia|tauto].
      * intros ([|d l] & r & Hs & Hn & Hin); [f_equal; simpl in *; lia|].
        exfalso. apply Hin. left. simpl in Hs. congruence.
    + rewrite IH. split.
      * intros (l & r & -> & -> & Hin). exists (d :: l), r. simpl. split_and!; [done|lia|].
        intros [->|]; [|done]. by rewrite ch_eqb_refl in E.
      * intros ([|d' l] & r & Hs & Hn & Hin); simpl in *.
        -- injection Hs as -> _. by rewrite ch_eqb_refl in E.
        -- injection Hs as <- ->. exists l, r. split_and!; [done|lia|tauto].
Qed.

Lemma rfind_from_None pat s pos :
  pat <> [] -> rfind_from pat s pos = None <-> forall l r, s <> l ++ pat ++ r.
Proof.
  intros Hp. revert pos. induction s as [|c s IH]; intros pos; simpl.
  - split; [|done]. intros _ l r H. destruct l; [|done]. by destruct pat.
  - destruct (rfind_from pat s (S pos)) eqn:E.
    + split; [done|]. intros H. assert (rfind_from pat s (S pos) = None); [|congruence].
      apply (proj2 (IH (S pos))). intros l r ->. by apply (H (c :: l) r).
    + pose proof (proj1 (IH (S pos)) E) as Hno. destruct (starts_with pat (c :: s)) eqn:Es.
      * split; [done|]. intros H. apply starts_with_spec in Es as [r Hr]. by destruct (H [] r).
      * split; [|done]. intros _ [|d l] r H.
        -- assert (starts_with pat (c :: s) = true); [|congruence]. apply starts_with_spec. by exists r.
        -- injection H as -> ->. by apply (Hno l r).
Qed.

(** The last occurrence, when the pattern does not start again behind it. *)
Lemma rfind_from_None_hd c pat s pos : ~ In c s -> rfind_from (c :: pat) s pos = None.
Proof.
  intros Hc. apply rfind_from_None; [done|]. intros l r ->. apply Hc. apply in_app_iff. right. by left.
Qed.

Lemma rfind_from_last c pat l r pos :
  rfind_from (c :: pat) (pat ++ r) (S (pos + length l)) = None ->
  rfind_from (c :: pat) (l ++ (c :: pat) ++ r) pos = Some (pos + length l)%nat.
Proof.
  revert pos. induction l as [|d l IH]; intros pos Hr.
  - cbn [app rfind_from length] in *. rewrite Nat.add_0_r in *. rewrite Hr.
    by rewrite (proj2 (starts_with_spec (c :: pat) (c :: pat ++ r))) by (by exists r).
  - cbn [app rfind_from length] in *. rewrite (IH (S pos)); [f_equal; lia|].
    rewrite <- Hr. f_equal. lia.
Qed.

Lemma find_from_app c k r pos : ~ In c k -> find_from c (k ++ c :: r) pos = Some (pos + length k)%nat.
Proof. intros Hno. apply find_from_Some. by exists k, r. Qed.

#[export] Instance chars_eqb_equiv : KeyEquiv chars_eqb.
Proof.
  unfold chars_eqb. split.
  - intros x. by rewrite bool_decide_true.
  - intros x y H. apply bool_decide_eq_true in H. subst. by rewrite bool_decide_true.
  - intros x y z H1 H2. apply bool_decide_eq_true in H1, H2. subst. by rewrite bool_decide_true.
Qed.
