(* ===== verification/Utility.v ===== *)
(** * String utilities ([Utility.h], [Utility.cpp])

    Base64 decoding, splitting, extraction of container ids, and replacement
    of invalid UTF-8.  [utf8_range::SpanStructurallyValid] is a library function
    and a parameter. *)

From S2P Require Import Prelude CStrings.

Definition chars_of (s : string) : chars := String.list_ascii_of_string s.

(** ** Signals and environment *)

Definition SignalName (signum : Z) : string :=
  if signum =? 6 then "SIGABRT"
  else if signum =? 11 then "SIGSEGV"
  else if signum =? 15 then "SIGTERM"
  else if signum =? 2 then "SIGINT"
  else "<unknown>".

(** The argument is [getenv("SNI_HOSTNAME")]. *)
Definition GetSNIHostname (hostname : option chars) : chars :=
  match hostname with
  | Some (c :: r) => c :: r
  | _ => chars_of "sensor.stackrox"
  end.

(** [file.relative_path()]: without the leading slashes. *)
Fixpoint relative_path (file : chars) : chars :=
  match file with
  | c :: r => if ch_eqb c "/" then relative_path r else file
  | [] => []
  end.

(** [host_path / file] for a relative [file]. *)
Definition path_append (host file : chars) : chars :=
  match rev host with
  | [] => file
  | c :: _ => if ch_eqb c "/" then host ++ file else host ++ ("/"%char :: file)
  end.

(** The first argument is [getenv("COLLECTOR_HOST_ROOT")]. *)
Definition GetHostPath (host_root : option chars) (file : chars) : chars :=
  path_append (default [] host_root) (relative_path file).

(** ** Base64 *)

Definition base64_chars : chars :=
  chars_of "ABCDEFGHIJKLMNOPQRSTUVWXYZabcdefghijklmnopqrstuvwxyz0123456789+/".

Definition is_base64 (c : ascii) : bool := isalnum c || ch_eqb c "+" || ch_eqb c "/".

(** [char_array_4[i] = base64_chars.find(...)]: [npos] truncates to 255. *)
Definition base64_index (c : ascii) : Z :=
  match find_char c base64_chars 0 with Some n => Z.of_nat n | None => u8 (2 ^ 64 - 1) end.

(** The three bytes of four indices, in [unsigned char] arithmetic. *)
Definition base64_bytes (a b c d : Z) : list ascii :=
  [ chr ((a <<. 2) + ((b &. 0x30) >>. 4));
    chr (((b &. 0xf) <<. 4) + ((c &. 0x3c) >>. 2));
    chr (((c &. 0x3) <<. 6) + d) ].

Definition base64_group (arr : list ascii) : list ascii :=
  let at_ i := base64_index (nth i arr "000"%char) in
  base64_bytes (at_ 0%nat) (at_ 1%nat) (at_ 2%nat) (at_ 3%nat).

(** The main loop: [arr] holds [char_array_4[0..i)]; at the end the partial
    group yields [i - 1] bytes. *)
Fixpoint base64_loop (s : chars) (arr : list ascii) (ret : chars) : chars :=
  match s with
  | c :: rest =>
      if negb (ch_eqb c "=") && is_base64 c then
        let arr := arr ++ [c] in
        if (length arr =? 4)%nat then base64_loop rest [] (ret ++ base64_group arr)
        else base64_loop rest arr ret
      else ret ++ take (length arr - 1) (base64_group arr)
  | [] => ret ++ take (length arr - 1) (base64_group arr)
  end.

Definition Base64Decode (encoded_string : chars) : chars := base64_loop encoded_string [] [].

(** ** Splitting *)

(** The loop of [SplitStringView]: parts up to each delimiter, then the rest. *)
Fixpoint split_loop (fuel : nat) (sv : chars) (delim : ascii) (offset : nat) : list chars :=
  match fuel with
  | O => []
  | S fuel =>
      match find_char delim sv offset with
      | Some n => take (n - offset) (drop offset sv) :: split_loop fuel sv delim (S n)
      | None => [drop offset sv]
      end
  end.

(** At most one part per delimiter and one more. *)
Definition SplitStringView (sv : chars) (delim : ascii) : list chars :=
  split_loop (S (length sv)) sv delim 0.

(** ** Container ids *)

Definition CONTAINER_ID_LENGTH : nat := 64.
Definition SHORT_CONTAINER_ID_LENGTH : nat := 12.

Definition IsContainerID (str : chars) : bool :=
  if negb (length str =? CONTAINER_ID_LENGTH)%nat then false else forallb isxdigit str.

Definition ExtractContainerIDFromCgroup (cgroup : chars) : option chars :=
  if (length cgroup <? CONTAINER_ID_LENGTH + 1)%nat then None
  else
    let cgroup :=
      match rfind (chars_of ".scope") cgroup with Some scope => take scope cgroup | None => cgroup end in
    if (length cgroup <? CONTAINER_ID_LENGTH + 1)%nat then None
    else
      let start := (length cgroup - (CONTAINER_ID_LENGTH + 1))%nat in
      let container_id_part := drop start cgroup in
      let first := nth 0 container_id_part "000"%char in
      if negb (ch_eqb first "/") && negb (ch_eqb first "-") then None
      else
        let prefix := take start cgroup in
        if (7 <=? length prefix)%nat &&
           match find_str (chars_of "-conmon") prefix (length prefix - 7) with Some _ => true | None => false end
        then None
        else
          let id := drop 1 container_id_part in
          if negb (IsContainerID id) then None else Some (take SHORT_CONTAINER_ID_LENGTH id).

(** ** UTF-8 *)

Section utf8.
Variable SpanStructurallyValid : chars -> nat.

(** The loop from position [i]; [str] is what [remove_prefix] has left. *)
Fixpoint sanitize_loop (fuel : nat) (str : chars) (len i : nat) (output : chars) : chars :=
  match fuel with
  | O => output
  | S fuel =>
      if (i <? length output)%nat then
        let output := <[i := "?"%char]> output in
        let str := drop (len + 1) str in
        let len := SpanStructurallyValid str in
        sanitize_loop fuel str len (i + (len + 1)) output
      else output
  end.

(** Each iteration advances [i]: the length bounds their number. *)
Definition SanitizedUTF8 (str : chars) : option chars :=
  let len := SpanStructurallyValid str in
  if (len =? length str)%nat then None else Some (sanitize_loop (length str) str len len str).

End utf8.

(** ** Base64: the encoder as reference *)

Definition b64 (i : Z) : ascii := nth (Z.to_nat i) base64_chars "A"%char.

Fixpoint base64_encode (s : chars) : chars :=
  match s with
  | a :: b :: c :: r =>
      let a := ord a in let b := ord b in let c := ord c in
      [b64 (a / 4); b64 (a mod 4 * 16 + b / 16); b64 (b mod 16 * 4 + c / 64); b64 (c mod 64)] ++
      base64_encode r
  | [a; b] =>
      let a := ord a in let b := ord b in
      [b64 (a / 4); b64 (a mod 4 * 16 + b / 16); b64 (b mod 16 * 4); "="%char]
  | [a] => [b64 (ord a / 4); b64 (ord a mod 4 * 16); "="%char; "="%char]
  | [] => []
  end.

(** A property of the numbers below [n], by evaluation. *)
Lemma below_forallb (n : nat) (P : Z -> bool) i :
  forallb (fun k => P (Z.of_nat k)) (seq 0 n) = true -> 0 <= i < Z.of_nat n -> P i = true.
Proof.
  intros H Hi. rewrite forallb_forall in H. specialize (H (Z.to_nat i)).
  rewrite Z2Nat.id in H by lia. apply H, in_seq. lia.
Qed.

Lemma b64_ok i :
  0 <= i < 64 ->
  base64_index (b64 i) = i /\ (negb (ch_eqb (b64 i) "=") && is_base64 (b64 i)) = true.
Proof.
  intros Hi. pose proof (below_forallb 64
    (fun i => (base64_index (b64 i) =? i) && (negb (ch_eqb (b64 i) "=") && is_base64 (b64 i))) i
    ltac:(vm_compute; reflexivity) Hi) as H.
  apply andb_prop in H as [H1 H2]. split; [by apply Z.eqb_eq|done].
Qed.

Lemma index_parts i :
  0 <= i < 64 ->
  (i &. 0x30) >>. 4 = i / 16 /\ i &. 0xf = i mod 16 /\ (i &. 0x3c) >>. 2 = i / 4 mod 16 /\ i &. 0x3 = i mod 4.
Proof.
  intros Hi. pose proof (below_forallb 64
    (fun i => ((i &. 0x30) >>. 4 =? i / 16) && (i &. 0xf =? i mod 16) &&
              ((i &. 0x3c) >>. 2 =? i / 4 mod 16) && (i &. 0x3 =? i mod 4)) i
    ltac:(vm_compute; reflexivity) Hi) as H.
  cbv beta in H. breflect. by split_and!.
Qed.

(** *** Groups of three bytes *)

Lemma byte_bounds (x : ascii) : 0 <= ord x < 256.
Proof. apply ord_range. Qed.

Lemma first_index (a : ascii) : 0 <= ord a / 4 < 64.
Proof. pose proof (byte_bounds a). Z.to_euclidean_division_equations; lia. Qed.

Lemma second_index (a b : ascii) : 0 <= ord a mod 4 * 16 + ord b / 16 < 64.
Proof. pose proof (byte_bounds a). pose proof (byte_bounds b). Z.to_euclidean_division_equations; lia. Qed.

Lemma third_index (b c : ascii) : 0 <= ord b mod 16 * 4 + ord c / 64 < 64.
Proof. pose proof (byte_bounds b). pose proof (byte_bounds c). Z.to_euclidean_division_equations; lia. Qed.

Lemma fourth_index (c : ascii) : 0 <= ord c mod 64 < 64.
Proof. apply Z.mod_pos_bound. lia. Qed.

(** Each decoded byte depends on two neighbouring indices. *)
Lemma decode_first a y :
  y / 16 = ord a mod 4 -> 0 <= y < 64 ->
  chr (((ord a / 4) <<. 2) + ((y &. 0x30) >>. 4)) = a.
Proof.
  intros Hy Hr. destruct (index_parts y Hr) as (-> & _). rewrite Z.shiftl_mul_pow2 by lia.
  rewrite Hy. change (2 ^ 2) with 4. rewrite <- (chr_ord a) at 3. f_equal.
  pose proof (byte_bounds a). Z.to_euclidean_division_equations; lia.
Qed.

Lemma decode_second b x y :
  x mod 16 = ord b / 16 -> y / 4 mod 16 = ord b mod 16 -> 0 <= x < 64 -> 0 <= y < 64 ->
  chr (((x &. 0xf) <<. 4) + ((y &. 0x3c) >>. 2)) = b.
Proof.
  intros Hx Hy Hrx Hry. destruct (index_parts x Hrx) as (_ & -> & _).
  destruct (index_parts y Hry) as (_ & _ & -> & _). rewrite Z.shiftl_mul_pow2 by lia.
  rewrite Hx, Hy. change (2 ^ 4) with 16. rewrite <- (chr_ord b) at 3. f_equal.
  pose proof (byte_bounds b). Z.to_euclidean_division_equations; lia.
Qed.

Lemma decode_third c x :
  x mod 4 = ord c / 64 -> 0 <= x < 64 -> chr (((x &. 0x3) <<. 6) + ord c mod 64) = c.
Proof.
  intros Hx Hrx. destruct (index_parts x Hrx) as (_ & _ & _ & ->). rewrite Z.shiftl_mul_pow2 by lia.
  rewrite Hx. change (2 ^ 6) with 64. rewrite <- (chr_ord c) at 3. f_equal.
  pose proof (byte_bounds c). Z.to_euclidean_division_equations; lia.
Qed.

Lemma base64_group_full a b c :
  base64_group [b64 (ord a / 4); b64 (ord a mod 4 * 16 + ord b / 16);
                b64 (ord b mod 16 * 4 + ord c / 64); b64 (ord c mod 64)] = [a; b; c].
Proof.
  unfold base64_group. cbn [nth].
  rewrite (proj1 (b64_ok _ (first_index a))), (proj1 (b64_ok _ (second_index a b))),
    (proj1 (b64_ok _ (third_index b c))), (proj1 (b64_ok _ (fourth_index c))).
  unfold base64_bytes. pose proof (second_index a b) as H2. pose proof (third_index b c) as H3.
  pose proof (byte_bounds a). pose proof (byte_bounds b). pose proof (byte_bounds c).
  rewrite (decode_first a), (decode_second b), (decode_third c); [done| ..];
    try assumption; Z.to_euclidean_division_equations; lia.
Qed.

Lemma base64_loop_char i s arr ret :
  0 <= i < 64 -> length arr <> 3%nat -> base64_loop (b64 i :: s) arr ret = base64_loop s (arr ++ [b64 i]) ret.
Proof.
  intros Hi Hl. cbn [base64_loop]. rewrite (proj2 (b64_ok i Hi)).
  rewrite (proj2 (Nat.eqb_neq (length (arr ++ [b64 i])) 4)); [done|].
  rewrite length_app. simpl. lia.
Qed.

Lemma base64_loop_last i s x y z ret :
  0 <= i < 64 ->
  base64_loop (b64 i :: s) [x; y; z] ret = base64_loop s [] (ret ++ base64_group [x; y; z; b64 i]).
Proof. intros Hi. cbn [base64_loop]. by rewrite (proj2 (b64_ok i Hi)). Qed.

Lemma base64_loop_pad s arr ret :
  base64_loop ("="%char :: s) arr ret = ret ++ take (length arr - 1) (base64_group arr).
Proof. done. Qed.

Lemma base64_decode_encode s ret : base64_loop (base64_encode s) [] ret = ret ++ s.
Proof.
  remember (length s) as n eqn:Hn. revert s ret Hn.
  induction n as [n IH] using (well_founded_induction lt_wf). intros s ret ->.
  destruct s as [|a [|b [|c s]]]; cbn [base64_encode app].
  - reflexivity.
  - pose proof (first_index a) as H1. pose proof (byte_bounds a) as Ha.
    assert (0 <= ord a mod 4 * 16 < 64) as H2 by (Z.to_euclidean_division_equations; lia).
    rewrite base64_loop_char, base64_loop_char, base64_loop_pad by (done || simpl; lia).
    f_equal. unfold base64_group. cbn [app length nth Nat.sub take base64_bytes].
    rewrite (proj1 (b64_ok _ H1)), (proj1 (b64_ok _ H2)), decode_first; [done| |done].
    Z.to_euclidean_division_equations; lia.
  - pose proof (first_index a) as H1. pose proof (second_index a b) as H2.
    pose proof (byte_bounds a) as Ha. pose proof (byte_bounds b) as Hb.
    assert (0 <= ord b mod 16 * 4 < 64) as H3 by (Z.to_euclidean_division_equations; lia).
    rewrite !base64_loop_char, base64_loop_pad by (done || simpl; lia).
    f_equal. unfold base64_group. cbn [app length nth Nat.sub take base64_bytes].
    rewrite (proj1 (b64_ok _ H1)), (proj1 (b64_ok _ H2)), (proj1 (b64_ok _ H3)).
    rewrite (decode_first a), (decode_second b); [done| ..]; try done; Z.to_euclidean_division_equations; lia.
  - pose proof (first_index a) as H1. pose proof (second_index a b) as H2.
    pose proof (third_index b c) as H3. pose proof (fourth_index c) as H4.
    rewrite !base64_loop_char by (done || simpl; lia). cbn [app].
    rewrite base64_loop_last, base64_group_full by done.
    rewrite (IH (length s)) by (done || simpl; lia). by rewrite <- app_assoc.
Qed.

(** ** Splitting: the parts by recursion on the string *)

Fixpoint split_ref (s : chars) (d : ascii) : list chars :=
  match s with
  | [] => [[]]
  | c :: r =>
      if ch_eqb c d then [] :: split_ref r d
      else match split_ref r d with p :: ps => (c :: p) :: ps | [] => [[c]] end
  end.

Fixpoint join (parts : list chars) (d : ascii) : chars :=
  match parts with
  | [] => []
  | [p] => p
  | p :: ps => p ++ d :: join ps d
  end.

Lemma split_ref_cons s d : exists p ps, split_ref s d = p :: ps.
Proof.
  destruct s as [|c r]; simpl; [by eauto|]. destruct (ch_eqb c d); [by eauto|].
  destruct (split_ref r d); by eauto.
Qed.

Lemma split_ref_prefix l r d :
  ~ In d l -> split_ref (l ++ d :: r) d = l :: split_ref r d.
Proof.
  induction l as [|c l IH]; intros Hin; simpl.
  - by rewrite ch_eqb_refl.
  - destruct (ch_eqb c d) eqn:E; [apply ch_eqb_eq in E; subst; exfalso; apply Hin; by left|].
    rewrite IH; [done|]. intros H. apply Hin. by right.
Qed.

Lemma split_ref_none s d : ~ In d s -> split_ref s d = [s].
Proof.
  induction s as [|c s IH]; intros Hin; simpl; [done|].
  destruct (ch_eqb c d) eqn:E; [apply ch_eqb_eq in E; subst; exfalso; apply Hin; by left|].
  rewrite IH; [done|]. intros H. apply Hin. by right.
Qed.

Lemma split_loop_ref fuel sv d offset :
  (length sv - offset < fuel)%nat -> (offset <= length sv)%nat ->
  split_loop fuel sv d offset = split_ref (drop offset sv) d.
Proof.
  revert offset. induction fuel as [|fuel IH]; intros offset Hf Ho; [lia|]. cbn [split_loop].
  unfold find_char. destruct (find_from d (drop offset sv) offset) as [n|] eqn:E.
  - apply find_from_Some in E as (l & r & Hs & -> & Hin).
    assert (length sv = offset + (length l + S (length r)))%nat as Hlen.
    { apply (f_equal length) in Hs. rewrite length_drop, length_app in Hs. simpl in Hs. lia. }
    rewrite IH by lia. rewrite Hs. rewrite (split_ref_prefix l r d Hin).
    replace (offset + length l - offset)%nat with (length l) by lia. rewrite take_app_length. f_equal. f_equal.
    replace (S (offset + length l)) with (offset + (length l + 1))%nat by lia.
    rewrite <- drop_drop, Hs, drop_app_add. done.
  - apply find_from_None in E. by rewrite split_ref_none.
Qed.

Lemma SplitStringView_ref sv d : SplitStringView sv d = split_ref sv d.
Proof. unfold SplitStringView. rewrite split_loop_ref by lia. done. Qed.

Lemma join_split s d : join (split_ref s d) d = s.
Proof.
  induction s as [|c r IH]; [done|]. simpl. destruct (split_ref_cons r d) as (p & ps & E). rewrite E in *.
  destruct (ch_eqb c d) eqn:Ec.
  - apply ch_eqb_eq in Ec. subst c. cbn [join app]. by rewrite <- IH.
  - destruct ps; simpl in *; by rewrite IH.
Qed.

Lemma split_no_delim s d : Forall (fun p => ~ In d p) (split_ref s d).
Proof.
  induction s as [|c r IH]; [repeat constructor; by intros []|]. simpl.
  destruct (ch_eqb c d) eqn:Ec; [constructor; [by intros []|done]|].
  destruct (split_ref r d) as [|p ps]; [repeat constructor|].
  - intros [->|[]]. by rewrite ch_eqb_refl in Ec.
  - inv IH. constructor; [|done]. intros [->|]; [by rewrite ch_eqb_refl in Ec|done].
Qed.

(** ** Container ids *)

Lemma IsContainerID_spec id :
  IsContainerID id = true <-> length id = CONTAINER_ID_LENGTH /\ Forall (fun c => isxdigit c = true) id.
Proof.
  unfold IsContainerID. destruct (Nat.eqb_spec (length id) CONTAINER_ID_LENGTH) as [E|E]; simpl.
  - rewrite forallb_forall, List.Forall_forall. tauto.
  - split; [done|]. by intros [? _].
Qed.

(** The part of a cgroup path before its last [.scope]. *)
Definition scoped (cgroup : chars) : chars :=
  match rfind (chars_of ".scope") cgroup with Some scope => take scope cgroup | None => cgroup end.

Lemma scoped_length cgroup : (length (scoped cgroup) <= length cgroup)%nat.
Proof. unfold scoped. destruct (rfind _ _); [rewrite length_take; lia|lia]. Qed.

Lemma find_str_suffix pat s :
  pat <> [] -> (length pat <= length s)%nat ->
  find_str pat s (length s - length pat) <> None <-> ends_with pat s = true.
Proof.
  intros Hp Hl. unfold find_str.
  assert (length (drop (length s - length pat) s) = length pat) as Hd by (rewrite length_drop; lia).
  assert (ends_with pat s = true <-> drop (length s - length pat) s = pat) as ->.
  { unfold ends_with. rewrite starts_with_spec. split.
    - intros [r Hr]. apply (f_equal (@rev _)) in Hr. rewrite rev_involutive, rev_app_distr, rev_involutive in Hr.
      rewrite Hr, length_app. replace (_ + _ - _)%nat with (length (rev r)) by lia. by rewrite drop_app_length.
    - generalize (length s - length pat)%nat. intros n Hs. exists (rev (take n s)).
      rewrite <- rev_app_distr. f_equal. rewrite <- Hs. symmetry. apply take_drop. }
  revert Hd. generalize (drop (length s - length pat) s) as t.
  generalize (length s - length pat)%nat as pos. intros pos t Ht. split.
  - destruct t as [|c t]; [destruct pat; simpl in Ht; [done|lia]|]. cbn [find_str_from].
    destruct (starts_with pat (c :: t)) eqn:E.
    + intros _. apply starts_with_spec in E as [r Hr]. rewrite Hr in Ht |- *. rewrite length_app in Ht.
      assert (r = []) as -> by (destruct r; simpl in Ht; [done|lia]). by rewrite app_nil_r.
    + assert (forall u q, (length u < length pat)%nat -> find_str_from pat u q = None) as Hshort.
      { induction u as [|x u IH]; intros q Hu; [done|]. cbn [find_str_from].
        destruct (starts_with pat (x :: u)) eqn:Ex.
        - apply starts_with_spec in Ex as [r Hr]. apply (f_equal length) in Hr.
          rewrite length_app in Hr. simpl in *. lia.
        - apply IH. simpl in Hu. lia. }
      rewrite Hshort; [done|]. simpl in Ht. lia.
  - intros ->. destruct pat as [|p pat]; [done|]. cbn [find_str_from].
    replace (starts_with (p :: pat) (p :: pat)) with true; [done|].
    symmetry. apply starts_with_spec. exists []. by rewrite app_nil_r.
Qed.

(** A cgroup path that names a container: a separator and a full id at the
    end of the scoped path, not preceded by [-conmon]. *)
Definition names_container (cgroup id : chars) : Prop :=
  IsContainerID id = true /\
  exists prefix sep, scoped cgroup = prefix ++ sep :: id /\
    (sep = "/"%char \/ sep = "-"%char) /\ ends_with (chars_of "-conmon") prefix = false.

Lemma conmon_guard prefix :
  ((7 <=? length prefix)%nat &&
   match find_str (chars_of "-conmon") prefix (length prefix - 7) with Some _ => true | None => false end) =
  ends_with (chars_of "-conmon") prefix.
Proof.
  destruct (Nat.leb_spec 7 (length prefix)) as [Hl|Hl]; simpl andb.
  - pose proof (find_str_suffix (chars_of "-conmon") prefix ltac:(done) Hl) as H.
    change (length (chars_of "-conmon")) with 7%nat in H.
    destruct (find_str _ _ _) eqn:E, (ends_with _ _) eqn:Ee; try done.
    + destruct H as [H _]. specialize (H ltac:(done)). done.
    + destruct H as [_ H]. by specialize (H eq_refl).
  - symmetry. apply not_true_iff_false. unfold ends_with. rewrite starts_with_spec. intros [r Hr].
    apply (f_equal length) in Hr. rewrite length_app, !length_rev in Hr.
    change (length (chars_of "-conmon")) with 7%nat in Hr. lia.
Qed.

Lemma extract_unfold cgroup :
  (CONTAINER_ID_LENGTH + 1 <= length (scoped cgroup))%nat ->
  ExtractContainerIDFromCgroup cgroup =
  let start := (length (scoped cgroup) - (CONTAINER_ID_LENGTH + 1))%nat in
  let part := drop start (scoped cgroup) in
  let first := nth 0 part "000"%char in
  if negb (ch_eqb first "/") && negb (ch_eqb first "-") then None
  else if ends_with (chars_of "-conmon") (take start (scoped cgroup)) then None
  else if negb (IsContainerID (drop 1 part)) then None
  else Some (take SHORT_CONTAINER_ID_LENGTH (drop 1 part)).
Proof.
  intros Hl. pose proof (scoped_length cgroup) as Hs. unfold ExtractContainerIDFromCgroup.
  rewrite (proj2 (Nat.ltb_ge (length cgroup) _)) by lia. fold (scoped cgroup). cbv zeta.
  rewrite (proj2 (Nat.ltb_ge (length (scoped cgroup)) _)) by lia.
  by rewrite conmon_guard.
Qed.

(** ** UTF-8 *)

Section sanitize.
Variable Span : chars -> nat.
Implicit Types s : chars.

Definition utf8_valid (s : chars) : Prop := Span s = length s.

(** What the documentation of the library says of the span. *)
Hypothesis Span_le : forall s, (Span s <= length s)%nat.
Hypothesis Span_valid : forall s, utf8_valid (take (Span s) s).
Hypothesis valid_app : forall s s', utf8_valid s -> utf8_valid s' -> utf8_valid (s ++ s').
Hypothesis valid_question : utf8_valid ["?"%char].

(** The loop, on the part of the string it has not passed yet. *)
Fixpoint sanitized (fuel : nat) (s : chars) : chars :=
  match fuel with
  | O => s
  | S fuel =>
      if (Span s <? length s)%nat
      then take (Span s) s ++ "?"%char :: sanitized fuel (drop (Span s + 1) s)
      else s
  end.

Lemma sanitize_loop_spec fuel done_ s :
  (length s <= fuel)%nat ->
  sanitize_loop Span fuel s (Span s) (length done_ + Span s) (done_ ++ s) = done_ ++ sanitized fuel s.
Proof.
  revert done_ s. induction fuel as [|fuel IH]; intros done_ s Hf; [done|].
  cbn [sanitize_loop sanitized]. rewrite length_app. pose proof (Span_le s) as Hle.
  destruct (Nat.ltb_spec (Span s) (length s)) as [Hlt|Hge].
  - rewrite (proj2 (Nat.ltb_lt _ _)) by lia.
    set (s' := drop (Span s + 1) s).
    assert (<[(length done_ + Span s)%nat := "?"%char]> (done_ ++ s) =
      (done_ ++ take (Span s) s ++ ["?"%char]) ++ s') as ->.
    { rewrite insert_app_r. rewrite <- !app_assoc. f_equal. cbn [app]. subst s'.
      rewrite insert_take_drop by done. by rewrite Nat.add_1_r. }
    replace (length done_ + Span s + (Span s' + 1))%nat with
      (length (done_ ++ take (Span s) s ++ ["?"%char]) + Span s')%nat.
    2:{ rewrite !length_app, length_take. simpl length. lia. }
    rewrite IH by (subst s'; rewrite length_drop; lia). by rewrite <- !app_assoc.
  - by rewrite (proj2 (Nat.ltb_ge _ _)) by lia.
Qed.

Lemma sanitized_length fuel s : length (sanitized fuel s) = length s.
Proof.
  revert s. induction fuel as [|fuel IH]; intros s; [done|]. cbn [sanitized].
  destruct (Nat.ltb_spec (Span s) (length s)); [|done].
  rewrite length_app. simpl length. rewrite IH, length_take, length_drop. lia.
Qed.

Lemma sanitized_valid fuel s : (length s <= fuel)%nat -> utf8_valid (sanitized fuel s).
Proof.
  revert s. induction fuel as [|fuel IH]; intros s Hf.
  - destruct s; [|simpl in Hf; lia]. unfold utf8_valid. pose proof (Span_le []). simpl in *. lia.
  - cbn [sanitized]. pose proof (Span_le s). destruct (Nat.ltb_spec (Span s) (length s)).
    + apply valid_app; [apply Span_valid|]. apply (valid_app ["?"%char]); [done|].
      apply IH. rewrite length_drop. lia.
    + unfold utf8_valid. lia.
Qed.

Lemma sanitized_chars fuel s (i : nat) c :
  s !! i = Some c -> sanitized fuel s !! i = Some c \/ sanitized fuel s !! i = Some "?"%char.
Proof.
  revert s i. induction fuel as [|fuel IH]; intros s i Hi; [by left|]. cbn [sanitized].
  destruct (Nat.ltb_spec (Span s) (length s)); [|by left].
  destruct (Nat.lt_trichotomy i (Span s)) as [Hlt|[->|Hgt]].
  - left. rewrite lookup_app_l by (rewrite length_take; lia). by rewrite lookup_take_lt.
  - right. rewrite lookup_app_r by (rewrite length_take; lia).
    rewrite length_take. replace (Span s - Span s `min` length s)%nat with 0%nat by lia. done.
  - rewrite lookup_app_r by (rewrite length_take; lia). rewrite length_take.
    replace (i - Span s `min` length s)%nat with (S (i - (Span s + 1)))%nat by lia. simpl.
    apply IH. rewrite lookup_drop. by replace (Span s + 1 + (i - (Span s + 1)))%nat with i by lia.
Qed.

Lemma SanitizedUTF8_run s :
  SanitizedUTF8 Span s = if (Span s =? length s)%nat then None else Some (sanitized (length s) s).
Proof.
  unfold SanitizedUTF8. destruct (_ =? _)%nat; [done|]. f_equal.
  by apply (sanitize_loop_spec (length s) [] s).
Qed.

End sanitize.

(** ** Properties *)

(** Base64 decoding inverts base64 encoding: decoding the padded encoding
    of any byte string gives the byte string back. *)
Theorem Base64Decode_encode s : Base64Decode (base64_encode s) = s.
Proof. unfold Base64Decode. by rewrite base64_decode_encode. Qed.

(** Splitting is exact: no part contains the delimiter and the parts
    joined by it give the string back. *)
Theorem SplitStringView_exact sv d :
  join (SplitStringView sv d) d = sv /\ Forall (fun p => ~ In d p) (SplitStringView sv d).
Proof. rewrite SplitStringView_ref. split; [apply join_split|apply split_no_delim]. Qed.

(** A short container id is extracted from a cgroup path exactly when the
    path, cut before its last [.scope], ends with a separator ([/] or [-]) and
    64 hexadecimal digits that are not those of a conmon process; the result is
    the first 12 of them. *)
Theorem ExtractContainerID_exact cgroup short :
  ExtractContainerIDFromCgroup cgroup = Some short <->
  exists id, names_container cgroup id /\ short = take SHORT_CONTAINER_ID_LENGTH id.
Proof.
  destruct (le_lt_dec (CONTAINER_ID_LENGTH + 1) (length (scoped cgroup))) as [Hl|Hl].
  - rewrite extract_unfold by done. cbv zeta.
    set (start := (length (scoped cgroup) - (CONTAINER_ID_LENGTH + 1))%nat).
    assert (length (drop start (scoped cgroup)) = S CONTAINER_ID_LENGTH) as Hlen.
    { rewrite length_drop. subst start. unfold CONTAINER_ID_LENGTH in *. lia. }
    pose proof (take_drop start (scoped cgroup)) as Htd.
    destruct (drop start (scoped cgroup)) as [|sep id]; [discriminate Hlen|]. cbn [nth].
    change (drop 1 (sep :: id)) with id.
    injection Hlen as Hid. split.
    + destruct (negb _ && negb _) eqn:Es; [done|].
      destruct (ends_with _ _) eqn:Ec; [done|]. destruct (IsContainerID id) eqn:Ei; [|done].
      intros [= <-]. exists id. split; [|done]. split; [done|]. exists (take start (scoped cgroup)), sep.
      split_and!; [done| |done]. apply andb_false_iff in Es as [Es|Es];
        apply negb_false_iff, ch_eqb_eq in Es; auto.
    + intros (id' & (Hi & prefix & sep' & Hs & Hsep & Hc) & ->).
      apply IsContainerID_spec in Hi as Hi'. destruct Hi' as [Hil _].
      assert (prefix = take start (scoped cgroup) /\ sep' :: id' = sep :: id) as [Hp [= -> ->]].
      { apply app_inj_2; [simpl; lia|]. by rewrite <- Hs. }
      rewrite <- Hp, Hc, Hi. by destruct Hsep as [-> | ->].
  - pose proof (scoped_length cgroup). unfold ExtractContainerIDFromCgroup. split.
    + fold (scoped cgroup). rewrite (proj2 (Nat.ltb_lt (length (scoped cgroup)) _)) by lia.
      by destruct (_ <? _)%nat.
    + intros (id & (Hi & prefix & sep & Hs & _) & _). apply IsContainerID_spec in Hi as [Hi _].
      rewrite Hs, length_app in Hl. unfold CONTAINER_ID_LENGTH in *. simpl length in Hl. lia.
Qed.

(** Sanitizing terminates with a valid string: whatever valid-span
    function the library provides (never longer than its argument, its span
    valid, validity closed under concatenation, [?] valid), the result has the
    length of the input, is valid, differs from the input only in positions
    replaced by [?], and nothing is returned exactly for a valid input. *)
Theorem SanitizedUTF8_valid Span s :
  (forall s, (Span s <= length s)%nat) -> (forall s, utf8_valid Span (take (Span s) s)) ->
  (forall s s', utf8_valid Span s -> utf8_valid Span s' -> utf8_valid Span (s ++ s')) ->
  utf8_valid Span ["?"%char] ->
  match SanitizedUTF8 Span s with
  | None => utf8_valid Span s
  | Some out =>
      ~ utf8_valid Span s /\ utf8_valid Span out /\ length out = length s /\
      forall i c, s !! i = Some c -> out !! i = Some c \/ out !! i = Some "?"%char
  end.
Proof.
  intros H1 H2 H3 H4. rewrite (SanitizedUTF8_run Span H1).
  destruct (Nat.eqb_spec (Span s) (length s)) as [E|E]; [done|]. split_and!.
  - done.
  - by apply sanitized_valid.
  - apply sanitized_length.
  - intros i c. apply sanitized_chars.
Qed.

(** ** Witnesses *)

(** ASCII as the valid characters: the span of the characters below 128. *)
Fixpoint ascii_span (s : chars) : nat :=
  match s with c :: r => if ord c <? 128 then S (ascii_span r) else 0%nat | [] => 0%nat end.

Lemma ascii_span_le s : (ascii_span s <= length s)%nat.
Proof. induction s as [|c s IH]; simpl; [lia|]. destruct (_ <? _); lia. Qed.

Lemma ascii_span_valid s : ascii_span (take (ascii_span s) s) = length (take (ascii_span s) s).
Proof.
  induction s as [|c s IH]; simpl; [done|]. destruct (ord c <? 128) eqn:E; simpl; [|done].
  by rewrite E, IH.
Qed.

Lemma ascii_span_app s s' :
  ascii_span s = length s -> ascii_span s' = length s' -> ascii_span (s ++ s') = length (s ++ s').
Proof.
  induction s as [|c s IH]; simpl; [done|]. intros H1 H2. destruct (ord c <? 128); [|done].
  injection H1 as H1. by rewrite IH.
Qed.

Lemma SanitizedUTF8_valid_witness :
  match SanitizedUTF8 ascii_span ["a"; "200"; "b"]%char with
  | Some out => out = ["a"; "?"; "b"]%char /\ utf8_valid ascii_span out
  | None => False
  end.
Proof.
  pose proof (SanitizedUTF8_valid ascii_span ["a"; "200"; "b"]%char ascii_span_le ascii_span_valid
    ascii_span_app eq_refl) as H.
  split; [vm_compute; reflexivity|apply H].
Defined.
