(* ===== verification/Procfs.v ===== *)
(** * Scraping /proc ([ProcfsScraper.cpp], [ProcfsScraper.h])

    The parsers work on the characters that remain up to the end of their
    buffer: the line read by [fgets], its NUL, and what older lines left.  The file system is an
    input: a [ProcEntry] holds what the system calls return for one directory
    of /proc.  The process store is a function from a pid to a process. *)

From S2P Require Import Prelude HostOrder UMap NetAddress Connection CollectorStats CStrings Utility.

Definition NUL : ascii := "000"%char.

(** ** String helpers *)

(** [rep_find]: the [n]-th occurrence; [pos] is where the search goes on. *)
Fixpoint rep_find_from (n : nat) (str : chars) (c : ascii) (pos : nat) : option nat :=
  match n with
  | O => None
  | S O => find_char c str pos
  | S n =>
      match find_char c str pos with
      | Some p => rep_find_from n str c (S p)
      | None => None
      end
  end.
Definition rep_find (n : nat) (str : chars) (c : ascii) : option nat := rep_find_from n str c 0.

(** The two loops of [nextfield]. *)
Fixpoint skip_field (s : chars) : chars :=
  match s with
  | c :: r => if negb (ch_eqb c NUL) && negb (isspace c) then skip_field r else s
  | [] => []
  end.
Fixpoint skip_gap (s : chars) : chars :=
  match s with
  | c :: r =>
      if ch_eqb c NUL then s
      else match r with d :: _ => if isspace d then skip_gap r else r | [] => [] end
  | [] => []
  end.
Definition nextfield (s : chars) : option chars :=
  match skip_gap (skip_field s) with
  | c :: r => if ch_eqb c NUL then None else Some (c :: r)
  | [] => None
  end.

Fixpoint rep_nextfield (n : nat) (s : option chars) : option chars :=
  match n, s with
  | S n, Some s => rep_nextfield n (nextfield s)
  | _, _ => s
  end.

(** ** Links and namespaces *)

(** [ReadINode] on the target of the link; [None] is a failed [readlinkat]. *)
Definition ReadINode (link : option chars) (prefix : chars) : option Z :=
  match link with
  | None => None
  | Some target =>
      let linkbuf := take 64 target in
      let nread := length linkbuf in
      if (nread =? 0)%nat || (63 <=? nread)%nat then None
      else if negb (ch_eqb (List.last linkbuf NUL) "]") then None
      else if negb (starts_with prefix linkbuf) then None
      else
        let rest := drop (length prefix) linkbuf in
        if negb (starts_with (chars_of ":[") rest) then None
        else
          let '(parsed, endp) := strtoumax (drop 2 rest) in
          match endp with
          | c :: _ => if ch_eqb c "]" then Some parsed else None
          | [] => None
          end
  end.

Definition GetNetworkNamespace (ns_net : option chars) : option Z := ReadINode ns_net (chars_of "net").

(** A socket and the process it was found in; compared by inode. *)
Record SocketInfo := mkSocketInfo { sock_inode : Z; sock_pid : Z }.
Definition SocketInfo_eq (a b : SocketInfo) : bool := sock_inode a =? sock_inode b.

(** ** Files of one process *)

Record ProcEntry := mkProcEntry {
  pe_name : chars;
  pe_openable : bool;
  pe_stat : option chars;
  pe_cgroup : option (list chars);
  pe_ns_net : option chars;
  pe_ns_net_again : option chars;
  pe_fds : option (list (chars * option chars));
  pe_net_tcp : option (list chars);
  pe_net_tcp6 : option (list chars)
}.

(** [None] when the fd directory cannot be opened. *)
Definition GetSocketINodes (fds : option (list (chars * option chars))) (pid : Z)
    (sock_inodes : USet SocketInfo) : option (USet SocketInfo) :=
  match fds with
  | None => None
  | Some entries =>
      Some (fold_left (fun s entry =>
        match entry.1 with
        | c :: _ =>
            if isdigit c then
              match ReadINode entry.2 (chars_of "socket") with
              | Some inode => uset_insert SocketInfo_eq (mkSocketInfo inode pid) s
              | None => s
              end
            else s
        | [] => s
        end) entries sock_inodes)
  end.

Definition ExtractProcessState (line : chars) : option ascii :=
  match rfind (chars_of ") ") line with
  | None => None
  | Some last_parenthese =>
      match drop (last_parenthese + 2) line with
      | [] => None
      | c :: _ => Some c
      end
  end.

(** What [fgets] with room for [n] characters reads, up to the first null character. *)
Fixpoint fgets_string (n : nat) (content : chars) : chars :=
  match n, content with
  | S n, c :: rest => if ch_eqb c "000" then [] else if ch_eqb c "010" then [c] else c :: fgets_string n rest
  | _, _ => []
  end.

(** A failure gives the character NUL: [return false] converts to a value. *)
Definition ReadProcessState (stat : option chars) : option ascii :=
  match stat with
  | None | Some [] => Some NUL
  | Some content => ExtractProcessState (fgets_string 511 content)
  end.

Definition ExtractContainerID (cgroup_line : chars) : option chars :=
  match rep_find 2 cgroup_line ":" with
  | None => None
  | Some start => ExtractContainerIDFromCgroup (drop (start + 1) cgroup_line)
  end.

Definition strip_newline (line : chars) : chars :=
  match rev line with
  | c :: r => if ch_eqb c "010" then rev r else line
  | [] => []
  end.

(** The first line that names a container. *)
Fixpoint container_of_lines (lines : list chars) : option chars :=
  match lines with
  | [] => None
  | line :: rest =>
      match line with
      | [] => container_of_lines rest
      | _ =>
          match ExtractContainerID (strip_newline line) with
          | Some short_container_id => Some short_container_id
          | None => container_of_lines rest
          end
      end
  end.
Definition GetContainerID (cgroup : option (list chars)) : option chars :=
  match cgroup with None => None | Some lines => container_of_lines lines end.

(** ** Lines of net/tcp and net/tcp6 *)

Definition IsHexChar (c : ascii) : bool := isdigit c || in_chars "A" "F" c.

Definition HexCharToVal (c : ascii) : Z :=
  if isdigit c then ord c - 48 else 10 + (ord c - 65).

(** Reverses the last [n] elements. *)
Definition reverse_last (n : nat) (l : list Z) : list Z :=
  take (length l - n) l ++ rev (drop (length l - n) l).

(** [ReadHexBytes]: the bytes stored, their number, and the characters left. *)
Fixpoint hex_loop (todo : nat) (s : chars) (chunk_size : nat) (reverse : bool) (buf : list Z)
    : list Z * chars :=
  match todo with
  | O => (buf, s)
  | S todo =>
      match s with
      | high :: low :: r =>
          if (2 <? length s)%nat then
            if negb (IsHexChar high) || negb (IsHexChar low) then (buf, r)
            else
              let buf := buf ++ [HexCharToVal high <<. 4 |. HexCharToVal low] in
              let buf :=
                if reverse && (length buf mod chunk_size =? 0)%nat
                then reverse_last chunk_size buf else buf in
              hex_loop todo r chunk_size reverse buf
          else (buf, s)
      | _ => (buf, s)
      end
  end.
Definition ReadHexBytes (s : chars) (chunk_size num_chunks : nat) (reverse : bool) : list Z * Z :=
  let bytes := (hex_loop (chunk_size * num_chunks) s chunk_size reverse []).1 in
  (bytes, Z.of_nat (length bytes)).

Record ConnLineData := mkConnLine {
  line_local : Endpoint; line_remote : Endpoint; line_state : Z; line_inode : Z
}.
Record ConnInfo := mkConnInfo {
  ci_local : Endpoint; ci_remote : Endpoint; ci_l4proto : L4Proto.t; ci_is_server : bool
}.
Record EndpointInfo := mkEndpointInfo { ei_endpoint : Endpoint; ei_l4proto : L4Proto.t }.

Definition TCP_ESTABLISHED : Z := 1.
Definition TCP_LISTEN : Z := 10.

Section parsing.
Context `{ho : HostOrder}.

(** [htons(42) != 42]. *)
Definition needs_byteorder_swap : bool := little_endian.

Definition ParseEndpoint (p : chars) (family : Family.t) : option (Endpoint * chars) :=
  let addr_len := Length family in
  let '(addr_data, nread) := ReadHexBytes p 4 (Z.to_nat (addr_len / 4)) needs_byteorder_swap in
  if negb (nread =? addr_len) then None
  else
    match drop (Z.to_nat (nread * 2)) p with
    | [] => None
    | c :: p =>
        if negb (ch_eqb c ":") then None
        else
          let '(port_data, nread) := ReadHexBytes p 2 1 needs_byteorder_swap in
          if negb (nread =? 2) then None
          else Some (Endpoint_of_address (Address_bytes family addr_data) (load_word port_data),
                     drop (Z.to_nat (nread * 2)) p)
    end.

Definition ParseConnLine (p : chars) (family : Family.t) : option ConnLineData :=
  match nextfield (skip_spaces p) with
  | None => None
  | Some p =>
  match ParseEndpoint p family with
  | None => None
  | Some (local, p) =>
  match nextfield p with
  | None => None
  | Some p =>
  match ParseEndpoint p family with
  | None => None
  | Some (remote, p) =>
  match nextfield p with
  | None => None
  | Some p =>
      let '(state, nread) := ReadHexBytes p 1 1 false in
      if negb (nread =? 1) then None
      else
        match rep_nextfield 6 (Some (drop (Z.to_nat (nread * 2)) p)) with
        | None => None
        | Some p =>
            let '(inode, parse_endp) := strtoumax p in
            if match parse_endp with c :: _ => negb (ch_eqb c NUL) && negb (isspace c) | [] => false end
            then None
            else Some (mkConnLine local remote (hd 0 state) inode)
        end
  end end end end end.

Definition LocalIsServer (local remote : Endpoint) (listen_endpoints : USet Endpoint) : bool :=
  if uset_contains (Endpoint_eq IPNet_key_eq) local listen_endpoints then true
  else
    let local_any := Endpoint_of_address (Address_Any (family_ (Endpoint_address local))) (port_ local) in
    if uset_contains (Endpoint_eq IPNet_key_eq) local_any listen_endpoints then true
    else IsEphemeralPort (port_ local) <? IsEphemeralPort (port_ remote).

(** The maps filled from a file, and the listen endpoints seen so far. *)
Record TableState := mkTable {
  tb_connections : UMap Z ConnInfo;
  tb_listen : option (UMap Z EndpointInfo);
  tb_all_listen : USet Endpoint;
  tb_line : chars
}.

(** What [fgets] makes of the buffer: the line, its terminator, old characters. *)
Definition fgets (buffer line : chars) : chars := line ++ NUL :: drop (S (length line)) buffer.

Definition read_line (family : Family.t) (proto : L4Proto.t) (st : TableState) (text : chars) : TableState :=
  let line := fgets (tb_line st) text in
  let st := mkTable (tb_connections st) (tb_listen st) (tb_all_listen st) line in
  match ParseConnLine line family with
  | None => st
  | Some data =>
      if line_state data =? TCP_LISTEN then
        mkTable (tb_connections st)
          (match tb_listen st with
           | Some m =>
               if negb (line_inode data =? 0)
               then Some (umap_assign Z.eqb (line_inode data) (mkEndpointInfo (line_local data) proto) m)
               else Some m
           | None => None
           end)
          (uset_insert (Endpoint_eq IPNet_key_eq) (line_local data) (tb_all_listen st)) line
      else if negb (line_state data =? TCP_ESTABLISHED) then st
      else if line_inode data =? 0 then st
      else
        mkTable (umap_assign Z.eqb (line_inode data)
                   (mkConnInfo (line_local data) (line_remote data) proto
                      (LocalIsServer (line_local data) (line_remote data) (tb_all_listen st)))
                   (tb_connections st))
          (tb_listen st) (tb_all_listen st) line
  end.

(** The contents of the uninitialised array [line]. *)
Variable line_init : chars.

(** The texts are the successive results of [fgets]; the first is the header. *)
Definition ReadConnectionsFromFile (family : Family.t) (proto : L4Proto.t) (lines : list chars)
    (connections : UMap Z ConnInfo) (listen_endpoints : option (UMap Z EndpointInfo))
    : UMap Z ConnInfo * option (UMap Z EndpointInfo) * bool :=
  match lines with
  | [] => (connections, listen_endpoints, false)
  | header :: lines =>
      let st := fold_left (read_line family proto) lines
                  (mkTable connections listen_endpoints [] (fgets line_init header)) in
      (tb_connections st, tb_listen st, true)
  end.

Definition GetConnections (net_tcp net_tcp6 : option (list chars)) (connections : UMap Z ConnInfo)
    (listen_endpoints : option (UMap Z EndpointInfo))
    : UMap Z ConnInfo * option (UMap Z EndpointInfo) * bool :=
  let '(connections, listen_endpoints, success) :=
    match net_tcp with
    | Some lines => ReadConnectionsFromFile Family.IPV4 L4Proto.TCP lines connections listen_endpoints
    | None => (connections, listen_endpoints, false)
    end in
  let '(connections, listen_endpoints, success6) :=
    match net_tcp6 with
    | Some lines => ReadConnectionsFromFile Family.IPV6 L4Proto.TCP lines connections listen_endpoints
    | None => (connections, listen_endpoints, false)
    end in
  (connections, listen_endpoints, success6 && success).

(** ** Containers and their sockets *)

Record NSNetworkData := mkNSData {
  ns_connections : UMap Z ConnInfo; ns_listen_endpoints : option (UMap Z EndpointInfo)
}.
Definition ConnsByNS : Type := UMap Z NSNetworkData.
Definition SocketsByContainer : Type := UMap string (UMap Z (USet SocketInfo)).

Variable process_store : option (Z -> option IProcess).

(** One socket of a container in a namespace. *)
Definition resolve_socket (want_endpoints : bool) (container_id : string) (data : NSNetworkData)
    (out : list Connection * list ContainerEndpoint) (socket : SocketInfo)
    : list Connection * list ContainerEndpoint :=
  match umap_find Z.eqb (sock_inode socket) (ns_connections data) with
  | Some conn =>
      let connection :=
        Connection_make container_id (ci_local conn) (ci_remote conn) (ci_l4proto conn) (ci_is_server conn) in
      if negb (IsRelevantConnection connection) then out else (out.1 ++ [connection], out.2)
  | None =>
      if want_endpoints then
        match umap_find Z.eqb (sock_inode socket) (default [] (ns_listen_endpoints data)) with
        | Some ep =>
            if negb (IsRelevantEndpoint (ei_endpoint ep)) then out
            else
              let process := match process_store with Some fetch => fetch (sock_pid socket) | None => None end in
              (out.1, out.2 ++ [mkContainerEndpoint container_id (ei_endpoint ep) (ei_l4proto ep) process])
        | None => out
        end
      else out
  end.

Definition ResolveSocketInodes (sockets_by_container : SocketsByContainer) (conns_by_ns : ConnsByNS)
    (want_endpoints : bool) : list Connection * list ContainerEndpoint :=
  fold_left (fun out container_sockets =>
    fold_left (fun out netns_sockets =>
      match umap_find Z.eqb netns_sockets.1 conns_by_ns with
      | None => out
      | Some data => fold_left (resolve_socket want_endpoints container_sockets.1 data) netns_sockets.2 out
      end) container_sockets.2 out) sockets_by_container ([], []).

Record ScrapeState := mkScrape {
  sc_conns : ConnsByNS; sc_sockets : SocketsByContainer; sc_stats : CollectorStats
}.

Definition count (c : Counter.t) (st : ScrapeState) : ScrapeState :=
  mkScrape (sc_conns st) (sc_sockets st) (COUNTER_INC c (sc_stats st)).

(** [sockets[container][netns]], and storing its new value. *)
Definition sockets_at (container : string) (ns : Z) (m : SocketsByContainer) : USet SocketInfo :=
  default [] (umap_find Z.eqb ns (default [] (umap_find String.eqb container m))).
Definition set_sockets (container : string) (ns : Z) (s : USet SocketInfo) (m : SocketsByContainer)
    : SocketsByContainer :=
  umap_assign String.eqb container
    (umap_assign Z.eqb ns s (default [] (umap_find String.eqb container m))) m.

(** The body of the loop over /proc. *)
Definition read_process (want_endpoints : bool) (st : ScrapeState) (e : ProcEntry) : ScrapeState :=
  match pe_name e with
  | [] => st
  | c :: _ =>
  if negb (isdigit c) then st
  else if negb (pe_openable e) then count Counter.procfs_could_not_open_pid_dir st
  else if match ReadProcessState (pe_stat e) with Some s => ch_eqb s "Z" | None => false end
  then count Counter.procfs_zombie_process st
  else
    match GetContainerID (pe_cgroup e) with
    | None => st
    | Some id =>
        let container_id := String.string_of_list_ascii id in
        match GetNetworkNamespace (pe_ns_net e) with
        | None => count Counter.procfs_could_not_get_network_namespace st
        | Some netns =>
            let pid := Z.min (2 ^ 63 - 1) (digits (pe_name e) 0).1 in
            let old := sockets_at container_id netns (sc_sockets st) in
            let touched := set_sockets container_id netns old (sc_sockets st) in
            match GetSocketINodes (pe_fds e) pid old with
            | None =>
                count Counter.procfs_could_not_get_socket_inodes
                  (count Counter.procfs_could_not_open_fd_dir
                     (mkScrape (sc_conns st) touched (sc_stats st)))
            | Some socks =>
                let sockets := set_sockets container_id netns socks (sc_sockets st) in
                let no_sockets := match old with [] => true | _ => false end in
                let some_now := match socks with [] => false | _ => true end in
                if no_sockets && some_now && negb (umap_contains Z.eqb netns (sc_conns st)) then
                  let '(conns, listen, success) :=
                    GetConnections (pe_net_tcp e) (pe_net_tcp6 e) [] (if want_endpoints then Some [] else None) in
                  if negb success &&
                     match GetNetworkNamespace (pe_ns_net_again e) with
                     | None => true
                     | Some netns2 => negb (netns2 =? netns)
                     end
                  then mkScrape (sc_conns st) sockets (sc_stats st)
                  else mkScrape (umap_assign Z.eqb netns (mkNSData conns listen) (sc_conns st)) sockets (sc_stats st)
                else mkScrape (sc_conns st) sockets (sc_stats st)
            end
        end
    end
  end.

(** [None] when the directory cannot be opened. *)
Definition ReadContainerConnections (procdir : option (list ProcEntry)) (want_endpoints : bool)
    (stats : CollectorStats) : option (list Connection * list ContainerEndpoint) * CollectorStats :=
  match procdir with
  | None => (None, COUNTER_INC Counter.procfs_could_not_open_proc_dir stats)
  | Some entries =>
      let st := fold_left (read_process want_endpoints) entries (mkScrape [] [] stats) in
      (Some (ResolveSocketInodes (sc_sockets st) (sc_conns st) want_endpoints), sc_stats st)
  end.

End parsing.

(** ** One process: executable and arguments *)

(** The file name after the last slash, for an absolute path. *)
Definition after_last_slash (path : chars) : chars :=
  match find_from "/" (rev path) 0 with Some n => rev (take n (rev path)) | None => path end.

(** The results are [comm] and [exe_path]; PATH_MAX is 4096. *)
Definition ReadProcessExe (exe_link : option chars) (stats : CollectorStats)
    : option (chars * chars) * CollectorStats :=
  match exe_link with
  | Some (c :: r as buffer) =>
      if (4096 <=? length buffer)%nat then (None, COUNTER_INC Counter.procfs_could_not_read_exe stats)
      else (Some (if ch_eqb c "/" then after_last_slash buffer else buffer, buffer), stats)
  | _ => (None, COUNTER_INC Counter.procfs_could_not_read_exe stats)
  end.

(** The loop over the bytes of [cmdline]: [exe], the buffer and the flags. *)
Fixpoint cmdline_loop (s : chars) (exe : option chars) (buf : chars) (arg_completed : bool)
    : chars * chars :=
  match s with
  | [] => (default [] exe, buf)
  | c :: r =>
      if negb (ch_eqb c NUL) then
        cmdline_loop r exe (buf ++ (if arg_completed then [" "%char; c] else [c])) false
      else
        match exe with
        | Some _ => cmdline_loop r exe buf true
        | None => cmdline_loop r (Some buf) [] arg_completed
        end
  end.

Definition ReadProcessCmdline (cmdline : option chars) (stats : CollectorStats)
    : option (chars * chars) * CollectorStats :=
  match cmdline with
  | None => (None, COUNTER_INC Counter.procfs_could_not_read_cmdline stats)
  | Some bytes => (Some (cmdline_loop bytes None [] false), stats)
  end.

Record ProcessInfo := mkProcessInfo {
  pi_pid : Z; pi_comm : chars; pi_exe_path : chars; pi_exe : chars; pi_args : chars
}.

(** [ProcessScraper::Scrape]; [None] when the directory cannot be opened. *)
Record PidDir := mkPidDir {
  pd_cgroup : option (list chars); pd_exe : option chars; pd_cmdline : option chars
}.
Definition Scrape (pid : Z) (dir : option PidDir) (stats : CollectorStats)
    : option ProcessInfo * CollectorStats :=
  match dir with
  | None => (None, stats)
  | Some dir =>
      match GetContainerID (pd_cgroup dir) with
      | None => (None, stats)
      | Some _ =>
          match ReadProcessExe (pd_exe dir) stats with
          | (None, stats) => (None, stats)
          | (Some (comm, exe_path), stats) =>
              match ReadProcessCmdline (pd_cmdline dir) stats with
              | (None, stats) => (None, stats)
              | (Some (exe, args), stats) => (Some (mkProcessInfo pid comm exe_path exe args), stats)
              end
          end
      end
  end.

(** ** Endpoints as the kernel prints them *)

Definition hex_digit (v : Z) : ascii := chr (if v <? 10 then 48 + v else 55 + v).
Definition hex_byte (b : Z) : chars := [hex_digit (b / 16); hex_digit (b mod 16)].
Definition hex_bytes (l : list Z) : chars := concat (map hex_byte l).

Lemma hex_byte_ok b :
  0 <= b < 256 ->
  IsHexChar (hex_digit (b / 16)) = true /\ IsHexChar (hex_digit (b mod 16)) = true /\
  (HexCharToVal (hex_digit (b / 16)) <<. 4) |. HexCharToVal (hex_digit (b mod 16)) = b.
Proof.
  intros Hb. pose proof (below_forallb 256
    (fun b => IsHexChar (hex_digit (b / 16)) && IsHexChar (hex_digit (b mod 16)) &&
      ((HexCharToVal (hex_digit (b / 16)) <<. 4) |. HexCharToVal (hex_digit (b mod 16)) =? b)) b
    ltac:(vm_compute; reflexivity) Hb) as H.
  cbv beta in H. breflect. by split_and!.
Qed.

Definition byte_ok (b : Z) : Prop := 0 <= b < 256.

(** Reading one byte. *)
Lemma hex_loop_step n b rest c rv buf :
  byte_ok b -> rest <> [] ->
  hex_loop (S n) (hex_byte b ++ rest) c rv buf =
  hex_loop n rest c rv
    (if rv && (length (buf ++ [b]) mod c =? 0)%nat then reverse_last c (buf ++ [b]) else buf ++ [b]).
Proof.
  intros Hb Hr. destruct (hex_byte_ok b Hb) as (H1 & H2 & H3). cbn [hex_loop hex_byte app].
  rewrite (proj2 (Nat.ltb_lt _ _)) by (destruct rest; [done|simpl; lia]).
  by rewrite H1, H2, H3.
Qed.

(** Bytes that do not complete a chunk are appended as they are. *)
Lemma hex_loop_partial l n rest c rv buf pre :
  Forall byte_ok l -> rest <> [] -> (length buf mod c = 0)%nat -> (length pre + length l < c)%nat ->
  hex_loop (length l + n) (hex_bytes l ++ rest) c rv (buf ++ pre) =
  hex_loop n rest c rv (buf ++ pre ++ l).
Proof.
  intros Hl Hr Hm. revert pre. induction Hl as [|b l Hb Hl IH]; intros pre Hlen.
  - by rewrite app_nil_r.
  - unfold hex_bytes in *. cbn [map concat length Nat.add]. rewrite <- app_assoc, hex_loop_step; [|done|].
    + assert ((length ((buf ++ pre) ++ [b]) mod c =? 0)%nat = false) as ->.
      { apply Nat.eqb_neq. rewrite !length_app. simpl length in *.
        rewrite <- Nat.add_assoc, <- Nat.Div0.add_mod_idemp_l, Hm, Nat.add_0_l, Nat.mod_small by lia. lia. }
      rewrite andb_false_r, <- app_assoc, (IH (pre ++ [b])) by (rewrite length_app; simpl in *; lia).
      by rewrite <- !app_assoc.
    + intros Hn. apply Hr. by apply app_eq_nil in Hn as [_ ?].
Qed.

(** A whole chunk, printed in the order of the host. *)
Lemma hex_loop_chunk l n rest (rv : bool) buf :
  Forall byte_ok l -> rest <> [] -> (0 < length l)%nat -> (length buf mod length l = 0)%nat ->
  hex_loop (length l + n) (hex_bytes l ++ rest) (length l) rv buf =
  hex_loop n rest (length l) rv (buf ++ (if rv then rev l else l)).
Proof.
  intros Hl Hr Hpos Hm. destruct l as [|b l] using rev_ind; [simpl in Hpos; lia|]. clear IHl.
  apply Forall_app in Hl as [Hl Hb]. rewrite Forall_singleton in Hb.
  rewrite length_app in *. cbn [length] in *. set (c := (length l + 1)%nat) in *.
  assert (hex_bytes (l ++ [b]) ++ rest = hex_bytes l ++ hex_byte b ++ rest) as ->.
  { unfold hex_bytes. rewrite map_app, concat_app. cbn [map concat]. by rewrite app_nil_r, <- app_assoc. }
  replace (c + n)%nat with (length l + S n)%nat by lia.
  pose proof (hex_loop_partial l (S n) (hex_byte b ++ rest) c rv buf [] Hl ltac:(done) Hm
    ltac:(simpl; lia)) as Hp.
  rewrite app_nil_r in Hp. rewrite Hp. cbn [app]. rewrite (hex_loop_step n b rest) by assumption.
  assert (length ((buf ++ l) ++ [b]) mod c = 0)%nat as Hfull.
  { rewrite !length_app. cbn [length]. rewrite <- Nat.add_assoc. fold c.
    rewrite <- Nat.Div0.add_mod_idemp_l, Hm. apply Nat.Div0.mod_same. }
  rewrite Hfull. simpl (0 =? 0)%nat. rewrite andb_true_r. rewrite <- app_assoc.
  destruct rv; [|done]. f_equal. unfold reverse_last.
  replace (length (buf ++ l ++ [b]) - c)%nat with (length buf) by (rewrite !length_app; simpl; lia).
  by rewrite take_app_length, drop_app_length.
Qed.

(** Chunks of one size, each reversed when [rv] holds. *)
Definition print_chunks (rv : bool) (chunks : list (list Z)) : chars :=
  concat (map (fun l => hex_bytes (if rv then rev l else l)) chunks).

Lemma hex_loop_chunks chunks (c : nat) rest rv buf :
  Forall (fun l => length l = c /\ Forall byte_ok l) chunks -> (0 < c)%nat -> rest <> [] ->
  (length buf mod c = 0)%nat ->
  hex_loop (c * length chunks) (print_chunks rv chunks ++ rest) c rv buf = (buf ++ concat chunks, rest).
Proof.
  intros Hc Hpos Hr. revert buf. induction Hc as [|l chunks [Hlen Hl] Hc IH]; intros buf Hm.
  - cbn [length]. rewrite Nat.mul_0_r. simpl. by rewrite app_nil_r.
  - unfold print_chunks in *. cbn [map concat length]. rewrite Nat.mul_succ_r, Nat.add_comm, <- app_assoc.
    set (l' := if rv then rev l else l).
    assert (length l' = c) as Hl' by (subst l'; destruct rv; by rewrite ?length_rev).
    rewrite <- Hl' at 1 3. rewrite hex_loop_chunk.
    + rewrite Hl'. replace (if rv then rev l' else l') with l by (subst l'; destruct rv; by rewrite ?rev_involutive).
      rewrite IH.
      * by rewrite <- app_assoc.
      * rewrite length_app, Hlen, <- Nat.Div0.add_mod_idemp_l, Hm. apply Nat.Div0.mod_same.
    + subst l'. destruct rv; [by apply Forall_rev|done].
    + intros Hn. apply Hr. by apply app_eq_nil in Hn as [_ ?].
    + lia.
    + by rewrite Hl'.
Qed.

Lemma hex_bytes_length l : length (hex_bytes l) = (2 * length l)%nat.
Proof. induction l; simpl; [done|]. unfold hex_bytes in *. simpl in *. lia. Qed.

Lemma print_chunks_length rv chunks c :
  Forall (fun l => length l = c /\ Forall byte_ok l) chunks ->
  length (print_chunks rv chunks) = (2 * (c * length chunks))%nat.
Proof.
  induction 1 as [|l chunks [Hl _] _ IH]; [simpl; lia|]. unfold print_chunks in *. cbn [map concat length].
  rewrite length_app, IH, hex_bytes_length. destruct rv; rewrite ?length_rev, Hl; lia.
Qed.

Section endpoints.
Context `{ho : HostOrder}.

(** The 4-byte words of the address, in memory order. *)
Fixpoint chunks4 (l : list Z) : list (list Z) :=
  match l with
  | a :: b :: c :: d :: r => [a; b; c; d] :: chunks4 r
  | _ => []
  end.

Definition addr_memory (a : Address) : list Z := take (Z.to_nat (length_ a)) (data_bytes a).

(** [%08X] of each 32-bit word and [%04X] of the port, as in net/tcp. *)
Definition print_endpoint (a : Address) (port : Z) : chars :=
  print_chunks little_endian (chunks4 (addr_memory a)) ++ ":"%char :: hex_bytes [port / 256; port mod 256].

Lemma byte_at_ok x j : 0 <= j -> byte_ok (byte_at x j).
Proof. intros Hj. apply (byte_at_range x j Hj). Qed.

Lemma store_word_ok n x : Forall byte_ok (store_word n x).
Proof.
  assert (Forall byte_ok (be_bytes n x)) as H.
  { induction n; simpl; constructor; [apply byte_at_ok; lia|done]. }
  unfold store_word. destruct little_endian; [by apply Forall_rev|done].
Qed.

Lemma addr_memory_ok a : Forall byte_ok (addr_memory a).
Proof. apply Forall_take, Forall_app. split; apply store_word_ok. Qed.

Lemma chunks4_ok (k : nat) l :
  length l = (4 * k)%nat -> Forall byte_ok l ->
  Forall (fun l => length l = 4%nat /\ Forall byte_ok l) (chunks4 l) /\
  length (chunks4 l) = k /\ concat (chunks4 l) = l.
Proof.
  revert l. induction k as [|k IH]; intros l Hlen Hl.
  - by destruct l.
  - destruct l as [|a [|b [|c [|d l]]]]; simpl in Hlen; try lia.
    apply Forall_cons in Hl as [Ha Hl]. apply Forall_cons in Hl as [Hb Hl].
    apply Forall_cons in Hl as [Hc Hl]. apply Forall_cons in Hl as [Hd Hl].
    destruct (IH l ltac:(lia) Hl) as (H1 & H2 & H3). cbn [chunks4 concat length app].
    split_and!; [|by rewrite H2|by rewrite H3]. constructor; [|done]. split; [done|].
    repeat (constructor; [done|]). constructor.
Qed.

Lemma addr_memory_length a : length (addr_memory a) = (4 * Z.to_nat (length_ a / 4))%nat.
Proof.
  unfold addr_memory. rewrite length_take.
  rewrite data_bytes_length.
  unfold length_. destruct (family_ a); simpl; lia.
Qed.

(** Loading the bytes of an address gives the address back. *)
Lemma load_port port :
  0 <= port < 65536 ->
  load_word (if little_endian then [port mod 256; port / 256] else [port / 256; port mod 256]) = port.
Proof.
  intros Hp. unfold load_word, le_value.
  assert (be_value [port / 256; port mod 256] = port) as E.
  { cbn [be_value length]. rewrite Z.shiftl_0_r, Z.lor_0_r. change (8 * Z.of_nat 1) with 8.
    rewrite lor_shift_add; [Z.to_euclidean_division_equations; lia|lia|].
    unfold in_range. Z.to_euclidean_division_equations; lia. }
  destruct little_endian; exact E.
Qed.
End endpoints.
Lemma ReadHexBytes_chunks rv chunks (c k : nat) rest :
  Forall (fun l => length l = c /\ Forall byte_ok l) chunks -> (0 < c)%nat -> length chunks = k ->
  rest <> [] ->
  ReadHexBytes (print_chunks rv chunks ++ rest) c k rv = (concat chunks, Z.of_nat (c * k)).
Proof.
  intros Hc Hpos <- Hr. unfold ReadHexBytes.
  rewrite (hex_loop_chunks chunks c rest rv []); [|done|done|done|by apply Nat.Div0.mod_0_l].
  cbn [fst app]. f_equal. f_equal. clear Hpos. induction Hc as [|l chunks [Hl _] _ IH]; [simpl; lia|].
  cbn [concat length]. rewrite length_app, IH, Hl. lia.
Qed.

Section endpoint_text.
Context `{ho : HostOrder}.

Definition port_bytes (port : Z) : list Z :=
  if little_endian then [port mod 256; port / 256] else [port / 256; port mod 256].

Lemma print_port port :
  hex_bytes [port / 256; port mod 256] = print_chunks little_endian [port_bytes port].
Proof. unfold print_chunks, port_bytes. cbn [map concat]. rewrite app_nil_r. by destruct little_endian. Qed.

Lemma port_bytes_ok port :
  0 <= port < 65536 -> Forall (fun l => length l = 2%nat /\ Forall byte_ok l) [port_bytes port].
Proof.
  intros Hp. assert (byte_ok (port mod 256) /\ byte_ok (port / 256)) as [H1 H2].
  { unfold byte_ok. split; Z.to_euclidean_division_equations; lia. }
  constructor; [|constructor]. unfold port_bytes. 
  destruct little_endian; (split; [reflexivity|]); (constructor; [assumption|]);
    (constructor; [assumption|constructor]).
Qed.

(** C9: parsing an endpoint as the kernel prints it in net/tcp gives back the
    address and the port, and leaves the rest of the line. *)
Theorem ParseEndpoint_print a port rest :
  addr_wf a -> addr_padded a -> 0 <= port < 65536 -> rest <> [] ->
  ParseEndpoint (print_endpoint a port ++ rest) (family_ a) = Some (Endpoint_of_address a port, rest).
Proof.
  intros Ha Hpad Hport Hr.
  destruct (chunks4_ok _ _ (addr_memory_length a) (addr_memory_ok a)) as (Hc & Hk & Hcat).
  unfold ParseEndpoint, print_endpoint, needs_byteorder_swap. fold (length_ a).
  rewrite <- app_assoc. cbn [app].
  rewrite (ReadHexBytes_chunks _ _ 4 _ _ Hc ltac:(lia) Hk) by discriminate.
  set (pc := print_chunks little_endian (chunks4 (addr_memory a))).
  assert (length pc = 2 * (4 * Z.to_nat (length_ a / 4)))%nat as Hpc.
  { subst pc. rewrite (print_chunks_length _ _ _ Hc). by rewrite Hk. }
  assert (Z.of_nat (4 * Z.to_nat (length_ a / 4)) = length_ a) as El.
  { unfold length_. destruct (family_ a); reflexivity. }
  rewrite El, Z.eqb_refl. cbn [negb].
  rewrite (drop_app_length' pc) by lia. cbn [ch_eqb].
  change (negb (ch_eqb ":" ":")) with false. cbv iota.
  rewrite print_port.
  rewrite (ReadHexBytes_chunks _ _ 2 1 _ (port_bytes_ok _ Hport) ltac:(lia) eq_refl Hr).
  change (negb (Z.of_nat (2 * 1) =? 2)) with false. cbv iota.
  rewrite drop_app_length' by (rewrite (print_chunks_length _ _ _ (port_bytes_ok _ Hport)); reflexivity).
  cbn [concat]. rewrite app_nil_r. unfold port_bytes. rewrite load_port by done.
  rewrite Hcat. unfold Address_bytes.
  pose proof (memcpy_words_data a [] Ha Hpad) as E. rewrite app_nil_r in E. fold (length_ a).
  unfold addr_memory. rewrite E. by destruct a.
Qed.
End endpoint_text.

(** ** Provenance of what a scrape reports *)

Section scraped.
Context `{ho : HostOrder} (process_store : option (Z -> option IProcess)) (line_init : chars).

(** The entry is a live process of the container, in the namespace, that has
    the socket open. *)
Definition socket_of (e : ProcEntry) (container_id : string) (ns : Z) (socket : SocketInfo) : Prop :=
  exists id fds fd,
    pe_openable e = true /\ ReadProcessState (pe_stat e) <> Some "Z"%char /\
    GetContainerID (pe_cgroup e) = Some id /\ container_id = String.string_of_list_ascii id /\
    GetNetworkNamespace (pe_ns_net e) = Some ns /\ pe_fds e = Some fds /\ In fd fds /\
    ReadINode fd.2 (chars_of "socket") = Some (sock_inode socket).

(** The data were read from the tables of the entry. *)
Definition tables_of (e : ProcEntry) (want_endpoints : bool) (ns : Z) (data : NSNetworkData) : Prop :=
  GetNetworkNamespace (pe_ns_net e) = Some ns /\
  (GetConnections line_init (pe_net_tcp e) (pe_net_tcp6 e) [] (if want_endpoints then Some [] else None)).1 =
  (ns_connections data, ns_listen_endpoints data).

Definition sockets_sound (procs : list ProcEntry) (m : SocketsByContainer) : Prop :=
  forall cs ns s, In cs m -> In ns cs.2 -> In s ns.2 ->
  exists e, In e procs /\ socket_of e cs.1 ns.1 s.

Definition conns_sound (procs : list ProcEntry) (want : bool) (m : ConnsByNS) : Prop :=
  forall ns data, In (ns, data) m -> exists e, In e procs /\ tables_of e want ns data.

Lemma set_sockets_sound procs m container ns socks :
  sockets_sound procs m ->
  (forall s, In s socks -> exists e, In e procs /\ socket_of e container ns s) ->
  sockets_sound procs (set_sockets container ns socks m).
Proof.
  intros Hm Hs cs n s Hcs Hn Hin. unfold set_sockets in Hcs.
  apply (umap_assign_In String.eqb) in Hcs as [Hcs|[Ecs Ek]]; [by eapply Hm|].
  apply String.eqb_eq in Ek as <-. rewrite Ecs in Hn.
  apply (umap_assign_In Z.eqb) in Hn as [Hn|[En Ek]].
  - destruct (umap_find String.eqb container m) as [inner|] eqn:E; [|done].
    apply (umap_find_In String.eqb) in E as (k & Hk & Eq). apply String.eqb_eq in Eq as <-.
    by apply (Hm (container, inner) n s).
  - apply Z.eqb_eq in Ek as <-. rewrite En in Hin. by apply Hs.
Qed.

Lemma sockets_at_sound procs m container ns s :
  sockets_sound procs m -> In s (sockets_at container ns m) ->
  exists e, In e procs /\ socket_of e container ns s.
Proof.
  intros Hm Hin. unfold sockets_at in Hin.
  destruct (umap_find String.eqb container m) as [inner|] eqn:E; [|done]. simpl in Hin.
  destruct (umap_find Z.eqb ns inner) as [socks|] eqn:E2; [|done]. simpl in Hin.
  apply (umap_find_In String.eqb) in E as (k & Hk & Eq). apply String.eqb_eq in Eq as <-.
  apply (umap_find_In Z.eqb) in E2 as (k & Hk2 & Eq). apply Z.eqb_eq in Eq as <-.
  by apply (Hm (container, inner) (ns, socks) s).
Qed.

Lemma GetSocketINodes_In fds pid old socks s :
  GetSocketINodes (Some fds) pid old = Some socks -> In s socks ->
  In s old \/ exists fd, In fd fds /\ ReadINode fd.2 (chars_of "socket") = Some (sock_inode s).
Proof.
  unfold GetSocketINodes. intros [= <-]. revert old. induction fds as [|fd fds IH]; [auto|].
  intros old Hin. cbn [fold_left] in Hin. apply IH in Hin as [Hin|(fd' & ? & ?)].
  - destruct (fd.1) as [|c r]; [auto|]. destruct (isdigit c); [|auto].
    match type of Hin with context [ReadINode ?l ?p] => destruct (ReadINode l p) eqn:E end; [|auto].
    unfold uset_insert in Hin. destruct (uset_contains _ _ old); [auto|].
    apply in_app_iff in Hin as [?|[<-|[]]]; [auto|]. right. exists fd. split; [by left|exact E].
  - right. exists fd'. simpl. auto.
Qed.

Definition scrape_sound (procs : list ProcEntry) (want : bool) (st : ScrapeState) : Prop :=
  sockets_sound procs (sc_sockets st) /\ conns_sound procs want (sc_conns st).

Lemma read_process_sound procs want st e :
  In e procs -> scrape_sound procs want st ->
  scrape_sound procs want (read_process line_init want st e).
Proof.
  intros He [Hs Hc]. unfold read_process. destruct (pe_name e) as [|c nm] eqn:En; [done|].
  destruct (negb (isdigit c)); [done|]. destruct (pe_openable e) eqn:Eo; [|done]. cbn [negb].
  destruct (match ReadProcessState (pe_stat e) with Some s => ch_eqb s "Z" | None => false end) eqn:Ez; [done|].
  destruct (GetContainerID (pe_cgroup e)) as [id|] eqn:Ei; [|done].
  destruct (GetNetworkNamespace (pe_ns_net e)) as [netns|] eqn:Ens; [|done].
  cbv zeta. set (container := String.string_of_list_ascii id).
  set (old := sockets_at container netns (sc_sockets st)).
  destruct (GetSocketINodes (pe_fds e) _ old) as [socks|] eqn:Eg.
  2: { split; [|done]. apply set_sockets_sound; [done|]. intros s. by apply sockets_at_sound. }
  assert (sockets_sound procs (set_sockets container netns socks (sc_sockets st))) as Hset.
  { apply set_sockets_sound; [done|]. intros s Hin. destruct (pe_fds e) as [fds|] eqn:Ef; [|done].
    destruct (GetSocketINodes_In _ _ _ _ s Eg Hin) as [Ho|(fd & Hfd & Hr)]; [exact (sockets_at_sound procs _ _ _ s Hs Ho)|].
    exists e. split; [done|]. exists id, fds, fd. split_and!; try done.
    intros Hz. rewrite Hz in Ez. discriminate Ez. }
  destruct (_ && _ && _); [|done].
  destruct (GetConnections line_init _ _ _ _) as [[conns listen] success] eqn:Econ.
  destruct (negb success && _); [done|]. split; [done|]. cbn [sc_conns].
  intros ns data Hin. apply (umap_assign_In Z.eqb) in Hin as [Hin|[Ed Ek]]; [by apply Hc|].
  apply Z.eqb_eq in Ek. cbn [fst snd] in *. subst ns data. exists e. split; [done|]. split; [done|].
  by rewrite Econ.
Qed.

Lemma scrape_loop_sound procs want entries st :
  (forall e, In e entries -> In e procs) -> scrape_sound procs want st ->
  scrape_sound procs want (fold_left (read_process line_init want) entries st).
Proof.
  revert st. induction entries as [|e r IH]; intros st Hin Hst; [done|]. cbn [fold_left].
  apply IH; [by intros; apply Hin; right|]. apply read_process_sound; [by apply Hin; left|done].
Qed.

(** A reported connection and a reported endpoint come from the tables. *)
Definition conn_from (procs : list ProcEntry) (want : bool) (c : Connection) : Prop :=
  IsRelevantConnection c = true /\
  exists e e' ns data socket info, In e procs /\ In e' procs /\
    socket_of e (container_ c) ns socket /\ tables_of e' want ns data /\
    umap_find Z.eqb (sock_inode socket) (ns_connections data) = Some info /\
    c = Connection_make (container_ c) (ci_local info) (ci_remote info) (ci_l4proto info) (ci_is_server info).

Definition endpoint_from (procs : list ProcEntry) (want : bool) (ep : ContainerEndpoint) : Prop :=
  IsRelevantEndpoint (cep_endpoint_ ep) = true /\ want = true /\
  exists e e' ns data socket info, In e procs /\ In e' procs /\
    socket_of e (cep_container_ ep) ns socket /\ tables_of e' want ns data /\
    umap_find Z.eqb (sock_inode socket) (default [] (ns_listen_endpoints data)) = Some info /\
    umap_find Z.eqb (sock_inode socket) (ns_connections data) = None /\
    cep_endpoint_ ep = ei_endpoint info /\ cep_l4proto_ ep = ei_l4proto info.

Definition report_sound (procs : list ProcEntry) (want : bool) (out : list Connection * list ContainerEndpoint) : Prop :=
  Forall (conn_from procs want) out.1 /\ Forall (endpoint_from procs want) out.2.

Lemma resolve_socket_sound procs want e e' container ns data socket out :
  In e procs -> In e' procs -> socket_of e container ns socket -> tables_of e' want ns data ->
  report_sound procs want out ->
  report_sound procs want (resolve_socket process_store want container data out socket).
Proof.
  intros He He' Hs Ht Hout. unfold resolve_socket.
  destruct (umap_find Z.eqb (sock_inode socket) (ns_connections data)) as [info|] eqn:Ef.
  - cbv zeta. destruct (IsRelevantConnection _) eqn:Er; [|done]. cbn [negb].
    destruct Hout as [H1 H2]. split; [|done]. apply Forall_app. split; [done|]. constructor; [|constructor].
    split; [done|]. exists e, e', ns, data, socket, info.
    exact (conj He (conj He' (conj Hs (conj Ht (conj Ef eq_refl))))).
  - destruct want eqn:Ew; [|done].
    destruct (umap_find Z.eqb _ (default [] _)) as [ep|] eqn:Ee; [|done].
    destruct (IsRelevantEndpoint _) eqn:Er; [|done]. cbn [negb]. cbv zeta.
    destruct Hout as [H1 H2]. split; [done|]. apply Forall_app. split; [done|]. constructor; [|constructor].
    split_and!; [done|done|]. exists e, e', ns, data, socket, ep.
    exact (conj He (conj He' (conj Hs (conj Ht (conj Ee (conj Ef (conj eq_refl eq_refl))))))).
Qed.

Lemma fold_left_keeps {A B} (P : A -> Prop) (f : A -> B -> A) l a :
  (forall a x, In x l -> P a -> P (f a x)) -> P a -> P (fold_left f l a).
Proof.
  revert a. induction l as [|x r IH]; intros a Hf Ha; [done|]. simpl. apply IH.
  - intros a' y Hy. apply Hf. by right.
  - apply Hf; [by left|done].
Qed.

Lemma ResolveSocketInodes_sound procs want sockets conns :
  sockets_sound procs sockets -> conns_sound procs want conns ->
  report_sound procs want (ResolveSocketInodes process_store sockets conns want).
Proof.
  intros Hs Hc. unfold ResolveSocketInodes.
  apply fold_left_keeps; [|by split; constructor]. intros out cs Hcs Hout.
  apply fold_left_keeps; [|done]. intros out' ns Hns Hout'.
  destruct (umap_find Z.eqb ns.1 conns) as [data|] eqn:E; [|done].
  apply (umap_find_In Z.eqb) in E as (k & Hk & Eq). apply Z.eqb_eq in Eq. subst k.
  destruct (Hc _ _ Hk) as (e' & He' & Ht).
  apply fold_left_keeps; [|done]. intros out'' s Hin Hout''.
  destruct (Hs _ _ _ Hcs Hns Hin) as (e & He & Hso). 
  exact (resolve_socket_sound procs want e e' _ _ _ _ _ He He' Hso Ht Hout'').
Qed.

(** C8: every connection and endpoint that a scrape reports is relevant,
    belongs to a container with a live process that has its socket open, and
    was read from the tables of the namespace of that process. *)
Theorem ReadContainerConnections_sound procs want stats conns eps stats' :
  ReadContainerConnections line_init process_store (Some procs) want stats = (Some (conns, eps), stats') ->
  Forall (conn_from procs want) conns /\ Forall (endpoint_from procs want) eps.
Proof.
  unfold ReadContainerConnections. intros [= E _].
  destruct (scrape_loop_sound procs want procs (mkScrape [] [] stats)) as [Hs Hc]; [done|by split; intros ?| ].
  pose proof (ResolveSocketInodes_sound _ _ _ _ Hs Hc) as H. unfold report_sound in H.
  by rewrite E in H.
Qed.
End scraped.

(** ** Command lines *)

Definition no_nul (s : chars) : Prop := Forall (fun c => ch_eqb c NUL = false) s.

(** The contents of /proc/<pid>/cmdline for a list of arguments. *)
Definition print_cmdline (args : list chars) : chars := concat (map (fun a => a ++ [NUL]) args).

(** The arguments after the first, separated by spaces. *)
Definition join_args (args : list chars) : chars :=
  match args with
  | [] => []
  | a :: r => a ++ concat (map (cons " "%char) r)
  end.

Lemma cmdline_chars s r exe buf :
  no_nul s -> cmdline_loop (s ++ r) exe buf false = cmdline_loop r exe (buf ++ s) false.
Proof.
  intros Hs. revert buf. induction Hs as [|c s Hc Hs IH]; intros buf.
  - by rewrite app_nil_r.
  - cbn [app cmdline_loop]. rewrite Hc. cbn [negb]. by rewrite IH, <- app_assoc.
Qed.

Lemma cmdline_arg s r exe buf flag :
  no_nul s -> s <> [] ->
  cmdline_loop (s ++ NUL :: r) (Some exe) buf flag =
  cmdline_loop r (Some exe) (buf ++ (if flag then " "%char :: s else s)) true.
Proof.
  intros Hs Hne. destruct s as [|c s]; [done|]. apply Forall_cons in Hs as [Hc Hs].
  cbn [app cmdline_loop]. rewrite Hc. cbn [negb]. rewrite cmdline_chars by done.
  cbn [cmdline_loop]. change (ch_eqb NUL NUL) with true. cbn [negb]. rewrite <- app_assoc.
  by destruct flag.
Qed.

Lemma cmdline_args args exe buf :
  Forall (fun a => no_nul a /\ a <> []) args ->
  cmdline_loop (print_cmdline args) (Some exe) buf true =
  (exe, buf ++ concat (map (cons " "%char) args)).
Proof.
  intros H. revert buf. induction H as [|a args [Ha Hne] H IH]; intros buf.
  - cbn. by rewrite app_nil_r.
  - unfold print_cmdline in *. cbn [map concat]. rewrite <- app_assoc. cbn [app].
    rewrite (cmdline_arg a) by done. by rewrite IH, <- app_assoc.
Qed.

(** The command line of a process yields its first argument as the
    executable and the others joined by single spaces. *)
Theorem ReadProcessCmdline_args exe args stats :
  no_nul exe -> Forall (fun a => no_nul a /\ a <> []) args ->
  ReadProcessCmdline (Some (print_cmdline (exe :: args))) stats = (Some (exe, join_args args), stats).
Proof.
  intros He Ha. unfold ReadProcessCmdline, print_cmdline. cbn [map concat].
  rewrite <- app_assoc, cmdline_chars by done. cbn [app cmdline_loop].
  change (ch_eqb NUL NUL) with true. cbn [negb]. fold (print_cmdline args).
  destruct Ha as [|a args [Hn Hne] Ha]; [done|].
  unfold print_cmdline. cbn [map concat]. rewrite <- app_assoc. cbn [app].
  rewrite (cmdline_arg a) by done. fold (print_cmdline args). by rewrite cmdline_args.
Qed.

Lemma ReadProcessCmdline_args_witness :
  ReadProcessCmdline (Some (print_cmdline [chars_of "/bin/sh"; chars_of "-c"; chars_of "ls"])) Stats_Reset =
  (Some (chars_of "/bin/sh", chars_of "-c ls"), Stats_Reset).
Proof.
  apply (ReadProcessCmdline_args (chars_of "/bin/sh") [chars_of "-c"; chars_of "ls"]).
  - repeat constructor.
  - repeat (constructor; [split; [repeat constructor|discriminate]|]). constructor.
Defined.

(** ** Process states *)

(** The state of a process is the character after the last ") " of its
    stat line, also when the name of its command contains parentheses. *)
Theorem ExtractProcessState_last pid comm state rest :
  ~ In ")"%char (state :: rest) ->
  ExtractProcessState ((pid ++ chars_of " (" ++ comm) ++ chars_of ") " ++ state :: rest) = Some state.
Proof.
  intros Hno. unfold ExtractProcessState, rfind. set (l := pid ++ chars_of " (" ++ comm).
  change (chars_of ") ") with (")"%char :: [" "%char]).
  rewrite rfind_from_last by (apply rfind_from_None_hd; intros [?|?]; [done|by apply Hno]).
  rewrite Nat.add_0_l, drop_app_add'. reflexivity.
  done.
Qed.

Lemma ExtractProcessState_last_witness :
  ExtractProcessState (chars_of "7 (a) Z (b) S 1 7") = Some "S"%char.
Proof.
  apply (ExtractProcessState_last (chars_of "7") (chars_of "a) Z (b") "S" (chars_of " 1 7")).
  vm_compute. intuition discriminate.
Defined.

(** ** Witnesses: a container with one connection, on a little-endian host *)

(** 8.8.8.8:443 *)
Lemma ParseEndpoint_print_witness :
  ParseEndpoint (ho := true) (print_endpoint (ho := true) (Address_octets (ho := true) 8 8 8 8) 443 ++ chars_of " 01")
    Family.IPV4 =
  Some (Endpoint_of_address (ho := true) (Address_octets (ho := true) 8 8 8 8) 443, chars_of " 01").
Proof.
  apply (ParseEndpoint_print (ho := true)).
  - apply Address_octets_wf.
  - vm_compute. reflexivity.
  - lia.
  - discriminate.
Defined.

Definition sample_proc : ProcEntry :=
  mkProcEntry (chars_of "42") true (Some (chars_of "42 (sh) S 1"))
    (Some [chars_of "5:pids:/docker/951e643e3c241b225b6284ef2b79a37c13fc64cbf65b5d46bda95fcb98fe63a4"])
    (Some (chars_of "net:[77]")) None
    (Some [(chars_of "3", Some (chars_of "socket:[900]")); (chars_of "4", Some (chars_of "/dev/null"))])
    (Some [chars_of "  sl  local_address rem_address   st";
           chars_of "   0: 0100000A:D431 08080808:01BB 01 00000000:00000000 00:00000000 00000000     0        0 900 1"])
    (Some [chars_of "  sl"]).

Definition sample_report : list Connection :=
  [Connection_make "951e643e3c24"
     (Endpoint_of_address (ho := true) (Address_octets (ho := true) 10 0 0 1) 54321)
     (Endpoint_of_address (ho := true) (Address_octets (ho := true) 8 8 8 8) 443) L4Proto.TCP false].

Lemma ReadContainerConnections_sound_witness :
  Forall (conn_from (ho := true) [] [sample_proc] true) sample_report.
Proof.
  apply (ReadContainerConnections_sound (ho := true) None [] [sample_proc] true Stats_Reset
           sample_report [] Stats_Reset).
  vm_compute. reflexivity.
Defined.
