(* ===== verification/Duplex.v ===== *)
(** * The duplex stream client ([DuplexGRPC.h])

    The client keeps a word of flags for the state of each operation and issues
    asynchronous calls on a gRPC stream, whose completions it takes from a
    completion queue.  The library is not modelled but observed: [Rpc] records
    what was handed to it and not completed yet, and whether one of three of its rules
    was broken: no second operation of a kind while one is outstanding, nothing after
    [Finish], nothing after the shutdown of the queue.  These are the rules that the
    flags of the client stand for; that it does not guard the order of [WritesDone]
    and [Write], and finishes while a read is outstanding, is shown at the end.  The results of [AsyncNext] are
    the input of the operations that wait; a list that ends leaves the call
    waiting ([None]).  Deadlines only matter for which results the queue gives. *)

From S2P Require Import Prelude.

(** ** Operations, flags and results *)

Module Op.
Inductive t := START | READ | WRITE | WRITES_DONE | FINISH | SHUTDOWN.

Definition to_Z (op : t) : Z :=
  match op with
  | START => 0 | READ => 1 | WRITE => 2 | WRITES_DONE => 3 | FINISH => 4 | SHUTDOWN => 5
  end.

Definition of_Z (z : Z) : option t :=
  if z =? 0 then Some START else if z =? 1 then Some READ else if z =? 2 then Some WRITE
  else if z =? 3 then Some WRITES_DONE else if z =? 4 then Some FINISH
  else if z =? 5 then Some SHUTDOWN else None.

#[global] Instance t_eq_dec : EqDecision t.
Proof. solve_decision. Defined.

Definition eqb (a b : t) : bool := bool_decide (a = b).
End Op.

Definition kNumOps : Z := 6.

Definition OpToTag (op : Op.t) : Z := Op.to_Z op.
Definition TagToOp (tag : Z) : option Op.t := Op.of_Z tag.

Definition Done (op : Op.t) : Z := 1 <<. Op.to_Z op.
Definition Pending (op : Op.t) : Z := 1 <<. (Op.to_Z op + kNumOps).
Definition STREAM_ERROR : Z := 1 <<. 31.

Module OpError.
Inductive t := OK | ALREADY_PENDING | ALREADY_DONE | ILLEGAL_STATE | SHUTDOWN.
End OpError.

Module Status.
Inductive t :=
  | OK | ALREADY_PENDING | ALREADY_DONE | ERROR | TIMEOUT | ILLEGAL_STATE | SHUTDOWN | INTERNAL_ERROR.

#[global] Instance t_eq_dec : EqDecision t.
Proof. solve_decision. Defined.
End Status.

Definition ok (s : Status.t) : bool := match s with Status.OK => true | _ => false end.
Definition done (s : Status.t) : bool :=
  match s with Status.OK | Status.ALREADY_DONE => true | _ => false end.
Definition IsTimeout (s : Status.t) : bool := match s with Status.TIMEOUT => true | _ => false end.

Definition Result_of_bool (ok : bool) : Status.t := if ok then Status.OK else Status.ERROR.
Definition Result_of_error (e : OpError.t) : Status.t :=
  match e with
  | OpError.OK => Status.OK
  | OpError.ALREADY_PENDING => Status.ALREADY_PENDING
  | OpError.ALREADY_DONE => Status.ALREADY_DONE
  | OpError.ILLEGAL_STATE => Status.ILLEGAL_STATE
  | OpError.SHUTDOWN => Status.SHUTDOWN
  end.

(** A [grpc::Status]; code 0 is OK, 2 UNKNOWN, 4 DEADLINE_EXCEEDED. *)
Record GrpcStatus := mkGrpcStatus { status_code : Z; status_message : string }.
Definition grpc_ok (s : GrpcStatus) : bool := status_code s =? 0.

(** ** The library, as the client uses it *)

Record Rpc := mkRpc {
  outstanding : list Op.t; finish_called : bool; cq_shutdown : bool; misused : bool
}.

Definition is_outstanding (op : Op.t) (r : Rpc) : bool := existsb (Op.eqb op) (outstanding r).

(** An asynchronous call on the stream. *)
Definition rpc_call (op : Op.t) (r : Rpc) : Rpc :=
  mkRpc (op :: outstanding r)
    (finish_called r || Op.eqb op Op.FINISH) (cq_shutdown r)
    (misused r || is_outstanding op r || finish_called r || cq_shutdown r).

(** The completion of an operation. *)
Definition rpc_complete (op : Op.t) (r : Rpc) : Rpc :=
  mkRpc (List.filter (fun o => negb (Op.eqb op o)) (outstanding r))
    (finish_called r) (cq_shutdown r) (misused r).

Definition rpc_shutdown (r : Rpc) : Rpc :=
  mkRpc (outstanding r) (finish_called r) true (misused r || cq_shutdown r).

(** What [AsyncNext] returns: an event with its operation and outcome, and what
    the library stored in the buffer of a read or in the status of a finish. *)
Inductive NextStatus (R : Type) :=
  | GOT_EVENT (op : Op.t) (ok : bool) (msg : R) (status : GrpcStatus)
  | TIMEOUT
  | SHUTDOWN.
Arguments GOT_EVENT {R}.
Arguments TIMEOUT {R}.
Arguments SHUTDOWN {R}.

Definition Result_of_next {R} (n : NextStatus R) : Status.t :=
  match n with
  | SHUTDOWN => Status.SHUTDOWN
  | TIMEOUT => Status.TIMEOUT
  | GOT_EVENT _ _ _ _ => Status.OK
  end.

(** ** The client *)

Section client.
Context {R : Type}.

(** [calls_] is what [read_callback_] was called with. *)
Record DuplexClient := mkClient {
  flags_ : Z; status_ : GrpcStatus; has_callback_ : bool; read_buf_ : R; read_buf_valid_ : bool;
  calls_ : list (option R); rpc_ : Rpc
}.

Definition set_flags (f : Z) (c : DuplexClient) : DuplexClient :=
  mkClient f (status_ c) (has_callback_ c) (read_buf_ c) (read_buf_valid_ c) (calls_ c) (rpc_ c).
Definition set_rpc (r : Rpc) (c : DuplexClient) : DuplexClient :=
  mkClient (flags_ c) (status_ c) (has_callback_ c) (read_buf_ c) (read_buf_valid_ c) (calls_ c) r.
Definition set_status (s : GrpcStatus) (c : DuplexClient) : DuplexClient :=
  mkClient (flags_ c) s (has_callback_ c) (read_buf_ c) (read_buf_valid_ c) (calls_ c) (rpc_ c).
Definition set_read (buf : R) (valid : bool) (c : DuplexClient) : DuplexClient :=
  mkClient (flags_ c) (status_ c) (has_callback_ c) buf valid (calls_ c) (rpc_ c).
Definition call_back (m : option R) (c : DuplexClient) : DuplexClient :=
  mkClient (flags_ c) (status_ c) (has_callback_ c) (read_buf_ c) (read_buf_valid_ c) (calls_ c ++ [m]) (rpc_ c).

(** [~x] on 32 bits. *)
Definition not32 (x : Z) : Z := Z.lxor x (Z.ones 32).

Definition SetFlags (fl : Z) (c : DuplexClient) : DuplexClient * Z :=
  (set_flags (flags_ c |. fl) c, fl &. not32 (flags_ c)).
Definition ClearFlags (fl : Z) (c : DuplexClient) : DuplexClient * Z :=
  (set_flags (flags_ c &. not32 fl) c, fl &. flags_ c).
Definition CheckFlags (fl : Z) (c : DuplexClient) : Z := flags_ c &. fl.
Definition check (fl : Z) (c : DuplexClient) : bool := negb (CheckFlags fl c =? 0).

(** [DoAsync]; an operation without arguments is idempotent. *)
Definition DoAsync (idempotent : bool) (op : Op.t) (c : DuplexClient) : DuplexClient * OpError.t :=
  if idempotent && check (Done op) c then (c, OpError.ALREADY_DONE)
  else if check (Pending op) c then (c, OpError.ALREADY_PENDING)
  else if check (Done Op.SHUTDOWN |. Pending Op.SHUTDOWN) c then (c, OpError.SHUTDOWN)
  else if check (Done Op.FINISH |. Pending Op.FINISH) c then (c, OpError.ILLEGAL_STATE)
  else
    let c := (ClearFlags (Done op) c).1 in
    let c := (SetFlags (Pending op) c).1 in
    (set_rpc (rpc_call op (rpc_ c)) c, OpError.OK).

Definition WriteAsyncInternal : DuplexClient -> DuplexClient * OpError.t := DoAsync false Op.WRITE.
Definition WritesDoneAsyncInternal : DuplexClient -> DuplexClient * OpError.t := DoAsync true Op.WRITES_DONE.
Definition FinishAsyncInternal : DuplexClient -> DuplexClient * OpError.t := DoAsync false Op.FINISH.
Definition ReadAsyncInternal : DuplexClient -> DuplexClient * OpError.t := DoAsync false Op.READ.

Definition ReadNext (c : DuplexClient) : DuplexClient :=
  (ReadAsyncInternal (set_read (read_buf_ c) false c)).1.

(** The constructor: the stub starts the stream with the START tag. *)
Definition DuplexClientReaderWriter (read_callback : bool) (buf : R) : DuplexClient :=
  let c := mkClient 0 (mkGrpcStatus 0 "") read_callback buf false [] (mkRpc [] false false false) in
  let c := set_rpc (rpc_call Op.START (rpc_ c)) c in
  ReadNext (SetFlags (Pending Op.START) c).1.

Definition HandleRead (ok : bool) (c : DuplexClient) : DuplexClient :=
  if has_callback_ c then ReadNext (call_back (if ok then Some (read_buf_ c) else None) c)
  else set_read (read_buf_ c) ok c.

Definition HandleFinish (ok : bool) (c : DuplexClient) : DuplexClient :=
  if negb ok && grpc_ok (status_ c)
  then set_status (mkGrpcStatus 2 "Finish operation unsuccessful") c else c.

Definition ProcessEvent (op : Op.t) (ok : bool) (c : DuplexClient) : DuplexClient :=
  let '(c, fl) :=
    if negb ok then ((FinishAsyncInternal c).1, Done op |. STREAM_ERROR) else (c, Done op) in
  let c := (ClearFlags (Pending op) c).1 in
  let c := (SetFlags fl c).1 in
  match op with
  | Op.READ => HandleRead ok c
  | Op.FINISH => HandleFinish ok c
  | _ => c
  end.

(** What the library has stored when the event arrives. *)
Definition complete (op : Op.t) (msg : R) (status : GrpcStatus) (c : DuplexClient) : DuplexClient :=
  let c := set_rpc (rpc_complete op (rpc_ c)) c in
  match op with
  | Op.READ => set_read msg (read_buf_valid_ c) c
  | Op.FINISH => set_status status c
  | _ => c
  end.

Definition ProcessSingle (next : NextStatus R) (c : DuplexClient) : DuplexClient * Status.t :=
  let c :=
    match next with
    | GOT_EVENT op ok msg status => ProcessEvent op ok (complete op msg status c)
    | SHUTDOWN => (SetFlags (Done Op.SHUTDOWN) c).1
    | TIMEOUT => c
    end in
  (c, Result_of_next next).

(** ** Waiting operations *)

(** The state, the result and what is left of the queue's results. *)
Definition Waited : Type := DuplexClient * Status.t * list (NextStatus R).

Fixpoint Poll (flags_checker : Z -> bool) (queue : list (NextStatus R)) (c : DuplexClient) : option Waited :=
  match queue with
  | [] => None
  | next :: queue =>
      let '(c, res) := ProcessSingle next c in
      if ok res && negb (flags_checker (flags_ c)) then Poll flags_checker queue c
      else Some (c, res, queue)
  end.

Definition PollAny (desired : Z) : list (NextStatus R) -> DuplexClient -> option Waited :=
  Poll (fun fl => negb (fl &. desired =? 0)).
Definition PollAll (desired : Z) : list (NextStatus R) -> DuplexClient -> option Waited :=
  Poll (fun fl => fl &. desired =? desired).

Definition WaitUntilStarted := PollAll (Done Op.START).
Definition WaitUntilFinished := PollAll (Done Op.FINISH).
Definition Sleep (queue : list (NextStatus R)) (c : DuplexClient)
    : option (DuplexClient * bool * list (NextStatus R)) :=
  match PollAny (STREAM_ERROR |. Done Op.FINISH) queue c with
  | Some (c, res, queue) => Some (c, IsTimeout res, queue)
  | None => None
  end.

(** The loop of [DoSync]. *)
Fixpoint wait_for (op : Op.t) (queue : list (NextStatus R)) (c : DuplexClient) : option Waited :=
  match queue with
  | [] => None
  | next :: queue =>
      let '(c, res) := ProcessSingle next c in
      match next with
      | GOT_EVENT op' op_ok _ _ =>
          if Op.eqb op' op then Some (c, Result_of_bool op_ok, queue) else wait_for op queue c
      | _ => Some (c, res, queue)
      end
  end.

Definition DoSync (idempotent : bool) (async_method : DuplexClient -> DuplexClient * OpError.t) (op : Op.t)
    (queue : list (NextStatus R)) (c : DuplexClient) : option Waited :=
  let '(c, op_error) := async_method c in
  let op_error :=
    match op_error with
    | OpError.ALREADY_PENDING => if idempotent then OpError.OK else OpError.ALREADY_PENDING
    | e => e
    end in
  match op_error with
  | OpError.OK => wait_for op queue c
  | e => Some (c, Result_of_error e, queue)
  end.

Definition Write := DoSync false WriteAsyncInternal Op.WRITE.
Definition WriteAsync (c : DuplexClient) : DuplexClient * Status.t :=
  let '(c, e) := WriteAsyncInternal c in (c, Result_of_error e).
Definition WritesDone := DoSync true WritesDoneAsyncInternal Op.WRITES_DONE.
Definition WritesDoneAsync (c : DuplexClient) : DuplexClient * Status.t :=
  let '(c, e) := WritesDoneAsyncInternal c in (c, Result_of_error e).
Definition FinishAsync (c : DuplexClient) : DuplexClient * Status.t :=
  let '(c, e) := FinishAsyncInternal c in (c, Result_of_error e).

(** The variant of [Finish] that returns the status. *)
Definition Finish (queue : list (NextStatus R)) (c : DuplexClient)
    : option (DuplexClient * GrpcStatus * list (NextStatus R)) :=
  match DoSync true FinishAsyncInternal Op.FINISH queue c with
  | None => None
  | Some (c, res, queue) =>
      Some (c,
        if ok res then status_ c
        else if IsTimeout res then mkGrpcStatus 4 "timed out waiting for operation status"
        else mkGrpcStatus 2 "unknown error retrieving status", queue)
  end.

Definition Shutdown (c : DuplexClient) : DuplexClient * Status.t :=
  if check (Done Op.SHUTDOWN) c then (c, Status.ALREADY_DONE)
  else
    let '(c, new_flags) := SetFlags (Pending Op.SHUTDOWN) c in
    if new_flags =? 0 then (c, Status.ALREADY_PENDING)
    else (set_rpc (rpc_shutdown (rpc_ c)) c, Status.OK).

(** [Read]: the message, if one was read. *)
Definition Read (queue : list (NextStatus R)) (c : DuplexClient)
    : option (DuplexClient * Status.t * option R * list (NextStatus R)) :=
  if has_callback_ c then Some (c, Status.ILLEGAL_STATE, None, queue)
  else
    match PollAll (Done Op.READ) queue c with
    | None => None
    | Some (c, res, queue) =>
        if negb (ok res) then Some (c, res, None, queue)
        else if negb (read_buf_valid_ c) then Some (c, Status.ERROR, None, queue)
        else Some (ReadNext c, Status.OK, Some (read_buf_ c), queue)
    end.

(** The loop of the destructor after [Shutdown]. *)
Fixpoint drain (queue : list (NextStatus R)) (c : DuplexClient) : option DuplexClient :=
  match queue with
  | [] => None
  | next :: queue =>
      let '(c, res) := ProcessSingle next c in
      if ok res then drain queue c else Some c
  end.
Definition DuplexClientReaderWriter_destroy (queue : list (NextStatus R)) (c : DuplexClient) : option DuplexClient :=
  drain queue (Shutdown c).1.

End client.
Arguments DuplexClient : clear implicits.

(** ** Flags as bits *)

Section client_lemmas.
Context {R : Type}.
Implicit Types c : DuplexClient R.

Definition pending_bit (op : Op.t) : Z := Op.to_Z op + kNumOps.
Definition tb c (i : Z) : bool := Z.testbit (flags_ c) i.

Lemma op_bit_range op : 0 <= Op.to_Z op < 6.
Proof. destruct op; simpl; lia. Qed.
Lemma op_bit_inj a b : Op.to_Z a = Op.to_Z b -> a = b.
Proof. by destruct a, b. Qed.

Lemma land_bit x n : 0 <= n -> (x &. (1 <<. n) =? 0) = negb (Z.testbit x n).
Proof.
  intros Hn. rewrite Z.shiftl_1_l. destruct (Z.testbit x n) eqn:E; simpl.
  - apply Z.eqb_neq. intros H. apply (f_equal (fun z => Z.testbit z n)) in H.
    rewrite Z.land_spec, E, Z.pow2_bits_true, Z.bits_0 in H by done. done.
  - apply Z.eqb_eq. apply Z.bits_inj'. intros m Hm. rewrite Z.land_spec, Z.pow2_bits_eqb, Z.bits_0 by done.
    destruct (Z.eqb_spec n m) as [->|]; [by rewrite E|apply andb_false_r].
Qed.

Lemma land_lor_zero x a b : (x &. (a |. b) =? 0) = (x &. a =? 0) && (x &. b =? 0).
Proof.
  rewrite Z.land_lor_distr_r. apply eq_true_iff_eq. rewrite andb_true_iff, !Z.eqb_eq. apply Z.lor_eq_0_iff.
Qed.

Lemma check_Done op c : check (Done op) c = tb c (Op.to_Z op).
Proof. unfold check, CheckFlags, Done. rewrite land_bit by (destruct op; simpl; lia). apply negb_involutive. Qed.
Lemma check_Pending op c : check (Pending op) c = tb c (pending_bit op).
Proof. unfold check, CheckFlags, Pending. rewrite land_bit by (destruct op; unfold kNumOps; simpl; lia). apply negb_involutive. Qed.
Lemma check_either op c : check (Done op |. Pending op) c = tb c (Op.to_Z op) || tb c (pending_bit op).
Proof.
  rewrite <- check_Done, <- check_Pending. unfold check, CheckFlags. by rewrite land_lor_zero, negb_andb.
Qed.

Lemma tb_set fl c i : tb (SetFlags fl c).1 i = tb c i || Z.testbit fl i.
Proof. apply Z.lor_spec. Qed.
Lemma tb_clear fl c i : 0 <= i < 32 -> tb (ClearFlags fl c).1 i = tb c i && negb (Z.testbit fl i).
Proof.
  intros Hi. unfold tb. cbn [ClearFlags fst set_flags flags_]. unfold not32.
  rewrite Z.land_spec, Z.lxor_spec, Z.testbit_ones by lia.
  by rewrite (proj2 (Z.leb_le 0 i)), (proj2 (Z.ltb_lt i 32)), xorb_true_r by lia.
Qed.

Lemma testbit_1 n i : 0 <= n -> Z.testbit (1 <<. n) i = (n =? i).
Proof. intros Hn. rewrite Z.shiftl_1_l. by apply Z.pow2_bits_eqb. Qed.

(** A call that is accepted, and the flags it leaves. *)
Lemma DoAsync_cases idempotent op c :
  (exists e, DoAsync idempotent op c = (c, e) /\ e <> OpError.OK) \/
  (exists c', DoAsync idempotent op c = (set_rpc (rpc_call op (rpc_ c)) c', OpError.OK) /\
    c' = set_flags (flags_ c') c /\
    tb c (pending_bit op) = false /\ tb c 5 || tb c 11 = false /\ tb c 4 || tb c 10 = false /\
    forall i, 0 <= i < 32 ->
      tb c' i = if i =? pending_bit op then true else if i =? Op.to_Z op then false else tb c i).
Proof.
  unfold DoAsync. rewrite check_Done, check_Pending, !check_either.
  change (pending_bit Op.SHUTDOWN) with 11. change (Op.to_Z Op.SHUTDOWN) with 5.
  change (pending_bit Op.FINISH) with 10. change (Op.to_Z Op.FINISH) with 4.
  destruct (idempotent && _); [left; by eexists|]. destruct (tb c (pending_bit op)) eqn:Ep; [left; by eexists|].
  destruct (tb c 5 || tb c 11) eqn:Es; [left; by eexists|]. destruct (tb c 4 || tb c 10) eqn:Ef; [left; by eexists|].
  right. eexists. split; [reflexivity|]. split_and!; try done.
  intros i Hi. pose proof (op_bit_range op). rewrite tb_set, tb_clear by lia. unfold Pending, Done, pending_bit, kNumOps.
    rewrite !testbit_1 by lia. rewrite !(Z.eqb_sym i).
    destruct (Z.eqb_spec (Op.to_Z op + 6) i); [apply orb_true_r|]. rewrite orb_false_r.
    destruct (Op.to_Z op =? i); simpl; [apply andb_false_r|apply andb_true_r].
Qed.
End client_lemmas.

(** ** The invariant *)

Section invariant.
Context {R : Type}.
Implicit Types c : DuplexClient R.

Definition closing c : bool := finish_called (rpc_ c) || cq_shutdown (rpc_ c).

(** What the callback was called with: messages, then at most one null. *)
Definition calls_ok (calls : list (option R)) : Prop :=
  exists ms, calls = map Some ms \/ calls = map Some ms ++ [None].

(** [x] is an operation whose completion is being processed. *)
Record Inv (x : option Op.t) c : Prop := {
  inv_pending : forall op, op <> Op.SHUTDOWN ->
    tb c (pending_bit op) = is_outstanding op (rpc_ c) || bool_decide (x = Some op);
  inv_no_shutdown : is_outstanding Op.SHUTDOWN (rpc_ c) = false;
  inv_finish : finish_called (rpc_ c) = tb c 4 || tb c 10;
  inv_shutdown : cq_shutdown (rpc_ c) = tb c 11;
  inv_shutdown_done : tb c 5 = true -> cq_shutdown (rpc_ c) = true;
  inv_rules : misused (rpc_ c) = false;
  inv_error : tb c 31 = true -> closing c = true;
  inv_calls : calls_ok (calls_ c);
  inv_last_call : In None (calls_ c) -> is_outstanding Op.READ (rpc_ c) = false /\ closing c = true
}.

(** Bit positions of distinct flags. *)
Lemma op_eqb_bit a b : Op.eqb a b = (Op.to_Z a =? Op.to_Z b).
Proof. by destruct a, b. Qed.

Lemma is_outstanding_call o op r :
  is_outstanding o (rpc_call op r) = Op.eqb o op || is_outstanding o r.
Proof. done. Qed.

Lemma is_outstanding_complete o op r :
  is_outstanding o (rpc_complete op r) = is_outstanding o r && negb (Op.eqb op o).
Proof.
  unfold is_outstanding, rpc_complete. cbn [outstanding]. induction (outstanding r) as [|p l IH]; [done|].
  simpl. destruct (Op.eqb op p) eqn:E; simpl; rewrite IH.
  - apply bool_decide_eq_true in E as <-. by destruct o, op; rewrite ?andb_false_r.
  - destruct (Op.eqb o p) eqn:E2; [|done]. apply bool_decide_eq_true in E2 as <-. by rewrite E.
Qed.

(** A started operation keeps the invariant. *)
Lemma Inv_call x op c c' :
  Inv x c -> op <> Op.SHUTDOWN -> c' = set_flags (flags_ c') c ->
  tb c (pending_bit op) = false -> tb c 5 || tb c 11 = false -> tb c 4 || tb c 10 = false ->
  (forall i, 0 <= i < 32 ->
     tb c' i = if i =? pending_bit op then true else if i =? Op.to_Z op then false else tb c i) ->
  Inv x (set_rpc (rpc_call op (rpc_ c)) c').
Proof.
  intros HI Hop Hc' Hp Hs Hf Hb. destruct HI.
  assert (closing c = false) as Hcl.
  { unfold closing. rewrite inv_finish0, Hf, inv_shutdown0. by apply orb_false_elim in Hs as [_ ->]. }
  pose proof Hcl as Hcl'. unfold closing in Hcl'. apply orb_false_elim in Hcl' as [Hfc Hsc].
  apply orb_false_elim in Hs as [H5 H11]. apply orb_false_elim in Hf as [H4 H10].
  assert (forall i, tb (set_rpc (rpc_call op (rpc_ c)) c') i = tb c' i) as Htb by done.
  assert (calls_ c' = calls_ c) as Hcalls by (by rewrite Hc').
  split; cbn [rpc_ set_rpc calls_].
  - intros o Ho. rewrite Htb, Hb by (destruct o; unfold pending_bit, kNumOps; simpl; lia).
    rewrite is_outstanding_call, op_eqb_bit.
    replace (pending_bit o =? pending_bit op) with (Op.to_Z o =? Op.to_Z op).
    2:{ unfold pending_bit. destruct o, op; reflexivity. }
    destruct (Op.to_Z o =? Op.to_Z op); [done|]. simpl.
    replace (pending_bit o =? Op.to_Z op) with false by (by destruct o, op). by apply inv_pending0.
  - rewrite is_outstanding_call, inv_no_shutdown0, orb_false_r. unfold Op.eqb. by destruct op.
  - rewrite !Htb, !Hb by lia. rewrite H4, H10. cbn [finish_called rpc_call]. rewrite Hfc. by destruct op.
  - rewrite Htb, Hb by lia. rewrite H11. cbn [cq_shutdown rpc_call]. rewrite Hsc. by destruct op.
  - rewrite Htb, Hb by lia. rewrite H5. by destruct op.
  - cbn [misused rpc_call]. rewrite inv_rules0, Hfc, Hsc, !orb_false_r.
    specialize (inv_pending0 op Hop). rewrite Hp in inv_pending0. by destruct (is_outstanding op (rpc_ c)).
  - rewrite Htb, Hb by lia. intros H31. replace (31 =? pending_bit op) with false in H31 by (by destruct op).
    replace (31 =? Op.to_Z op) with false in H31 by (by destruct op). rewrite inv_error0 in Hcl; done.
  - by rewrite Hcalls.
  - rewrite Hcalls. intros [_ H]%inv_last_call0. congruence.
Qed.

Lemma Inv_DoAsync x idempotent op c :
  Inv x c -> op <> Op.SHUTDOWN -> Inv x (DoAsync idempotent op c).1.
Proof.
  intros HI Hop. destruct (DoAsync_cases idempotent op c) as [(e & -> & _)|(c' & -> & H)]; [done|].
  destruct H as (H1 & H2 & H3 & H4 & H5). by apply Inv_call.
Qed.

Lemma Inv_ReadNext x c : Inv x c -> Inv x (ReadNext c).
Proof. intros [] . apply Inv_DoAsync; [|done]. by split. Qed.

(** After an attempt to finish, the client is closing. *)
Lemma closing_finish x c : Inv x c -> closing (FinishAsyncInternal c).1 = true.
Proof.
  intros HI. unfold FinishAsyncInternal, DoAsync. simpl (false && _). rewrite check_Pending, !check_either.
  change (pending_bit Op.SHUTDOWN) with 11. change (Op.to_Z Op.SHUTDOWN) with 5.
  change (pending_bit Op.FINISH) with 10. change (Op.to_Z Op.FINISH) with 4. unfold closing.
  destruct (tb c 10) eqn:E10.
  { cbn [fst]. by rewrite (inv_finish _ _ HI), E10, !orb_true_r. }
  destruct (tb c 5 || tb c 11) eqn:Es.
  { simpl. apply orb_true_iff. right. apply orb_true_iff in Es as [E|E].
    - by apply (inv_shutdown_done _ _ HI).
    - by rewrite (inv_shutdown _ _ HI). }
  destruct (tb c 4 || false) eqn:Ef.
  { simpl. rewrite (inv_finish _ _ HI). apply orb_true_iff. left.
    rewrite orb_false_r in Ef. by rewrite Ef. }
  simpl. by rewrite orb_true_r.
Qed.
End invariant.

(** ** Events *)

Section events.
Context {R : Type}.
Implicit Types c : DuplexClient R.

Lemma Inv_complete op msg status c :
  Inv None c -> is_outstanding op (rpc_ c) = true -> Inv (Some op) (complete op msg status c).
Proof.
  intros [] Ho.
  assert (Inv (Some op) (set_rpc (rpc_complete op (rpc_ c)) c)) as H.
  { split; cbn [rpc_ set_rpc calls_ finish_called cq_shutdown misused rpc_complete];
      rewrite ?is_outstanding_complete; try done.
    - intros o Hs. change (tb (set_rpc (rpc_complete op (rpc_ c)) c) (pending_bit o)) with (tb c (pending_bit o)).
      rewrite inv_pending0, is_outstanding_complete by done.
      destruct (Op.eqb op o) eqn:E; unfold Op.eqb in E.
      + apply bool_decide_eq_true in E as ->. rewrite Ho. cbn [negb]. rewrite andb_false_r, (bool_decide_true (Some o = Some o)) by done. done.
      + apply bool_decide_eq_false in E. rewrite andb_true_r. f_equal.
        symmetry. apply bool_decide_eq_false. by intros [= ->].
    - by rewrite inv_no_shutdown0.
    - intros Hn. destruct (inv_last_call0 Hn) as [-> ?]. done. }
  unfold complete. destruct op; try exact H; destruct H; split; assumption.
Qed.

(** Evaluates the comparisons of bit positions. *)
Ltac eval_bits :=
  unfold pending_bit, kNumOps in *; cbn [Op.to_Z] in *; change (4 + 6) with 10 in *;
  repeat match goal with
  | |- context [?a =? ?b] => let v := eval vm_compute in (a =? b) in change (a =? b) with v
  end;
  cbn [negb andb orb]; rewrite ?andb_true_r, ?andb_false_r, ?orb_false_r, ?orb_true_r.

(** Moving the operation from pending to done. *)
Lemma Inv_done op (err : bool) c :
  Inv (Some op) c -> op <> Op.SHUTDOWN -> is_outstanding op (rpc_ c) = false ->
  (err = true -> closing c = true) ->
  Inv None (SetFlags (if err then Done op |. STREAM_ERROR else Done op) (ClearFlags (Pending op) c).1).1.
Proof.
  intros HI Hop Hout Herr. set (c' := (SetFlags _ _).1).
  assert (forall i, 0 <= i < 32 -> tb c' i =
    tb c i && negb (pending_bit op =? i) || ((Op.to_Z op =? i) || (err && (31 =? i)))) as Hb.
  { intros i Hi. pose proof (op_bit_range op). subst c'. rewrite tb_set, tb_clear by done. f_equal.
    - unfold Pending. by rewrite testbit_1 by (unfold kNumOps; lia).
    - unfold STREAM_ERROR, Done. destruct err; rewrite ?Z.lor_spec, !testbit_1 by lia; [done|].
      by rewrite orb_false_r. }
  assert (rpc_ c' = rpc_ c /\ calls_ c' = calls_ c) as [Hr Hc] by done.
  assert (closing c' = closing c) as Hcl by done.
  assert (tb c (pending_bit op) = true) as Hpend.
  { rewrite (inv_pending _ _ HI), bool_decide_true by done. apply orb_true_r. }
  clearbody c'. destruct HI. split; rewrite ?Hr, ?Hc, ?Hcl; try done.
  - intros o Ho. rewrite Hb by (destruct o; unfold pending_bit, kNumOps; simpl; lia).
    rewrite inv_pending0 by done.
    replace (Op.to_Z op =? pending_bit o) with false by (by destruct o, op).
    replace (31 =? pending_bit o) with false by (by destruct o). rewrite andb_false_r, !orb_false_r.
    destruct (decide (o = op)) as [->|Hne].
    + rewrite Z.eqb_refl, Hout. simpl. apply andb_false_r.
    + replace (pending_bit op =? pending_bit o) with false.
      2:{ symmetry. apply Z.eqb_neq. unfold pending_bit. intros E. apply Hne, op_bit_inj. lia. }
      rewrite andb_true_r, (bool_decide_false (Some op = Some o)) by (by intros [= ->]).
      apply orb_false_r.
  - rewrite !Hb, inv_finish0 by lia. destruct op; eval_bits; rewrite ?Hpend, ?orb_true_r; done.
  - rewrite Hb, inv_shutdown0 by lia. destruct op; eval_bits; done.
  - rewrite Hb by lia. intros H5. apply inv_shutdown_done0. revert H5. destruct op; eval_bits; done.
  - rewrite Hb by lia. intros H31. destruct err; [by apply Herr|]. apply inv_error0. revert H31.
    destruct op; eval_bits; done.
Qed.

(** The handler of a read hands one message to the callback. *)
Lemma Inv_HandleRead (ok : bool) c :
  Inv None c -> ~ In None (calls_ c) -> is_outstanding Op.READ (rpc_ c) = false ->
  (ok = false -> closing c = true) -> Inv None (HandleRead ok c).
Proof.
  intros [] Hno Hr Hcl. unfold HandleRead. destruct (has_callback_ c); [|by split].
  apply Inv_ReadNext. destruct inv_calls0 as [ms Hms].
  assert (calls_ c = map Some ms) as Hc.
  { destruct Hms as [?|Hms]; [done|]. destruct Hno. rewrite Hms. apply in_app_iff. right. by left. }
  split; try done; cbn [calls_ call_back].
  - destruct ok.
    + exists (ms ++ [read_buf_ c]). left. by rewrite map_app, Hc.
    + exists ms. right. by rewrite Hc.
  - intros Hin. split; [done|]. apply in_app_iff in Hin as [?|[Hin|[]]]; [done|]. destruct ok; [done|by apply Hcl].
Qed.

Lemma DoAsync_keeps idempotent op c :
  calls_ (DoAsync idempotent op c).1 = calls_ c /\
  forall o, o <> op -> is_outstanding o (rpc_ (DoAsync idempotent op c).1) = is_outstanding o (rpc_ c).
Proof.
  destruct (DoAsync_cases idempotent op c) as [(e & -> & _)|(c' & -> & -> & _)]; [done|].
  split; [done|]. intros o Ho. cbn [fst rpc_ set_rpc]. rewrite is_outstanding_call. unfold Op.eqb.
  by rewrite bool_decide_false.
Qed.

Lemma complete_keeps op msg status c :
  calls_ (complete op msg status c) = calls_ c /\
  rpc_ (complete op msg status c) = rpc_complete op (rpc_ c) /\
  flags_ (complete op msg status c) = flags_ c.
Proof. by destruct op. Qed.

(** A failed completion makes the client finish. *)
Lemma Inv_fail op c :
  Inv (Some op) c -> op <> Op.SHUTDOWN -> is_outstanding op (rpc_ c) = false ->
  let c' := (FinishAsyncInternal c).1 in
  Inv (Some op) c' /\ is_outstanding op (rpc_ c') = false /\ calls_ c' = calls_ c /\ closing c' = true.
Proof.
  intros HI Hop Ho c'. destruct (DoAsync_keeps false Op.FINISH c) as [Ek Eo].
  assert (tb c (pending_bit op) = true) as Hp.
  { rewrite (inv_pending _ _ HI), bool_decide_true by done. apply orb_true_r. }
  subst c'. split_and!; [by apply Inv_DoAsync| |done|by eapply closing_finish].
  destruct (decide (op = Op.FINISH)) as [->|Hf]; [|by rewrite <- Ho; apply Eo].
  destruct (DoAsync_cases false Op.FINISH c) as [(e & E & _)|(c' & _ & _ & Hno & _)]; [|congruence].
  unfold FinishAsyncInternal. by rewrite E.
Qed.

Lemma Inv_event op (ok : bool) msg status c :
  Inv None c -> is_outstanding op (rpc_ c) = true ->
  Inv None (ProcessSingle (GOT_EVENT op ok msg status) c).1.
Proof.
  intros HI Ho. cbn [ProcessSingle fst].
  assert (op <> Op.SHUTDOWN) as Hns by (intros ->; by rewrite (inv_no_shutdown _ _ HI) in Ho).
  assert (op = Op.READ -> ~ In None (calls_ c)) as Hno.
  { intros -> Hin. destruct (inv_last_call _ _ HI Hin) as [E _]. congruence. }
  pose proof (Inv_complete op msg status c HI Ho) as H1.
  destruct (complete_keeps op msg status c) as (Ec & Er & _).
  set (c1 := complete op msg status c) in *.
  assert (is_outstanding op (rpc_ c1) = false) as Ho1.
  { rewrite Er, is_outstanding_complete. unfold Op.eqb. rewrite bool_decide_true by done. apply andb_false_r. }
  set (c2 := if negb ok then (FinishAsyncInternal c1).1 else c1).
  assert (Inv (Some op) c2 /\ is_outstanding op (rpc_ c2) = false /\ calls_ c2 = calls_ c /\
    (negb ok = true -> closing c2 = true)) as (H2 & Ho2 & Ec2 & Hcl).
  { subst c2. destruct ok; cbn [negb]; [done|].
    destruct (Inv_fail op c1 H1 Hns Ho1) as (? & ? & Ek & ?). rewrite Ek. done. }
  assert (ProcessEvent op ok c1 =
    let c3 := (SetFlags (if negb ok then Done op |. STREAM_ERROR else Done op) (ClearFlags (Pending op) c2).1).1 in
    match op with Op.READ => HandleRead ok c3 | Op.FINISH => HandleFinish ok c3 | _ => c3 end) as ->.
  { subst c2. unfold ProcessEvent. by destruct ok. }
  pose proof (Inv_done op (negb ok) c2 H2 Hns Ho2 Hcl) as H3. cbv zeta.
  set (c3 := (SetFlags _ _).1) in *. destruct op; try exact H3.
  - apply Inv_HandleRead; [done|by rewrite <- Ec2 in Hno; apply Hno|done|].
    intros ->. by apply Hcl.
  - unfold HandleFinish. destruct (negb ok && _); [destruct H3; by split|done].
Qed.

Lemma Inv_set_shutdown c :
  Inv None c -> cq_shutdown (rpc_ c) = true -> Inv None (SetFlags (Done Op.SHUTDOWN) c).1.
Proof.
  intros [] Hs. assert (forall i, tb (SetFlags (Done Op.SHUTDOWN) c).1 i = tb c i || (5 =? i)) as Hb.
  { intros i. rewrite tb_set. unfold Done. by rewrite testbit_1. }
  split; rewrite ?Hb; try done.
  - intros o Ho. rewrite Hb. replace (5 =? pending_bit o) with false by (by destruct o).
    rewrite orb_false_r. by apply inv_pending0.
  - change (rpc_ (SetFlags (Done Op.SHUTDOWN) c).1) with (rpc_ c). simpl (5 =? _). by rewrite !orb_false_r.
  - change (rpc_ (SetFlags (Done Op.SHUTDOWN) c).1) with (rpc_ c). simpl (5 =? _). by rewrite orb_false_r.
  - simpl (5 =? _). rewrite orb_false_r. done.
Qed.

Lemma Inv_Shutdown c : Inv None c -> Inv None (Shutdown c).1.
Proof.
  intros HI. unfold Shutdown. destruct (check (Done Op.SHUTDOWN) c); [done|].
  assert (forall i, tb (SetFlags (Pending Op.SHUTDOWN) c).1 i = tb c i || (11 =? i)) as Hb.
  { intros i. rewrite tb_set. unfold Pending. by rewrite testbit_1. }
  assert (((SetFlags (Pending Op.SHUTDOWN) c).2 =? 0) = tb c 11) as En.
  { cbn [SetFlags snd]. rewrite Z.land_comm. unfold Pending. rewrite land_bit by (vm_compute; discriminate).
    unfold not32. rewrite Z.lxor_spec, Z.testbit_ones by lia. cbn. by rewrite xorb_true_r, negb_involutive. }
  destruct (SetFlags (Pending Op.SHUTDOWN) c) as [c' nf] eqn:E. cbn [fst snd] in *. rewrite En.
  assert (c' = set_flags (flags_ c') c) as Ec by (unfold SetFlags in E; by injection E as <- _).
  assert (rpc_ c' = rpc_ c /\ calls_ c' = calls_ c) as [Er Ecl] by (by rewrite Ec).
  clear E. destruct HI.
  assert (forall r, outstanding r = outstanding (rpc_ c) -> finish_called r = finish_called (rpc_ c) ->
    cq_shutdown r = true -> misused r = false -> Inv None (set_rpc r c')) as Hr.
  { intros r Ho Hf Hs Hm.
    assert (forall o, is_outstanding o r = is_outstanding o (rpc_ c)) as Hio.
    { intros o. unfold is_outstanding. by rewrite Ho. }
    assert (forall i, tb (set_rpc r c') i = tb c i || (11 =? i)) as Hb' by done.
    assert (closing (set_rpc r c') = true) as Hcl.
    { unfold closing. cbn [rpc_ set_rpc]. by rewrite Hs, orb_true_r. }
    split; cbn [rpc_ set_rpc calls_]; rewrite ?Hb', ?Hio, ?Ecl; try done.
    - intros o Hos. rewrite Hb', Hio. replace (11 =? pending_bit o) with false by (by destruct o).
      rewrite orb_false_r. by apply inv_pending0.
    - rewrite Hf, inv_finish0. eval_bits. done.
    - rewrite Hs. eval_bits. done.
    - intros Hin. split; [|done]. by apply inv_last_call0. }
  destruct (tb c 11) eqn:E11; cbn [fst].
  - rewrite <- Er in *. destruct c'. by apply Hr.
  - rewrite Er. apply Hr; try done. cbn [misused rpc_shutdown]. by rewrite inv_rules0, inv_shutdown0.
Qed.
End events.

(** ** Reachable states *)

Section reachable.
Context {R : Type}.
Implicit Types c : DuplexClient R.

(** What the library can return: completions of outstanding operations, and the
    end of the queue once it was shut down and drained. *)
Definition permitted (next : NextStatus R) c : Prop :=
  match next with
  | GOT_EVENT op _ _ _ => is_outstanding op (rpc_ c) = true
  | TIMEOUT => True
  | SHUTDOWN => cq_shutdown (rpc_ c) = true /\ outstanding (rpc_ c) = []
  end.

Fixpoint queue_ok (queue : list (NextStatus R)) c : Prop :=
  match queue with
  | [] => True
  | next :: queue => permitted next c /\ queue_ok queue (ProcessSingle next c).1
  end.

(** States a user of the client can bring about, on any behaviour of the
    library. *)
Inductive reachable (callback : bool) (buf : R) : DuplexClient R -> Prop :=
  | r_new : reachable callback buf (DuplexClientReaderWriter callback buf)
  | r_write c queue c' s rest :
      reachable callback buf c -> queue_ok queue (WriteAsyncInternal c).1 ->
      Write queue c = Some (c', s, rest) -> reachable callback buf c'
  | r_write_async c : reachable callback buf c -> reachable callback buf (WriteAsync c).1
  | r_writes_done c queue c' s rest :
      reachable callback buf c -> queue_ok queue (WritesDoneAsyncInternal c).1 ->
      WritesDone queue c = Some (c', s, rest) -> reachable callback buf c'
  | r_writes_done_async c : reachable callback buf c -> reachable callback buf (WritesDoneAsync c).1
  | r_finish c queue c' s rest :
      reachable callback buf c -> queue_ok queue (FinishAsyncInternal c).1 ->
      Finish queue c = Some (c', s, rest) -> reachable callback buf c'
  | r_finish_async c : reachable callback buf c -> reachable callback buf (FinishAsync c).1
  | r_poll checker c queue c' s rest :
      reachable callback buf c -> queue_ok queue c ->
      Poll checker queue c = Some (c', s, rest) -> reachable callback buf c'
  | r_read c queue c' s m rest :
      reachable callback buf c -> queue_ok queue c ->
      Read queue c = Some (c', s, m, rest) -> reachable callback buf c'
  | r_shutdown c : reachable callback buf c -> reachable callback buf (Shutdown c).1.

Lemma Inv_new callback (buf : R) : Inv None (DuplexClientReaderWriter callback buf).
Proof.
  apply Inv_ReadNext. split; try done.
  - intros op Hop. by destruct op.
  - exists []. by left.
Qed.

Lemma Inv_ProcessSingle next c : Inv None c -> permitted next c -> Inv None (ProcessSingle next c).1.
Proof.
  destruct next as [op ok msg status| |]; intros HI Hp.
  - by apply Inv_event.
  - done.
  - destruct Hp. by apply Inv_set_shutdown.
Qed.

Lemma Inv_Poll checker queue c c' s rest :
  Inv None c -> queue_ok queue c -> Poll checker queue c = Some (c', s, rest) -> Inv None c'.
Proof.
  revert c. induction queue as [|next queue IH]; intros c HI Hq; [done|]. destruct Hq as [Hp Hq].
  pose proof (Inv_ProcessSingle next c HI Hp) as H. cbn [Poll].
  destruct (ProcessSingle next c) as [c1 res]. destruct (ok res && _); [by apply IH|]. by intros [= <- _ _].
Qed.

Lemma Inv_wait_for op queue c c' s rest :
  Inv None c -> queue_ok queue c -> wait_for op queue c = Some (c', s, rest) -> Inv None c'.
Proof.
  revert c. induction queue as [|next queue IH]; intros c HI Hq; [done|]. destruct Hq as [Hp Hq].
  pose proof (Inv_ProcessSingle next c HI Hp) as H. cbn [wait_for].
  destruct (ProcessSingle next c) as [c1 res].
  destruct next; [|by intros [= <- _ _]..]. destruct (Op.eqb _ op); [by intros [= <- _ _]|by apply IH].
Qed.

Lemma Inv_DoSync idempotent async op queue c c' s rest :
  Inv None (async c).1 -> queue_ok queue (async c).1 ->
  DoSync idempotent async op queue c = Some (c', s, rest) -> Inv None c'.
Proof.
  unfold DoSync. destruct (async c) as [c1 e]. cbn [fst]. intros HI Hq.
  destruct e; try (by intros [= <- _ _]); [by apply Inv_wait_for|].
  destruct idempotent; [by apply Inv_wait_for|by intros [= <- _ _]].
Qed.

Lemma reachable_Inv callback buf c : reachable callback buf c -> Inv None c.
Proof.
  induction 1 as [|c queue c' s rest _ IH Hq E|c _ IH|c queue c' s rest _ IH Hq E|c _ IH|
    c queue c' s rest _ IH Hq E|c _ IH|ch c queue c' s rest _ IH Hq E|c queue c' s m rest _ IH Hq E|c _ IH].
  - apply Inv_new.
  - eapply Inv_DoSync, E; [by apply Inv_DoAsync|done].
  - unfold WriteAsync. pose proof (Inv_DoAsync None false Op.WRITE c IH ltac:(done)) as H.
    unfold WriteAsyncInternal. by destruct (DoAsync false Op.WRITE c).
  - eapply Inv_DoSync, E; [by apply Inv_DoAsync|done].
  - unfold WritesDoneAsync. pose proof (Inv_DoAsync None true Op.WRITES_DONE c IH ltac:(done)) as H.
    unfold WritesDoneAsyncInternal. by destruct (DoAsync true Op.WRITES_DONE c).
  - unfold Finish in E. destruct (DoSync true FinishAsyncInternal Op.FINISH queue c) as [[[c1 res] q]|] eqn:Es; [|done].
    injection E as <- _ _. eapply Inv_DoSync, Es; [by apply Inv_DoAsync|done].
  - unfold FinishAsync. pose proof (Inv_DoAsync None false Op.FINISH c IH ltac:(done)) as H.
    unfold FinishAsyncInternal. by destruct (DoAsync false Op.FINISH c).
  - by eapply Inv_Poll.
  - unfold Read in E. destruct (has_callback_ c); [by injection E as <- _ _ _|].
    destruct (PollAll (Done Op.READ) queue c) as [[[c1 res] q]|] eqn:Es; [|done].
    assert (Inv None c1) as H1 by (by eapply Inv_Poll).
    destruct (negb (ok res)); [by injection E as <- _ _ _|].
    destruct (negb (read_buf_valid_ c1)); [by injection E as <- _ _ _|].
    injection E as <- _ _ _. by apply Inv_ReadNext.
  - by apply Inv_Shutdown.
Qed.

(** In a closing client no write is accepted. *)
Lemma write_refused c : Inv None c -> closing c = true -> exists e, WriteAsyncInternal c = (c, e) /\ e <> OpError.OK.
Proof.
  intros HI Hcl. destruct (DoAsync_cases false Op.WRITE c) as [H|(c' & _ & _ & _ & Hs & Hf & _)]; [exact H|].
  unfold closing in Hcl. apply orb_false_elim in Hs as [_ Hs].
  rewrite (inv_finish _ _ HI), (inv_shutdown _ _ HI), Hf, Hs in Hcl. done.
Qed.

Lemma wait_for_ok op queue c c' rest :
  wait_for op queue c = Some (c', Status.OK, rest) ->
  exists pre m st, queue = pre ++ GOT_EVENT op true m st :: rest /\
    Forall (fun n => match n with GOT_EVENT o _ _ _ => o <> op | _ => False end) pre.
Proof.
  revert c. induction queue as [|next queue IH]; intros c; [done|]. cbn [wait_for].
  destruct next as [o b m st| |]; cbn [ProcessSingle]; [|done..].
  destruct (Op.eqb o op) eqn:E.
  - apply bool_decide_eq_true in E as ->. destruct b; [|done]. intros [= _ <-].
    exists [], m, st. by split; [|constructor].
  - apply bool_decide_eq_false in E. intros (pre & m' & st' & -> & Hpre)%IH.
    exists (GOT_EVENT o b m st :: pre), m', st'. split; [done|]. by constructor.
Qed.
End reachable.

(** ** Properties *)

Section theorems.
Context {R : Type}.

(** C11: however the client is used and whatever the stream answers, three rules of
    the library are kept: at most one operation of each kind is outstanding,
    nothing is started after Finish, and nothing after the shutdown of the queue.
    The pending flags are exactly
    the outstanding operations, a stream error is always followed by Finish
    unless the client is shutting down, and the read callback gets messages
    followed by at most one null. *)
Theorem duplex_rules callback (buf : R) c :
  reachable callback buf c ->
  misused (rpc_ c) = false /\
  (forall op, op <> Op.SHUTDOWN -> check (Pending op) c = is_outstanding op (rpc_ c)) /\
  (check STREAM_ERROR c = true -> finish_called (rpc_ c) || cq_shutdown (rpc_ c) = true) /\
  calls_ok (calls_ c).
Proof.
  intros HI%reachable_Inv. split_and!.
  - apply HI.
  - intros op Hop. rewrite check_Pending, (inv_pending _ _ HI) by done. by rewrite orb_false_r.
  - intros H. apply (inv_error _ _ HI). revert H. unfold check, CheckFlags, STREAM_ERROR.
    rewrite land_bit by lia. by rewrite negb_involutive.
  - apply HI.
Qed.

(** C40: a synchronous write reports success only when the stream completed
    that very write, and never after a stream error: then it changes nothing and
    reports a failure at once. *)
Theorem Write_outcome callback (buf : R) c queue c' s rest :
  reachable callback buf c -> Write queue c = Some (c', s, rest) ->
  (s = Status.OK -> exists pre m st, queue = pre ++ GOT_EVENT Op.WRITE true m st :: rest /\
    Forall (fun n => match n with GOT_EVENT o _ _ _ => o <> Op.WRITE | _ => False end) pre) /\
  (check STREAM_ERROR c = true -> c' = c /\ rest = queue /\ s <> Status.OK).
Proof.
  intros Hr%reachable_Inv. unfold Write, DoSync. intros E. split.
  - intros ->. destruct (WriteAsyncInternal c) as [c1 []]; try done. by eapply wait_for_ok.
  - intros Herr. assert (tb c 31 = true) as H31.
    { revert Herr. unfold check, CheckFlags, STREAM_ERROR. rewrite land_bit by lia. by rewrite negb_involutive. }
    destruct (write_refused c Hr (inv_error _ _ Hr H31)) as (e & Ew & He). rewrite Ew in E.
    destruct e; [done|by injection E as <- <- <-..].
Qed.

(** A message that arrived before a read is not returned by it: the read
    waits for another event first and reports its timeout, leaving the message
    in the buffer, even right after a successful poll for CAN_READ. *)
Theorem TryRead_after_poll (c : DuplexClient R) m st :
  has_callback_ c = false ->
  exists c1, PollAny (Done Op.READ) [GOT_EVENT Op.READ true m st] c = Some (c1, Status.OK, []) /\
    read_buf_valid_ c1 = true /\ read_buf_ c1 = m /\
    Read [TIMEOUT] c1 = Some (c1, Status.TIMEOUT, None, []).
Proof.
  intros Hc. exists (ProcessSingle (GOT_EVENT Op.READ true m st) c).1.
  assert ((ProcessSingle (GOT_EVENT Op.READ true m st) c).1 =
    set_read m true (SetFlags (Done Op.READ) (ClearFlags (Pending Op.READ) (complete Op.READ m st c)).1).1) as E.
  { cbn [ProcessSingle fst ProcessEvent negb]. unfold HandleRead.
    by replace (has_callback_ _) with false. }
  split_and!; try (by rewrite E).
  - unfold PollAny. cbn [Poll]. destruct (ProcessSingle _ c) as [c1 res] eqn:Ep.
    pose proof (f_equal snd Ep) as Er. cbn in Er. subst res. cbn [fst] in E |- *. cbn [ok].
    assert (check (Done Op.READ) c1 = true) as Hck.
    { rewrite check_Done. subst c1. change (tb (SetFlags (Done Op.READ)
        (ClearFlags (Pending Op.READ) (complete Op.READ m st c)).1).1 1 = true).
      rewrite tb_set. unfold Done. rewrite testbit_1 by (simpl; lia). apply orb_true_r. }
    unfold check, CheckFlags in Hck. rewrite Hck. done.
  - unfold Read. rewrite E. cbn [has_callback_ set_read SetFlags ClearFlags set_flags complete set_rpc fst].
    by rewrite Hc.
Qed.
End theorems.

(** ** Witnesses: one write on a stream that then breaks *)

Definition wit_client : DuplexClient Z := DuplexClientReaderWriter true 0.
Definition wit_queue : list (NextStatus Z) :=
  [GOT_EVENT Op.START true 0 (mkGrpcStatus 0 ""); GOT_EVENT Op.READ true 7 (mkGrpcStatus 0 "");
   GOT_EVENT Op.WRITE true 0 (mkGrpcStatus 0 ""); GOT_EVENT Op.READ false 0 (mkGrpcStatus 0 "");
   GOT_EVENT Op.FINISH true 0 (mkGrpcStatus 14 "unavailable")].
Definition wit_after : DuplexClient Z :=
  match Write (take 3 wit_queue) wit_client with Some (c, _, _) => c | None => wit_client end.
Definition wit_broken : DuplexClient Z :=
  match Sleep (drop 3 wit_queue) wit_after with Some (c, _, _) => c | None => wit_client end.

Lemma duplex_rules_witness :
  misused (rpc_ wit_broken) = false /\ calls_ wit_broken = [Some 7; None].
Proof.
  split; [|vm_compute; reflexivity].
  apply (duplex_rules true 0 wit_broken).
  eapply (r_poll true 0 (fun fl => negb (fl &. (STREAM_ERROR |. Done Op.FINISH) =? 0)) wit_after (drop 3 wit_queue)).
  - eapply (r_write true 0 wit_client (take 3 wit_queue)).
    + apply r_new.
    + vm_compute. repeat split.
    + vm_compute. reflexivity.
  - vm_compute. repeat split.
  - vm_compute. reflexivity.
Defined.

Lemma Write_outcome_witness :
  exists pre m st, take 3 wit_queue = pre ++ [GOT_EVENT Op.WRITE true m st].
Proof.
  destruct (Write_outcome true 0 wit_client (take 3 wit_queue) wit_after Status.OK [] (r_new true 0)
    ltac:(vm_compute; reflexivity)) as [H _].
  destruct (H eq_refl) as (pre & m & st & E & _). by exists pre, m, st.
Defined.

Lemma TryRead_after_poll_witness :
  exists c1 : DuplexClient Z, read_buf_ c1 = 7 /\ Read [TIMEOUT] c1 = Some (c1, Status.TIMEOUT, None, []).
Proof.
  destruct (TryRead_after_poll (DuplexClientReaderWriter false 0) 7 (mkGrpcStatus 0 "") eq_refl)
    as (c1 & _ & _ & H1 & H2).
  by exists c1.
Defined.

(** ** What the client does not guard *)

(** A write behind a completed [WritesDone] is accepted and handed to the library. *)
Theorem late_write_accepted : exists c, reachable true 0 c /\ check (Done Op.WRITES_DONE) c = true /\
  (WriteAsync c).2 = Status.OK /\ is_outstanding Op.WRITE (rpc_ (WriteAsync c).1) = true.
Proof.
  pose (queue := [GOT_EVENT Op.START true 0 (mkGrpcStatus 0 ""); GOT_EVENT Op.WRITES_DONE true 0 (mkGrpcStatus 0 "")]).
  eexists. split; [|shelve]. eapply (r_writes_done true 0 wit_client queue); [apply r_new| |reflexivity].
  - cbn. by repeat split.
  Unshelve. by vm_compute.
Qed.

(** [Finish] is started while a read is outstanding, which it always is with a callback. *)
Theorem finish_with_read : exists c, reachable true 0 c /\ is_outstanding Op.READ (rpc_ c) = true /\ is_outstanding Op.FINISH (rpc_ c) = true.
Proof. exists (FinishAsync wit_client).1. split; [apply r_finish_async, r_new|by vm_compute]. Qed.
