(* ===== verification/Signals.v ===== *)
(** * Network events ([EventNames.h], [EventNames.cpp], [EventMap.h],
      [NetworkSignalHandler.cpp])

    The tables of libscap (event names, which events are entries, the system
    calls) are parameters.  A thrown [CollectorException] is [None].  An event of
    the inspector is a record of what the handler asks of it. *)

From S2P Require Import Prelude HostOrder UMap NetAddress Connection ConnStatus Delta ConnTracker.

(** ** Names of events *)

Record EventNames := mkEventNames {
  events_by_name_ : UMap string (list Z); names_by_id_ : list string; syscall_by_id_ : list Z
}.

(** [events_by_name_[name].push_back(id)]. *)
Definition add_event (name : string) (id : Z) (m : UMap string (list Z)) : UMap string (list Z) :=
  umap_assign String.eqb name (default [] (umap_find String.eqb name m) ++ [id]) m.

(** An indexed cell, when the index is in range. *)
Definition at_index {A} (l : list A) (id : Z) : option A :=
  if (0 <=? id) && (id <? Z.of_nat (length l)) then l !! Z.to_nat id else None.

Section event_names.
Variable g_event_info : list string.
Variable g_syscall_table : list (Z * Z).
Variable PPME_IS_ENTER : Z -> bool.

Definition PPM_EVENT_MAX : Z := Z.of_nat (length g_event_info).

(** The body of the first loop of the constructor. *)
Definition name_event (m : UMap string (list Z)) (entry : nat * string) : UMap string (list Z) :=
  let id := Z.of_nat entry.1 in
  let name := entry.2 in
  let m := add_event name id m in
  add_event (name +:+ (if PPME_IS_ENTER id then ">" else "<")) id m.

Definition set_syscall (event i : Z) (l : list Z) : option (list Z) :=
  if (0 <=? event) && (event <? Z.of_nat (length l)) then Some (<[Z.to_nat event := i]> l) else None.

(** The second loop. *)
Fixpoint name_syscalls (table : list (Z * Z)) (i : Z) (l : list Z) : option (list Z) :=
  match table with
  | [] => Some l
  | (enter_evt, exit_evt) :: rest =>
      match set_syscall enter_evt (wrap 16 i) l with
      | None => None
      | Some l =>
          match set_syscall exit_evt (wrap 16 i) l with
          | None => None
          | Some l => name_syscalls rest (i + 1) l
          end
      end
  end.

Definition EventNames_make : option EventNames :=
  let events := fold_left name_event (zip (seq 0 (length g_event_info)) g_event_info) [] in
  match name_syscalls g_syscall_table 0 (replicate (length g_event_info) 0) with
  | Some syscalls => Some (mkEventNames events g_event_info syscalls)
  | None => None
  end.

Definition GetEventIDs (e : EventNames) (name : string) : option (list Z) :=
  umap_find String.eqb name (events_by_name_ e).
Definition GetEventName (e : EventNames) (id : Z) : option string := at_index (names_by_id_ e) id.
Definition GetEventSyscallID (e : EventNames) (id : Z) : option Z := at_index (syscall_by_id_ e) id.

(** ** Values by event *)

Definition EventMap (T : Type) : Type := list T.

Definition EventMap_fill {T} (initVal : T) : EventMap T := replicate (length g_event_info) initVal.

Definition EventMap_Set {T} (e : EventNames) (name : string) (value : T) (m : EventMap T) : option (EventMap T) :=
  match GetEventIDs e name with
  | None => None
  | Some ids => Some (fold_left (fun m id => <[Z.to_nat id := value]> m) ids m)
  end.

Fixpoint EventMap_set_all {T} (e : EventNames) (init : list (string * T)) (m : EventMap T) : option (EventMap T) :=
  match init with
  | [] => Some m
  | (name, value) :: rest =>
      match EventMap_Set e name value m with
      | None => None
      | Some m => EventMap_set_all e rest m
      end
  end.

Definition EventMap_make {T} (e : EventNames) (init : list (string * T)) (initVal : T) : option (EventMap T) :=
  EventMap_set_all e init (EventMap_fill initVal).

Definition EventMap_get {T} (m : EventMap T) (id : Z) : option T := at_index m id.

End event_names.

(** ** The network signal handler *)

Module Modifier.
Inductive t := INVALID | ADD | REMOVE.
End Modifier.

Definition modifiers_init : list (string * Modifier.t) :=
  [("close<", Modifier.REMOVE); ("shutdown<", Modifier.REMOVE); ("connect<", Modifier.ADD);
   ("accept<", Modifier.ADD); ("accept4<", Modifier.ADD); ("getsockopt<", Modifier.ADD);
   ("sendto<", Modifier.ADD); ("sendto>", Modifier.ADD); ("sendmsg<", Modifier.ADD);
   ("sendmsg>", Modifier.ADD); ("sendmmsg<", Modifier.ADD); ("recvfrom<", Modifier.ADD);
   ("recvfrom>", Modifier.ADD); ("recvmsg<", Modifier.ADD); ("recvmsg>", Modifier.ADD);
   ("recvmmsg<", Modifier.ADD); ("recvmmsg>", Modifier.ADD)].

Inductive ScapL4 := SCAP_L4_TCP | SCAP_L4_UDP | SCAP_L4_OTHER.

(** The socket of a file descriptor, by [m_type]; addresses as the kernel has
    them. *)
Inductive SockInfo :=
  | SCAP_FD_IPV4_SOCK (sip sport dip dport : Z)
  | SCAP_FD_IPV6_SOCK (sip : list Z) (sport : Z) (dip : list Z) (dport : Z)
  | SCAP_FD_OTHER.

Record FdInfo := mkFdInfo {
  is_socket_failed : bool; is_socket_pending : bool; is_role_server : bool; is_role_client : bool;
  get_l4proto : ScapL4; m_sockinfo : SockInfo
}.

Record SinspEvt := mkSinspEvt {
  get_type : Z; get_ts : Z; get_fd_info : option FdInfo; get_event_rawres : option Z;
  get_container_id : option string
}.

Module SignalResult.
Inductive t := PROCESSED | IGNORED | ERROR | NEEDS_REFRESH | FINISHED.
End SignalResult.

Section handler.
Context `{ho : HostOrder}.

Record NetworkSignalHandler := mkNetworkSignalHandler {
  collect_connection_status_ : bool; track_send_recv_ : bool
}.

(** The flags after the constructor. *)
Definition NetworkSignalHandler_make : NetworkSignalHandler := mkNetworkSignalHandler true false.
Definition SetCollectConnectionStatus (b : bool) (h : NetworkSignalHandler) : NetworkSignalHandler :=
  mkNetworkSignalHandler b (track_send_recv_ h).
Definition SetTrackSendRecv (b : bool) (h : NetworkSignalHandler) : NetworkSignalHandler :=
  mkNetworkSignalHandler (collect_connection_status_ h) b.

Definition GetConnection (h : NetworkSignalHandler) (evt : SinspEvt) : option Connection :=
  match get_fd_info evt with
  | None => None
  | Some fd_info =>
  if collect_connection_status_ h && is_socket_failed fd_info then None
  else if collect_connection_status_ h && is_socket_pending fd_info then None
  else
    match get_event_rawres evt with
    | None => None
    | Some res =>
    if res <? 0 then None
    else
      let is_server := is_role_server fd_info in
      if negb is_server && negb (is_role_client fd_info) then None
      else
        match
          match get_l4proto fd_info with
          | SCAP_L4_TCP => Some L4Proto.TCP
          | SCAP_L4_UDP => Some L4Proto.UDP
          | SCAP_L4_OTHER => None
          end
        with
        | None => None
        | Some l4proto =>
        match
          match m_sockinfo fd_info with
          | SCAP_FD_IPV4_SOCK sip sport dip dport =>
              Some (Endpoint_of_address (Address_u32 sip) sport, Endpoint_of_address (Address_u32 dip) dport)
          | SCAP_FD_IPV6_SOCK sip sport dip dport =>
              Some (Endpoint_of_address (Address_u32x4 sip) sport, Endpoint_of_address (Address_u32x4 dip) dport)
          | SCAP_FD_OTHER => None
          end
        with
        | None => None
        | Some (client, server) =>
            let local := if is_server then server else client in
            let remote := if is_server then client else server in
            match get_container_id evt with
            | None => None
            | Some container_id => Some (Connection_make container_id local remote l4proto is_server)
            end
        end end
    end
  end.

(** [modifiers] is the event map built from [modifiers_init]. *)
Definition HandleSignal (h : NetworkSignalHandler) (modifiers : EventMap Modifier.t) (t : ConnectionTracker)
    (evt : SinspEvt) : option (SignalResult.t * ConnectionTracker) :=
  match EventMap_get modifiers (get_type evt) with
  | None => None
  | Some Modifier.INVALID => Some (SignalResult.IGNORED, t)
  | Some modifier =>
      match GetConnection h evt with
      | None => Some (SignalResult.IGNORED, t)
      | Some result =>
          if negb (IsRelevantConnection result) then Some (SignalResult.IGNORED, t)
          else
            Some (SignalResult.PROCESSED,
                  UpdateConnection t result (get_ts evt / 1000)
                    (match modifier with Modifier.ADD => true | _ => false end))
      end
  end.

Definition GetRelevantEvents (h : NetworkSignalHandler) : list string :=
  ["close<"; "shutdown<"; "connect<"; "accept<"; "accept4<"; "getsockopt<"] ++
  (if track_send_recv_ h then
     ["sendto<"; "sendto>"; "sendmsg<"; "sendmsg>"; "sendmmsg<"; "recvfrom<"; "recvfrom>";
      "recvmsg<"; "recvmsg>"; "recvmmsg<"; "recvmmsg>"; "recvmsg<"; "recvmsg>"]
   else []).

End handler.

(** ** Lookups by name *)

Section names_lemmas.
Variable g_event_info : list string.
Variable g_syscall_table : list (Z * Z).
Variable PPME_IS_ENTER : Z -> bool.

Definition ids_of (name : string) (m : UMap string (list Z)) : list Z := default [] (umap_find String.eqb name m).

(** The name of an event with its direction. *)
Definition marked (name : string) (id : Z) : string := name +:+ (if PPME_IS_ENTER id then ">" else "<").

Lemma add_event_In k j name id m :
  In j (ids_of k (add_event name id m)) <-> In j (ids_of k m) \/ (k = name /\ j = id).
Proof.
  unfold ids_of, add_event. rewrite (umap_find_assign String.eqb).
  destruct (String.eqb_spec k name) as [->|Hk]; simpl.
  - rewrite in_app_iff. simpl. intuition congruence.
  - intuition congruence.
Qed.

Lemma name_events_In k j l m :
  In j (ids_of k (fold_left (name_event PPME_IS_ENTER) l m)) <->
  In j (ids_of k m) \/ exists i n, In (i, n) l /\ j = Z.of_nat i /\ (k = n \/ k = marked n j).
Proof.
  revert m. induction l as [|[i n] l IH]; intros m; cbn [fold_left].
  - split; [by left|]. intros [?|(? & ? & [] & _)]; done.
  - rewrite IH. unfold name_event. cbn [fst snd]. rewrite !add_event_In. split.
    + intros [[[H|[-> ->]]|[-> ->]]|(i' & n' & Hin & H)]; [by left| ..].
      * right. exists i, n. split; [by left|auto].
      * right. exists i, n. split; [by left|auto].
      * right. exists i', n'. split; [by right|done].
    + intros [H|(i' & n' & [[= <- <-]|Hin] & -> & [-> | ->])]; [by auto ..| |]; right; exists i', n'; auto.
Qed.

Lemma In_zip_seq {A} (l : list A) i x : In (i, x) (zip (seq 0 (length l)) l) <-> l !! i = Some x.
Proof.
  rewrite <- list_elem_of_In, list_elem_of_lookup. split.
  - intros [k Hk]. apply lookup_zip_with_Some in Hk as (a & b & [= -> ->] & Hs & Hl).
    apply lookup_seq in Hs as [-> _]. done.
  - intros Hl. exists i. apply lookup_zip_with_Some. exists i, x. split_and!; [done| |done].
    apply lookup_seq. split; [done|]. by apply lookup_lt_Some in Hl.
Qed.

(** Which events a name stands for. *)
Lemma GetEventIDs_In e k j ids :
  EventNames_make g_event_info g_syscall_table PPME_IS_ENTER = Some e -> GetEventIDs e k = Some ids ->
  In j ids <-> exists n, 0 <= j /\ g_event_info !! Z.to_nat j = Some n /\ (k = n \/ k = marked n j).
Proof.
  unfold EventNames_make. destruct (name_syscalls _ _ _); [|done]. intros [= <-] Hids.
  assert (ids = ids_of k (fold_left (name_event PPME_IS_ENTER) (zip (seq 0 (length g_event_info)) g_event_info) [])) as ->.
  { unfold ids_of. unfold GetEventIDs in Hids. cbn [events_by_name_] in Hids. by rewrite Hids. }
  rewrite name_events_In. split.
  - intros [[]|(i & n & Hin & -> & H)]. apply In_zip_seq in Hin. exists n. rewrite Nat2Z.id. split; [lia|done].
  - intros (n & Hj & Hl & H). right. exists (Z.to_nat j), n. rewrite Z2Nat.id by done. by rewrite In_zip_seq.
Qed.

(** ** Values by event *)

Lemma fold_insert_lookup {T} (v : T) ids m i :
  (forall j, In j ids -> 0 <= j) -> (i < length m)%nat ->
  fold_left (fun m id => <[Z.to_nat id := v]> m) ids m !! i =
  if existsb (Z.eqb (Z.of_nat i)) ids then Some v else m !! i.
Proof.
  intros Hpos. revert m. induction ids as [|j ids IH]; intros m Hi; [done|]. cbn [fold_left existsb].
  rewrite IH; [|by intros; apply Hpos; right|by rewrite length_insert].
  destruct (Z.eqb_spec (Z.of_nat i) j) as [<-|Hne]; simpl.
  - rewrite Nat2Z.id. destruct (existsb _ ids); [done|]. by apply list_lookup_insert_eq.
  - rewrite list_lookup_insert_ne; [done|]. specialize (Hpos j (or_introl eq_refl)). lia.
Qed.

Lemma fold_insert_length {T} (v : T) ids m :
  length (fold_left (fun m id => <[Z.to_nat id := v]> m) ids m) = length m.
Proof. revert m. induction ids; intros m; [done|]. simpl. rewrite IHids. apply length_insert. Qed.

(** The last entry of the table that names the event decides. *)
Lemma EventMap_set_all_lookup {T} e (init : list (string * T)) (m m' : list T) i n v :
  EventNames_make g_event_info g_syscall_table PPME_IS_ENTER = Some e ->
  g_event_info !! i = Some n -> ~ In n (map fst init) ->
  EventMap_set_all e init m = Some m' -> m !! i = Some v ->
  m' !! i = Some (fold_left (fun v kv => if String.eqb (marked n (Z.of_nat i)) kv.1 then kv.2 else v) init v) /\
  length m' = length m.
Proof.
  intros He Hn. revert m v. induction init as [|[k x] init IH]; intros m v Hno Hm Hv.
  - by injection Hm as <-.
  - cbn [EventMap_set_all] in Hm. unfold EventMap_Set in Hm.
    destruct (GetEventIDs e k) as [ids|] eqn:Eids; [|done].
    pose proof (fun j => GetEventIDs_In e k j ids He Eids) as Hin.
    change (EventMap T) with (list T) in Hm. set (m1 := fold_left _ ids m) in Hm. cbn [fold_left fst snd].
    assert (length m1 = length m) as Hl1 by apply fold_insert_length.
    assert (m1 !! i = Some (if String.eqb (marked n (Z.of_nat i)) k then x else v)) as Hm1.
    { subst m1. rewrite fold_insert_lookup; [|by intros j (? & ? & _)%Hin|by apply lookup_lt_Some in Hv].
      assert (existsb (Z.eqb (Z.of_nat i)) ids = String.eqb (marked n (Z.of_nat i)) k) as ->.
      { apply eq_true_iff_eq. rewrite existsb_exists, String.eqb_eq. split.
        - intros (j & Hj & Ej). apply Z.eqb_eq in Ej as <-. apply Hin in Hj as (n' & _ & Hn' & Hk).
          rewrite Nat2Z.id in Hn'. rewrite Hn in Hn'. injection Hn' as <-.
          destruct Hk as [-> | ->]; [|done]. destruct Hno. by left.
        - intros <-. exists (Z.of_nat i). split; [|apply Z.eqb_refl]. apply Hin. exists n.
          rewrite Nat2Z.id. split; [lia|auto]. }
      by destruct (String.eqb _ k). }
    destruct (IH m1 _ ltac:(by intros ?; apply Hno; right) Hm Hm1) as [H1 H2]. split; [done|congruence].
Qed.

Lemma fold_last_find {T} key (init : UMap string T) v :
  umap_ok String.eqb init ->
  fold_left (fun v kv => if String.eqb key kv.1 then kv.2 else v) init v =
  default v (umap_find String.eqb key init).
Proof.
  revert v. induction init as [|[k x] init IH]; intros v Hok; [done|]. destruct Hok as [Hk Hok].
  cbn [fold_left fst snd umap_find]. rewrite IH by done.
  destruct (String.eqb_spec key k) as [->|]; [by rewrite Hk|done].
Qed.

End names_lemmas.

Section theorems.
Variable g_event_info : list string.
Variable g_syscall_table : list (Z * Z).
Variable PPME_IS_ENTER : Z -> bool.
Context `{ho : HostOrder}.

Definition modifier_named (name : string) : Modifier.t := default Modifier.INVALID (umap_find String.eqb name modifiers_init).

(** What a network event does to the tracker: nothing unless its name and
    direction have a modifier and it is a successful call on a relevant
    connection; then one update at the time of the event, in microseconds. *)
Definition signal_effect (h : NetworkSignalHandler) (t : ConnectionTracker) (evt : SinspEvt) (name : string)
    : SignalResult.t * ConnectionTracker :=
  match modifier_named (marked PPME_IS_ENTER name (get_type evt)), GetConnection h evt with
  | Modifier.INVALID, _ | _, None => (SignalResult.IGNORED, t)
  | m, Some conn =>
      if IsRelevantConnection conn
      then (SignalResult.PROCESSED,
            UpdateConnection t conn (get_ts evt / 1000) (match m with Modifier.ADD => true | _ => false end))
      else (SignalResult.IGNORED, t)
  end.

(** The network handler acts on an event by the modifier of its name and
    direction: with tables of event names that are not themselves marked, it
    never throws on an event of the table, removes the connection of a closing
    call, adds the one of an opening or data call, and ignores every other event
    and every irrelevant connection. *)
Theorem HandleSignal_by_name e m h t evt name :
  EventNames_make g_event_info g_syscall_table PPME_IS_ENTER = Some e ->
  EventMap_make g_event_info e modifiers_init Modifier.INVALID = Some m ->
  0 <= get_type evt -> g_event_info !! Z.to_nat (get_type evt) = Some name ->
  ~ In name (map fst modifiers_init) ->
  HandleSignal h m t evt = Some (signal_effect h t evt name).
Proof.
  intros He Hm Hpos Hn Hno.
  assert (umap_ok String.eqb modifiers_init) as Hok by (vm_compute; tauto).
  pose proof (lookup_lt_Some _ _ _ Hn) as Hlt.
  destruct (EventMap_set_all_lookup g_event_info g_syscall_table PPME_IS_ENTER e modifiers_init
    (EventMap_fill g_event_info Modifier.INVALID) m (Z.to_nat (get_type evt)) name Modifier.INVALID He Hn Hno Hm)
    as [Hl Hlen]; [by apply lookup_replicate_2|].
  rewrite fold_last_find, Z2Nat.id in Hl by done. fold (modifier_named (marked PPME_IS_ENTER name (get_type evt))) in Hl.
  unfold EventMap_fill in Hlen. rewrite length_replicate in Hlen.
  unfold HandleSignal, EventMap_get, at_index. rewrite Hlen.
  rewrite (proj2 (Z.leb_le 0 _)), (proj2 (Z.ltb_lt _ _)) by lia. cbn [andb]. rewrite Hl.
  unfold signal_effect. destruct (modifier_named _); [done| |];
    (destruct (GetConnection h evt) as [conn|]; [|done]; by destruct (IsRelevantConnection conn)).
Qed.

(** Every event the handler subscribes to has a modifier. *)
Lemma relevant_events_have_modifiers h name :
  In name (GetRelevantEvents h) -> modifier_named name <> Modifier.INVALID.
Proof.
  intros Hin. assert (forallb (fun n => match modifier_named n with Modifier.INVALID => false | _ => true end)
    (GetRelevantEvents h) = true) as H by (unfold GetRelevantEvents; destruct (track_send_recv_ h); vm_compute; reflexivity).
  rewrite forallb_forall in H. specialize (H name Hin). by destruct (modifier_named name).
Qed.

End theorems.

(** ** Witness: a table with an entry and an exit event per call *)

Definition wit_info : list string :=
  concat (map (fun n => [n; n]) ["close"; "shutdown"; "connect"; "accept"; "accept4"; "getsockopt"; "sendto";
    "sendmsg"; "sendmmsg"; "recvfrom"; "recvmsg"; "recvmmsg"]).
Definition wit_names : EventNames :=
  default (mkEventNames [] [] []) (EventNames_make wit_info [(0, 1); (2, 3)] Z.even).
Definition wit_map : EventMap Modifier.t :=
  default [] (EventMap_make wit_info wit_names modifiers_init Modifier.INVALID).
(** A successful close of a client connection to 8.8.8.8:443. *)
Definition wit_evt : SinspEvt :=
  mkSinspEvt 1 5000
    (Some (mkFdInfo false false false true SCAP_L4_TCP (SCAP_FD_IPV4_SOCK 0x0100000a 40000 0x08080808 443)))
    (Some 0) (Some "c1").

Lemma HandleSignal_by_name_witness :
  fst <$> HandleSignal (ho := true) NetworkSignalHandler_make wit_map ConnectionTracker_default wit_evt =
  Some SignalResult.PROCESSED.
Proof.
  rewrite (HandleSignal_by_name wit_info [(0, 1); (2, 3)] Z.even (ho := true) wit_names wit_map
    NetworkSignalHandler_make ConnectionTracker_default wit_evt "close").
  - vm_compute. reflexivity.
  - vm_compute. reflexivity.
  - vm_compute. reflexivity.
  - vm_compute. discriminate.
  - vm_compute. reflexivity.
  - vm_compute. intuition discriminate.
Defined.
