(* ===== verification/Host.v ===== *)
(** * The host ([HostInfo.h], [HostInfo.cpp], [HostHeuristics.cpp],
      [CollectionMethod.cpp])

    What collector finds out about its host and whether it can run there.  The
    environment variables, the files and the probes of libbpf are the fields of a
    [HostEnv].  The lazily filled singleton is passed along.  An exception, an
    access out of bounds and a fatal log message are errors.  The two regular
    expressions of the code are written as parsers. *)

From S2P Require Import Prelude CStrings Utility.

(** ** Errors *)

Inductive HostError :=
  | OutOfRange (* [std::out_of_range] from [std::stoi] *)
  | OutOfBounds (* a read outside of a string *)
  | Thrown (* another exception that nothing catches *)
  | Fatal. (* [CLOG(FATAL)] *)

Definition Res (A : Type) : Type := HostError + A.
Definition bind {A B} (r : Res A) (f : A -> Res B) : Res B :=
  match r with inl e => inl e | inr a => f a end.
Definition ret {A} (a : A) : Res A := inr a.
Declare Scope host_scope.
Notation "'let!' x := r 'in' k" := (bind r (fun x => k)) (at level 10, x pattern, r at level 100, k at level 200) : host_scope.
Open Scope host_scope.

(** ** Kernel versions *)

Record KernelVersion := mkKernelVersion {
  kernel : Z; major : Z; minor : Z; build_id : Z; release : chars; version : chars; machine : chars
}.

Definition KernelVersion_default : KernelVersion := mkKernelVersion 0 0 0 0 [] [] [].

(** A longest run of digits, and the rest. *)
Fixpoint digit_run (s : chars) : chars * chars :=
  match s with
  | c :: r => if isdigit c then let '(d, rest) := digit_run r in (c :: d, rest) else ([], s)
  | [] => ([], [])
  end.

(** One or more digits. *)
Definition match_digits (s : chars) : option (chars * chars) :=
  match digit_run s with ([], _) => None | (d, rest) => Some (d, rest) end.

Definition match_char (c : ascii) (s : chars) : option chars :=
  match s with d :: r => if ch_eqb d c then Some r else None | [] => None end.

(** A dot does not match a line terminator. *)
Definition no_newline (s : chars) : bool := forallb (fun c => negb (ch_eqb c "010") && negb (ch_eqb c "013")) s.

(** Groups 1, 2, 3 and 5 of [^(\d+)\.(\d+)\.(\d+)(-(\d+))?.*], on the whole string. *)
Definition match_release (s : chars) : option (chars * chars * chars * chars) :=
  match match_digits s with
  | None => None
  | Some (k, s) =>
  match match_char "." s with
  | None => None
  | Some s =>
  match match_digits s with
  | None => None
  | Some (m, s) =>
  match match_char "." s with
  | None => None
  | Some s =>
  match match_digits s with
  | None => None
  | Some (n, s) =>
      let '(b, s) :=
        match match_char "-" s with
        | Some r => match match_digits r with Some (b, r) => (b, r) | None => ([], s) end
        | None => ([], s)
        end in
      if no_newline s then Some (k, m, n, b) else None
  end end end end end.

(** [std::stoi] of a string of digits. *)
Definition stoi (d : chars) : Res Z :=
  let v := (digits d 0).1 in if v <=? 2 ^ 31 - 1 then ret v else inl OutOfRange.

Definition KernelVersion_make (release version machine : chars) : Res KernelVersion :=
  match match_release release with
  | None => ret (mkKernelVersion 0 0 0 0 release version machine)
  | Some (k, m, n, b) =>
      let! kernel := stoi k in
      let! major := stoi m in
      let! minor := stoi n in
      let! build_id := match b with [] => ret 0 | _ => stoi b end in
      ret (mkKernelVersion kernel major minor build_id release version machine)
  end.

Definition KernelVersion_HasEBPFSupport (k : KernelVersion) : bool :=
  negb ((kernel k <? 4) || ((kernel k =? 4) && (major k <? 14))).
Definition HasSecureBootParam (k : KernelVersion) : bool :=
  negb ((kernel k <? 4) || ((kernel k =? 4) && (major k <? 11))).

(** ** The environment *)

Record HostEnv := mkHostEnv {
  env_KERNEL_VERSION : option chars;
  env_NODE_HOSTNAME : option chars;
  env_COLLECTOR_HOST_ROOT : option chars;
  env_uname : option (chars * chars * chars); (* release, version, machine *)
  env_file : chars -> option (list chars); (* the lines of a text file *)
  env_bytes : chars -> option (list Z); (* the bytes of a file *)
  env_readable : chars -> bool;
  env_directory : chars -> option bool; (* None: the status call fails *)
  env_entries : chars -> option (list chars); (* the entries of a directory *)
  env_ringbuf : Z; env_tracing : Z; env_cpus : Z; (* the probes of libbpf *)
  env_uninit : Z (* the value of an uninitialised byte *)
}.

Module SecureBoot.
Definition UNSET : Z := 0.
Definition NOT_DETERMINED : Z := 1.
Definition DISABLED : Z := 2.
Definition ENABLED : Z := 3.
End SecureBoot.

Record HostInfo := mkHostInfo {
  kernel_version_ : KernelVersion; distro_ : chars; hostname_ : chars; build_id_ : chars;
  os_id_ : chars; secure_boot_status_ : Z
}.
(** A static object starts with zeros. *)
Definition HostInfo_default : HostInfo := mkHostInfo KernelVersion_default [] [] [] [] SecureBoot.UNSET.

Definition non_empty (s : option chars) : option chars :=
  match s with Some (c :: r) => Some (c :: r) | _ => None end.

Section host.
Variable env : HostEnv.

Definition host_path (file : string) : chars := GetHostPath (env_COLLECTOR_HOST_ROOT env) (chars_of file).

Definition FromHost : Res KernelVersion :=
  let release := default [] (non_empty (env_KERNEL_VERSION env)) in
  match env_uname env with
  | Some (r, v, m) => KernelVersion_make (if is_empty release then r else release) v m
  | None => KernelVersion_make release [] []
  end.

Definition GetKernelVersion (h : HostInfo) : Res (KernelVersion * HostInfo) :=
  if is_empty (release (kernel_version_ h)) then
    let! k := FromHost in
    ret (k, mkHostInfo k (distro_ h) (hostname_ h) (build_id_ h) (os_id_ h) (secure_boot_status_ h))
  else ret (kernel_version_ h, h).

Definition MIN_RHEL_BUILD_ID : Z := 957.

Definition contains (pat s : chars) : bool := match find_str pat s 0 with Some _ => true | None => false end.

Definition isRHEL76 (k : KernelVersion) (os_id : chars) : bool :=
  if bool_decide (os_id = chars_of "rhel") || bool_decide (os_id = chars_of "centos") then
    if contains (chars_of ".el7.") (release k) then
      if (kernel k =? 3) && (major k =? 10) then MIN_RHEL_BUILD_ID <=? build_id k else false
    else false
  else false.

Definition hasEBPFSupport (k : KernelVersion) (os_id : chars) : bool :=
  if isRHEL76 k os_id then true else KernelVersion_HasEBPFSupport k.

Definition quote : ascii := "034"%char.

(** Removing the quotes of a value; the last character of an empty one is read
    out of bounds. *)
Definition unquote (value : chars) : Res chars :=
  let value := match value with c :: r => if ch_eqb c quote then r else value | [] => [] end in
  match rev value with
  | [] => inl OutOfBounds
  | c :: r => ret (if ch_eqb c quote then rev r else value)
  end.

Fixpoint filterForKey (lines : list chars) (name : chars) : Res chars :=
  match lines with
  | [] => ret []
  | line :: rest =>
      match find_char "=" line 0 with
      | None => filterForKey rest name
      | Some idx =>
          if bool_decide (take idx line = name) then unquote (drop (idx + 1) line) else filterForKey rest name
      end
  end.

Definition GetOSReleaseValue (name : chars) : Res chars :=
  match env_file env (host_path "/etc/os-release") with
  | Some lines => filterForKey lines name
  | None =>
      match env_file env (host_path "/usr/lib/os-release") with
      | Some lines => filterForKey lines name
      | None => ret []
      end
  end.

Definition GetDistro (h : HostInfo) : Res (chars * HostInfo) :=
  if is_empty (distro_ h) then
    let! d := GetOSReleaseValue (chars_of "PRETTY_NAME") in
    let d := if is_empty d then chars_of "Linux" else d in
    ret (d, mkHostInfo (kernel_version_ h) d (hostname_ h) (build_id_ h) (os_id_ h) (secure_boot_status_ h))
  else ret (distro_ h, h).

Definition GetBuildID (h : HostInfo) : Res (chars * HostInfo) :=
  if is_empty (build_id_ h) then
    let! b := GetOSReleaseValue (chars_of "BUILD_ID") in
    ret (b, mkHostInfo (kernel_version_ h) (distro_ h) (hostname_ h) b (os_id_ h) (secure_boot_status_ h))
  else ret (build_id_ h, h).

Definition GetOSID (h : HostInfo) : Res (chars * HostInfo) :=
  if is_empty (os_id_ h) then
    let! o := GetOSReleaseValue (chars_of "ID") in
    ret (o, mkHostInfo (kernel_version_ h) (distro_ h) (hostname_ h) (build_id_ h) o (secure_boot_status_ h))
  else ret (os_id_ h, h).

Definition GetHostnameFromFile (path : string) : chars :=
  match env_file env (host_path path) with
  | Some (line :: _) => line
  | _ => []
  end.

Definition set_hostname (n : chars) (h : HostInfo) : HostInfo :=
  mkHostInfo (kernel_version_ h) (distro_ h) n (build_id_ h) (os_id_ h) (secure_boot_status_ h).

Definition GetHostnameInner (h : HostInfo) : Res (chars * HostInfo) :=
  if negb (is_empty (hostname_ h)) then ret (hostname_ h, h)
  else
    match non_empty (env_NODE_HOSTNAME env) with
    | Some n => ret (n, set_hostname n h)
    | None =>
        let n := GetHostnameFromFile "/etc/hostname" in
        let n := if is_empty n then GetHostnameFromFile "/proc/sys/kernel/hostname" else n in
        if is_empty n then inl Fatal else ret (n, set_hostname n h)
    end.

Definition IsRHEL76 (h : HostInfo) : Res (bool * HostInfo) :=
  let! (k, h) := GetKernelVersion h in
  let! (o, h) := GetOSID h in
  ret (isRHEL76 k o, h).

Definition IsRHEL86 (h : HostInfo) : Res (bool * HostInfo) :=
  let! (k, h) := GetKernelVersion h in
  let! (o, h) := GetOSID h in
  ret ((bool_decide (o = chars_of "rhel") || bool_decide (o = chars_of "rhcos")) &&
       contains (chars_of ".el8_6.") (release k), h).

Definition HasEBPFSupport (h : HostInfo) : Res (bool * HostInfo) :=
  let! (k, h) := GetKernelVersion h in
  let! (o, h) := GetOSID h in
  ret (hasEBPFSupport k o, h).

Definition IsDockerDesktop (h : HostInfo) : Res (bool * HostInfo) :=
  let! (d, h) := GetDistro h in ret (bool_decide (d = chars_of "Docker Desktop"), h).

(** The other predicates on the distribution. *)
Definition IsCOS (h : HostInfo) : Res (bool * HostInfo) :=
  let! (o, h) := GetOSID h in
  if bool_decide (o = chars_of "cos") then let! (b, h) := GetBuildID h in ret (negb (is_empty b), h) else ret (false, h).
Definition IsCoreOS (h : HostInfo) : Res (bool * HostInfo) :=
  let! (o, h) := GetOSID h in ret (bool_decide (o = chars_of "coreos"), h).
Definition IsUbuntu (h : HostInfo) : Res (bool * HostInfo) :=
  let! (o, h) := GetOSID h in ret (bool_decide (o = chars_of "ubuntu"), h).
Definition IsGarden (h : HostInfo) : Res (bool * HostInfo) :=
  let! (d, h) := GetDistro h in ret (starts_with (chars_of "Garden Linux") d, h).
Definition IsMinikube (h : HostInfo) : Res (bool * HostInfo) :=
  let! (n, h) := GetHostnameInner h in ret (bool_decide (n = chars_of "minikube"), h).

(** The locations, with the release in place of [%1$s] and whether the path is
    below the host root. *)
Definition btf_locations (r : chars) : list (chars * bool) :=
  [(chars_of "/sys/kernel/btf/vmlinux", false);
   (chars_of "/boot/vmlinux-" ++ r, false);
   (chars_of "/lib/modules/" ++ r ++ chars_of "/vmlinux-" ++ r, false);
   (chars_of "/lib/modules/" ++ r ++ chars_of "/build/vmlinux", false);
   (chars_of "/usr/lib/modules/" ++ r ++ chars_of "/kernel/vmlinux", true);
   (chars_of "/usr/lib/debug/boot/vmlinux-" ++ r, true);
   (chars_of "/usr/lib/debug/boot/vmlinux-" ++ r ++ chars_of ".debug", true);
   (chars_of "/usr/lib/debug/lib/modules/" ++ r ++ chars_of "/vmlinux", true)].

Definition HasBTFSymbols (h : HostInfo) : bool :=
  existsb (fun location =>
    let path := take 4095 location.1 in
    env_readable env (if location.2 : bool then GetHostPath (env_COLLECTOR_HOST_ROOT env) path else path))
    (btf_locations (release (kernel_version_ h))).

Definition HasBPFRingBufferSupport : bool := negb (env_ringbuf env =? 0).
Definition HasBPFTracingSupport : bool := negb (env_tracing env =? 0).
Definition IsUEFI : bool := match env_directory env (host_path "/sys/firmware/efi") with Some d => d | None => false end.
Definition NumPossibleCPU : Z := if env_cpus env <? 0 then 0 else env_cpus env.

(** ** Secure boot *)

Definition path_join (dir name : chars) : chars := dir ++ ["/"%char] ++ name.

Fixpoint secure_boot_entry (entries : list chars) : option chars :=
  match entries with
  | [] => None
  | name :: rest => if starts_with (chars_of "SecureBoot-") name then Some name else secure_boot_entry rest
  end.

Definition GetSecureBootFromVars : Z :=
  let efi_path := host_path "/sys/firmware/efi/efivars" in
  match env_entries env efi_path with
  | None => SecureBoot.NOT_DETERMINED
  | Some entries =>
      match secure_boot_entry entries with
      | None => SecureBoot.NOT_DETERMINED
      | Some name =>
          match env_bytes env (path_join efi_path name) with
          | None => SecureBoot.NOT_DETERMINED
          | Some bytes =>
              let status := nth 4 bytes (env_uninit env) in
              if negb (status =? 0) && negb (status =? 1) then SecureBoot.NOT_DETERMINED else status
          end
      end
  end.

Definition SECURE_BOOT_OFFSET : nat := 492.

Definition GetSecureBootFromParams : Z :=
  match env_bytes env (host_path "/sys/kernel/boot_params/data") with
  | None => SecureBoot.NOT_DETERMINED
  | Some bytes =>
      let status := nth SECURE_BOOT_OFFSET bytes (env_uninit env) in
      if (status <? SecureBoot.NOT_DETERMINED) || (SecureBoot.ENABLED <? status)
      then SecureBoot.NOT_DETERMINED else status
  end.

Definition GetSecureBootStatus (h : HostInfo) : Res (Z * HostInfo) :=
  let! (k, h) := GetKernelVersion h in
  if negb (secure_boot_status_ h =? SecureBoot.UNSET) then ret (secure_boot_status_ h, h)
  else
    let status := if HasSecureBootParam k then GetSecureBootFromParams else GetSecureBootFromVars in
    ret (status, mkHostInfo (kernel_version_ h) (distro_ h) (hostname_ h) (build_id_ h) (os_id_ h) status).

(** ** Minikube *)

(** The match of [v\d+\.\d+\.\d+] at the start. *)
Definition match_version (s : chars) : option chars :=
  match match_char "v" s with
  | None => None
  | Some s =>
  match match_digits s with
  | None => None
  | Some (a, s) =>
  match match_char "." s with
  | None => None
  | Some s =>
  match match_digits s with
  | None => None
  | Some (b, s) =>
  match match_char "." s with
  | None => None
  | Some s =>
  match match_digits s with
  | None => None
  | Some (c, _) => Some ("v"%char :: a ++ "."%char :: b ++ "."%char :: c)
  end end end end end end.

Fixpoint search_version (s : chars) : option chars :=
  match match_version s with
  | Some m => Some m
  | None => match s with [] => None | _ :: r => search_version r end
  end.

Definition GetMinikubeVersion : chars :=
  match env_file env (host_path "/etc/VERSION") with
  | None => []
  | Some lines => default [] (search_version (hd [] lines))
  end.

(** ** Heuristics *)

Inductive CollectionMethod := EBPF | CORE_BPF.

Record HostConfig := mkHostConfig { collection_method_ : option CollectionMethod; num_possible_cpus_ : Z }.

Definition CollectionHeuristic (method : CollectionMethod) (hconfig : HostConfig) (h : HostInfo)
    : Res (HostConfig * HostInfo) :=
  let! (supported, h) := HasEBPFSupport h in
  if negb supported then inl Fatal
  else
    let! (_, h) := GetKernelVersion h in
    match method with
    | CORE_BPF =>
        if negb (HasBTFSymbols h) then inl Fatal
        else if negb HasBPFRingBufferSupport then inl Fatal
        else if negb HasBPFTracingSupport then inl Fatal
        else ret (hconfig, h)
    | EBPF => ret (hconfig, h) (* only logs that CORE_BPF is available *)
    end.

Definition DockerDesktopHeuristic (hconfig : HostConfig) (h : HostInfo) : Res (HostConfig * HostInfo) :=
  let! (docker, h) := IsDockerDesktop h in
  if docker : bool then inl Fatal else ret (hconfig, h).

Definition PowerHeuristic (hconfig : HostConfig) (h : HostInfo) : Res (HostConfig * HostInfo) :=
  let! (k, h) := GetKernelVersion h in
  if negb (bool_decide (machine k = chars_of "ppc64le")) then ret (hconfig, h)
  else if (kernel k =? 4) && (major k =? 18) && (build_id k <? 477) then inl Fatal
  else ret (hconfig, h).

Definition CPUHeuristic (hconfig : HostConfig) (h : HostInfo) : Res (HostConfig * HostInfo) :=
  ret (mkHostConfig (collection_method_ hconfig) (wrap 32 NumPossibleCPU), h).

Definition ProcessHostHeuristics (method : CollectionMethod) (h : HostInfo) : Res (HostConfig * HostInfo) :=
  let! (c, h) := CollectionHeuristic method (mkHostConfig None (env_uninit env)) h in
  let! (c, h) := DockerDesktopHeuristic c h in
  let! (c, h) := PowerHeuristic c h in
  CPUHeuristic c h.

End host.

(** ** Collection methods *)

Definition ParseCollectionMethod (method : chars) : CollectionMethod :=
  let cm := map (fun c => if ch_eqb c "-" then "_"%char else c) (map tolower method) in
  if bool_decide (cm = chars_of "ebpf") then EBPF
  else if bool_decide (cm = chars_of "core_bpf") then CORE_BPF
  else CORE_BPF.

Definition CollectionMethodName (m : CollectionMethod) : chars :=
  match m with EBPF => chars_of "ebpf" | CORE_BPF => chars_of "core_bpf" end.

(** ** Parsing of kernel releases *)

Definition is_digits (s : chars) : Prop := s <> [] /\ forallb isdigit s = true.
Definition starts_no_digit (s : chars) : Prop := match s with c :: _ => isdigit c = false | [] => True end.
Definition value_of (s : chars) : Z := (digits s 0).1.

Lemma digit_run_app d rest : forallb isdigit d = true -> starts_no_digit rest -> digit_run (d ++ rest) = (d, rest).
Proof.
  intros Hd Hr. induction d as [|c d IH]; cbn [app].
  - destruct rest as [|c rest]; [done|]. simpl in *. by rewrite Hr.
  - cbn [forallb] in Hd. apply andb_prop in Hd as [Hc Hd]. cbn [digit_run]. by rewrite Hc, IH.
Qed.

Lemma match_digits_app d rest : is_digits d -> starts_no_digit rest -> match_digits (d ++ rest) = Some (d, rest).
Proof.
  intros [Hne Hd] Hr. unfold match_digits. rewrite digit_run_app by done. by destruct d.
Qed.

Lemma stoi_value d : value_of d <= 2 ^ 31 - 1 -> stoi d = ret (value_of d).
Proof. intros H. unfold stoi. fold (value_of d). by rewrite (proj2 (Z.leb_le _ _)). Qed.

Lemma match_release_app k m n b rest :
  is_digits k -> is_digits m -> is_digits n -> is_digits b -> starts_no_digit rest -> no_newline rest = true ->
  match_release (k ++ "."%char :: m ++ "."%char :: n ++ "-"%char :: b ++ rest) = Some (k, m, n, b).
Proof.
  intros Hk Hm Hn Hb Hr Hnl. unfold match_release.
  rewrite match_digits_app by done. cbn [match_char]. change (ch_eqb "." ".") with true. cbv iota.
  rewrite match_digits_app by done. cbn [match_char]. change (ch_eqb "." ".") with true. cbv iota.
  rewrite match_digits_app by done. cbn [match_char]. change (ch_eqb "-" "-") with true. cbv iota.
  rewrite match_digits_app by done. by rewrite Hnl.
Qed.

(** The numbers of a release with a build id are read back. *)
Theorem KernelVersion_make_parses k m n b rest v mach :
  is_digits k -> is_digits m -> is_digits n -> is_digits b -> starts_no_digit rest -> no_newline rest = true ->
  Forall (fun d => value_of d <= 2 ^ 31 - 1) [k; m; n; b] ->
  let r := k ++ "."%char :: m ++ "."%char :: n ++ "-"%char :: b ++ rest in
  KernelVersion_make r v mach =
  ret (mkKernelVersion (value_of k) (value_of m) (value_of n) (value_of b) r v mach).
Proof.
  intros Hk Hm Hn Hb Hr Hnl Hv r. apply Forall_cons in Hv as [H1 Hv]. apply Forall_cons in Hv as [H2 Hv].
  apply Forall_cons in Hv as [H3 Hv]. apply Forall_cons in Hv as [H4 _].
  unfold KernelVersion_make. subst r. rewrite match_release_app by done.
  rewrite !stoi_value by done. cbn [bind ret]. destruct Hb as [Hb _]. by destruct b.
Qed.

(** ** Values of os-release *)

Definition line_key (line : chars) : option chars :=
  match find_char "=" line 0 with Some idx => Some (take idx line) | None => None end.

Lemma filterForKey_skip pre post name :
  Forall (fun l => line_key l <> Some name) pre -> filterForKey (pre ++ post) name = filterForKey post name.
Proof.
  induction 1 as [|l pre Hl _ IH]; [done|]. cbn [app filterForKey]. unfold line_key in Hl.
  destruct (find_char "=" l 0); [|done]. by rewrite bool_decide_false by congruence.
Qed.

Lemma filterForKey_hit name value post :
  ~ In "="%char name -> filterForKey ((name ++ "="%char :: value) :: post) name = unquote value.
Proof.
  intros Hno. cbn [filterForKey]. unfold find_char. rewrite drop_0, find_from_app by done. cbn [Nat.add].
  rewrite take_app_length, bool_decide_true by done. f_equal.
  by rewrite (cons_middle "="%char name value), app_assoc, drop_app_length' by (rewrite length_app; done).
Qed.

Lemma unquote_quoted v : unquote (quote :: v ++ [quote]) = ret v.
Proof.
  unfold unquote. change (ch_eqb quote quote) with true. cbv iota. rewrite rev_unit.
  change (ch_eqb quote quote) with true. cbv iota. by rewrite rev_involutive.
Qed.

(** The value of a key is that of its first line, without its quotes; a
    value that is empty, or a single quote, is read out of bounds. *)
Theorem filterForKey_first pre post name value :
  Forall (fun l => line_key l <> Some name) pre -> ~ In "="%char name ->
  filterForKey (pre ++ (name ++ "="%char :: quote :: value ++ [quote]) :: post) name = ret value /\
  filterForKey (pre ++ (name ++ ["="%char]) :: post) name = inl OutOfBounds /\
  filterForKey (pre ++ (name ++ ["="%char; quote]) :: post) name = inl OutOfBounds /\
  filterForKey pre name = ret [].
Proof.
  intros Hpre Hno. rewrite !filterForKey_skip, !filterForKey_hit by done.
  split_and!; [apply unquote_quoted|done|done|].
  rewrite <- (app_nil_r pre), filterForKey_skip by done. done.
Qed.

(** ** Whether collector runs *)

Section heuristics.
Variable env : HostEnv.

(** Secure boot read from the variables is never known. *)
Theorem GetSecureBootFromVars_undetermined :
  GetSecureBootFromVars env = SecureBoot.UNSET \/ GetSecureBootFromVars env = SecureBoot.NOT_DETERMINED.
Proof.
  unfold GetSecureBootFromVars. destruct (env_entries env _) as [entries|]; [|by right].
  destruct (secure_boot_entry entries); [|by right]. destruct (env_bytes env _) as [bytes|]; [|by right].
  destruct (nth 4 bytes (env_uninit env) =? 0) eqn:E0; [apply Z.eqb_eq in E0; by left|].
  destruct (nth 4 bytes (env_uninit env) =? 1) eqn:E1; [apply Z.eqb_eq in E1; by right|by right].
Qed.

(** The conditions under which the heuristics accept a host. *)
Definition runnable (method : CollectionMethod) (k : KernelVersion) (os_id distro : chars) (h : HostInfo) : bool :=
  hasEBPFSupport k os_id &&
  match method with
  | CORE_BPF => HasBTFSymbols env h && HasBPFRingBufferSupport env && HasBPFTracingSupport env
  | EBPF => true
  end &&
  negb (bool_decide (distro = chars_of "Docker Desktop")) &&
  negb (bool_decide (machine k = chars_of "ppc64le") && ((kernel k =? 4) && (major k =? 18) && (build_id k <? 477))).

(** What the heuristics leave in the singleton. *)
Definition probed (k : KernelVersion) (os_id distro : chars) : HostInfo :=
  mkHostInfo k distro [] [] os_id SecureBoot.UNSET.

Section accepted.
Variables (k : KernelVersion) (os_id distro : chars).
Hypothesis Hk : FromHost env = ret k.
Hypothesis Hr : release k <> [].
Hypothesis Hd : distro <> [].
Hypothesis Hid : GetOSReleaseValue env (chars_of "ID") = ret os_id.
Hypothesis Hpn : GetOSReleaseValue env (chars_of "PRETTY_NAME") = ret distro.

Lemma probe_ebpf : HasEBPFSupport env HostInfo_default = ret (hasEBPFSupport k os_id, probed k os_id []).
Proof.
  unfold HasEBPFSupport, GetKernelVersion, GetOSID. simpl (is_empty _). cbv iota.
  rewrite Hk. cbn [ret bind os_id_ HostInfo_default is_empty]. by rewrite Hid.
Qed.

Lemma probe_kernel d : GetKernelVersion env (probed k os_id d) = ret (k, probed k os_id d).
Proof. unfold GetKernelVersion. cbn [probed kernel_version_]. by destruct (release k). Qed.

Lemma probe_docker :
  IsDockerDesktop env (probed k os_id []) =
  ret (bool_decide (distro = chars_of "Docker Desktop"), probed k os_id distro).
Proof.
  unfold IsDockerDesktop, GetDistro. cbn [probed distro_ is_empty]. rewrite Hpn. cbn [ret bind].
  by destruct distro.
Qed.

(** The heuristics after the first. *)
Lemma probe_rest c :
  bind (DockerDesktopHeuristic env c (probed k os_id [])) (fun '(c, h) =>
    bind (PowerHeuristic env c h) (fun '(c, h) => CPUHeuristic env c h)) =
  if negb (bool_decide (distro = chars_of "Docker Desktop")) &&
    negb (bool_decide (machine k = chars_of "ppc64le") && ((kernel k =? 4) && (major k =? 18) && (build_id k <? 477)))
  then ret (mkHostConfig (collection_method_ c) (wrap 32 (NumPossibleCPU env)), probed k os_id distro)
  else inl Fatal.
Proof.
  unfold DockerDesktopHeuristic. rewrite probe_docker. cbn [ret bind].
  destruct (bool_decide (distro = _)); [done|]. cbn [ret bind negb andb]. unfold PowerHeuristic. rewrite probe_kernel.
  cbn [ret bind]. destruct (bool_decide (machine k = _)); [|done]. cbn [negb andb].
  by destruct ((kernel k =? 4) && (major k =? 18) && (build_id k <? 477)).
Qed.

Lemma probe_all method :
  ProcessHostHeuristics env method HostInfo_default =
  if runnable method k os_id distro (probed k os_id []) then
    ret (mkHostConfig None (wrap 32 (NumPossibleCPU env)), probed k os_id distro)
  else inl Fatal.
Proof.
  unfold ProcessHostHeuristics, CollectionHeuristic, runnable. rewrite probe_ebpf. cbn [ret bind].
  destruct (hasEBPFSupport k os_id); cbn [negb andb]; [|done].
  rewrite probe_kernel. cbn [ret bind]. destruct method; cbn [ret bind andb].
  - apply probe_rest.
  - destruct (HasBTFSymbols env _); [|done]. destruct (HasBPFRingBufferSupport env); [|done].
    destruct (HasBPFTracingSupport env); [|done]. cbn [negb andb ret bind]. apply probe_rest.
Qed.
End accepted.

(** The start-up heuristics accept a host exactly when it supports eBPF, has
    the symbols and probes that the configured method needs, is not Docker
    Desktop and not an old POWER kernel; otherwise they are fatal; on success the
    number of CPUs is recorded. *)
Theorem ProcessHostHeuristics_exact method k os_id distro :
  FromHost env = ret k -> release k <> [] -> distro <> [] ->
  GetOSReleaseValue env (chars_of "ID") = ret os_id ->
  GetOSReleaseValue env (chars_of "PRETTY_NAME") = ret distro ->
  ProcessHostHeuristics env method HostInfo_default =
  if runnable method k os_id distro (probed k os_id []) then
    ret (mkHostConfig None (wrap 32 (NumPossibleCPU env)), probed k os_id distro)
  else inl Fatal.
Proof. intros. by apply probe_all. Qed.
End heuristics.

(** ** Witnesses: a RHEL host with BTF symbols *)

Definition wit_env : HostEnv :=
  mkHostEnv None None (Some (chars_of "/host"))
    (Some (chars_of "4.18.0-513.el8.x86_64", chars_of "#1", chars_of "x86_64"))
    (fun p => if bool_decide (p = chars_of "/host/etc/os-release")
              then Some [chars_of "NAME=RHEL"; chars_of "ID=" ++ [quote] ++ chars_of "rhel" ++ [quote];
                         chars_of "PRETTY_NAME=Red Hat"] else None)
    (fun _ => None) (fun p => bool_decide (p = chars_of "/sys/kernel/btf/vmlinux"))
    (fun _ => None) (fun _ => None) 1 1 8 0.

Lemma ProcessHostHeuristics_exact_witness :
  (num_possible_cpus_ ∘ fst) <$> (match ProcessHostHeuristics wit_env CORE_BPF HostInfo_default with inr r => Some r | _ => None end) = Some 8.
Proof.
  rewrite (ProcessHostHeuristics_exact wit_env CORE_BPF
    (mkKernelVersion 4 18 0 513 (chars_of "4.18.0-513.el8.x86_64") (chars_of "#1") (chars_of "x86_64"))
    (chars_of "rhel") (chars_of "Red Hat")).
  - vm_compute. reflexivity.
  - vm_compute. reflexivity.
  - discriminate.
  - discriminate.
  - vm_compute. reflexivity.
  - vm_compute. reflexivity.
Defined.

Lemma filterForKey_first_witness :
  filterForKey ([chars_of "NAME=a"] ++ [chars_of "ID="]) (chars_of "ID") = inl OutOfBounds.
Proof.
  destruct (filterForKey_first [chars_of "NAME=a"] [] (chars_of "ID") []) as (_ & H & _).
  - constructor; [vm_compute; discriminate|constructor].
  - vm_compute. intuition discriminate.
  - exact H.
Defined.
