(* ===== verification/SignalClient.v ===== *)
(** * The signal service client ([SignalServiceClient.h], [SignalServiceClient.cpp])

    Two threads share the client: one establishes streams, the other pushes
    signals.  They hand the writer over to each other with the flag
    [stream_active_].  Each method is given as a function, and the accesses to
    the shared fields are the steps of an interleaving, in which the condition
    variable is explicit.  [grpc] is represented as in [Duplex]: a stream comes
    with the list of results its completion queue will give. *)

From stdpp Require Import relations.
From S2P Require Import Prelude UMap Signals Duplex.

(** What a waiting call of [Duplex] gives. *)
Definition waited {A} (o : option A) : outcome A := match o with Some a => Ret a | None => Blocked end.

(** ** The interface *)

Class ISignalServiceClient (M C : Type) := {
  Start : C -> C;
  Stop : C -> outcome C;
  PushSignals : M -> C -> outcome (C * SignalResult.t)
}.

(** What its users rely on: [sent] are the messages that went out; a message
    goes out exactly when the result is PROCESSED. *)
Class SignalServiceClientSpec (M C : Type) `{ISignalServiceClient M C} := {
  sent : C -> list M;
  push_sent m c c' r :
    PushSignals m c = Ret (c', r) ->
    sent c' = match r with SignalResult.PROCESSED => sent c ++ [m] | _ => sent c end;
  push_result m c c' r :
    PushSignals m c = Ret (c', r) ->
    r = SignalResult.PROCESSED \/ r = SignalResult.ERROR \/ r = SignalResult.NEEDS_REFRESH
}.

(** ** The client over gRPC *)

Section client.
Context {M R : Type}.
(** Initial contents of the read buffer; whether [pipe] succeeds. *)
Variable buf : R.
Variable pipe_ok : bool.

(** [context_] is whether the pointer is set; [queue_] is what the queue of the
    current stream will return; [written_] are the messages it took. *)
Record SignalServiceClient := mkSignalServiceClient {
  running_ : bool; should_stop_ : bool; stream_active_ : bool; context_ : bool;
  writer_ : option (DuplexClient R); queue_ : list (NextStatus R); first_write_ : bool; written_ : list M
}.

Definition SignalServiceClient_make : SignalServiceClient :=
  mkSignalServiceClient false false false false None [] false [].

Definition set_thread (running should_stop : bool) (c : SignalServiceClient) : SignalServiceClient :=
  mkSignalServiceClient running should_stop (stream_active_ c) (context_ c) (writer_ c) (queue_ c)
    (first_write_ c) (written_ c).
Definition set_active (b : bool) (c : SignalServiceClient) : SignalServiceClient :=
  mkSignalServiceClient (running_ c) (should_stop_ c) b (context_ c) (writer_ c) (queue_ c)
    (first_write_ c) (written_ c).
Definition set_context (b : bool) (c : SignalServiceClient) : SignalServiceClient :=
  mkSignalServiceClient (running_ c) (should_stop_ c) (stream_active_ c) b (writer_ c) (queue_ c)
    (first_write_ c) (written_ c).
Definition set_writer (w : option (DuplexClient R)) (q : list (NextStatus R)) (c : SignalServiceClient)
    : SignalServiceClient :=
  mkSignalServiceClient (running_ c) (should_stop_ c) (stream_active_ c) (context_ c) w q
    (first_write_ c) (written_ c).
Definition set_first_write (b : bool) (c : SignalServiceClient) : SignalServiceClient :=
  mkSignalServiceClient (running_ c) (should_stop_ c) (stream_active_ c) (context_ c) (writer_ c) (queue_ c)
    b (written_ c).
Definition add_written (m : M) (c : SignalServiceClient) : SignalServiceClient :=
  mkSignalServiceClient (running_ c) (should_stop_ c) (stream_active_ c) (context_ c) (writer_ c) (queue_ c)
    (first_write_ c) (written_ c ++ [m]).

(** *** Accesses to the writer *)

(** [writer_.reset()]: the destructor of the stream client, if there is one. *)
Definition reset_writer (c : SignalServiceClient) : outcome SignalServiceClient :=
  match writer_ c with
  | None => Ret c
  | Some w => _ ← waited (DuplexClientReaderWriter_destroy (queue_ c) w); Ret (set_writer None [] c)
  end.

(** A new context and, with reads ignored, a new stream, which replace the old
    ones; [q] is what the new queue will return. *)
Definition create_writer (q : list (NextStatus R)) (c : SignalServiceClient) : outcome SignalServiceClient :=
  c ← reset_writer (set_context true c);
  Ret (set_writer (Some (DuplexClientReaderWriter true buf)) q c).

Definition wait_started (c : SignalServiceClient) : outcome (SignalServiceClient * bool) :=
  match writer_ c with
  | None => Crash
  | Some w =>
      '(w, res, q) ← waited (WaitUntilStarted (queue_ c) w);
      Ret (set_writer (Some w) q c, ok res)
  end.

(** [writer_->FinishNow()]; the status is only logged. *)
Definition finish_now (c : SignalServiceClient) : outcome SignalServiceClient :=
  match writer_ c with
  | None => Crash
  | Some w => '(w, _, q) ← waited (Finish (queue_ c) w); Ret (set_writer (Some w) q c)
  end.

Definition write (m : M) (c : SignalServiceClient) : outcome (SignalServiceClient * bool) :=
  match writer_ c with
  | None => Crash
  | Some w =>
      '(w, res, q) ← waited (Write (queue_ c) w);
      let c := set_writer (Some w) q c in
      Ret (if ok res then add_written m c else c, ok res)
  end.

(** *** The methods *)

(** One iteration of [WaitForChannelReady]: whether the wait was interrupted,
    whether the channel is connected, whether it is shut down (fatal). *)
Record ChannelPoll := mkChannelPoll { interrupted : bool; connected : bool; channel_shutdown : bool }.

Fixpoint WaitForChannelReady (polls : list ChannelPoll) : outcome bool :=
  match polls with
  | [] => Blocked
  | p :: rest =>
      if interrupted p then Ret false
      else if connected p then Ret true
      else if channel_shutdown p then Crash
      else WaitForChannelReady rest
  end.

(** [stop_wait], [stop_woken] and [stop_ready] are the values of [should_stop()]
    at its three calls. *)
Definition EstablishGRPCStreamSingle (stop_wait stop_woken stop_ready : bool) (polls : list ChannelPoll)
    (q : list (NextStatus R)) (c : SignalServiceClient) : outcome (SignalServiceClient * bool) :=
  if stream_active_ c && negb stop_wait then Blocked
  else if stop_woken then Ret (c, false)
  else
    ready ← WaitForChannelReady polls;
    if negb ready then Ret (c, false)
    else if stop_ready then Ret (c, false)
    else
      c ← create_writer q c;
      '(c, started) ← wait_started c;
      if negb started then
        c ← finish_now c;
        c ← reset_writer c;
        Ret (c, true)
      else Ret (set_active true (set_first_write true c), true).

(** [thread_.Start]: refused when it runs or has no pipe. *)
Definition Client_Start (c : SignalServiceClient) : SignalServiceClient :=
  if running_ c then c
  else if negb pipe_ok then set_thread false false c
  else set_thread true false c.

(** [Stop], in the state after the join: joining a thread that was not started and
    cancelling without a context dereference null. *)
Definition Client_Stop (c : SignalServiceClient) : outcome SignalServiceClient :=
  if negb (running_ c) then Crash
  else
    let c := set_thread false true c in
    if negb (context_ c) then Crash else Ret (set_context false c).

Definition Client_PushSignals (msg : M) (c : SignalServiceClient)
    : outcome (SignalServiceClient * SignalResult.t) :=
  if negb (stream_active_ c) then Ret (c, SignalResult.ERROR)
  else if first_write_ c then Ret (set_first_write false c, SignalResult.NEEDS_REFRESH)
  else
    '(c, written) ← write msg c;
    if negb written then
      c ← finish_now c;
      c ← reset_writer c;
      Ret (set_active false c, SignalResult.ERROR)
    else Ret (c, SignalResult.PROCESSED).

#[global] Instance grpc_client : ISignalServiceClient M SignalServiceClient := {
  Start := Client_Start; Stop := Client_Stop; PushSignals := Client_PushSignals
}.

(** ** The client that prints *)

Record StdoutSignalServiceClient := mkStdout { printed_ : list M }.

Definition Stdout_PushSignals (msg : M) (c : StdoutSignalServiceClient)
    : outcome (StdoutSignalServiceClient * SignalResult.t) :=
  Ret (mkStdout (printed_ c ++ [msg]), SignalResult.PROCESSED).

#[global] Instance stdout_client : ISignalServiceClient M StdoutSignalServiceClient := {
  Start := fun c => c; Stop := fun c => Ret c; PushSignals := Stdout_PushSignals
}.

(** ** The two threads *)

(** Where the establishing thread is: evaluating the condition of the wait, about
    to block, blocked, past the wait, ... *)
Inductive EstPc :=
  | E_TEST | E_BLOCKING | E_SLEEP | E_WOKEN | E_CHANNEL | E_READY | E_CREATE | E_STARTING
  | E_FINISH | E_RESET | E_FIRST | E_ACTIVATE | E_DONE.

(** Where the pushing thread is, with its message. *)
Inductive PushPc :=
  | P_IDLE | P_FIRST (msg : M) | P_WRITE (msg : M) | P_FINISH | P_RESET | P_CLEAR | P_NOTIFY.

(** Where [Stop] is, which the pushing thread calls when it is done. *)
Inductive StopPc := S_RUN | S_FLAG | S_JOIN | S_CANCEL | S_STOPPED.

Record Conf := mkConf {
  cl : SignalServiceClient; est : EstPc; push : PushPc; stop : StopPc; results : list SignalResult.t
}.

(** [stream_interrupted_.notify_one()]: without effect on a thread that does not
    block.  Wake-ups without a notification are left out. *)
Definition notify_one (e : EstPc) : EstPc := match e with E_SLEEP => E_TEST | e => e end.

Inductive step : Conf -> Conf -> Prop :=
  (* EstablishGRPCStreamSingle *)
  | est_test c p s rs :
      step (mkConf c E_TEST p s rs)
        (mkConf c (if negb (stream_active_ c) || should_stop_ c then E_WOKEN else E_BLOCKING) p s rs)
  | est_block c p s rs : step (mkConf c E_BLOCKING p s rs) (mkConf c E_SLEEP p s rs)
  | est_woken c p s rs :
      step (mkConf c E_WOKEN p s rs) (mkConf c (if should_stop_ c then E_DONE else E_CHANNEL) p s rs)
  | est_interrupted c p s rs :
      should_stop_ c = true -> step (mkConf c E_CHANNEL p s rs) (mkConf c E_DONE p s rs)
  | est_connected c p s rs : step (mkConf c E_CHANNEL p s rs) (mkConf c E_READY p s rs)
  | est_ready c p s rs :
      step (mkConf c E_READY p s rs) (mkConf c (if should_stop_ c then E_DONE else E_CREATE) p s rs)
  | est_create c p s rs q c' :
      create_writer q c = Ret c' -> step (mkConf c E_CREATE p s rs) (mkConf c' E_STARTING p s rs)
  | est_started c p s rs c' b :
      wait_started c = Ret (c', b) ->
      step (mkConf c E_STARTING p s rs) (mkConf c' (if b then E_FIRST else E_FINISH) p s rs)
  | est_finish c p s rs c' :
      finish_now c = Ret c' -> step (mkConf c E_FINISH p s rs) (mkConf c' E_RESET p s rs)
  | est_reset c p s rs c' :
      reset_writer c = Ret c' -> step (mkConf c E_RESET p s rs) (mkConf c' E_TEST p s rs)
  | est_first c p s rs :
      step (mkConf c E_FIRST p s rs) (mkConf (set_first_write true c) E_ACTIVATE p s rs)
  | est_activate c p s rs :
      step (mkConf c E_ACTIVATE p s rs) (mkConf (set_active true c) E_TEST p s rs)
  (* PushSignals *)
  | push_inactive c e rs :
      stream_active_ c = false ->
      step (mkConf c e P_IDLE S_RUN rs) (mkConf c e P_IDLE S_RUN (rs ++ [SignalResult.ERROR]))
  | push_active c e rs m :
      stream_active_ c = true -> step (mkConf c e P_IDLE S_RUN rs) (mkConf c e (P_FIRST m) S_RUN rs)
  | push_first c e s rs m :
      first_write_ c = true ->
      step (mkConf c e (P_FIRST m) s rs)
        (mkConf (set_first_write false c) e P_IDLE s (rs ++ [SignalResult.NEEDS_REFRESH]))
  | push_later c e s rs m :
      first_write_ c = false -> step (mkConf c e (P_FIRST m) s rs) (mkConf c e (P_WRITE m) s rs)
  | push_written c e s rs m c' :
      write m c = Ret (c', true) ->
      step (mkConf c e (P_WRITE m) s rs) (mkConf c' e P_IDLE s (rs ++ [SignalResult.PROCESSED]))
  | push_failed c e s rs m c' :
      write m c = Ret (c', false) -> step (mkConf c e (P_WRITE m) s rs) (mkConf c' e P_FINISH s rs)
  | push_finish c e s rs c' :
      finish_now c = Ret c' -> step (mkConf c e P_FINISH s rs) (mkConf c' e P_RESET s rs)
  | push_reset c e s rs c' :
      reset_writer c = Ret c' -> step (mkConf c e P_RESET s rs) (mkConf c' e P_CLEAR s rs)
  | push_clear c e s rs : step (mkConf c e P_CLEAR s rs) (mkConf (set_active false c) e P_NOTIFY s rs)
  | push_notify c e s rs :
      step (mkConf c e P_NOTIFY s rs) (mkConf c (notify_one e) P_IDLE s (rs ++ [SignalResult.ERROR]))
  (* Stop *)
  | stop_notify c e rs :
      step (mkConf c e P_IDLE S_RUN rs) (mkConf c (notify_one e) P_IDLE S_FLAG rs)
  | stop_flag c e p rs :
      step (mkConf c e p S_FLAG rs) (mkConf (set_thread (running_ c) true c) e p S_JOIN rs)
  | stop_join c p rs :
      step (mkConf c E_DONE p S_JOIN rs) (mkConf (set_thread false true c) E_DONE p S_CANCEL rs)
  | stop_cancel c e p rs :
      context_ c = true ->
      step (mkConf c e p S_CANCEL rs) (mkConf (set_context false c) e p S_STOPPED rs).

(** After [Start]. *)
Definition conf_init : Conf := mkConf (set_thread true false SignalServiceClient_make) E_TEST P_IDLE S_RUN [].

End client.
Arguments SignalServiceClient : clear implicits.
Arguments StdoutSignalServiceClient : clear implicits.
Arguments Conf : clear implicits.
Arguments PushPc : clear implicits.

(** ** Sequential behaviour *)

Section sequential.
Context {M R : Type}.
Implicit Types c : SignalServiceClient M R.

(** Only a completed write changes the record of written messages. *)
Lemma write_written (m : M) c c' b :
  write m c = Ret (c', b) -> written_ c' = if b then written_ c ++ [m] else written_ c.
Proof.
  unfold write. destruct (writer_ c) as [w|]; [|done].
  destruct (Write (queue_ c) w) as [[[w' res] q]|]; [|done]. cbn. intros [= <- <-]. by destruct (ok res).
Qed.

Lemma reset_writer_written c c' : reset_writer c = Ret c' -> written_ c' = written_ c.
Proof.
  unfold reset_writer. destruct (writer_ c) as [w|]; [|by intros [= <-]].
  destruct (DuplexClientReaderWriter_destroy _ _); [|done]. cbn. by intros [= <-].
Qed.

Lemma finish_now_written c c' : finish_now c = Ret c' -> written_ c' = written_ c.
Proof.
  unfold finish_now. destruct (writer_ c) as [w|]; [|done].
  destruct (Finish _ _) as [[[? ?] ?]|]; [|done]. cbn. by intros [= <-].
Qed.

(** What a push can do, by branch. *)
Lemma PushSignals_cases (m : M) c c' r :
  Client_PushSignals m c = Ret (c', r) ->
  match r with
  | SignalResult.ERROR => stream_active_ c' = false /\ written_ c' = written_ c
  | SignalResult.NEEDS_REFRESH =>
      stream_active_ c = true /\ first_write_ c = true /\ c' = set_first_write false c
  | SignalResult.PROCESSED =>
      stream_active_ c = true /\ first_write_ c = false /\ write m c = Ret (c', true)
  | _ => False
  end.
Proof.
  unfold Client_PushSignals. destruct (stream_active_ c) eqn:Ea; cbn [negb]; [|by intros [= <- <-]].
  destruct (first_write_ c) eqn:Ef; [by intros [= <- <-]|].
  intros H. inv_bind H. destruct b; cbn [negb] in H.
  - injection H as <- <-. done.
  - inv_bind H. injection H as <- <-. split; [done|]. cbn [written_ set_active].
    rewrite (reset_writer_written _ _ E1), (finish_now_written _ _ E0). by apply write_written in E.
Qed.

#[global] Instance grpc_client_spec pipe_ok : @SignalServiceClientSpec M _ (grpc_client (R := R) pipe_ok).
Proof.
  refine {| sent := written_ (R := R) |}.
  - intros m c c' r H%PushSignals_cases. destruct r; try done.
    + destruct H as (_ & _ & H). by apply write_written in H.
    + by destruct H.
    + by destruct H as (_ & _ & ->).
  - intros m c c' r H%PushSignals_cases. destruct r; tauto.
Defined.

#[global] Instance stdout_client_spec : @SignalServiceClientSpec M _ stdout_client.
Proof.
  refine {| sent := printed_ (M := M) |}.
  - by intros m c c' r [= <- <-].
  - intros m c c' r [= <- <-]. auto.
Defined.
End sequential.

(** ** The hand-over of the writer *)

Section handover.
Context {M R : Type}.
Variable buf : R.
Implicit Types c : SignalServiceClient M R.
Implicit Types k : Conf M R.

Definition reachable_conf k : Prop := rtc (step buf) (conf_init (M := M) (R := R)) k.

(** The establishing thread uses the writer here, the pushing thread there. *)
Definition est_owns (e : EstPc) : bool :=
  match e with E_CREATE | E_STARTING | E_FINISH | E_RESET | E_FIRST | E_ACTIVATE => true | _ => false end.
Definition push_owns (p : PushPc M) : bool := match p with P_IDLE | P_NOTIFY => false | _ => true end.

Definition has_writer c : bool := match writer_ c with Some _ => true | None => false end.

(** Past the wait with the stream active only on the way out. *)
Definition est_past (e : EstPc) : bool :=
  match e with E_CHANNEL | E_READY => true | e => est_owns e end.
Definition est_has (e : EstPc) : bool :=
  match e with E_STARTING | E_FINISH | E_RESET | E_FIRST | E_ACTIVATE => true | _ => false end.

(** Who may be where, by the flags; [active] decides who owns the writer. *)
Definition hinv (active stopping writer : bool) (e : EstPc) (p : PushPc M) (running : bool) : bool :=
  implb (est_past e) (negb active) &&
  match e with E_WOKEN => negb active || stopping | _ => true end &&
  implb (push_owns p) active &&
  (running || match p with P_IDLE => true | _ => false end) &&
  eqb writer (if active then match p with P_CLEAR => false | _ => true end else est_has e).

Definition is_running (s : StopPc) : bool := match s with S_RUN => true | _ => false end.

Definition HInv k : Prop :=
  hinv (stream_active_ (cl k)) (should_stop_ (cl k)) (has_writer (cl k)) (est k) (push k)
    (is_running (stop k)) = true.

(** The accesses keep everything but the writer and its queue. *)
Lemma reset_writer_keeps c c' :
  reset_writer c = Ret c' ->
  has_writer c' = false /\ stream_active_ c' = stream_active_ c /\ should_stop_ c' = should_stop_ c.
Proof.
  unfold reset_writer, has_writer. destruct (writer_ c) as [w|] eqn:E; [|by intros [= <-]; rewrite E].
  destruct (DuplexClientReaderWriter_destroy _ _); [|done]. cbn. by intros [= <-].
Qed.
Lemma create_writer_keeps q c c' :
  create_writer buf q c = Ret c' ->
  has_writer c' = true /\ stream_active_ c' = stream_active_ c /\ should_stop_ c' = should_stop_ c.
Proof.
  unfold create_writer. intros H. inv_bind H. injection H as <-.
  apply reset_writer_keeps in E as (_ & ? & ?). done.
Qed.
Lemma finish_now_keeps c c' :
  finish_now c = Ret c' ->
  has_writer c' = true /\ has_writer c = true /\ stream_active_ c' = stream_active_ c /\
  should_stop_ c' = should_stop_ c.
Proof.
  unfold finish_now, has_writer. destruct (writer_ c) as [w|]; [|done].
  destruct (Finish _ _) as [[[? ?] ?]|]; [|done]. cbn. by intros [= <-].
Qed.
Lemma wait_started_keeps c c' b :
  wait_started c = Ret (c', b) ->
  has_writer c' = true /\ has_writer c = true /\ stream_active_ c' = stream_active_ c /\
  should_stop_ c' = should_stop_ c.
Proof.
  unfold wait_started, has_writer. destruct (writer_ c) as [w|]; [|done].
  destruct (WaitUntilStarted _ _) as [[[? ?] ?]|]; [|done]. cbn. by intros [= <- <-].
Qed.
Lemma write_keeps m c c' b :
  write m c = Ret (c', b) ->
  has_writer c' = true /\ has_writer c = true /\ stream_active_ c' = stream_active_ c /\
  should_stop_ c' = should_stop_ c.
Proof.
  unfold write, has_writer. destruct (writer_ c) as [w|]; [|done].
  destruct (Write _ _) as [[[? ?] ?]|]; [|done]. cbn. intros [= <- <-]. by destruct (ok _).
Qed.

Lemma HInv_init : HInv conf_init.
Proof. reflexivity. Qed.

Ltac use_keeps :=
  repeat match goal with
  | H : create_writer _ _ _ = Ret _ |- _ => apply create_writer_keeps in H as (? & ? & ?)
  | H : reset_writer _ = Ret _ |- _ => apply reset_writer_keeps in H as (? & ? & ?)
  | H : finish_now _ = Ret _ |- _ => apply finish_now_keeps in H as (? & ? & ? & ?)
  | H : wait_started _ = Ret _ |- _ => apply wait_started_keeps in H as (? & ? & ? & ?)
  | H : write _ _ = Ret _ |- _ => apply write_keeps in H as (? & ? & ? & ?)
  end.

(** Cases on the positions that are not known. *)
Ltac by_positions :=
  repeat match goal with
  | b : bool |- _ => destruct b; try done
  | e : EstPc |- _ => destruct e; try done
  | p : PushPc M |- _ => destruct p; try done
  | s : StopPc |- _ => destruct s; try done
  end.

Lemma HInv_step k k' : HInv k -> step buf k k' -> HInv k'.
Proof.
  unfold HInv. intros HI Hs.
  destruct Hs; use_keeps; cbn [cl est push stop] in *;
    repeat match goal with
    | |- context [has_writer (?f ?b ?c)] => change (has_writer (f b c)) with (has_writer c)
    | |- context [has_writer (?f ?b ?b' ?c)] => change (has_writer (f b b' c)) with (has_writer c)
    end;
    cbn [stream_active_ should_stop_ set_first_write set_active set_context set_thread] in *;
    repeat match goal with H : _ ?c = _ |- context [_ ?c] => rewrite H end;
    repeat match goal with H : _ ?c = _, HI : hinv _ _ _ _ _ _ = true |- _ => rewrite H in HI end;
    revert HI;
    generalize (stream_active_ c) (should_stop_ c) (has_writer c); intros [] [] []; try done;
    by_positions.
Qed.

Lemma reachable_HInv k : reachable_conf k -> HInv k.
Proof.
  intros Hr. apply (rtc_ind_r (R := step buf) (fun k => HInv k) conf_init); [apply HInv_init| |done].
  intros k1 k2 _ Hs HI. by eapply HInv_step.
Qed.

(** ** Methods as steps *)

Lemma PushSignals_steps (m : M) c c' r e rs :
  Client_PushSignals m c = Ret (c', r) ->
  exists e', (e' = e \/ e' = notify_one e) /\
  rtc (step buf) (mkConf c e P_IDLE S_RUN rs) (mkConf c' e' P_IDLE S_RUN (rs ++ [r])).
Proof.
  unfold Client_PushSignals. destruct (stream_active_ c) eqn:Ea; cbn [negb].
  2: { intros [= <- <-]. exists e. split; [by left|]. apply rtc_once. by constructor. }
  destruct (first_write_ c) eqn:Ef.
  { intros [= <- <-]. exists e. split; [by left|]. eapply rtc_l; [by apply (push_active _ _ _ _ m)|].
    apply rtc_once. by constructor. }
  intros H. inv_bind H. destruct b; cbn [negb] in H.
  - injection H as <- <-. exists e. split; [by left|]. eapply rtc_l; [by apply (push_active _ _ _ _ m)|].
    eapply rtc_l; [by apply push_later|]. apply rtc_once. by apply push_written.
  - inv_bind H. injection H as <- <-. exists (notify_one e). split; [by right|].
    eapply rtc_l; [by apply (push_active _ _ _ _ m)|]. eapply rtc_l; [by apply push_later|].
    eapply rtc_l; [by eapply push_failed|]. eapply rtc_l; [by eapply push_finish|].
    eapply rtc_l; [by eapply push_reset|]. eapply rtc_l; [apply push_clear|].
    apply rtc_once. apply push_notify.
Qed.

Lemma WaitForChannelReady_false polls :
  WaitForChannelReady polls = Ret false -> Exists (fun p => interrupted p = true) polls.
Proof.
  induction polls as [|p polls IH]; [done|]. cbn [WaitForChannelReady].
  destruct (interrupted p) eqn:Ei; [by left|]. destruct (connected p); [done|].
  destruct (channel_shutdown p); [done|]. intros H. right. by apply IH.
Qed.

Lemma Establish_steps polls q c c' b p s rs :
  Forall (fun poll => interrupted poll = should_stop_ c) polls ->
  EstablishGRPCStreamSingle buf (should_stop_ c) (should_stop_ c) (should_stop_ c) polls q c = Ret (c', b) ->
  rtc (step buf) (mkConf c E_TEST p s rs) (mkConf c' (if b then E_TEST else E_DONE) p s rs).
Proof.
  intros Hp. unfold EstablishGRPCStreamSingle. destruct (stream_active_ c && negb (should_stop_ c)) eqn:Ew; [done|].
  intros H. eapply rtc_l; [apply est_test|].
  replace (negb (stream_active_ c) || should_stop_ c) with true by (by destruct (stream_active_ c), (should_stop_ c)).
  eapply rtc_l; [apply est_woken|]. destruct (should_stop_ c) eqn:Es; [by injection H as <- <-|].
  inv_bind H. destruct x; cbn [negb] in H.
  2: { apply WaitForChannelReady_false, Exists_exists in E as (poll & Hin & Hi).
       rewrite Forall_forall in Hp. by rewrite (Hp _ Hin) in Hi. }
  eapply rtc_l; [apply est_connected|]. eapply rtc_l; [apply est_ready|]. rewrite Es.
  inv_bind H. eapply rtc_l; [by eapply est_create|]. eapply rtc_l; [by eapply est_started|].
  destruct b0; cbn [negb] in H.
  - injection H as <- <-. eapply rtc_l; [apply est_first|]. apply rtc_once. apply est_activate.
  - inv_bind H. injection H as <- <-. eapply rtc_l; [by eapply est_finish|]. apply rtc_once. by apply est_reset.
Qed.

(** ** Asleep for ever *)

(** Nobody is left to wake the establishing thread. *)
Definition stranded k : Prop :=
  stream_active_ (cl k) = false /\ est k = E_SLEEP /\ push k = P_IDLE /\ stop k = S_RUN.

Lemma stranded_step k k' :
  stranded k -> step buf k k' -> stop k' = S_RUN ->
  stranded k' /\ results k' = results k ++ [SignalResult.ERROR].
Proof.
  unfold stranded. intros (Ha & He & Hp & Hr) Hs. destruct Hs; cbn in *; simplify_eq; try done.
  congruence.
Qed.

Lemma step_keeps_stopping k k' : step buf k k' -> stop k' = S_RUN -> stop k = S_RUN.
Proof. by destruct 1. Qed.

Lemma stranded_run k k' :
  rtc (step buf) k k' -> stranded k -> stop k' = S_RUN ->
  stranded k' /\ exists n, results k' = results k ++ replicate n SignalResult.ERROR.
Proof.
  intros Hr. induction Hr as [k|k k1 k' Hs Hr IH]; intros Hk Hstop.
  - split; [done|]. exists 0%nat. by rewrite app_nil_r.
  - assert (stop k1 = S_RUN) as Hstop1.
    { clear -Hr Hstop. induction Hr as [|? ? ? Hs _ IH]; [done|]. by eapply step_keeps_stopping, IH. }
    destruct (stranded_step _ _ Hk Hs Hstop1) as [Hk1 E]. destruct (IH Hk1 Hstop) as [Hk' [n En]].
    split; [done|]. exists (S n). by rewrite En, E, <- app_assoc.
Qed.
End handover.

(** ** Properties *)

Section theorems.
Context {M R : Type}.
Variable buf : R.

(** C12: in every interleaving of the establishing thread, the pushing thread and
    [Stop], the writer is used by one thread at a time and is never null where it
    is dereferenced; while the pushing thread is between two signals, an active
    stream has a writer and an inactive one is left to the other thread. *)
Theorem handover_safe (k : Conf M R) :
  reachable_conf buf k ->
  est_owns (est k) && push_owns (push k) = false /\
  match est k with E_STARTING => wait_started (cl k) <> Crash | E_FINISH => finish_now (cl k) <> Crash | _ => True end /\
  match push k with P_WRITE m => write m (cl k) <> Crash | P_FINISH => finish_now (cl k) <> Crash | _ => True end /\
  (push k = P_IDLE -> stream_active_ (cl k) = true -> has_writer (cl k) = true /\ est_owns (est k) = false).
Proof.
  intros HI%reachable_HInv. unfold HInv in HI.
  assert (has_writer (cl k) = true ->
    wait_started (cl k) <> Crash /\ finish_now (cl k) <> Crash /\ forall m, write m (cl k) <> Crash) as Hw.
  { unfold has_writer, wait_started, finish_now, write. destruct (writer_ (cl k)) as [w|]; [|done]. intros _.
    destruct (WaitUntilStarted _ _) as [[[? ?] ?]|], (Finish _ _) as [[[? ?] ?]|], (Write _ _) as [[[? ?] ?]|]; done. }
  revert HI Hw. generalize (is_running (stop k)).
  destruct (stream_active_ (cl k)), (should_stop_ (cl k)), (has_writer (cl k)), (est k), (push k); intros [] HI Hw;
    try done; destruct (Hw eq_refl) as (? & ? & ?); done.
Qed.

(** A wake-up can be lost: the condition is tested and the flag cleared without
    a common lock, so that the notification of a failed push can fall between the
    test and the wait; the establishing thread then sleeps for ever and every
    later signal is refused. *)
Theorem lost_wakeup (m : M) :
  exists k : Conf M R,
    reachable_conf buf k /\ stream_active_ (cl k) = false /\
    forall k', rtc (step buf) k k' -> stop k' = S_RUN ->
      est k' = E_SLEEP /\ stream_active_ (cl k') = false /\
      exists n, results k' = results k ++ replicate n SignalResult.ERROR.
Proof.
  set (ev := fun op b => GOT_EVENT (R := R) op b buf (mkGrpcStatus 0 "")).
  set (q := [ev Op.START true; ev Op.WRITE false; ev Op.FINISH true; ev Op.READ false; SHUTDOWN]).
  assert (exists k, reachable_conf buf k /\ stranded (M := M) (R := R) k) as (k & Hk & Hs).
  { eexists. split.
    - eapply rtc_l; [apply est_test|]. eapply rtc_l; [apply est_woken|]. eapply rtc_l; [apply est_connected|].
      eapply rtc_l; [apply est_ready|]. eapply rtc_l; [apply (est_create _ _ _ _ _ q); vm_compute; reflexivity|].
      eapply rtc_l; [eapply est_started; vm_compute; reflexivity|]. eapply rtc_l; [apply est_first|].
      eapply rtc_l; [apply est_activate|]. eapply rtc_l; [apply est_test|].
      eapply rtc_l; [by apply (push_active _ _ _ _ m)|]. eapply rtc_l; [by apply push_first|].
      eapply rtc_l; [by apply (push_active _ _ _ _ m)|]. eapply rtc_l; [by apply push_later|].
      eapply rtc_l; [eapply push_failed; vm_compute; reflexivity|].
      eapply rtc_l; [eapply push_finish; vm_compute; reflexivity|].
      eapply rtc_l; [eapply push_reset; vm_compute; reflexivity|]. eapply rtc_l; [apply push_clear|].
      eapply rtc_l; [apply push_notify|]. eapply rtc_l; [apply est_block|]. apply rtc_refl.
    - by repeat split. }
  exists k. split_and!; [done|apply Hs|]. intros k' Hr Hstop.
  destruct (stranded_run _ _ _ Hr Hs Hstop) as [(Ha & He & _) Hn]. done.
Qed.

(** [Stop] can wait for ever, since it notifies before it sets the flag; and
    without a stream it cancels a context that is null. *)
Theorem Stop_stuck :
  (exists k : Conf M R, reachable_conf buf k /\ stop k = S_JOIN /\ est k = E_SLEEP /\ forall k', ~ step buf k k') /\
  (exists k : Conf M R, reachable_conf buf k /\ stop k = S_CANCEL /\ context_ (cl k) = false).
Proof.
  split.
  - set (q := [GOT_EVENT (R := R) Op.START true buf (mkGrpcStatus 0 "")]).
    eexists. split.
    + eapply rtc_l; [apply est_test|]. eapply rtc_l; [apply est_woken|]. eapply rtc_l; [apply est_connected|].
      eapply rtc_l; [apply est_ready|]. eapply rtc_l; [apply (est_create _ _ _ _ _ q); vm_compute; reflexivity|].
      eapply rtc_l; [eapply est_started; vm_compute; reflexivity|]. eapply rtc_l; [apply est_first|].
      eapply rtc_l; [apply est_activate|]. eapply rtc_l; [apply est_test|]. eapply rtc_l; [apply est_block|].
      eapply rtc_l; [apply stop_notify|]. eapply rtc_l; [apply est_test|]. eapply rtc_l; [apply est_block|].
      eapply rtc_l; [apply stop_flag|]. apply rtc_refl.
    + split_and!; [done ..|]. intros k' Hs. inversion Hs.
  - eexists. split.
    + eapply rtc_l; [apply stop_notify|]. eapply rtc_l; [apply stop_flag|]. eapply rtc_l; [apply est_test|].
      eapply rtc_l; [apply est_woken|]. eapply rtc_l; [apply stop_join|]. apply rtc_refl.
    + done.
Qed.

(** Every push has one of three results: PROCESSED exactly when the stream
    was active, not fresh, and completed the write, and then the message went out;
    NEEDS_REFRESH for the first push on a fresh stream, which only uses up the
    freshness; ERROR, after which the stream is inactive, and the message did not
    go out. *)
Theorem PushSignals_outcome (m : M) (c c' : SignalServiceClient M R) r :
  Client_PushSignals m c = Ret (c', r) ->
  match r with
  | SignalResult.PROCESSED =>
      stream_active_ c = true /\ first_write_ c = false /\ written_ c' = written_ c ++ [m] /\
      exists w, writer_ c = Some w /\ exists w' q, Write (queue_ c) w = Some (w', Status.OK, q)
  | SignalResult.NEEDS_REFRESH =>
      stream_active_ c = true /\ first_write_ c = true /\ c' = set_first_write false c
  | SignalResult.ERROR => stream_active_ c' = false /\ written_ c' = written_ c
  | _ => False
  end.
Proof.
  intros H%PushSignals_cases. destruct r; try done. destruct H as (Ha & Hf & H). split_and!; [done ..| |].
  - by apply write_written in H.
  - unfold write in H. destruct (writer_ c) as [w|]; [|done]. exists w. split; [done|].
    destruct (Write (queue_ c) w) as [[[w' res] q]|]; [|done]. injection H as _ H. exists w', q. by destruct res.
Qed.
End theorems.

(** ** Witnesses *)

(** A stream that starts and takes one message. *)
Definition wit_stream : list (NextStatus unit) :=
  map (fun op => GOT_EVENT op true tt (mkGrpcStatus 0 "")) [Op.START; Op.WRITE].
Definition wit_established : outcome (SignalServiceClient Z unit * bool) :=
  EstablishGRPCStreamSingle tt false false false [mkChannelPoll false true false] wit_stream
    (set_thread true false SignalServiceClient_make).
Definition wit_refreshed : SignalServiceClient Z unit :=
  match wit_established with Ret (c, _) => set_first_write false c | _ => SignalServiceClient_make end.

Lemma handover_safe_witness :
  match wit_established with
  | Ret (c, _) => has_writer c = true
  | _ => False
  end.
Proof.
  destruct wit_established as [[c b]| |] eqn:E; [|by vm_compute in E ..].
  assert (b = true) as -> by (by vm_compute in E; injection E as _ <-).
  destruct (handover_safe tt (mkConf c E_TEST P_IDLE S_RUN [])) as (_ & _ & _ & H).
  - refine (Establish_steps tt [mkChannelPoll false true false] wit_stream
      (set_thread true false SignalServiceClient_make) c true P_IDLE S_RUN [] _ E). by repeat constructor.
  - apply H; [done|]. vm_compute in E. by injection E as <-.
Defined.

Lemma PushSignals_outcome_witness :
  match Client_PushSignals 5 wit_refreshed with
  | Ret (c', r) => r = SignalResult.PROCESSED /\ written_ c' = written_ wit_refreshed ++ [5]
  | _ => False
  end.
Proof.
  destruct (Client_PushSignals 5 wit_refreshed) as [[c' r]| |] eqn:E; [|by vm_compute in E ..].
  pose proof (PushSignals_outcome 5 wit_refreshed c' r E) as H.
  assert (r = SignalResult.PROCESSED) as -> by (by vm_compute in E; injection E as _ <-).
  split; [done|apply H].
Defined.
