(* ===== verification/ProcessSignals.v ===== *)
(** * Process signals ([ProcessSignalFormatter.cpp], [ProcessSignalHandler.cpp])

    A process event, or the entry of a running process, becomes a message with
    the lineage of the process, is rate limited by a key, and is pushed to the
    signal client.  The inspector (thread table, ancestors, filter fields) is a
    class of parameters; a thread is the record of the fields the code reads. *)

From S2P Require Import Prelude UMap CStrings Utility CollectorStats RateLimit Signals Duplex SignalClient.

(** ** What the inspector knows *)

Record ThreadInfo := mkThreadInfo {
  m_tid : Z; m_pid : Z; m_vpid : Z; m_comm : chars; m_exe : chars; m_exepath : chars; m_args : list chars;
  m_uid : Z; m_gid : Z; m_clone_ts : Z; m_container_id : chars
}.

(** [ancestors] are the threads that [traverse_parent_state] offers to its
    visitor, nearest first, as long as it returns true. *)
Class Sinsp := {
  is_main_thread : ThreadInfo -> bool;
  get_main_thread : ThreadInfo -> option ThreadInfo;
  ancestors : ThreadInfo -> list (option ThreadInfo)
}.

(** An event: its thread, looked up in the table only ([false]) or in the system
    as well ([true]), and the filter fields of the extractor. *)
Record ProcEvt := mkProcEvt {
  evt_base : SinspEvt; get_thread_info : bool -> option ThreadInfo; get_proc_args : option chars;
  get_client_port : option Z; get_server_port : option Z
}.
Definition evt_type (e : ProcEvt) : Z := get_type (evt_base e).
Definition evt_ts (e : ProcEvt) : Z := get_ts (evt_base e).

Definition tinfo_field {A} (f : ThreadInfo -> A) (e : ProcEvt) : option A := f <$> get_thread_info e true.
Definition get_comm : ProcEvt -> option chars := tinfo_field m_comm.
Definition get_exe : ProcEvt -> option chars := tinfo_field m_exe.
Definition get_exepath : ProcEvt -> option chars := tinfo_field m_exepath.
Definition get_pid : ProcEvt -> option Z := tinfo_field m_pid.
Definition get_uid : ProcEvt -> option Z := tinfo_field m_uid.
Definition get_gid : ProcEvt -> option Z := tinfo_field m_gid.
Definition evt_container_id : ProcEvt -> option chars := tinfo_field m_container_id.

(** ** Messages *)

Record LineageInfo := mkLineageInfo { parent_uid : Z; parent_exec_file_path : chars }.

(** The fields hold what the setters are given; [ps_time_ns] are the nanoseconds
    the timestamp is made of. *)
Record ProcessSignal := mkProcessSignal {
  ps_id : chars; ps_name : chars; ps_exec_file_path : chars; ps_args : chars; ps_pid : Z; ps_uid : Z;
  ps_gid : Z; ps_time_ns : Z; ps_container_id : chars; ps_scraped : bool; ps_lineage_info : list LineageInfo
}.

(** A [SignalStreamMessage] whose signal is a process signal. *)
Definition SignalStreamMessage : Type := ProcessSignal.

Module ProcessSignalType.
Inductive t := EXECVE | UNKNOWN_PROCESS_TYPE.
End ProcessSignalType.

Definition process_signals_init : list (string * ProcessSignalType.t) := [("execve<", ProcessSignalType.EXECVE)].

(** Conversion of an integer to [int]. *)
Definition s32 (z : Z) : Z := if u32 z <? 2 ^ 31 then u32 z else u32 z - 2 ^ 32.

(** What the calls share and change: the metrics singleton, the number of ids
    drawn, the number of readings of the clock, and the process counters of the
    inspector's statistics. *)
Record ProcStats := mkProcStats {
  nProcessSent : Z; nProcessSendFailures : Z; nProcessResolutionFailuresByEvt : Z;
  nProcessResolutionFailuresByTinfo : Z; nProcessRateLimitCount : Z
}.
Record World := mkWorld { metrics : CollectorStats; drawn : nat; clock_ : nat; ustats : ProcStats }.

Definition set_metrics (m : CollectorStats) (w : World) : World := mkWorld m (drawn w) (clock_ w) (ustats w).
Definition set_ustats (u : ProcStats) (w : World) : World := mkWorld (metrics w) (drawn w) (clock_ w) u.

Definition eq_chars (s t : chars) : bool := bool_decide (s = t).
Definition NA : chars := chars_of "<NA>".

(** ** The formatter *)

Section formatter.
Context `{Sinsp}.
(** The span of utf8_range, the source of ids, and the configuration's
    [DisableProcessArguments]. *)
Variable Span : chars -> nat.
Variable UUIDStr : nat -> chars.
Variable DisableProcessArguments : bool.

Definition sanitized_or (s : chars) : chars := default s (SanitizedUTF8 Span s).

(** The loop of [extract_proc_args], a space between two arguments. *)
Fixpoint join_args (args : list chars) : chars :=
  match args with
  | [] => []
  | [arg] => sanitized_or arg
  | arg :: rest => sanitized_or arg ++ " "%char :: join_args rest
  end.
Definition extract_proc_args (t : ThreadInfo) : chars :=
  match m_args t with [] => [] | args => join_args args end.

Definition GetTotalStringLength (lineage : list LineageInfo) : Z :=
  fold_left (fun n l => s32 (n + Z.of_nat (length (parent_exec_file_path l)))) lineage 0.

Definition CountLineage (lineage : list LineageInfo) (m : CollectorStats) : CollectorStats :=
  let size := Z.of_nat (length lineage) in
  let m := COUNTER_INC Counter.process_lineage_counts m in
  let m := CounterAdd Counter.process_lineage_total size m in
  let m := CounterAdd Counter.process_lineage_sqr_total (u64 (size * size)) m in
  CounterAdd Counter.process_lineage_string_total (GetTotalStringLength lineage) m.

(** The visitor: the lineage it leaves and whether to go on. *)
Definition lineage_visitor (pt : option ThreadInfo) (lineage : list LineageInfo) : list LineageInfo * bool :=
  match pt with
  | None => (lineage, false)
  | Some pt =>
      if m_pid pt =? 0 then (lineage, false)
      else if (m_vpid pt =? 0) && is_empty (m_container_id pt) then (lineage, false)
      else if negb (m_vpid pt =? 0) && (m_pid pt =? m_vpid pt) then (lineage, false)
      else if m_vpid pt =? -1 then (lineage, false)
      else
        let lineage :=
          match last lineage with
          | Some back =>
              if eq_chars (parent_exec_file_path back) (m_exepath pt) then lineage
              else lineage ++ [mkLineageInfo (m_uid pt) (m_exepath pt)]
          | None => lineage ++ [mkLineageInfo (m_uid pt) (m_exepath pt)]
          end in
        (lineage, negb (10 <=? Z.of_nat (length lineage)))
  end.

Fixpoint traverse_parent_state (pts : list (option ThreadInfo)) (lineage : list LineageInfo) : list LineageInfo :=
  match pts with
  | [] => lineage
  | pt :: rest =>
      let '(lineage, continue) := lineage_visitor pt lineage in
      if continue then traverse_parent_state rest lineage else lineage
  end.

Definition GetProcessLineage (tinfo : option ThreadInfo) (lineage : list LineageInfo) (m : CollectorStats)
    : list LineageInfo * CollectorStats :=
  match tinfo with
  | None => (lineage, m)
  | Some t =>
      match (if is_main_thread t then Some t else get_main_thread t) with
      | None => (lineage, m)
      | Some mt =>
          let lineage := traverse_parent_state (ancestors mt) lineage in
          (lineage, CountLineage lineage m)
      end
  end.

(** A name or path that is there, not empty and known. *)
Definition usable (s : option chars) : bool :=
  match s with Some s => negb (is_empty s) && negb (eq_chars s NA) | None => false end.
(** The first of two that is usable, sanitized; the field stays empty otherwise. *)
Definition first_usable (a b : option chars) : chars :=
  if usable a then sanitized_or (default [] a) else if usable b then sanitized_or (default [] b) else [].

Definition draw_uuid (w : World) : chars * World :=
  (UUIDStr (drawn w), mkWorld (metrics w) (S (drawn w)) (clock_ w) (ustats w)).

Definition CreateProcessSignal_evt (e : ProcEvt) (w : World) : ProcessSignal * World :=
  let '(id, w) := draw_uuid w in
  let name := get_comm e in
  let exepath := get_exepath e in
  let args :=
    if DisableProcessArguments then []
    else match get_proc_args e with Some args => sanitized_or args | None => [] end in
  let '(lineage, m) := GetProcessLineage (get_thread_info e false) [] (metrics w) in
  (mkProcessSignal id (first_usable name exepath) (first_usable exepath name) args
     (default 0 (get_pid e)) (default 0 (get_uid e)) (default 0 (get_gid e)) (evt_ts e)
     (default [] (evt_container_id e)) false lineage,
   set_metrics m w).

Definition CreateProcessSignal_tinfo (t : ThreadInfo) (w : World) : ProcessSignal * World :=
  let '(id, w) := draw_uuid w in
  let name := Some (m_comm t) in
  let exepath := Some (m_exepath t) in
  let '(lineage, m) := GetProcessLineage (Some t) [] (metrics w) in
  (mkProcessSignal id (first_usable name exepath) (first_usable exepath name) (extract_proc_args t)
     (m_pid t) (m_uid t) (m_gid t) (m_clone_ts t) (m_container_id t) true lineage,
   set_metrics m w).

Definition ValidateProcessDetails (t : option ThreadInfo) : bool :=
  match t with
  | None => false
  | Some t => if eq_chars (m_exepath t) NA && eq_chars (m_comm t) NA then false else true
  end.

(** [process_signals] is the event map built from [process_signals_init]; an
    event type outside of it throws ([Crash]). *)
Definition ToProtoMessage_evt (process_signals : EventMap ProcessSignalType.t) (e : ProcEvt) (w : World)
    : outcome (option SignalStreamMessage * World) :=
  match EventMap_get process_signals (evt_type e) with
  | None => Crash
  | Some ProcessSignalType.UNKNOWN_PROCESS_TYPE => Ret (None, w)
  | Some ProcessSignalType.EXECVE =>
      if negb (ValidateProcessDetails (get_thread_info e false)) then Ret (None, w)
      else let '(signal, w) := CreateProcessSignal_evt e w in Ret (Some signal, w)
  end.

Definition ToProtoMessage_tinfo (t : ThreadInfo) (w : World) : option SignalStreamMessage * World :=
  if negb (ValidateProcessDetails (Some t)) then (None, w)
  else let '(signal, w) := CreateProcessSignal_tinfo t w in (Some signal, w).

(** ** The handler *)

Definition compute_process_key (s : ProcessSignal) : chars :=
  ps_container_id s ++ " "%char :: ps_name s ++ " "%char ::
  (if (length (ps_args s) <=? 256)%nat then ps_args s else take 256 (ps_args s)) ++
  " "%char :: ps_exec_file_path s.

Section handler.
Context {C : Type} `{ISignalServiceClient SignalStreamMessage C}.
(** The readings of the clock by the successive calls of the limiter. *)
Variable clock : nat -> Readings.

Record ProcessSignalHandler := mkProcessSignalHandler { client_ : C; rate_limiter_ : RateLimitCache }.

Definition ProcessSignalHandler_make (client : C) : ProcessSignalHandler :=
  mkProcessSignalHandler client RateLimitCache_default.

Definition Handler_Start (h : ProcessSignalHandler) : ProcessSignalHandler :=
  mkProcessSignalHandler (Start (client_ h)) (rate_limiter_ h).
Definition Handler_Stop (h : ProcessSignalHandler) : outcome ProcessSignalHandler :=
  c ← Stop (client_ h); Ret (mkProcessSignalHandler c (ResetRateLimitCache (rate_limiter_ h))).

Definition inc (z : Z) : Z := u64 (z + 1).
Definition count_sent (u : ProcStats) : ProcStats :=
  mkProcStats (inc (nProcessSent u)) (nProcessSendFailures u) (nProcessResolutionFailuresByEvt u)
    (nProcessResolutionFailuresByTinfo u) (nProcessRateLimitCount u).
Definition count_failure (u : ProcStats) : ProcStats :=
  mkProcStats (nProcessSent u) (inc (nProcessSendFailures u)) (nProcessResolutionFailuresByEvt u)
    (nProcessResolutionFailuresByTinfo u) (nProcessRateLimitCount u).
Definition count_unresolved_evt (u : ProcStats) : ProcStats :=
  mkProcStats (nProcessSent u) (nProcessSendFailures u) (inc (nProcessResolutionFailuresByEvt u))
    (nProcessResolutionFailuresByTinfo u) (nProcessRateLimitCount u).
Definition count_unresolved_tinfo (u : ProcStats) : ProcStats :=
  mkProcStats (nProcessSent u) (nProcessSendFailures u) (nProcessResolutionFailuresByEvt u)
    (inc (nProcessResolutionFailuresByTinfo u)) (nProcessRateLimitCount u).
Definition count_limited (u : ProcStats) : ProcStats :=
  mkProcStats (nProcessSent u) (nProcessSendFailures u) (nProcessResolutionFailuresByEvt u)
    (nProcessResolutionFailuresByTinfo u) (inc (nProcessRateLimitCount u)).

Definition Handled : Type := SignalResult.t * ProcessSignalHandler * World.

(** [rate_limiter_.Allow] at the next readings of the clock. *)
Definition limiter_allow (key : chars) (h : ProcessSignalHandler) (w : World)
    : outcome (bool * ProcessSignalHandler * World) :=
  match RateLimitCache_Allow (rate_limiter_ h) (String.string_of_list_ascii key) (clock (clock_ w)) with
  | None => Crash
  | Some (cache, allowed) =>
      Ret (allowed, mkProcessSignalHandler (client_ h) cache, mkWorld (metrics w) (drawn w) (S (clock_ w)) (ustats w))
  end.

(** What both handlers do with a message. *)
Definition send_signal (msg : SignalStreamMessage) (h : ProcessSignalHandler) (w : World) : outcome Handled :=
  '(allowed, h, w) ← limiter_allow (compute_process_key msg) h w;
  if negb allowed then Ret (SignalResult.IGNORED, h, set_ustats (count_limited (ustats w)) w)
  else
    '(c, result) ← PushSignals msg (client_ h);
    let h := mkProcessSignalHandler c (rate_limiter_ h) in
    match result with
    | SignalResult.PROCESSED => Ret (result, h, set_ustats (count_sent (ustats w)) w)
    | SignalResult.ERROR => Ret (result, h, set_ustats (count_failure (ustats w)) w)
    | _ => Ret (result, h, w)
    end.

Definition Process_HandleSignal (process_signals : EventMap ProcessSignalType.t) (e : ProcEvt)
    (h : ProcessSignalHandler) (w : World) : outcome Handled :=
  '(msg, w) ← ToProtoMessage_evt process_signals e w;
  match msg with
  | None => Ret (SignalResult.IGNORED, h, set_ustats (count_unresolved_evt (ustats w)) w)
  | Some msg => send_signal msg h w
  end.

Definition HandleExistingProcess (t : ThreadInfo) (h : ProcessSignalHandler) (w : World) : outcome Handled :=
  let '(msg, w) := ToProtoMessage_tinfo t w in
  match msg with
  | None => Ret (SignalResult.IGNORED, h, set_ustats (count_unresolved_tinfo (ustats w)) w)
  | Some msg => send_signal msg h w
  end.

Definition Process_GetRelevantEvents : list string := ["execve<"].

End handler.
End formatter.

(** ** Lineage: the reference *)

(** The conditions under which the walk goes on. *)
Definition in_container (t : ThreadInfo) : bool :=
  negb (m_pid t =? 0) && negb (m_vpid t =? -1) &&
  (if m_vpid t =? 0 then negb (is_empty (m_container_id t)) else negb (m_pid t =? m_vpid t)).

(** The ancestors up to the boundary of the container. *)
Fixpoint container_prefix (pts : list (option ThreadInfo)) : list ThreadInfo :=
  match pts with
  | Some t :: rest => if in_container t then t :: container_prefix rest else []
  | _ => []
  end.

(** One entry per run of equal paths: that of its first thread. *)
Fixpoint collapse (prev : option chars) (ts : list ThreadInfo) : list LineageInfo :=
  match ts with
  | [] => []
  | t :: rest =>
      if bool_decide (prev = Some (m_exepath t)) then collapse prev rest
      else mkLineageInfo (m_uid t) (m_exepath t) :: collapse (Some (m_exepath t)) rest
  end.

Definition lineage_of (pts : list (option ThreadInfo)) : list LineageInfo :=
  take 10 (collapse None (container_prefix pts)).

Lemma lineage_visitor_stop t lineage :
  in_container t = false -> lineage_visitor (Some t) lineage = (lineage, false).
Proof.
  unfold in_container, lineage_visitor. destruct (m_pid t =? 0); [done|].
  destruct (m_vpid t =? 0) eqn:E0; cbn [andb negb].
  - apply Z.eqb_eq in E0. rewrite E0. cbn. by destruct (is_empty _).
  - destruct (m_pid t =? m_vpid t); [done|]. destruct (m_vpid t =? -1); done.
Qed.

Lemma lineage_visitor_go t lineage :
  in_container t = true ->
  lineage_visitor (Some t) lineage =
  let l := lineage ++ take 1 (collapse (parent_exec_file_path <$> last lineage) [t]) in
  (l, negb (10 <=? Z.of_nat (length l))).
Proof.
  unfold in_container, lineage_visitor. intros Ht. breflect.
  rewrite (proj2 (Z.eqb_neq (m_pid t) 0)), (proj2 (Z.eqb_neq (m_vpid t) (-1))) by done.
  assert ((m_vpid t =? 0) && is_empty (m_container_id t) = false) as ->.
  { destruct (m_vpid t =? 0); [|done]. breflect. done. }
  assert (negb (m_vpid t =? 0) && (m_pid t =? m_vpid t) = false) as ->.
  { destruct (m_vpid t =? 0); [done|]. breflect. by apply Z.eqb_neq. }
  cbn [collapse]. destruct (last lineage) as [back|]; cbn [fmap option_fmap option_map].
  2: by rewrite bool_decide_false.
  unfold eq_chars. destruct (bool_decide_reflect (parent_exec_file_path back = m_exepath t)) as [->|Hne].
  - rewrite bool_decide_true by done. cbn. by rewrite app_nil_r.
  - rewrite bool_decide_false by congruence. done.
Qed.

Lemma traverse_collapse pts lineage :
  (length lineage < 10)%nat ->
  traverse_parent_state pts lineage =
  lineage ++ take (10 - length lineage) (collapse (parent_exec_file_path <$> last lineage) (container_prefix pts)).
Proof.
  revert lineage. induction pts as [|[t|] pts IH]; intros lineage Hl.
  - cbn. by rewrite take_nil, app_nil_r.
  - cbn [traverse_parent_state container_prefix]. destruct (in_container t) eqn:Et.
    2: { rewrite lineage_visitor_stop by done. cbn. by rewrite take_nil, app_nil_r. }
    rewrite lineage_visitor_go by done. cbv zeta. cbn [collapse].
    destruct (bool_decide _) eqn:Eb; cbn [take].
    + rewrite app_nil_r, (proj2 (Z.leb_gt _ _)) by lia. cbn [negb]. by apply IH.
    + rewrite length_app. cbn [length]. destruct (10 <=? _) eqn:E10; cbn [negb]; breflect.
      * replace (10 - length lineage)%nat with 1%nat by lia. by destruct (collapse _ _).
      * rewrite IH by (rewrite length_app; cbn; lia). rewrite length_app, last_snoc, <- app_assoc. cbn [length app].
        replace (10 - length lineage)%nat with (S (10 - (length lineage + 1)))%nat by lia. done.
  - cbn. by rewrite take_nil, app_nil_r.
Qed.

Lemma traverse_lineage_of pts : traverse_parent_state pts [] = lineage_of pts.
Proof. by rewrite traverse_collapse by (cbn; lia). Qed.

(** Neighbours have different paths. *)
Fixpoint no_repeats (prev : option chars) (l : list LineageInfo) : Prop :=
  match l with
  | [] => True
  | i :: rest => prev <> Some (parent_exec_file_path i) /\ no_repeats (Some (parent_exec_file_path i)) rest
  end.

Lemma collapse_no_repeats prev ts n : no_repeats prev (take n (collapse prev ts)).
Proof.
  revert prev n. induction ts as [|t ts IH]; intros prev n; cbn [collapse]; [by rewrite take_nil|].
  destruct (bool_decide_reflect (prev = Some (m_exepath t))); [apply IH|].
  destruct n; [done|]. cbn. split; [done|apply IH].
Qed.

Lemma collapse_from prev ts i :
  In i (collapse prev ts) -> exists t, In t ts /\ i = mkLineageInfo (m_uid t) (m_exepath t).
Proof.
  revert prev. induction ts as [|t ts IH]; intros prev; cbn [collapse]; [done|].
  destruct (bool_decide _).
  - intros (t' & ? & ?)%IH. exists t'. split; [by right|done].
  - intros [<-|(t' & ? & ?)%IH]; [exists t|exists t']; (split; [first [by left|by right]|done]).
Qed.

Lemma container_prefix_in pts t : In t (container_prefix pts) -> in_container t = true /\ In (Some t) pts.
Proof.
  induction pts as [|[t'|] pts IH]; [done| |done]. cbn [container_prefix].
  destruct (in_container t') eqn:E; [|done].
  intros [->|[? ?]%IH]; (split; [done|first [by left|by right]]).
Qed.

(** ** Properties *)

Section theorems.
Context `{HS : Sinsp}.
Variable Span : chars -> nat.
Variable UUIDStr : nat -> chars.
Variable DisableProcessArguments : bool.

(** C38: the lineage of a process is that of its main thread: the ancestors up to the
    boundary of the container, one entry for each run of equal paths, at most ten;
    without a thread or a main thread it is empty and nothing is counted.  So no
    entry comes from outside the container and neighbours have different paths. *)
Theorem GetProcessLineage_exact tinfo m :
  let mt := t ← tinfo; if is_main_thread t then Some t else get_main_thread t in
  let '(lineage, m') := GetProcessLineage tinfo [] m in
  lineage = match mt with Some mt => lineage_of (ancestors mt) | None => [] end /\
  m' = match mt with Some _ => CountLineage lineage m | None => m end /\
  (length lineage <= 10)%nat /\ no_repeats None lineage /\
  forall i, In i lineage -> exists mt' t, mt = Some mt' /\ In (Some t) (ancestors mt') /\ in_container t = true /\
    i = mkLineageInfo (m_uid t) (m_exepath t).
Proof.
  cbv zeta. unfold GetProcessLineage. destruct tinfo as [t|]; cbn [mbind option_bind]; [|by split_and!; try (cbn; lia)].
  destruct (if is_main_thread t then _ else _) as [mt|]; [|by split_and!; try (cbn; lia)].
  rewrite traverse_lineage_of. unfold lineage_of. split_and!; [done ..| | |].
  - rewrite length_take. lia.
  - apply collapse_no_repeats.
  - intros i Hi. assert (In i (collapse None (container_prefix (ancestors mt)))) as (t' & Ht & ->)%collapse_from.
    { rewrite <- (take_drop 10). apply in_app_iff. by left. }
    apply container_prefix_in in Ht as [? ?]. by exists mt, t'.
Qed.

Section handler.
Context {C : Type} `{SignalServiceClientSpec SignalStreamMessage C}.
Variable clock : nat -> Readings.

Lemma send_signal_cases msg (h h' : ProcessSignalHandler (C := C)) w w' r :
  send_signal clock msg h w = Ret (r, h', w') ->
  sent (client_ h') = match r with SignalResult.PROCESSED => sent (client_ h) ++ [msg] | _ => sent (client_ h) end /\
  match r with
  | SignalResult.PROCESSED => ustats w' = count_sent (ustats w)
  | SignalResult.ERROR => ustats w' = count_failure (ustats w)
  | SignalResult.IGNORED => ustats w' = count_limited (ustats w) /\ client_ h' = client_ h
  | SignalResult.NEEDS_REFRESH => ustats w' = ustats w
  | SignalResult.FINISHED => False
  end.
Proof.
  unfold send_signal, limiter_allow. destruct (RateLimitCache_Allow _ _ _) as [[cache allowed]|]; [|done].
  cbn [mbind outcome_bind]. destruct allowed; cbn [negb client_]; [|by intros [= <- <- <-]].
  destruct (PushSignals msg (client_ h)) as [[c' r']| |] eqn:E; [|done ..]. cbn [mbind outcome_bind].
  pose proof (push_sent _ _ _ _ E) as Hs. pose proof (push_result _ _ _ _ E) as Hr.
  destruct r'; intros [= <- <- <-]; (split; [done|]); cbn; try done;
    destruct Hr as [Hr|[Hr|Hr]]; discriminate Hr.
Qed.

(** ** Sequences of calls *)

Inductive Call := Event (e : ProcEvt) | Existing (t : ThreadInfo).

Variable process_signals : EventMap ProcessSignalType.t.

Definition handle (call : Call) (h : ProcessSignalHandler (C := C)) (w : World) : outcome Handled :=
  match call with
  | Event e => Process_HandleSignal Span UUIDStr DisableProcessArguments clock process_signals e h w
  | Existing t => HandleExistingProcess Span UUIDStr clock t h w
  end.

Fixpoint handle_all (calls : list Call) (h : ProcessSignalHandler (C := C)) (w : World)
    : outcome (list SignalResult.t * ProcessSignalHandler * World) :=
  match calls with
  | [] => Ret ([], h, w)
  | call :: rest =>
      '(r, h, w) ← handle call h w;
      '(rs, h, w) ← handle_all rest h w;
      Ret (r :: rs, h, w)
  end.

Definition is_result (r r' : SignalResult.t) : bool :=
  match r, r' with
  | SignalResult.PROCESSED, SignalResult.PROCESSED | SignalResult.IGNORED, SignalResult.IGNORED
  | SignalResult.ERROR, SignalResult.ERROR | SignalResult.NEEDS_REFRESH, SignalResult.NEEDS_REFRESH
  | SignalResult.FINISHED, SignalResult.FINISHED => true
  | _, _ => false
  end.
Definition count (r : SignalResult.t) (rs : list SignalResult.t) : Z :=
  Z.of_nat (length (List.filter (is_result r) rs)).

(** The changes of the counters, modulo their width: sent, failed, unresolved
    (both kinds) or rate limited. *)
Definition counted (w w' : World) (sent failed ignored : Z) : Prop :=
  u64 (nProcessSent (ustats w')) = u64 (nProcessSent (ustats w) + sent) /\
  u64 (nProcessSendFailures (ustats w')) = u64 (nProcessSendFailures (ustats w) + failed) /\
  exists a b c, 0 <= a /\ 0 <= b /\ 0 <= c /\ a + b + c = ignored /\
    u64 (nProcessResolutionFailuresByEvt (ustats w')) = u64 (nProcessResolutionFailuresByEvt (ustats w) + a) /\
    u64 (nProcessResolutionFailuresByTinfo (ustats w')) = u64 (nProcessResolutionFailuresByTinfo (ustats w) + b) /\
    u64 (nProcessRateLimitCount (ustats w')) = u64 (nProcessRateLimitCount (ustats w) + c).

Lemma u64_inc x : u64 (inc x) = u64 (x + 1).
Proof. apply Zmod_mod. Qed.
Lemma u64_trans x y z n n' : u64 y = u64 (x + n) -> u64 z = u64 (y + n') -> u64 z = u64 (x + (n + n')).
Proof.
  unfold wrap. intros Hy ->. by rewrite <- Zplus_mod_idemp_l, Hy, Zplus_mod_idemp_l, Z.add_assoc.
Qed.

Lemma counted_trans w w1 w2 s1 f1 i1 s2 f2 i2 :
  counted w w1 s1 f1 i1 -> counted w1 w2 s2 f2 i2 -> counted w w2 (s1 + s2) (f1 + f2) (i1 + i2).
Proof.
  intros (Hs & Hf & a & b & c & ? & ? & ? & ? & Ha & Hb & Hc) (Hs' & Hf' & a' & b' & c' & ? & ? & ? & ? & Ha' & Hb' & Hc').
  split_and!; [by eapply u64_trans ..|]. exists (a + a'), (b + b'), (c + c'). split_and!; try lia; by eapply u64_trans.
Qed.

(** One call changes at most one counter, by its result. *)
Lemma counted_cases w w' (r : SignalResult.t) :
  match r with
  | SignalResult.PROCESSED => ustats w' = count_sent (ustats w)
  | SignalResult.ERROR => ustats w' = count_failure (ustats w)
  | SignalResult.IGNORED =>
      ustats w' = count_limited (ustats w) \/ ustats w' = count_unresolved_evt (ustats w) \/
      ustats w' = count_unresolved_tinfo (ustats w)
  | SignalResult.NEEDS_REFRESH => ustats w' = ustats w
  | SignalResult.FINISHED => False
  end ->
  counted w w' (count SignalResult.PROCESSED [r]) (count SignalResult.ERROR [r]) (count SignalResult.IGNORED [r]).
Proof.
  unfold counted. destruct r; intros E.
  1,3,4: rewrite E; cbn -[wrap Z.pow]; rewrite ?u64_inc, ?Z.add_0_r; split_and!; [done ..|];
    exists 0, 0, 0; rewrite ?Z.add_0_r; by split_and!.
  - destruct E as [E|[E|E]]; rewrite E; cbn -[wrap Z.pow]; rewrite ?u64_inc, ?Z.add_0_r; (split_and!; [done ..|]);
      [exists 0, 0, 1|exists 1, 0, 0|exists 0, 1, 0]; rewrite ?u64_inc, ?Z.add_0_r; by split_and!.
  - done.
Qed.

Lemma ToProtoMessage_ustats e w msg w' :
  ToProtoMessage_evt Span UUIDStr DisableProcessArguments process_signals e w = Ret (msg, w') -> ustats w' = ustats w.
Proof.
  unfold ToProtoMessage_evt, CreateProcessSignal_evt, draw_uuid. destruct (EventMap_get _ _) as [[]|]; [|by intros [= _ <-]|done].
  destruct (negb _); [by intros [= _ <-]|]. destruct (GetProcessLineage _ _ _). by intros [= _ <-].
Qed.
Lemma ToProtoMessage_tinfo_ustats t w : ustats (ToProtoMessage_tinfo Span UUIDStr t w).2 = ustats w.
Proof.
  unfold ToProtoMessage_tinfo, CreateProcessSignal_tinfo, draw_uuid. destruct (negb _); [done|].
  by destruct (GetProcessLineage _ _ _).
Qed.

(** The messages that went out and the counters match the results. *)
Definition accounted (h h' : ProcessSignalHandler (C := C)) (w w' : World) (rs : list SignalResult.t) : Prop :=
  (exists msgs, sent (client_ h') = sent (client_ h) ++ msgs /\
     Z.of_nat (length msgs) = count SignalResult.PROCESSED rs) /\
  counted w w' (count SignalResult.PROCESSED rs) (count SignalResult.ERROR rs) (count SignalResult.IGNORED rs).

Lemma handle_cases call h h' w w' r :
  handle call h w = Ret (r, h', w') ->
  accounted h h' w w' [r].
Proof.
  assert (forall msg w1, ustats w1 = ustats w -> send_signal clock msg h w1 = Ret (r, h', w') ->
    accounted h h' w w' [r]) as Hsend.
  { intros msg w1 Hw [Hs Hu]%send_signal_cases. rewrite Hw in Hu. split.
    - exists (match r with SignalResult.PROCESSED => [msg] | _ => [] end). rewrite Hs. destruct r; rewrite ?app_nil_r; done.
    - apply counted_cases. destruct r; try done. left. apply Hu. }
  assert (forall w1, h' = h -> r = SignalResult.IGNORED -> ustats w1 = ustats w ->
    (ustats w' = count_unresolved_evt (ustats w1) \/ ustats w' = count_unresolved_tinfo (ustats w1)) ->
    accounted h h' w w' [r]) as Hign.
  { intros w1 -> -> Hw Hu. rewrite Hw in Hu. split; [exists []; by rewrite app_nil_r|]. apply counted_cases. tauto. }
  destruct call as [e|t]; cbn [handle].
  - unfold Process_HandleSignal. intros Hh. inv_bind Hh. pose proof (ToProtoMessage_ustats _ _ _ _ E) as Hw.
    destruct o as [msg|]; [by eapply Hsend|]. injection Hh as <- <- <-. eapply Hign; [done ..|by left].
  - unfold HandleExistingProcess. pose proof (ToProtoMessage_tinfo_ustats t w) as Hw.
    destruct (ToProtoMessage_tinfo _ _ _ _) as [[msg|] w1]; cbn in Hw; [by apply Hsend|].
    intros [= <- <- <-]. eapply Hign; [done ..|by right].
Qed.

Lemma count_cons r r' rs : count r (r' :: rs) = count r [r'] + count r rs.
Proof. unfold count. cbn [List.filter]. destruct (is_result r r'); cbn [length]; lia. Qed.

(** C15: the counters of the inspector account for every process signal: over any
    sequence of events and existing processes, as many messages go out as the
    sent counter grows, which is the number of PROCESSED results; failures are
    the ERROR results; and every IGNORED result is counted once, as unresolved or
    as rate limited.  A request for a refresh counts nothing. *)
Theorem process_signals_accounted calls h w rs h' w' :
  handle_all calls h w = Ret (rs, h', w') ->
  accounted h h' w w' rs /\ length rs = length calls.
Proof.
  revert h w rs. induction calls as [|call calls IH]; intros h w rs; cbn [handle_all].
  - intros [= <- <- <-]. split; [split; [by exists []; rewrite app_nil_r|]|done].
    unfold counted, count. cbn -[wrap Z.pow]. rewrite !Z.add_0_r. split_and!; [done ..|].
    exists 0, 0, 0. rewrite !Z.add_0_r. by split_and!.
  - destruct (handle call h w) as [[[r h1] w1]| |] eqn:E; [|done ..]. cbn [mbind outcome_bind].
    destruct (handle_all calls h1 w1) as [[[rs1 h2] w2]| |] eqn:E1; [|done ..]. cbn [mbind outcome_bind].
    intros [= <- <- <-]. apply handle_cases in E as [(m1 & Hs1 & Hl1) Hc1].
    destruct (IH _ _ _ E1) as [[(m2 & Hs2 & Hl2) Hc2] Hlen]. unfold accounted. rewrite !(count_cons _ r rs1). split_and!.
    + exists (m1 ++ m2). rewrite Hs2, Hs1, app_assoc, length_app. split; [done|lia].
    + by eapply counted_trans.
    + cbn. by rewrite Hlen.
Qed.
End handler.
End theorems.

(** ** Witness: a shell in a container that runs a program, and the program *)

Definition wit_thread (pid vpid : Z) (path : string) : ThreadInfo :=
  mkThreadInfo pid pid vpid (chars_of "prog") (chars_of path) (chars_of path) [chars_of "-v"] 1000 1000 7
    (chars_of "0123456789ab").
Definition wit_shell : ThreadInfo := wit_thread 200 1 "/bin/sh".
Definition wit_prog : ThreadInfo := wit_thread 201 2 "/bin/prog".

(** The program's ancestors are two shells and a process of the host. *)
Definition wit_sinsp : Sinsp := {|
  is_main_thread := fun _ => true;
  get_main_thread := fun _ => None;
  ancestors := fun t => if m_pid t =? 201 then [Some wit_shell; Some wit_shell; Some (wit_thread 1 1 "/init")] else []
|}.
Definition wit_exec : ProcEvt :=
  mkProcEvt (mkSinspEvt 0 9000 None None None) (fun _ => Some wit_prog) (Some (chars_of "-v")) None None.
Definition wit_world : World := mkWorld Stats_Reset 0 0 (mkProcStats 0 0 0 0 0).
Definition wit_handler : ProcessSignalHandler (C := StdoutSignalServiceClient SignalStreamMessage) :=
  ProcessSignalHandler_make (mkStdout []).
Definition wit_clock (n : nat) : Readings := mkReadings (Z.of_nat n + 1) (Z.of_nat n + 1) (Z.of_nat n + 1).
Definition wit_handle_all :=
  handle_all (HS := wit_sinsp) ascii_span (fun _ => []) false wit_clock [ProcessSignalType.EXECVE]
    [Event wit_exec; Existing wit_shell] wit_handler wit_world.

Lemma process_signals_accounted_witness :
  match wit_handle_all with
  | Ret (rs, h', w') =>
      rs = [SignalResult.PROCESSED; SignalResult.PROCESSED] /\
      (exists msgs, sent (client_ h') = [] ++ msgs /\ Z.of_nat (length msgs) = 2) /\ nProcessSent (ustats w') = 2 /\
      map ps_lineage_info (sent (client_ h')) = [[mkLineageInfo 1000 (chars_of "/bin/sh")]; []]
  | _ => False
  end.
Proof.
  destruct wit_handle_all as [[[rs h'] w']| |] eqn:E; [|by vm_compute in E ..].
  pose proof (process_signals_accounted (HS := wit_sinsp) ascii_span (fun _ => []) false wit_clock
    [ProcessSignalType.EXECVE] [Event wit_exec; Existing wit_shell] wit_handler wit_world rs h' w' E) as [[Hm _] _].
  assert (rs = [SignalResult.PROCESSED; SignalResult.PROCESSED]) as -> by (vm_compute in E; congruence).
  split_and!; [done|exact Hm| |]; vm_compute in E; injection E as <- <-; reflexivity.
Defined.
