(* ===== verification/ProcessStore.v ===== *)
(** * The store of processes ([Process.h], [Process.cpp])

    Processes are shared objects; the store holds weak pointers to them by pid, and
    the inspector's thread holds weak pointers to their callbacks.  An object is
    [Alive] while there are references to it, [Dying] from the moment the last one
    is dropped until its destructor has erased it from the store, [Erased] until its
    members are destroyed, and [Gone] after.  The operations of the threads are the
    steps of a machine; a fetch is two of them, the search in the map and the rest,
    since the map has no lock.  A call on an object that is gone, and an iterator whose
    entry was erased, are undefined ([Crash]). *)

From stdpp Require Import gmap.
From S2P Require Import Prelude CStrings Utility CollectorStats ProcessSignals.

(** ** Objects *)

Record Process := mkProcess {
  pid_ : Z; process_info_pending_resolution_ : bool; system_inspector_threadinfo_ : option ThreadInfo
}.

Inductive Phase := Alive | Dying | Erased | Gone.
#[global] Instance Phase_eq_dec : EqDecision Phase.
Proof. solve_decision. Defined.

(** A process with the number of references to it. *)
Record Obj := mkObj { obj : Process; refs : nat; phase : Phase }.

(** All objects ever made by the store, the cache of the store (weak pointers are
    positions), the requests that the inspector has not served, the callback it is
    calling, with the thread that it found, and the calls of [Fetch] that have searched
    the map and not gone on yet, with the entry that they found. *)
Record Store := mkStore {
  objects : list Obj; cache_ : gmap Z nat; requests : list (Z * nat); serving : option (nat * option ThreadInfo);
  fetching : list (Z * option nat)
}.
Definition ProcessStore_make : Store := mkStore [] ∅ [] None [].

Definition set_obj (id : nat) (o : Obj) (s : Store) : Store :=
  mkStore (<[id := o]> (objects s)) (cache_ s) (requests s) (serving s) (fetching s).

(** [weak_ptr::lock]. *)
Definition weak_lock (id : nat) (s : Store) : option nat * Store :=
  match objects s !! id with
  | Some o =>
      if bool_decide (phase o = Alive) then (Some id, set_obj id (mkObj (obj o) (S (refs o)) Alive) s) else (None, s)
  | None => (None, s)
  end.

(** The constructor, with an inspector or without; the request goes out first. *)
Definition Process_make (instance : bool) (pid : Z) (s : Store) : nat * Store :=
  let id := length (objects s) in
  (id, mkStore (objects s ++ [mkObj (mkProcess pid instance None) 1 Alive]) (cache_ s)
         (if instance then requests s ++ [(pid, id)] else requests s) (serving s) (fetching s)).

(** [find]: the entry of the pid, if there is one. *)
Definition Fetch_find (pid : Z) (s : Store) : option nat := cache_ s !! pid.

(** The rest of [Fetch]: the weak pointer of the entry is locked, or a process is made;
    [emplace] leaves an entry that is there. *)
Definition Fetch_finish (instance : bool) (pid : Z) (found : option nat) (s : Store) : outcome (option nat * Store) :=
  match found with
  | Some id => if bool_decide (cache_ s !! pid = Some id) then Ret (weak_lock id s) else Crash
  | None =>
      let '(id, s) := Process_make instance pid s in
      Ret (Some id, mkStore (objects s) (match cache_ s !! pid with Some _ => cache_ s | None => <[pid := id]> (cache_ s) end)
             (requests s) (serving s) (fetching s))
  end.

Definition Fetch (instance : bool) (pid : Z) (s : Store) : outcome (option nat * Store) :=
  Fetch_finish instance pid (Fetch_find pid s) s.

(** A copy of a reference, and the end of one. *)
Definition Retain (id : nat) (s : Store) : Store := (weak_lock id s).2.
Definition Release (id : nat) (s : Store) : Store :=
  match objects s !! id with
  | Some o =>
      match refs o with
      | S (S n) => set_obj id (mkObj (obj o) (S n) Alive) s
      | _ => if bool_decide (phase o = Alive) then set_obj id (mkObj (obj o) 0 Dying) s else s
      end
  | None => s
  end.

(** The destructor of an object without references, and the end of its members, the
    callback among them. *)
Definition Process_destroy (id : nat) (s : Store) : Store :=
  match objects s !! id with
  | Some o =>
      if bool_decide (phase o = Dying) then
        mkStore (<[id := mkObj (obj o) 0 Erased]> (objects s)) (delete (pid_ (obj o)) (cache_ s)) (requests s) (serving s) (fetching s)
      else s
  | None => s
  end.
Definition Process_end (id : nat) (s : Store) : Store :=
  match objects s !! id with
  | Some o => if bool_decide (phase o = Erased) then set_obj id (mkObj (obj o) 0 Gone) s else s
  | None => s
  end.

Definition ProcessInfoResolved (process_info : option ThreadInfo) (p : Process) : Process :=
  mkProcess (pid_ p) false process_info.

(** The inspector takes the next request: the callback is locked while the object
    is there. *)
Definition serve_lock (get_thread_ref : Z -> option ThreadInfo) (s : Store) : Store :=
  match requests s with
  | [] => s
  | (pid, id) :: rest =>
      match objects s !! id with
      | Some o =>
          mkStore (objects s) (cache_ s) rest
            (if bool_decide (phase o = Gone) then None else Some (id, get_thread_ref pid)) (fetching s)
      | None => mkStore (objects s) (cache_ s) rest None (fetching s)
      end
  end.

(** And calls it, through the pointer to the object. *)
Definition serve_call (s : Store) : outcome Store :=
  match serving s with
  | None => Ret s
  | Some (id, info) =>
      match objects s !! id with
      | Some o =>
          if bool_decide (phase o = Gone) then Crash
          else
            Ret (mkStore (<[id := mkObj (ProcessInfoResolved info (obj o)) (refs o) (phase o)]> (objects s))
                   (cache_ s) (requests s) None (fetching s))
      | None => Crash
      end
  end.

(** ** Reading a process *)

Definition NOT_AVAILABLE : chars := chars_of "N/A".

(** The counter; the wait itself ends with a notification or after 30 seconds. *)
Definition WaitForProcessInfo (p : Process) (m : CollectorStats) : CollectorStats :=
  COUNTER_INC (if process_info_pending_resolution_ p then Counter.process_info_miss else Counter.process_info_hit) m.

(** The accessors, of the process as it is after the wait. *)
Definition info_or (f : ThreadInfo -> chars) (p : Process) : chars :=
  match system_inspector_threadinfo_ p with Some t => f t | None => NOT_AVAILABLE end.
Definition container_id : Process -> chars := info_or m_container_id.
Definition comm : Process -> chars := info_or m_comm.
Definition exe : Process -> chars := info_or m_exe.
Definition exe_path : Process -> chars := info_or m_exepath.
Definition args : Process -> chars := info_or (fun t => join (m_args t) " ").

(** ** The machine *)

Inductive StoreEvent :=
  | EFind (pid : Z) | EFinish (instance : bool) (call : nat) | ERetain (id : nat) | ERelease (id : nat)
  | EDestroy (id : nat) | EEnd (id : nat)
  | EServeLock (get_thread_ref : Z -> option ThreadInfo) | EServeCall.

Definition store_step (e : StoreEvent) (s : Store) : outcome Store :=
  match e with
  | EFind pid => Ret (mkStore (objects s) (cache_ s) (requests s) (serving s) (fetching s ++ [(pid, Fetch_find pid s)]))
  | EFinish instance call =>
      match fetching s !! call with
      | Some (pid, found) =>
          r ← Fetch_finish instance pid found (mkStore (objects s) (cache_ s) (requests s) (serving s) (delete call (fetching s)));
          Ret r.2
      | None => Ret s
      end
  | ERetain id => Ret (Retain id s)
  | ERelease id => Ret (Release id s)
  | EDestroy id => Ret (Process_destroy id s)
  | EEnd id => Ret (Process_end id s)
  | EServeLock get_thread_ref => match serving s with None => Ret (serve_lock get_thread_ref s) | Some _ => Ret s end
  | EServeCall => serve_call s
  end.

Fixpoint store_run (es : list StoreEvent) (s : Store) : outcome Store :=
  match es with
  | [] => Ret s
  | e :: rest => s ← store_step e s; store_run rest s
  end.

(** The accesses to the map do not overlap: no search and no destructor while a fetch is
    between its search and its end. *)
Definition alone (e : StoreEvent) (s : Store) : Prop :=
  match e with EFind _ | EDestroy _ => fetching s = [] | _ => True end.
Fixpoint serial (es : list StoreEvent) (s : Store) : Prop :=
  match es with
  | [] => True
  | e :: rest => alone e s /\ match store_step e s with Ret s => serial rest s | _ => True end
  end.

(** ** Invariant *)

(** An object whose destructor has not run. *)
Definition stored (o : Obj) : Prop := phase o = Alive \/ phase o = Dying.
Definition undestroyed (s : Store) (id : nat) (o : Obj) : Prop := objects s !! id = Some o /\ stored o.

Record store_ok (s : Store) : Prop := mkStoreOk {
  ok_cache : forall pid id, cache_ s !! pid = Some id -> exists o, undestroyed s id o /\ pid_ (obj o) = pid;
  ok_objects : forall id o, undestroyed s id o -> cache_ s !! pid_ (obj o) = Some id;
  ok_refs : forall id o, objects s !! id = Some o -> (phase o = Alive <-> refs o <> 0%nat);
  ok_pending : forall id o, undestroyed s id o -> process_info_pending_resolution_ (obj o) = true ->
    In (pid_ (obj o), id) (requests s) \/ exists info, serving s = Some (id, info);
  ok_requests : forall pid id, In (pid, id) (requests s) -> is_Some (objects s !! id);
  ok_serving : forall id info, serving s = Some (id, info) -> is_Some (objects s !! id)
}.

Lemma store_ok_empty : store_ok ProcessStore_make.
Proof.
  split; unfold undestroyed; cbn; intros; rewrite ?lookup_nil, ?lookup_empty in *; destruct_and?; done.
Qed.

(** An object is replaced by one of the same pid that is still there. *)
Lemma store_ok_set id o o' s :
  store_ok s -> objects s !! id = Some o -> pid_ (obj o') = pid_ (obj o) ->
  (stored o' <-> stored o) -> (phase o' = Alive <-> refs o' <> 0%nat) ->
  (process_info_pending_resolution_ (obj o') = true -> process_info_pending_resolution_ (obj o) = true) ->
  store_ok (set_obj id o' s).
Proof.
  intros Hok Ho Hp Hg Hr Hpend.
  assert (forall j x, objects (set_obj id o' s) !! j = Some x -> (j = id /\ x = o') \/ (j <> id /\ objects s !! j = Some x)) as Hlook.
  { intros j x. cbn. rewrite list_lookup_insert_Some. intros [(-> & -> & _)|[Hne Hx]]; [by left|right; auto]. }
  split; cbn [set_obj cache_ requests serving].
  - intros pid j Hc. destruct (ok_cache s Hok pid j Hc) as (x & [Hx Hnx] & Hpid). unfold undestroyed. cbn.
    destruct (decide (j = id)) as [->|Hne].
    + rewrite Ho in Hx. injection Hx as <-. exists o'. rewrite list_lookup_insert_eq by (by eapply lookup_lt_Some).
      split; [|congruence]. split; [done|]. tauto.
    + exists x. rewrite list_lookup_insert_ne by done. done.
  - intros j x [Hx Hnx]. apply Hlook in Hx as [[-> ->]|[_ Hx]].
    + rewrite Hp. apply (ok_objects s Hok). split; [done|tauto].
    + by apply (ok_objects s Hok).
  - intros j x Hx. apply Hlook in Hx as [[-> ->]|[_ Hx]]; [done|by apply (ok_refs s Hok) with j].
  - intros j x [Hx Hnx] Hpx. apply Hlook in Hx as [[-> ->]|[_ Hx]].
    + rewrite Hp. apply (ok_pending s Hok); [split; [done|tauto]|auto].
    + by apply (ok_pending s Hok).
  - intros pid j Hin. apply list_lookup_insert_is_Some. by eapply (ok_requests s Hok).
  - intros j info Hs. apply list_lookup_insert_is_Some. by eapply (ok_serving s Hok).
Qed.

Lemma weak_lock_ok id s : store_ok s -> store_ok (weak_lock id s).2.
Proof.
  intros Hok. unfold weak_lock. destruct (objects s !! id) as [o|] eqn:Ho; [|done]. case_bool_decide as Ha; [|done].
  cbn [snd]. apply store_ok_set with o; try done. unfold stored. cbn. rewrite Ha. tauto.
Qed.

(** The calls under way do not matter to the rest. *)
Lemma store_ok_fetching l s : store_ok s -> store_ok (mkStore (objects s) (cache_ s) (requests s) (serving s) l).
Proof. intros [H1 H2 H3 H4 H5 H6]. by split. Qed.

(** A fetch that ends with the map as it found it. *)
Lemma Fetch_ok instance pid s : store_ok s -> exists r s', Fetch instance pid s = Ret (r, s') /\ store_ok s' /\ fetching s' = fetching s.
Proof.
  intros Hok. unfold Fetch, Fetch_find, Fetch_finish. destruct (cache_ s !! pid) as [id|] eqn:Hc.
  { rewrite bool_decide_true by done. destruct (weak_lock id s) as [r s'] eqn:Ew. exists r, s'. split; [done|].
    pose proof (weak_lock_ok id s Hok) as Hw. rewrite Ew in Hw. split; [done|]. apply (f_equal (fun p => fetching p.2)) in Ew. cbn in Ew. rewrite <-Ew.
    unfold weak_lock. destruct (objects s !! id); [by case_bool_decide|done]. }
  cbn [Process_make objects cache_ requests serving fetching]. rewrite Hc. eexists _, _. split; [reflexivity|]. split; [|done].
  set (new := mkObj (mkProcess pid instance None) 1 Alive). set (id := length (objects s)).
  assert (forall j x, (objects s ++ [new]) !! j = Some x -> (j = id /\ x = new) \/ (j <> id /\ objects s !! j = Some x)) as Hlook.
  { intros j x Hx. apply lookup_app_Some in Hx as [Hx|[Hj Hx]].
    - right. split; [|done]. apply lookup_lt_Some in Hx. subst id. lia.
    - left. apply list_lookup_singleton_Some in Hx as [Hj0 ->]. split; [subst id; lia|done]. }
  assert (forall j x, objects s !! j = Some x -> (objects s ++ [new]) !! j = Some x) as Hold by (intros; by apply lookup_app_l_Some).
  split; cbn [objects cache_ requests serving]; unfold undestroyed; cbn [objects].
  - intros p j Hj. apply lookup_insert_Some in Hj as [[<- <-]|[Hne Hj]].
    + exists new. split; [|done]. split; [|by left]. subst id. by rewrite lookup_app_r, Nat.sub_diag by lia.
    + destruct (ok_cache s Hok p j Hj) as (x & [Hx Hn] & Hp). exists x. auto.
  - intros j x [Hx Hn]. apply Hlook in Hx as [[-> ->]|[_ Hx]]; [apply lookup_insert_eq|].
    assert (cache_ s !! pid_ (obj x) = Some j) as Hj by (by apply (ok_objects s Hok)).
    rewrite lookup_insert_ne; [done|]. congruence.
  - intros j x Hx. apply Hlook in Hx as [[-> ->]|[_ Hx]]; [done|by apply (ok_refs s Hok) with j].
  - intros j x [Hx Hn] Hpend. apply Hlook in Hx as [[-> ->]|[_ Hx]].
    + cbn in Hpend. subst instance. left. apply in_app_iff. right. by left.
    + destruct (ok_pending s Hok j x (conj Hx Hn) Hpend) as [Hin|]; [left|by right].
      destruct instance; [|done]. apply in_app_iff. by left.
  - intros p j Hin. assert (In (p, j) (requests s ++ [(pid, id)])) as Hin' by (destruct instance; [done|apply in_app_iff; by left]).
    apply in_app_iff in Hin' as [Hin'|[[= <- <-]|[]]].
    + destruct (ok_requests s Hok p j Hin') as [x Hx]. exists x. auto.
    + exists new. subst id. by rewrite lookup_app_r, Nat.sub_diag by lia.
  - intros j info Hs. destruct (ok_serving s Hok j info Hs) as [x Hx]. exists x. auto.
Qed.

Lemma Release_ok id s : store_ok s -> store_ok (Release id s).
Proof.
  intros Hok. unfold Release. destruct (objects s !! id) as [o|] eqn:Ho; [|done].
  pose proof (ok_refs s Hok id o Ho) as Hr. destruct (refs o) as [|[|n]] eqn:En.
  - case_bool_decide as Ha; [|done]. apply Hr in Ha. done.
  - rewrite bool_decide_true by (by apply Hr). apply store_ok_set with o; try done. unfold stored. cbn. rewrite (proj2 Hr) by done. tauto.
  - apply store_ok_set with o; try done. unfold stored. cbn. rewrite (proj2 Hr) by done. tauto.
Qed.

Lemma Process_destroy_ok id s : store_ok s -> store_ok (Process_destroy id s).
Proof.
  intros Hok. unfold Process_destroy. destruct (objects s !! id) as [o|] eqn:Ho; [|done]. case_bool_decide as Hd; [|done].
  assert (cache_ s !! pid_ (obj o) = Some id) as Hc by (apply (ok_objects s Hok); split; [done|by right]).
  assert (forall j x, <[id := mkObj (obj o) 0 Erased]> (objects s) !! j = Some x -> stored x -> j <> id /\ objects s !! j = Some x) as Hlook.
  { intros j x Hx Hn. apply list_lookup_insert_Some in Hx as [(_ & <- & _)|[Hne Hx]]; [by destruct Hn|auto]. }
  split; cbn [objects cache_ requests serving]; unfold undestroyed; cbn [objects].
  - intros pid j [Hne Hj]%lookup_delete_Some. destruct (ok_cache s Hok pid j Hj) as (x & [Hx Hn] & Hp). exists x.
    rewrite list_lookup_insert_ne; [done|]. intros ->. congruence.
  - intros j x [Hx Hn]. destruct (Hlook j x Hx Hn) as [Hne Hx'].
    assert (cache_ s !! pid_ (obj x) = Some j) as Hj by (by apply (ok_objects s Hok)).
    rewrite lookup_delete_ne; [done|]. congruence.
  - intros j x Hx. apply list_lookup_insert_Some in Hx as [(_ & <- & _)|[_ Hx]]; [done|by apply (ok_refs s Hok) with j].
  - intros j x [Hx Hn] Hp. destruct (Hlook j x Hx Hn) as [_ Hx']. by apply (ok_pending s Hok).
  - intros pid j Hin. apply list_lookup_insert_is_Some. by eapply (ok_requests s Hok).
  - intros j info Hs. apply list_lookup_insert_is_Some. by eapply (ok_serving s Hok).
Qed.

Lemma Process_end_ok id s : store_ok s -> store_ok (Process_end id s).
Proof.
  intros Hok. unfold Process_end. destruct (objects s !! id) as [o|] eqn:Ho; [|done]. case_bool_decide as Hd; [|done].
  apply store_ok_set with o; try done. unfold stored. cbn. rewrite Hd. intuition discriminate.
Qed.

Lemma serve_lock_ok get s : store_ok s -> serving s = None -> store_ok (serve_lock get s).
Proof.
  intros Hok Hns. unfold serve_lock. destruct (requests s) as [|[pid id] rest] eqn:Er; [done|].
  destruct (ok_requests s Hok pid id) as [o Ho]; [rewrite Er; by left|]. rewrite Ho.
  split; cbn [objects cache_ requests serving]; unfold undestroyed; cbn [objects].
  - apply (ok_cache s Hok).
  - apply (ok_objects s Hok).
  - apply (ok_refs s Hok).
  - intros j x [Hx Hn] Hp. destruct (ok_pending s Hok j x (conj Hx Hn) Hp) as [Hin|[info Hs]]; [|congruence].
    rewrite Er in Hin. destruct Hin as [[= _ <-]|Hin]; [|by left]. right. rewrite Ho in Hx. injection Hx as ->.
    rewrite bool_decide_false by (destruct Hn; congruence). by eexists.
  - intros p j Hin. eapply (ok_requests s Hok). rewrite Er. by right.
  - intros j info. case_bool_decide; [done|]. intros [= <- _]. by exists o.
Qed.

Lemma serve_call_ok s s' : store_ok s -> serve_call s = Ret s' -> store_ok s'.
Proof.
  intros Hok. unfold serve_call. destruct (serving s) as [[id info]|] eqn:Es; [|by intros [= <-]].
  destruct (objects s !! id) as [o|] eqn:Ho; [|done]. case_bool_decide as Hg; [done|]. intros [= <-].
  set (o' := mkObj (ProcessInfoResolved info (obj o)) (refs o) (phase o)).
  assert (store_ok (set_obj id o' s)) as Hs by (apply (store_ok_set id o); try done; exact (ok_refs s Hok id o Ho)).
  split; cbn [objects cache_ requests serving]; try done.
  - apply (ok_cache _ Hs).
  - apply (ok_objects _ Hs).
  - apply (ok_refs _ Hs).
  - intros j x [Hx Hn] Hp. destruct (ok_pending _ Hs j x (conj Hx Hn) Hp) as [Hin|[i Hi]]; [by left|].
    cbn [set_obj serving] in Hi. rewrite Es in Hi. injection Hi as <- <-. cbn [objects] in Hx.
    rewrite list_lookup_insert_eq in Hx by (by eapply lookup_lt_Some). injection Hx as <-. done.
  - apply (ok_requests _ Hs).
Qed.

(** At most one fetch is between its search and its end, and the map is as it found it. *)
Definition serial_ok (s : Store) : Prop := store_ok s /\ (fetching s = [] \/ exists pid, fetching s = [(pid, cache_ s !! pid)]).

(** What does not touch the map keeps this. *)
Lemma serial_ok_same s s' : serial_ok s -> store_ok s' -> cache_ s' = cache_ s -> fetching s' = fetching s -> serial_ok s'.
Proof. intros [_ Hf] Hok Hc Hfe. split; [done|]. by rewrite Hc, Hfe. Qed.

Lemma weak_lock_same id s : cache_ (weak_lock id s).2 = cache_ s /\ fetching (weak_lock id s).2 = fetching s.
Proof. unfold weak_lock. destruct (objects s !! id); [by case_bool_decide|done]. Qed.

Lemma store_step_ok e s s' : serial_ok s -> alone e s -> store_step e s = Ret s' -> serial_ok s'.
Proof.
  intros Hser Ha. pose proof Hser as [Hok Hf]. destruct e; cbn [store_step alone] in *.
  - intros [= <-]. split; [by apply store_ok_fetching|]. right. exists pid. cbn. by rewrite Ha.
  - destruct (fetching s !! call) as [[pid found]|] eqn:Ec; [|by intros [= <-]].
    destruct Hf as [Hf|[p Hf]]; rewrite Hf in Ec; [done|]. destruct call as [|call]; [|by destruct call]. injection Ec as <- <-. rewrite Hf. cbn [delete list_delete].
    destruct (Fetch_ok instance p _ (store_ok_fetching [] s Hok)) as (r & s1 & E & Hok1 & Hf1).
    change (Fetch_finish instance p (cache_ s !! p) (mkStore (objects s) (cache_ s) (requests s) (serving s) [])) with (Fetch instance p (mkStore (objects s) (cache_ s) (requests s) (serving s) [])).
    rewrite E. cbn [mbind outcome_bind snd]. intros [= <-]. split; [done|]. by left.
  - intros [= <-]. destruct (weak_lock_same id s). eapply serial_ok_same; [done|by apply weak_lock_ok|done|done].
  - intros [= <-]. eapply serial_ok_same; [done|by apply Release_ok| |]; unfold Release; by repeat case_match.
  - intros [= <-]. split; [by apply Process_destroy_ok|]. left. unfold Process_destroy. by repeat case_match.
  - intros [= <-]. eapply serial_ok_same; [done|by apply Process_end_ok| |]; unfold Process_end; by repeat case_match.
  - destruct (serving s) eqn:Es; intros [= <-]; [done|]. eapply serial_ok_same; [done|by apply serve_lock_ok| |]; unfold serve_lock; by repeat case_match.
  - intros E. eapply serial_ok_same; [done|by eapply serve_call_ok| |]; unfold serve_call in E; repeat case_hyp E; try discriminate E; by injection E as <-.
Qed.

Lemma store_run_ok es s s' : serial_ok s -> serial es s -> store_run es s = Ret s' -> serial_ok s'.
Proof.
  revert s. induction es as [|e es IH]; intros s Hok Hs; cbn; [by intros [= <-]|]. destruct Hs as [Ha Hs]. intros H. inv_bind H. rewrite E in Hs.
  eapply IH; [|exact Hs|exact H]. by eapply store_step_ok.
Qed.

(** ** Calls and destructors *)

(** An object whose members are there. *)
Definition there (s : Store) (id : nat) : Prop := exists o, objects s !! id = Some o /\ phase o <> Gone.

Lemma set_keeps j x s id : there s id -> phase x <> Gone -> there (set_obj j x s) id.
Proof.
  intros (o & Ho & Hn) Hx. unfold there. cbn. destruct (decide (j = id)) as [->|Hne].
  - exists x. by rewrite list_lookup_insert_eq by (by eapply lookup_lt_Some).
  - exists o. by rewrite list_lookup_insert_ne.
Qed.

Lemma weak_lock_keeps j s id : there s id -> there (weak_lock j s).2 id.
Proof. intros Ht. unfold weak_lock. destruct (objects s !! j); [|done]. case_bool_decide; [|done]. by apply set_keeps. Qed.

(** Only the end of its destructor destroys an object. *)
Lemma store_step_keeps e s s' id : store_step e s = Ret s' -> there s id -> e <> EEnd id -> there s' id.
Proof.
  intros H Ht Hne. destruct e; cbn [store_step] in H.
  - by injection H as <-.
  - destruct (fetching s !! call) as [[pid found]|]; [|by injection H as <-]. destruct (Fetch_finish _ _ _ _) as [[r s1]| |] eqn:E; cbn [mbind outcome_bind] in H; [|done..]. injection H as <-. cbn [snd].
    unfold Fetch_finish in E. destruct found as [j|].
    + case_bool_decide; [|done]. apply (f_equal (fun o => match o with Ret p => p.2 | _ => s end)) in E. cbn in E. rewrite <-E. by apply weak_lock_keeps.
    + cbn [Process_make] in E. injection E as _ <-. destruct Ht as (o & Ho & Hn). exists o. split; [|done]. cbn. by apply lookup_app_l_Some.
  - injection H as <-. by apply weak_lock_keeps.
  - injection H as <-. unfold Release. destruct (objects s !! id0) as [x|]; [|done].
    destruct (refs x) as [|[|n]]; [case_bool_decide; [|done]|case_bool_decide; [|done]|]; by apply set_keeps.
  - injection H as <-. unfold Process_destroy. destruct (objects s !! id0) as [x|]; [|done]. case_bool_decide; [|done].
    exact (set_keeps id0 (mkObj (obj x) 0 Erased) s id Ht ltac:(done)).
  - injection H as <-. unfold Process_end. destruct (objects s !! id0) as [x|]; [|done]. case_bool_decide; [|done].
    destruct Ht as (o & Ho & Hn). exists o. cbn. rewrite list_lookup_insert_ne; [done|congruence].
  - destruct (serving s); injection H as <-; [done|]. unfold serve_lock, there in *.
    destruct (requests s) as [|[pid j] rest]; [done|]. by destruct (objects s !! j).
  - unfold serve_call in H. destruct (serving s) as [[j info]|]; [|by injection H as <-].
    destruct (objects s !! j) as [x|]; [|done]. case_bool_decide as Hg; [done|]. injection H as <-.
    exact (set_keeps j (mkObj (ProcessInfoResolved info (obj x)) (refs x) (phase x)) s id Ht Hg).
Qed.

(** The callback that is called belongs to an object that is there. *)
Definition serving_there (s : Store) : Prop := forall id info, serving s = Some (id, info) -> there s id.

Lemma weak_lock_serving id s : serving (weak_lock id s).2 = serving s.
Proof. unfold weak_lock. destruct (objects s !! id); [by case_bool_decide|done]. Qed.

Lemma store_step_serving e s s' id info :
  store_step e s = Ret s' -> serving s' = Some (id, info) -> serving s = Some (id, info) \/ there s' id.
Proof.
  intros H Hs. destruct e; cbn [store_step] in H.
  - injection H as <-. by left.
  - left. destruct (fetching s !! call) as [[pid found]|]; [|by injection H as <-]. destruct (Fetch_finish _ _ _ _) as [[r s1]| |] eqn:E; cbn [mbind outcome_bind] in H; [|done..]. injection H as <-. cbn [snd] in Hs.
    unfold Fetch_finish in E. destruct found as [j|].
    + case_bool_decide; [|done]. apply (f_equal (fun o => match o with Ret p => serving p.2 | _ => None end)) in E. cbn in E. by rewrite weak_lock_serving, Hs in E.
    + cbn [Process_make] in E. by injection E as _ <-.
  - injection H as <-. left. by rewrite <-(weak_lock_serving id0 s).
  - injection H as <-. left. revert Hs. unfold Release. by repeat case_match.
  - injection H as <-. left. revert Hs. unfold Process_destroy. by repeat case_match.
  - injection H as <-. left. revert Hs. unfold Process_end. by repeat case_match.
  - destruct (serving s) eqn:Es; injection H as <-; [left; congruence|]. right. revert Hs. unfold serve_lock, there.
    destruct (requests s) as [|[pid j] rest]; [congruence|]. destruct (objects s !! j) as [x|] eqn:Hx; [|done].
    cbn [serving objects]. case_bool_decide as Hg; [done|]. intros [= <- _]. by exists x.
  - unfold serve_call in H. destruct (serving s) as [[j i]|] eqn:Es; [|injection H as <-; congruence].
    destruct (objects s !! j); [|done]. case_bool_decide; [done|]. by injection H as <-.
Qed.

(** What kills a serial run: only the call of a callback whose object is gone. *)
Lemma store_step_crash e s : serial_ok s -> serving_there s -> store_step e s <> Crash.
Proof.
  intros [Hok Hf] Ht E. destruct e; cbn [store_step] in E; try done.
  - destruct (fetching s !! call) as [[pid found]|] eqn:Ec; [|done]. destruct Hf as [Hf|[p Hf]]; rewrite Hf in Ec; [done|].
    destruct call as [|call]; [|by destruct call]. injection Ec as <- <-.
    destruct (Fetch_ok instance p _ (store_ok_fetching (delete 0%nat (fetching s)) s Hok)) as (r & s1 & E1 & _).
    change (Fetch instance p (mkStore (objects s) (cache_ s) (requests s) (serving s) (delete 0%nat (fetching s))))
      with (Fetch_finish instance p (cache_ s !! p) (mkStore (objects s) (cache_ s) (requests s) (serving s) (delete 0%nat (fetching s)))) in E1.
    by rewrite E1 in E.
  - by destruct (serving s).
  - unfold serve_call in E. destruct (serving s) as [[id info]|] eqn:Es; [|done]. destruct (Ht id info Es) as (o & Ho & Hn). rewrite Ho in E.
    by rewrite bool_decide_false in E.
Qed.

Lemma store_run_crash es s : serial_ok s -> serial es s -> serving_there s -> store_run es s = Crash ->
  exists pre id rest s1 info, es = pre ++ EEnd id :: rest /\ store_run pre s = Ret s1 /\ serving s1 = Some (id, info).
Proof.
  revert s. induction es as [|e es IH]; intros s Hok Hser Ht; cbn [store_run]; [done|]. destruct Hser as [Ha Hser].
  destruct (store_step e s) as [s1| |] eqn:E; cbn [mbind outcome_bind]; [|done|by destruct (store_step_crash e s Hok Ht)].
  intros H.
  assert (forall id, e = EEnd id \/ e <> EEnd id) as Hdec.
  { intros id. destruct e; try (by right). destruct (decide (id0 = id)); [left|right]; congruence. }
  assert (serving_there s1 \/ exists id info, e = EEnd id /\ serving s = Some (id, info)) as [Ht1|(id & info & -> & Hs)].
  { destruct (serving s) as [[id info]|] eqn:Es.
    - destruct (Hdec id) as [->|Hne]; [right; eauto|]. left. intros j i Hj.
      destruct (store_step_serving _ _ _ _ _ E Hj) as [Hj'|]; [|done]. rewrite Es in Hj'. injection Hj' as <- <-.
      eapply store_step_keeps; [exact E|by eapply Ht|done].
    - left. intros j i Hj. destruct (store_step_serving _ _ _ _ _ E Hj) as [Hj'|]; [congruence|done]. }
  - destruct (IH s1 (store_step_ok _ _ _ Hok Ha E) Hser Ht1 H) as (pre & id & rest & s2 & info & -> & Hr & Hs). exists (e :: pre), id, rest, s2, info.
    split; [done|]. split; [|done]. cbn [store_run]. rewrite E. exact Hr.
  - exists [], id, es, s, info. done.
Qed.

Lemma store_run_returns es : forall s, store_run es s <> Blocked.
Proof.
  induction es as [|e es IH]; intros s; [done|]. cbn [store_run]. destruct (store_step e s) as [s1| |] eqn:E; cbn [mbind outcome_bind]; [apply IH| |done].
  exfalso. destruct e; cbn [store_step] in E; try done.
  - destruct (fetching s !! call) as [[pid found]|]; [|done]. unfold Fetch_finish in E. destruct found; [|done]. by case_bool_decide.
  - by destruct (serving s).
  - unfold serve_call in E. by repeat case_hyp E.
Qed.

Lemma serial_ok_empty : serial_ok ProcessStore_make.
Proof. split; [apply store_ok_empty|by left]. Qed.

(** ** Properties *)

(** C34: in every interleaving of the threads in which the accesses to the map, by fetches
    and destructors, do not overlap (in the program the notifier's thread makes them;
    the map has no lock), the store never holds two processes of one pid: a fetch
    returns, of a pid whose process is referenced that process, of one whose process is
    about to be destroyed null, and otherwise a new process; and a process whose
    information is outstanding has a request under way.  Nothing can go wrong but the
    call of a callback whose process has been destroyed since the inspector locked it. *)
Theorem process_store_consistent es :
  serial es ProcessStore_make ->
  match store_run es ProcessStore_make with
  | Ret s =>
      (forall id id' o o', undestroyed s id o -> undestroyed s id' o' -> pid_ (obj o) = pid_ (obj o') -> id = id') /\
      (forall instance id o, undestroyed s id o ->
         exists s', Fetch instance (pid_ (obj o)) s = Ret (if bool_decide (refs o = 0%nat) then None else Some id, s')) /\
      (forall instance pid, (forall id o, undestroyed s id o -> pid_ (obj o) <> pid) ->
         exists s', Fetch instance pid s = Ret (Some (length (objects s)), s')) /\
      (forall id o, undestroyed s id o -> process_info_pending_resolution_ (obj o) = true ->
         In (pid_ (obj o), id) (requests s) \/ exists info, serving s = Some (id, info))
  | Crash => exists pre id rest s info,
      es = pre ++ EEnd id :: rest /\ store_run pre ProcessStore_make = Ret s /\ serving s = Some (id, info)
  | Blocked => False
  end.
Proof.
  intros Hser. destruct (store_run es ProcessStore_make) as [s| |] eqn:H.
  - destruct (store_run_ok es _ s serial_ok_empty Hser H) as [Hok _]. split_and!.
    + intros id id' o o' Ho Ho' Hp. apply (ok_objects s Hok) in Ho, Ho'. rewrite Hp in Ho. congruence.
    + intros instance id o Ho. unfold Fetch, Fetch_find, Fetch_finish. rewrite (ok_objects s Hok id o Ho), bool_decide_true by done. unfold weak_lock.
      destruct Ho as [Ho Hn]. rewrite Ho. pose proof (ok_refs s Hok id o Ho) as Hr.
      destruct (decide (refs o = 0%nat)) as [Hz|Hz].
      * rewrite (bool_decide_true (refs o = _)) by done. rewrite bool_decide_false; [by eexists|]. tauto.
      * rewrite (bool_decide_false (refs o = _)) by done. rewrite bool_decide_true by (by apply Hr). by eexists.
    + intros instance pid Hno. unfold Fetch, Fetch_find, Fetch_finish. destruct (cache_ s !! pid) as [id|] eqn:Hc; [|by eexists].
      destruct (ok_cache s Hok pid id Hc) as (o & Ho & Hp). by destruct (Hno id o).
    + apply (ok_pending s Hok).
  - by apply store_run_returns in H.
  - by apply (store_run_crash es _ serial_ok_empty).
Qed.

Definition race : list StoreEvent := [EFind 7; EFinish true 0; EServeLock (fun _ => None); ERelease 0; EDestroy 0; EEnd 0; EServeCall].

(** That this can happen: the pointer that the callback is bound to does not keep
    the object alive. *)
Theorem destroyed_during_call : store_run race ProcessStore_make = Crash.
Proof. reflexivity. Qed.

(** Two fetches of one pid that overlap can both find nothing and make a process each; the
    store knows the first, and the destructor of either removes its entry. *)
Definition overlap : list StoreEvent := [EFind 7; EFind 7; EFinish true 0; EFinish true 0].
Theorem overlapping_fetches : exists s, store_run overlap ProcessStore_make = Ret s /\
  undestroyed s 0 (mkObj (mkProcess 7 true None) 1 Alive) /\ undestroyed s 1 (mkObj (mkProcess 7 true None) 1 Alive) /\ cache_ s !! 7 = Some 0%nat.
Proof. eexists. split; [reflexivity|]. split; [split; [reflexivity|by left]|]. split; [split; [reflexivity|by left]|reflexivity]. Qed.

(** A destructor between the search of a fetch and its end leaves a dangling iterator. *)
Theorem erased_under_fetch : store_run [EFind 7; EFinish true 0; EFind 7; ERelease 0; EDestroy 0; EFinish true 0] ProcessStore_make = Crash.
Proof. reflexivity. Qed.

(** ** Witnesses *)

Definition wit_events : list StoreEvent := [EFind 7; EFinish true 0; ERetain 0; ERelease 0; EFind 9; EFinish true 0; ERelease 1].
Definition wit_store : Store :=
  match store_run wit_events ProcessStore_make with Ret s => s | _ => ProcessStore_make end.

Lemma process_store_consistent_witness :
  (exists s, Fetch true 7 wit_store = Ret (Some 0%nat, s)) /\ (exists s, Fetch true 9 wit_store = Ret (None, s)) /\ (exists s, Fetch true 11 wit_store = Ret (Some 2%nat, s)).
Proof.
  assert (store_run wit_events ProcessStore_make = Ret wit_store) as H by reflexivity.
  assert (serial wit_events ProcessStore_make) as Hser by (vm_compute; tauto).
  assert (objects wit_store = [mkObj (mkProcess 7 true None) 1 Alive; mkObj (mkProcess 9 true None) 0 Dying]) as Ho by reflexivity.
  pose proof (process_store_consistent wit_events Hser) as Hall. rewrite H in Hall. destruct Hall as (_ & Hf & Hn & _).
  clear H Hser. revert Ho Hf Hn. generalize wit_store. intros s Ho Hf Hn. split_and!.
  - apply (Hf true 0%nat (mkObj (mkProcess 7 true None) 1 Alive)). unfold undestroyed. rewrite Ho. split; [reflexivity|by left].
  - apply (Hf true 1%nat (mkObj (mkProcess 9 true None) 0 Dying)). unfold undestroyed. rewrite Ho. split; [reflexivity|by right].
  - specialize (Hn true 11). rewrite Ho in Hn. apply Hn. intros id o [Hx _]. rewrite Ho in Hx.
    destruct id as [|[|id]]; [injection Hx as <-; discriminate ..|discriminate].
Defined.
