(* ===== verification/Inspector.v ===== *)
(** * The inspector service ([system-inspector/Service.cpp], [SelfCheckHandler.cpp])

    The service takes events from libsinsp, filters them and gives each to the
    handlers that subscribed to its type.  libsinsp is represented by its
    results: what [next] returns, the threads of the table, the thread of a pid.
    The handlers are used through the class [SignalHandler]; its instance is the
    sum of the four handlers of the program. *)

From stdpp Require Import relations.
From S2P Require Import Prelude HostOrder UMap NetAddress Connection ConnStatus Delta RateLimit CollectorStats ConnTracker CStrings Utility Signals Duplex SignalClient ProcessSignals.

(** ** The handlers of the self checks *)

Definition kSelfChecksExePath : chars := chars_of "/usr/local/bin/self-checks".
Definition kSelfChecksName : chars := chars_of "self-checks".
Definition kSelfCheckServerPort : Z := 13037.

(** Times of the steady clock in nanoseconds. *)
Record SelfCheckHandler := mkSelfCheckHandler { start_ : Z; timeout_ : Z }.
Definition SelfCheckHandler_make (now : Z) : SelfCheckHandler := mkSelfCheckHandler now (5 * 1000000000).

Definition hasTimedOut (now : Z) (h : SelfCheckHandler) : bool := start_ h + timeout_ h <? now.

Definition isSelfCheckEvent (evt : ProcEvt) : bool :=
  match get_comm evt, get_exe evt with
  | Some name, Some exe => eq_chars name kSelfChecksName && eq_chars exe kSelfChecksExePath
  | _, _ => false
  end.

Definition SelfCheckProcess_HandleSignal (now : Z) (evt : ProcEvt) (h : SelfCheckHandler) : SignalResult.t :=
  if hasTimedOut now h then SignalResult.FINISHED
  else if isSelfCheckEvent evt then SignalResult.FINISHED
  else SignalResult.IGNORED.

Definition SelfCheckNetwork_HandleSignal (now : Z) (evt : ProcEvt) (h : SelfCheckHandler) : SignalResult.t :=
  if hasTimedOut now h then SignalResult.FINISHED
  else if negb (isSelfCheckEvent evt) then SignalResult.IGNORED
  else
    match get_server_port evt, get_client_port evt with
    | Some server_port, Some client_port =>
        if (server_port =? kSelfCheckServerPort) && negb (client_port =? u16 (-1))
        then SignalResult.FINISHED else SignalResult.IGNORED
    | _, _ => SignalResult.IGNORED
    end.

Definition SelfCheckProcess_GetRelevantEvents : list string := ["execve<"].
Definition SelfCheckNetwork_GetRelevantEvents : list string :=
  ["close<"; "shutdown<"; "connect<"; "accept<"; "listen<"].

(** ** What the handlers change *)

(** The tracker, what the process handler shares, and the number of readings of
    the steady clock. *)
Record SWorld := mkSWorld { tracker : ConnectionTracker; pworld : World; steady_ : nat }.

Definition set_pworld (p : World) (w : SWorld) : SWorld := mkSWorld (tracker w) p (steady_ w).

Class SignalHandler (H : Type) := {
  handler_Start : H -> H;
  handler_Stop : H -> outcome H;
  handle_signal : ProcEvt -> H -> SWorld -> outcome (SignalResult.t * H * SWorld);
  handle_existing : ThreadInfo -> H -> SWorld -> outcome (SignalResult.t * H * SWorld);
  relevant_events : H -> list string
}.

(** The process counters live in [World]; what remains of [Stats] are arrays by
    event type. *)
Record EventStats := mkEventStats {
  nUserspaceEvents : list Z; nFilteredEvents : list Z; event_parse_micros : list Z; event_process_micros : list Z
}.

(** [a[i] += d] on 64 bits; types are below the length of the arrays. *)
Definition array_add (i d : Z) (a : list Z) : list Z := alter (fun x => u64 (x + d)) (Z.to_nat i) a.
(** [bits[i]] and [bits.set(i)]. *)
Definition bit_test (i : Z) (bits : list bool) : bool := default false (at_index bits i).
Definition bit_set (i : Z) (bits : list bool) : list bool := <[Z.to_nat i := true]> bits.

(** ** The service *)

Section service.
Context {H : Type} `{SignalHandler H} `{Sinsp}.

Record SignalHandlerEntry := mkEntry { handler : H; event_filter : list bool }.

(** [inspector_] is whether the pointer is set.  A request names its callback. *)
Record Service := mkService {
  inspector_ : bool; signal_handlers_ : list SignalHandlerEntry; userspace_stats_ : EventStats;
  global_event_filter_ : list bool; running_flag_ : bool; pending_process_requests_ : list (Z * Z)
}.

Definition set_handlers (hs : list SignalHandlerEntry) (s : Service) : Service :=
  mkService (inspector_ s) hs (userspace_stats_ s) (global_event_filter_ s) (running_flag_ s)
    (pending_process_requests_ s).
Definition set_stats (u : EventStats) (s : Service) : Service :=
  mkService (inspector_ s) (signal_handlers_ s) u (global_event_filter_ s) (running_flag_ s)
    (pending_process_requests_ s).
Definition set_requests (r : list (Z * Z)) (s : Service) : Service :=
  mkService (inspector_ s) (signal_handlers_ s) (userspace_stats_ s) (global_event_filter_ s) (running_flag_ s) r.

Definition ShouldHandle (entry : SignalHandlerEntry) (evt : ProcEvt) : bool :=
  bit_test (evt_type evt) (event_filter entry).

(** *** Handlers *)

(** The ids of the names are set in both filters; an unknown name throws. *)
Fixpoint subscribe (e : EventNames) (names : list string) (filter global : list bool)
    : outcome (list bool * list bool) :=
  match names with
  | [] => Ret (filter, global)
  | name :: rest =>
      match GetEventIDs e name with
      | None => Crash
      | Some ids =>
          subscribe e rest (fold_left (fun f id => bit_set id f) ids filter)
            (fold_left (fun f id => bit_set id f) ids global)
      end
  end.

Definition AddSignalHandler (e : EventNames) (PPM_EVENT_MAX : nat) (h : H) (s : Service) : outcome Service :=
  let event_filter := replicate PPM_EVENT_MAX false in
  '(event_filter, global) ←
    match relevant_events h with
    | [] => Ret (replicate PPM_EVENT_MAX true, global_event_filter_ s)
    | names => subscribe e names event_filter (global_event_filter_ s)
    end;
  Ret (mkService (inspector_ s) (signal_handlers_ s ++ [mkEntry h event_filter]) (userspace_stats_ s) global
         (running_flag_ s) (pending_process_requests_ s)).

Definition map_handlers (f : H -> H) (hs : list SignalHandlerEntry) : list SignalHandlerEntry :=
  map (fun entry => mkEntry (f (handler entry)) (event_filter entry)) hs.

(** [Start]: every [Start] of a handler returns true. *)
Definition Service_Start (s : Service) : outcome Service :=
  if negb (inspector_ s) then Crash
  else
    Ret (mkService true (map_handlers handler_Start (signal_handlers_ s)) (userspace_stats_ s)
           (global_event_filter_ s) true (pending_process_requests_ s)).

(** *** Events *)

Definition FilterEvent (tinfo : option ThreadInfo) : bool :=
  match tinfo with
  | None => false
  | Some t =>
      if (eq_chars (m_exepath t) (chars_of "runc") || eq_chars (m_exepath t) (chars_of "/usr/bin/runc")) &&
         eq_chars (m_comm t) (chars_of "6")
      then false
      else
        let exepath :=
          match rfind (chars_of ":") (m_exepath t) with
          | Some marker => drop (marker + 1) (m_exepath t)
          | None => m_exepath t
          end in
        negb (starts_with (chars_of "/proc/self") exepath)
  end.

(** What [inspector_->next] returns: nothing, or an event and whether it is
    internal.  [parse_micros] is the time between the two readings of the clock. *)
Record Next := mkNext { next_event : option ProcEvt; is_internal : bool; parse_micros : Z }.

Definition GetNext (is_rhel76 : bool) (n : Next) (s : Service) : option ProcEvt * Service :=
  match next_event n with
  | None => (None, s)
  | Some event =>
      if is_internal n then (None, s)
      else if is_rhel76 && negb (bit_test (evt_type event) (global_event_filter_ s)) then (None, s)
      else
        let u := userspace_stats_ s in
        let u := mkEventStats (array_add (evt_type event) 1 (nUserspaceEvents u)) (nFilteredEvents u)
                   (array_add (evt_type event) (parse_micros n) (event_parse_micros u)) (event_process_micros u) in
        if negb (FilterEvent (get_thread_info event false)) then (None, set_stats u s)
        else
          let u := mkEventStats (nUserspaceEvents u) (array_add (evt_type event) 1 (nFilteredEvents u))
                     (event_parse_micros u) (event_process_micros u) in
          (Some event, set_stats u s)
  end.

Definition LogUnreasonableEventTime (time_micros : Z) (evt : ProcEvt) (m : CollectorStats) : CollectorStats :=
  let evt_ts := s64 (evt_ts evt / 1000) in
  let max_past_time := 3600000000 in
  let max_future_time := 5000000 in
  let time_diff := time_micros - evt_ts in
  let m := if max_past_time <? time_diff then COUNTER_INC Counter.event_timestamp_distant_past m else m in
  if time_diff <? - max_future_time then COUNTER_INC Counter.event_timestamp_future m else m.

Definition log_time (time_micros : Z) (evt : ProcEvt) (w : SWorld) : SWorld :=
  set_pworld (set_metrics (LogUnreasonableEventTime time_micros evt (metrics (pworld w))) (pworld w)) w.

(** The callback of the loop over the threads. *)
Fixpoint send_existing (threads : list ThreadInfo) (h : H) (w : SWorld) : outcome (bool * H * SWorld) :=
  match threads with
  | [] => Ret (true, h, w)
  | t :: rest =>
      if negb (is_empty (m_container_id t)) && is_main_thread t then
        '(result, h, w) ← handle_existing t h w;
        match result with
        | SignalResult.ERROR | SignalResult.NEEDS_REFRESH => Ret (false, h, w)
        | _ => send_existing rest h w
        end
      else send_existing rest h w
  end.

(** [threads] is the table of the thread manager, if there is one. *)
Definition SendExistingProcesses (threads : option (list ThreadInfo)) (h : H) (w : SWorld)
    : outcome (bool * H * SWorld) :=
  match threads with
  | None => Ret (false, h, w)
  | Some threads => send_existing threads h w
  end.

(** The loop over the handlers in [Run]. *)
Fixpoint dispatch (threads : option (list ThreadInfo)) (process_start : Z) (evt : ProcEvt)
    (hs : list SignalHandlerEntry) (w : SWorld) : outcome (list SignalHandlerEntry * SWorld) :=
  match hs with
  | [] => Ret ([], w)
  | entry :: rest =>
      let continue h w :=
        '(rest, w) ← dispatch threads process_start evt rest w;
        Ret (mkEntry h (event_filter entry) :: rest, w) in
      if negb (ShouldHandle entry evt) then continue (handler entry) w
      else
        let w := log_time process_start evt w in
        '(result, h, w) ← handle_signal evt (handler entry) w;
        match result with
        | SignalResult.NEEDS_REFRESH =>
            '(all_sent, h, w) ← SendExistingProcesses threads h w;
            if negb all_sent then continue h w
            else
              '(_, h, w) ← handle_signal evt h w;
              continue h w
        | SignalResult.FINISHED => Ret (rest, w)
        | _ => continue h w
        end
  end.

(** *** Requests for processes *)

Definition GetProcessInformation (pid callback : Z) (s : Service) : Service :=
  set_requests (pending_process_requests_ s ++ [(pid, callback)]) s.

(** The calls of the callbacks that still exist, with the threads found. *)
Definition ServePendingProcessRequests (alive : Z -> bool) (get_thread_ref : Z -> option ThreadInfo) (s : Service)
    : list (Z * option ThreadInfo) * Service :=
  (map (fun r => (r.2, get_thread_ref r.1)) (List.filter (fun r => alive r.2) (pending_process_requests_ s)),
   set_requests [] s).

(** *** The loop *)

(** One iteration: what the environment gives it. *)
Record Tick := mkTick {
  tick_alive : Z -> bool; tick_thread_ref : Z -> option ThreadInfo; tick_next : Next;
  tick_threads : option (list ThreadInfo); tick_process_start : Z; tick_process_micros : Z
}.

(** The calls made so far, the service and what the handlers changed. *)
Definition RunState : Type := list (Z * option ThreadInfo) * Service * SWorld.

Definition run_tick (is_rhel76 : bool) (t : Tick) (st : RunState) : outcome RunState :=
  let '(calls, s, w) := st in
  let '(new_calls, s) := ServePendingProcessRequests (tick_alive t) (tick_thread_ref t) s in
  let calls := calls ++ new_calls in
  match GetNext is_rhel76 (tick_next t) s with
  | (None, s) => Ret (calls, s, w)
  | (Some evt, s) =>
      '(hs, w) ← dispatch (tick_threads t) (tick_process_start t) evt (signal_handlers_ s) w;
      let u := userspace_stats_ s in
      let u := mkEventStats (nUserspaceEvents u) (nFilteredEvents u) (event_parse_micros u)
                 (array_add (evt_type evt) (tick_process_micros t) (event_process_micros u)) in
      Ret (calls, set_stats u (set_handlers hs s), w)
  end.

(** [Run] while the control value says so: one tick per iteration. *)
Fixpoint run_loop (is_rhel76 : bool) (ticks : list Tick) (st : RunState) : outcome RunState :=
  match ticks with
  | [] => Ret st
  | t :: rest => st ← run_tick is_rhel76 t st; run_loop is_rhel76 rest st
  end.
Definition Run (is_rhel76 : bool) (ticks : list Tick) (s : Service) (w : SWorld) : outcome RunState :=
  if negb (inspector_ s) then Crash else run_loop is_rhel76 ticks ([], s, w).

(** *** The end *)

Fixpoint stop_all (hs : list SignalHandlerEntry) : outcome (list SignalHandlerEntry) :=
  match hs with
  | [] => Ret []
  | entry :: rest =>
      h ← handler_Stop (handler entry);
      rest ← stop_all rest;
      Ret (mkEntry h (event_filter entry) :: rest)
  end.

(** The calls of the callbacks, without a thread, and the service.  The stopped
    handlers are destroyed. *)
Definition CleanUp (alive : Z -> bool) (s : Service) : outcome (list (Z * option ThreadInfo) * Service) :=
  if negb (inspector_ s) then Crash
  else
    _ ← stop_all (signal_handlers_ s);
    Ret (map (fun r => (r.2, None)) (List.filter (fun r => alive r.2) (pending_process_requests_ s)),
         mkService false [] (userspace_stats_ s) (global_event_filter_ s) false []).

End service.
Arguments SignalHandlerEntry : clear implicits.
Arguments Service : clear implicits.

(** ** The handlers of the program *)

Section program.
Context `{HS : Sinsp} `{ho : HostOrder} {C : Type} `{HC : ISignalServiceClient SignalStreamMessage C}.
Variable Span : chars -> nat.
Variable UUIDStr : nat -> chars.
Variable DisableProcessArguments : bool.
Variable clock : nat -> Readings.
(** Readings of the steady clock. *)
Variable steady : nat -> Z.
(** The event maps of the network handler and of the formatter. *)
Variable modifiers : EventMap Modifier.t.
Variable process_signals : EventMap ProcessSignalType.t.

Inductive Handler :=
  | SelfCheckProcessHandler (h : SelfCheckHandler)
  | SelfCheckNetworkHandler (h : SelfCheckHandler)
  | NetworkHandler (h : NetworkSignalHandler)
  | ProcessHandler (h : ProcessSignalHandler (C := C)).

(** A reading of the steady clock. *)
Definition read_steady (w : SWorld) : Z * SWorld :=
  (steady (steady_ w), mkSWorld (tracker w) (pworld w) (S (steady_ w))).

Definition Handler_HandleSignal (evt : ProcEvt) (h : Handler) (w : SWorld)
    : outcome (SignalResult.t * Handler * SWorld) :=
  match h with
  | SelfCheckProcessHandler sc =>
      let '(now, w) := read_steady w in Ret (SelfCheckProcess_HandleSignal now evt sc, h, w)
  | SelfCheckNetworkHandler sc =>
      let '(now, w) := read_steady w in Ret (SelfCheckNetwork_HandleSignal now evt sc, h, w)
  | NetworkHandler n =>
      match Signals.HandleSignal n modifiers (tracker w) (evt_base evt) with
      | None => Crash
      | Some (r, t) => Ret (r, h, mkSWorld t (pworld w) (steady_ w))
      end
  | ProcessHandler p =>
      '(r, p, pw) ←
        Process_HandleSignal Span UUIDStr DisableProcessArguments clock process_signals evt p (pworld w);
      Ret (r, ProcessHandler p, set_pworld pw w)
  end.

(** Only the process handler overrides the default. *)
Definition Handler_HandleExistingProcess (t : ThreadInfo) (h : Handler) (w : SWorld)
    : outcome (SignalResult.t * Handler * SWorld) :=
  match h with
  | ProcessHandler p =>
      '(r, p, pw) ← HandleExistingProcess Span UUIDStr clock t p (pworld w);
      Ret (r, ProcessHandler p, set_pworld pw w)
  | h => Ret (SignalResult.IGNORED, h, w)
  end.

#[global] Instance handlers : SignalHandler Handler := {
  handler_Start h := match h with ProcessHandler p => ProcessHandler (Handler_Start p) | h => h end;
  handler_Stop h := match h with ProcessHandler p => p ← Handler_Stop p; Ret (ProcessHandler p) | h => Ret h end;
  handle_signal := Handler_HandleSignal;
  handle_existing := Handler_HandleExistingProcess;
  relevant_events h :=
    match h with
    | SelfCheckProcessHandler _ => SelfCheckProcess_GetRelevantEvents
    | SelfCheckNetworkHandler _ => SelfCheckNetwork_GetRelevantEvents
    | NetworkHandler n => GetRelevantEvents n
    | ProcessHandler _ => Process_GetRelevantEvents
    end
}.

(** The handlers the constructor adds, the self checks first; [now] are the
    times at which these two are made. *)
Definition Service_make (e : EventNames) (PPM_EVENT_MAX : nat) (now now' : Z) (client : C)
    : outcome (Service Handler) :=
  let zeros := replicate PPM_EVENT_MAX 0 in
  let s := mkService true [] (mkEventStats zeros zeros zeros zeros) (replicate PPM_EVENT_MAX false) false [] in
  s ← AddSignalHandler e PPM_EVENT_MAX (SelfCheckProcessHandler (SelfCheckHandler_make now)) s;
  s ← AddSignalHandler e PPM_EVENT_MAX (SelfCheckNetworkHandler (SelfCheckHandler_make now')) s;
  AddSignalHandler e PPM_EVENT_MAX (ProcessHandler (ProcessSignalHandler_make client)) s.

End program.

(** ** Any handlers *)

Section generic.
Context {H : Type} `{SH : SignalHandler H} `{HS : Sinsp}.

(** A handler before and after a call of it. *)
Definition one_call (h h' : H) : Prop :=
  (exists evt w r w', handle_signal evt h w = Ret (r, h', w')) \/
  (exists t w r w', handle_existing t h w = Ret (r, h', w')).

(** An entry that was passed over: its filter stays, the handler changes by its own
    calls only, and without a subscription not at all. *)
Definition own_calls_only (evt : ProcEvt) (e e' : SignalHandlerEntry H) : Prop :=
  event_filter e' = event_filter e /\ rtc one_call (handler e) (handler e') /\
  (ShouldHandle e evt = false -> e' = e).

(** How the list of handlers changes: one of the subscribed may say that it is
    finished, and then it goes and those behind it are not asked. *)
Inductive dispatched (evt : ProcEvt) : list (SignalHandlerEntry H) -> list (SignalHandlerEntry H) -> Prop :=
  | disp_end : dispatched evt [] []
  | disp_pass e e' hs hs' : own_calls_only evt e e' -> dispatched evt hs hs' -> dispatched evt (e :: hs) (e' :: hs')
  | disp_finished e hs w h w' :
      ShouldHandle e evt = true -> handle_signal evt (handler e) w = Ret (SignalResult.FINISHED, h, w') ->
      dispatched evt (e :: hs) hs.

Lemma send_existing_calls threads h w b h' w' :
  send_existing threads h w = Ret (b, h', w') -> rtc one_call h h'.
Proof.
  revert h w. induction threads as [|t threads IH]; intros h w; cbn [send_existing]; [by intros [= _ <- _]|].
  destruct (_ && _); [|apply IH].
  destruct (handle_existing t h w) as [[[r h1] w1]| |] eqn:Eh; [|done ..]. cbn [mbind outcome_bind].
  intros E. apply (rtc_l _ _ h1); [right; by exists t, w, r, w1|].
  destruct r; try (by eapply IH); by injection E as _ <- _.
Qed.

Lemma dispatch_dispatched threads ps evt hs w hs' w' :
  dispatch threads ps evt hs w = Ret (hs', w') -> dispatched evt hs hs'.
Proof.
  revert w hs' w'. induction hs as [|e hs IH]; intros w hs' w'; cbn [dispatch].
  { intros [= <- _]. constructor. }
  assert (forall h w, rtc one_call (handler e) h -> (h = handler e \/ ShouldHandle e evt = true) ->
    ('(rest, w) ← dispatch threads ps evt hs w; Ret (mkEntry h (event_filter e) :: rest, w)) = Ret (hs', w') ->
    dispatched evt (e :: hs) hs') as Hc.
  { intros h w1 Hr Hh Hd. inv_bind Hd. injection Hd as <- _. constructor; [|by eapply IH].
    split_and!; [done ..|]. intros He. destruct Hh as [-> | Hh]; [by destruct e|congruence]. }
  destruct (ShouldHandle e evt) eqn:Es; cbn [negb]; [|apply Hc; [done|by left]].
  destruct (handle_signal evt (handler e) (log_time ps evt w)) as [[[r h] w1]| |] eqn:Eh; [|done ..].
  assert (one_call (handler e) h) as H1 by (left; by exists evt, (log_time ps evt w), r, w1).
  cbn [mbind outcome_bind]. destruct r; [by apply Hc; [apply rtc_once|right] ..| |].
  - destruct (SendExistingProcesses threads h w1) as [[[b h1] w2]| |] eqn:Ex; [|done ..]. cbn [mbind outcome_bind].
    assert (rtc one_call (handler e) h1) as H2.
    { apply (rtc_l _ _ h); [done|]. destruct threads as [ts|]; [by eapply send_existing_calls|by injection Ex as _ <- _]. }
    destruct b; cbn [negb]; [|by apply Hc; [|right]].
    destruct (handle_signal evt h1 w2) as [[[r2 h2] w3]| |] eqn:Eh2; [|done ..].
    apply Hc; [|by right]. eapply rtc_r; [done|]. left. by exists evt, w2, r2, w3.
  - intros [= <- _]. by econstructor.
Qed.

(** *** Existing processes *)

Definition container_main (t : ThreadInfo) : bool := negb (is_empty (m_container_id t)) && is_main_thread t.

(** The calls for a list of threads, one after the other. *)
Fixpoint handle_each (ts : list ThreadInfo) (h : H) (w : SWorld) : outcome (list SignalResult.t * H * SWorld) :=
  match ts with
  | [] => Ret ([], h, w)
  | t :: rest =>
      '(r, h, w) ← handle_existing t h w;
      '(rs, h, w) ← handle_each rest h w;
      Ret (r :: rs, h, w)
  end.

Definition refused (r : SignalResult.t) : bool :=
  match r with SignalResult.ERROR | SignalResult.NEEDS_REFRESH => true | _ => false end.

(** The outcome [b] of handling the threads [ts] of a table, up to the first refusal. *)
Definition sent_existing (ts : list ThreadInfo) (h : H) (w : SWorld) (b : bool) (h' : H) (w' : SWorld) : Prop :=
  exists handled left rs,
    ts = handled ++ left /\ handle_each handled h w = Ret (rs, h', w') /\
    (if b then left = [] /\ Forall (fun r => refused r = false) rs
     else exists rs0 r, rs = rs0 ++ [r] /\ Forall (fun r => refused r = false) rs0 /\ refused r = true).

Lemma sent_existing_cons t ts h w r h1 w1 b h' w' :
  handle_existing t h w = Ret (r, h1, w1) -> refused r = false ->
  sent_existing ts h1 w1 b h' w' -> sent_existing (t :: ts) h w b h' w'.
Proof.
  intros Eh Hr (handled & left & rs & -> & Hh & Hb). exists (t :: handled), left, (r :: rs).
  split; [done|]. split; [cbn; rewrite Eh; cbn; by rewrite Hh|]. destruct b.
  - destruct Hb as [-> Hf]. by split; [|constructor].
  - destruct Hb as (rs0 & r0 & -> & Hf & Hr0). exists (r :: rs0), r0. by split_and!; [|constructor|].
Qed.

Lemma send_existing_spec threads h w b h' w' :
  send_existing threads h w = Ret (b, h', w') ->
  sent_existing (List.filter container_main threads) h w b h' w'.
Proof.
  revert h w. induction threads as [|t threads IH]; intros h w; cbn [send_existing List.filter].
  { intros [= <- <- <-]. exists [], [], []. by split_and!. }
  fold (container_main t). destruct (container_main t); [|apply IH].
  destruct (handle_existing t h w) as [[[r h1] w1]| |] eqn:Eh; [|done ..]. cbn [mbind outcome_bind].
  destruct (refused r) eqn:Er.
  - intros E. assert (b = false /\ h' = h1 /\ w' = w1) as (-> & -> & ->) by (by destruct r; try done; injection E).
    exists [t], (List.filter container_main threads), [r]. split_and!; [done|cbn; by rewrite Eh|].
    exists [], r. by split_and!.
  - intros E. eapply sent_existing_cons; [done ..|]. apply IH. by destruct r.
Qed.

(** *** Runs *)

Lemma GetNext_handlers rhel n (s s' : Service H) e :
  GetNext rhel n s = (e, s') -> signal_handlers_ s' = signal_handlers_ s.
Proof. unfold GetNext. intros Hg. repeat case_hyp Hg; by injection Hg as _ <-. Qed.

(** What holds of the handlers and is kept by every event holds after a run. *)
Lemma Run_ind (P : list (SignalHandlerEntry H) -> Prop) rhel ticks s w calls s' w' :
  (forall evt hs hs', P hs -> dispatched evt hs hs' -> P hs') ->
  P (signal_handlers_ s) -> Run rhel ticks s w = Ret (calls, s', w') -> P (signal_handlers_ s').
Proof.
  intros Hd. unfold Run. destruct (inspector_ s); [cbn [negb]|done]. generalize (@nil (Z * option ThreadInfo)) as calls0.
  revert s w. induction ticks as [|t ticks IH]; intros s w calls0 HP; cbn [run_loop].
  { by intros [= _ <- _]. }
  destruct (run_tick rhel t (calls0, s, w)) as [[[c1 s1] w1]| |] eqn:E; [|done ..]. cbn [mbind outcome_bind].
  apply IH. unfold run_tick, ServePendingProcessRequests in E.
  destruct (GetNext rhel (tick_next t) (set_requests [] s)) as [[evt|] s2] eqn:Eg; apply GetNext_handlers in Eg.
  - inv_bind E. injection E as _ <- _. eapply Hd; [exact HP|]. eapply dispatch_dispatched. change (signal_handlers_ s) with (signal_handlers_ (set_requests [] s)). rewrite <- Eg. exact E0.
  - injection E as _ <- _. rewrite Eg. exact HP.
Qed.

End generic.

(** ** Filters *)

(** The part of a path behind its last colon. *)
Definition behind_colon (s path : chars) : Prop :=
  ~ In ":"%char path /\ (s = path \/ exists l, s = l ++ ":"%char :: path).

Lemma behind_colon_rfind s path :
  behind_colon s path ->
  match rfind (chars_of ":") s with Some marker => drop (marker + 1) s | None => s end = path.
Proof.
  unfold rfind. intros [Hn [-> | [l ->]]].
  - by rewrite (rfind_from_None_hd ":"%char []).
  - change (chars_of ":") with (":"%char :: []). change (":"%char :: path) with ((":"%char :: []) ++ path).
    rewrite rfind_from_last by (by apply rfind_from_None_hd).
    rewrite drop_app_ge by lia. by replace (0 + length l + 1 - length l)%nat with 1%nat by lia.
Qed.

Lemma behind_colon_exists s : exists path, behind_colon s path.
Proof.
  induction s as [|c s [path [Hn [-> | [l ->]]]]]; [exists []; split; [by intros []|by left]| |].
  - destruct (decide (c = ":"%char)) as [-> | Hc].
    + exists path. split; [done|right]. by exists [].
    + exists (c :: path). split; [|by left]. intros [?|?]; [congruence|done].
  - exists path. split; [done|right]. by exists (c :: l).
Qed.

(** An event is kept exactly when it has a thread that is not the initial process
    of runc and whose path, behind its last colon, does not start with
    /proc/self. *)
Theorem FilterEvent_exact tinfo :
  FilterEvent tinfo = true <->
  exists t path, tinfo = Some t /\ behind_colon (m_exepath t) path /\
    ~ (exists r, path = chars_of "/proc/self" ++ r) /\
    ~ ((m_exepath t = chars_of "runc" \/ m_exepath t = chars_of "/usr/bin/runc") /\ m_comm t = chars_of "6").
Proof.
  destruct tinfo as [t|]; [|naive_solver]. destruct (behind_colon_exists (m_exepath t)) as [path Hp].
  assert (FilterEvent (Some t) = true <->
    ~ (exists r, path = chars_of "/proc/self" ++ r) /\
    ~ ((m_exepath t = chars_of "runc" \/ m_exepath t = chars_of "/usr/bin/runc") /\ m_comm t = chars_of "6")) as ->.
  { unfold FilterEvent. rewrite (behind_colon_rfind _ _ Hp). unfold eq_chars. rewrite <- starts_with_spec.
    repeat case_bool_decide; cbn [orb andb]; rewrite ?negb_true_iff, ?not_true_iff_false; naive_solver. }
  split; [naive_solver|]. intros (t' & path' & [= <-] & Hp' & Hs & Hr). split; [|done].
  by rewrite <- (behind_colon_rfind _ _ Hp), (behind_colon_rfind _ _ Hp').
Qed.

(** ** Properties *)

Section theorems.
Context {H : Type} `{SH : SignalHandler H} `{HS : Sinsp}.

(** Handlers that are asked in turn, each in the world that the one before it left, with
    the calls that each of them gets.  One that did not subscribe gets none.  One that
    answers gets the event once.  One that needs a refresh gets the processes that
    exist, and the event once more if it took them all. *)
Inductive asked_in_turn (threads : option (list ThreadInfo)) (ps : Z) (evt : ProcEvt)
    : list (SignalHandlerEntry H) -> SWorld -> list (SignalHandlerEntry H) -> SWorld -> Prop :=
  | asked_none w : asked_in_turn threads ps evt [] w [] w
  | asked_unsubscribed e hs w hs' w' :
      ShouldHandle e evt = false -> asked_in_turn threads ps evt hs w hs' w' -> asked_in_turn threads ps evt (e :: hs) w (e :: hs') w'
  | asked_answered e hs w r h w1 hs' w' :
      ShouldHandle e evt = true -> handle_signal evt (handler e) (log_time ps evt w) = Ret (r, h, w1) ->
      r <> SignalResult.NEEDS_REFRESH -> r <> SignalResult.FINISHED ->
      asked_in_turn threads ps evt hs w1 hs' w' -> asked_in_turn threads ps evt (e :: hs) w (mkEntry h (event_filter e) :: hs') w'
  | asked_refreshed e hs w ts h1 w1 h2 w2 r h3 w3 hs' w' :
      ShouldHandle e evt = true -> handle_signal evt (handler e) (log_time ps evt w) = Ret (SignalResult.NEEDS_REFRESH, h1, w1) ->
      threads = Some ts -> sent_existing (List.filter container_main ts) h1 w1 true h2 w2 ->
      handle_signal evt h2 w2 = Ret (r, h3, w3) ->
      asked_in_turn threads ps evt hs w3 hs' w' -> asked_in_turn threads ps evt (e :: hs) w (mkEntry h3 (event_filter e) :: hs') w'
  | asked_not_refreshed e hs w h1 w1 h2 w2 hs' w' :
      ShouldHandle e evt = true -> handle_signal evt (handler e) (log_time ps evt w) = Ret (SignalResult.NEEDS_REFRESH, h1, w1) ->
      match threads with None => h2 = h1 /\ w2 = w1 | Some ts => sent_existing (List.filter container_main ts) h1 w1 false h2 w2 end ->
      asked_in_turn threads ps evt hs w2 hs' w' -> asked_in_turn threads ps evt (e :: hs) w (mkEntry h2 (event_filter e) :: hs') w'.

(** One handler is finished: it was asked behind those before it, and it is gone. *)
Definition ends_at (threads : option (list ThreadInfo)) (ps : Z) (evt : ProcEvt) (hs : list (SignalHandlerEntry H)) (w : SWorld)
    (hs' : list (SignalHandlerEntry H)) (w' : SWorld) : Prop :=
  exists pre e post pre' w1 h,
    hs = pre ++ e :: post /\ hs' = pre' ++ post /\ asked_in_turn threads ps evt pre w pre' w1 /\
    ShouldHandle e evt = true /\ handle_signal evt (handler e) (log_time ps evt w1) = Ret (SignalResult.FINISHED, h, w').

(** What one entry in front adds. *)
Lemma turn_in_front threads ps evt e e' hs hs' (w w1 : SWorld) w' :
  (forall post post' w2, asked_in_turn threads ps evt post w1 post' w2 -> asked_in_turn threads ps evt (e :: post) w (e' :: post') w2) ->
  asked_in_turn threads ps evt hs w1 hs' w' \/ ends_at threads ps evt hs w1 hs' w' ->
  asked_in_turn threads ps evt (e :: hs) w (e' :: hs') w' \/ ends_at threads ps evt (e :: hs) w (e' :: hs') w'.
Proof.
  intros Hf [Ha|(pre & x & post & pre' & w2 & h & -> & -> & Ha & Hs & Hh)]; [left; by apply Hf|right].
  exists (e :: pre), x, post, (e' :: pre'), w2, h. by split_and!; [| |apply Hf| |].
Qed.

(** C14: an event is given to the handlers that subscribed to its type, in their order and
    each in the world that the one before it left: once; twice, around a refresh with the
    processes that exist, to one that needs it and takes them all.  The first that is
    finished is removed, and those behind it get nothing and stay as they are; without
    such a one every handler stays, with its filter.  A handler that did not subscribe
    gets nothing. *)
Theorem dispatch_exact threads ps evt (hs hs' : list (SignalHandlerEntry H)) w w' :
  dispatch threads ps evt hs w = Ret (hs', w') ->
  asked_in_turn threads ps evt hs w hs' w' \/ ends_at threads ps evt hs w hs' w'.
Proof.
  revert w hs'. induction hs as [|e hs IH]; intros w hs'; cbn [dispatch]; [intros [= <- <-]; left; constructor|].
  assert (forall h w1, (forall post post' w2, asked_in_turn threads ps evt post w1 post' w2 -> asked_in_turn threads ps evt (e :: post) w (mkEntry h (event_filter e) :: post') w2) ->
    ('(rest, w) ← dispatch threads ps evt hs w1; Ret (mkEntry h (event_filter e) :: rest, w)) = Ret (hs', w') ->
    asked_in_turn threads ps evt (e :: hs) w hs' w' \/ ends_at threads ps evt (e :: hs) w hs' w') as Hc.
  { intros h w1 Hf Hd. inv_bind Hd. injection Hd as <- <-. eapply turn_in_front; [exact Hf|by apply IH]. }
  destruct (ShouldHandle e evt) eqn:Es; cbn [negb]; [|apply Hc; intros; destruct e; by apply asked_unsubscribed].
  destruct (handle_signal evt (handler e) (log_time ps evt w)) as [[[r h] w1]| |] eqn:Eh; [|done ..]. cbn [mbind outcome_bind].
  destruct r; [by apply Hc; intros; eapply asked_answered ..| |].
  - destruct (SendExistingProcesses threads h w1) as [[[b h1] w2]| |] eqn:Ex; [|done ..]. cbn [mbind outcome_bind].
    destruct b; cbn [negb].
    + destruct threads as [ts|]; [apply send_existing_spec in Ex|done].
      destruct (handle_signal evt h1 w2) as [[[r2 h2] w3]| |] eqn:Eh2; [|done ..]. apply Hc. intros. by eapply asked_refreshed.
    + apply Hc. intros. eapply asked_not_refreshed; [done..| |done]. destruct threads as [ts|]; [by apply send_existing_spec|by injection Ex].
  - intros [= <- <-]. right. exists [], e, hs, [], w, h. split_and!; [done..|constructor|done|done].
Qed.

(** A refresh hands every main thread of a container to the handler, in the
    order of the table, and nothing else; it succeeds exactly when none is
    refused, and otherwise ends at the first that is. *)
Theorem SendExistingProcesses_exact threads (h h' : H) w w' b :
  SendExistingProcesses threads h w = Ret (b, h', w') ->
  match threads with
  | None => b = false /\ h' = h /\ w' = w
  | Some threads => sent_existing (List.filter container_main threads) h w b h' w'
  end.
Proof. destruct threads as [threads|]; [apply send_existing_spec|by intros [= <- <- <-]]. Qed.

End theorems.

Section program_theorems.
Context `{HS : Sinsp} `{ho : HostOrder} {C : Type} `{HC : SignalServiceClientSpec SignalStreamMessage C}.
Variable Span : chars -> nat.
Variable UUIDStr : nat -> chars.
Variable DisableProcessArguments : bool.
Variable clock : nat -> Readings.
Variable steady : nat -> Z.
Variable modifiers : EventMap Modifier.t.
Variable process_signals : EventMap ProcessSignalType.t.

#[local] Instance the_handlers : SignalHandler (Handler (C := C)) :=
  handlers Span UUIDStr DisableProcessArguments clock steady modifiers process_signals.

(** The handlers that report to the outside. *)
Definition reports (e : SignalHandlerEntry (Handler (C := C))) : bool :=
  match handler e with NetworkHandler _ | ProcessHandler _ => true | _ => false end.
Definition reporting (hs : list (SignalHandlerEntry (Handler (C := C)))) : list (list bool) :=
  map event_filter (List.filter reports hs).

Lemma network_not_finished n evt t r t' :
  Signals.HandleSignal n modifiers t evt = Some (r, t') -> r <> SignalResult.FINISHED.
Proof. unfold Signals.HandleSignal. intros Hh. repeat case_hyp Hh; try done; by injection Hh as <- _. Qed.

Lemma process_not_finished evt p w r p' w' :
  Process_HandleSignal Span UUIDStr DisableProcessArguments clock process_signals evt p w = Ret (r, p', w') ->
  r <> SignalResult.FINISHED.
Proof.
  unfold Process_HandleSignal. intros Hh. inv_bind Hh. destruct o as [msg|]; [|by injection Hh as <- _ _].
  apply send_signal_cases in Hh as [_ Hr]. by destruct r.
Qed.

Lemma finished_not_reporting e evt w h w' :
  handle_signal evt (handler e) w = Ret (SignalResult.FINISHED, h, w') -> reports e = false.
Proof.
  unfold reports. destruct (handler e) as [| |n|p]; [done|done| |]; cbn [handle_signal the_handlers handlers Handler_HandleSignal].
  - destruct (Signals.HandleSignal _ _ _ _) as [[r t]|] eqn:E; [|done]. intros [= -> _ _].
    by apply network_not_finished in E.
  - destruct (Process_HandleSignal _ _ _ _ _ _ _ _) as [[[r p'] pw]| |] eqn:E; [|done ..]. intros [= -> _ _].
    by apply process_not_finished in E.
Qed.

Lemma one_call_kind (h h' : Handler (C := C)) f :
  one_call h h' -> reports (mkEntry h' f) = reports (mkEntry h f).
Proof.
  unfold reports. cbn [handler].
  intros [(evt & w & r & w' & E)|(t & w & r & w' & E)];
    cbn [handle_signal handle_existing the_handlers handlers] in E.
  - destruct h; cbn [Handler_HandleSignal] in E.
    1,2: by injection E as _ <- _.
    + destruct (Signals.HandleSignal _ _ _ _) as [[? ?]|]; [|done]. by injection E as _ <- _.
    + destruct (Process_HandleSignal _ _ _ _ _ _ _ _) as [[[? ?] ?]| |]; [|done ..]. by injection E as _ <- _.
  - destruct h; cbn [Handler_HandleExistingProcess] in E; [by injection E as _ <- _ ..|].
    destruct (HandleExistingProcess _ _ _ _ _ _) as [[[? ?] ?]| |]; [|done ..]. by injection E as _ <- _.
Qed.

Lemma calls_kind (h h' : Handler (C := C)) f f' :
  rtc one_call h h' -> reports (mkEntry h' f') = reports (mkEntry h f).
Proof. induction 1 as [|h h1 h' H1 _ IH]; [done|]. rewrite IH. by apply one_call_kind. Qed.

Lemma dispatched_reporting evt hs hs' : dispatched evt hs hs' -> reporting hs' = reporting hs.
Proof.
  unfold reporting. induction 1 as [|e e' hs hs' (Hf & Hc & _) _ IH|e hs w h w' _ Hh]; [done| |].
  - cbn [List.filter]. destruct e as [h f], e' as [h' f']. cbn in Hf, Hc. subst f'.
    rewrite (calls_kind h h' f f Hc). destruct (reports _); cbn [map event_filter]; by rewrite IH.
  - cbn [List.filter]. by rewrite (finished_not_reporting _ _ _ _ _ Hh).
Qed.

(** C39: however long the service runs, the handlers that report process signals
    and network events stay, in their order and with their subscriptions; only
    self checks are ever unloaded. *)
Theorem Run_keeps_reporting rhel ticks (s s' : Service (Handler (C := C))) w calls w' :
  Run rhel ticks s w = Ret (calls, s', w') ->
  reporting (signal_handlers_ s') = reporting (signal_handlers_ s).
Proof.
  intros Hr. refine (Run_ind (fun hs => reporting hs = reporting (signal_handlers_ s)) _ _ _ _ _ _ _ _ _ Hr); [|done].
  intros evt hs hs' <- Hd. by eapply dispatched_reporting.
Qed.

(** A self check that has timed out takes the event that tells it so: whatever
    the event is, the handlers behind it do not see it, and nothing but the time
    counters and the reading of the clock changes. *)
Theorem timed_out_check_takes_event threads ps evt sc filter (rest : list (SignalHandlerEntry (Handler (C := C)))) w :
  ShouldHandle (mkEntry (SelfCheckProcessHandler (C := C) sc) filter) evt = true ->
  hasTimedOut (steady (steady_ w)) sc = true ->
  exists w',
    dispatch threads ps evt (mkEntry (SelfCheckProcessHandler sc) filter :: rest) w = Ret (rest, w') /\
    tracker w' = tracker w /\ ustats (pworld w') = ustats (pworld w) /\ drawn (pworld w') = drawn (pworld w) /\
    clock_ (pworld w') = clock_ (pworld w).
Proof.
  intros Hs Ht. eexists. split.
  - cbn [dispatch]. rewrite Hs. cbn [negb handler handle_signal the_handlers handlers Handler_HandleSignal read_steady].
    unfold SelfCheckProcess_HandleSignal. cbn [log_time set_pworld steady_]. rewrite Ht. reflexivity.
  - done.
Qed.
End program_theorems.

(** ** Witnesses: the service with the printing client *)

Definition wit_events : list string :=
  concat (map (fun n => [n; n]) ["execve"; "close"; "shutdown"; "connect"; "accept"; "listen"]).
Definition wit_event_names : EventNames :=
  default (mkEventNames [] [] []) (EventNames_make wit_events [] Z.even).
Definition wit_process_signals : EventMap ProcessSignalType.t :=
  default [] (EventMap_make wit_events wit_event_names process_signals_init ProcessSignalType.UNKNOWN_PROCESS_TYPE).

Abbreviation WitHandler := (Handler (C := StdoutSignalServiceClient SignalStreamMessage)).

(** A steady clock that ticks every three seconds. *)
Definition wit_steady (n : nat) : Z := 3000000000 * Z.of_nat n.
Definition wit_handlers : SignalHandler WitHandler :=
  @handlers wit_sinsp true _ stdout_client ascii_span (fun _ => []) false wit_clock wit_steady [] wit_process_signals.

Definition wit_service : Service WitHandler :=
  match @Service_make wit_sinsp true _ stdout_client ascii_span (fun _ => []) false wit_clock wit_steady []
          wit_process_signals wit_event_names 12 0 0 (mkStdout []) with
  | Ret s => s
  | _ => mkService false [] (mkEventStats [] [] [] []) [] false []
  end.
Definition wit_evt_exec : ProcEvt :=
  mkProcEvt (mkSinspEvt 1 9000 None None None) (fun _ => Some wit_prog) (Some (chars_of "-v")) None None.
Definition wit_sworld (steady : nat) : SWorld := mkSWorld ConnectionTracker_default wit_world steady.

(** What the process handler of a list has printed. *)
Definition wit_printed (hs : list (SignalHandlerEntry WitHandler)) : list nat :=
  concat (map (fun e => match handler e with ProcessHandler p => [length (printed_ (client_ p))] | _ => [] end) hs).

Definition wit_dispatch := @dispatch _ wit_handlers wit_sinsp (Some [wit_shell]) 9 wit_evt_exec (signal_handlers_ wit_service).

Lemma dispatch_exact_witness :
  match wit_dispatch (wit_sworld 0) with
  | Ret (hs', w') =>
      asked_in_turn (SH := wit_handlers) (HS := wit_sinsp) (Some [wit_shell]) 9 wit_evt_exec (signal_handlers_ wit_service) (wit_sworld 0) hs' w' /\ wit_printed hs' = [1%nat]
  | _ => False
  end.
Proof.
  destruct (wit_dispatch (wit_sworld 0)) as [[hs' w']| |] eqn:E; [|by vm_compute in E ..].
  pose proof (dispatch_exact (SH := wit_handlers) (HS := wit_sinsp) _ _ _ _ _ _ _ E) as D.
  assert (length hs' = 3%nat /\ wit_printed hs' = [1%nat]) as [Hl Hp].
  { vm_compute in E. injection E as <- _. by vm_compute. }
  split; [|exact Hp]. destruct D as [D|(pre & e & post & pre' & w1 & h & E1 & -> & F & _)]; [exact D|].
  exfalso. apply (f_equal length) in E1. assert (length pre = length pre') as Hpre by (clear -F; induction F; cbn; congruence).
  rewrite length_app in E1, Hl. cbn [length] in E1.
  assert (length (signal_handlers_ wit_service) = 3%nat) by (vm_compute; reflexivity). lia.
Defined.

Lemma SendExistingProcesses_exact_witness :
  match @SendExistingProcesses _ wit_handlers wit_sinsp (Some [wit_shell; wit_prog]) (ProcessHandler wit_handler) (wit_sworld 0) with
  | Ret (b, h', w') =>
      b = true /\ sent_existing (SH := wit_handlers) [wit_shell; wit_prog] (ProcessHandler wit_handler) (wit_sworld 0) b h' w'
  | _ => False
  end.
Proof.
  destruct (SendExistingProcesses _ _ _) as [[[b h'] w']| |] eqn:E; [|by vm_compute in E ..].
  split; [by vm_compute in E; injection E as <- _ _|].
  exact (SendExistingProcesses_exact (SH := wit_handlers) (HS := wit_sinsp) (Some [wit_shell; wit_prog]) _ _ _ _ _ E).
Defined.

Definition wit_tick : Tick :=
  mkTick (fun _ => true) (fun _ => None) (mkNext (Some wit_evt_exec) false 1) (Some []) 9 1.
Definition wit_run := @Run _ wit_handlers wit_sinsp false [wit_tick; wit_tick; wit_tick] wit_service (wit_sworld 0).

Definition wit_after : list (Z * option ThreadInfo) * Service WitHandler * SWorld :=
  match wit_run with Ret st => st | _ => ([], wit_service, wit_sworld 0) end.

Lemma Run_keeps_reporting_witness :
  reporting (signal_handlers_ wit_after.1.2) = reporting (signal_handlers_ wit_service) /\
  length (signal_handlers_ wit_after.1.2) = 2%nat /\ wit_printed (signal_handlers_ wit_after.1.2) = [2%nat].
Proof.
  split; [|vm_compute; split; reflexivity].
  apply (Run_keeps_reporting (HS := wit_sinsp) (ho := true) (HC := stdout_client_spec) ascii_span (fun _ => []) false
    wit_clock wit_steady [] wit_process_signals false [wit_tick; wit_tick; wit_tick] wit_service wit_after.1.2
    (wit_sworld 0) wit_after.1.1 wit_after.2).
  vm_compute. reflexivity.
Defined.

Lemma timed_out_check_takes_event_witness :
  match wit_dispatch (wit_sworld 2) with
  | Ret (hs', w') => ustats (pworld w') = ustats wit_world /\ hs' = tail (signal_handlers_ wit_service) /\ wit_printed hs' = [0%nat]
  | _ => False
  end.
Proof.
  set (f := match signal_handlers_ wit_service with e :: _ => event_filter e | [] => [] end).
  assert (signal_handlers_ wit_service =
    mkEntry (SelfCheckProcessHandler (SelfCheckHandler_make 0)) f :: tail (signal_handlers_ wit_service)) as Es
    by (vm_compute; reflexivity).
  destruct (timed_out_check_takes_event (HS := wit_sinsp) (ho := true) (H := stdout_client) ascii_span
    (fun _ => []) false wit_clock wit_steady [] wit_process_signals (Some [wit_shell]) 9 wit_evt_exec
    (SelfCheckHandler_make 0) f (tail (signal_handlers_ wit_service)) (wit_sworld 2)) as (w' & E & _ & Hu & _);
    [vm_compute; reflexivity ..|].
  unfold wit_dispatch. rewrite Es. unfold wit_handlers. unfold the_handlers in E. rewrite E.
  split; [exact Hu|]. vm_compute. split; reflexivity.
Defined.
