(* ===== verification/Floats.v ===== *)
(** * Binary floating point and numbers in text

    The part of the C++ library that the configuration computes with: [float] and
    [double] arithmetic with rounding to the nearest even, the conversions between
    floating point and integers, and [std::stoi], [std::stol], [std::stoll],
    [std::stof] and [std::stod] in the C locale.  The sign of a zero is not kept:
    no computation of the program depends on it. *)

From S2P Require Import Prelude CStrings.

(** ** Formats and rounding *)

(** [Fin m e] is [m * 2 ^ e]. *)
Inductive float := Fin (m e : Z) | Inf (neg : bool) | NaN.

(** The precision, the least exponent of a last place, and the exponent at which
    overflow starts. *)
Record Format := mkFormat { prec : Z; emin : Z; emax : Z }.
Definition binary32 : Format := mkFormat 24 (-149) 128.
Definition binary64 : Format := mkFormat 53 (-1074) 1024.

(** [n / d] to the nearest integer, a tie to the even one. *)
Definition round_even (n d : Z) : Z :=
  let q := n / d in
  let r := n mod d in
  if 2 * r <? d then q else if d <? 2 * r then q + 1 else if Z.even q then q else q + 1.

(** [2 ^ e] as a ratio, and the quotient of [n] and [d] by it. *)
Definition up (e : Z) : Z := 2 ^ Z.max 0 e.
Definition down (e : Z) : Z := 2 ^ Z.max 0 (- e).

(** The [k] with [2 ^ k <= n / d < 2 ^ (k + 1)]. *)
Definition log2_ratio (n d : Z) : Z :=
  let k := Z.log2 n - Z.log2 d in if d * up k <=? n * down k then k else k - 1.

(** The exponent of the last place of [n / d]. *)
Definition last_place (fmt : Format) (n d : Z) : Z := Z.max (emin fmt) (log2_ratio n d - (prec fmt - 1)).

Definition round_pos (fmt : Format) (n d : Z) : Z * Z :=
  let e := last_place fmt n d in (round_even (n * down e) (d * up e), e).

Definition overflows (fmt : Format) (m e : Z) : bool :=
  (emax fmt - prec fmt <? e) || ((e =? emax fmt - prec fmt) && (m =? 2 ^ prec fmt)).

(** The nearest float of [n / d], for a positive [d]. *)
Definition of_ratio (fmt : Format) (n d : Z) : float :=
  if n =? 0 then Fin 0 0
  else
    let '(m, e) := round_pos fmt (Z.abs n) d in
    if overflows fmt m e then Inf (n <? 0) else Fin (Z.sgn n * m) e.

Definition of_Z (fmt : Format) (z : Z) : float := of_ratio fmt z 1.

(** ** Arithmetic *)

Definition sign_neg (x : float) : bool := match x with Fin m _ => m <? 0 | Inf s => s | NaN => false end.
Definition is_zero (x : float) : bool := match x with Fin m _ => m =? 0 | _ => false end.

Definition fmul (fmt : Format) (x y : float) : float :=
  match x, y with
  | Fin m1 e1, Fin m2 e2 => of_ratio fmt (m1 * m2 * up (e1 + e2)) (down (e1 + e2))
  | NaN, _ | _, NaN => NaN
  | _, _ => if is_zero x || is_zero y then NaN else Inf (xorb (sign_neg x) (sign_neg y))
  end.

Definition fdiv (fmt : Format) (x y : float) : float :=
  match x, y with
  | Fin m1 e1, Fin m2 e2 =>
      if m2 =? 0 then if m1 =? 0 then NaN else Inf (m1 <? 0)
      else of_ratio fmt (m1 * Z.sgn m2 * up (e1 - e2)) (Z.abs m2 * down (e1 - e2))
  | NaN, _ | _, NaN | Inf _, Inf _ => NaN
  | Inf s, _ => Inf (xorb s (sign_neg y))
  | _, Inf _ => Fin 0 0
  end.

(** [std::ceil], [std::round] (halves away from zero) and truncation, of a finite
    number. *)
Definition ceil_Z (m e : Z) : Z := - (- (m * up e) / down e).
Definition round_Z (m e : Z) : Z := Z.sgn m * ((2 * (Z.abs m * up e) + down e) / (2 * down e)).
Definition trunc_Z (m e : Z) : Z := Z.quot (m * up e) (down e).

(** A conversion to an integer type with [lo <= z <= hi]: out of that range it is
    undefined, and [ub] is what the machine gives. *)
Definition to_int (lo hi : Z) (ub : float -> Z) (to_Z : Z -> Z -> Z) (x : float) : Z :=
  match x with
  | Fin m e => let z := to_Z m e in if (lo <=? z) && (z <=? hi) then z else ub x
  | _ => ub x
  end.

(** ** Numbers in text *)

Inductive num_error := invalid_argument | out_of_range.

Definition read_sign (s : chars) : bool * chars :=
  match s with
  | c :: r => if ch_eqb c "-" then (true, r) else if ch_eqb c "+" then (false, r) else (false, s)
  | [] => (false, [])
  end.

(** [std::stoi] and the like, to a signed type of [bits] bits: spaces, a sign,
    digits; what follows is ignored. *)
Definition sto (bits : Z) (s : chars) : num_error + Z :=
  let '(neg, u) := read_sign (skip_spaces s) in
  match u with
  | c :: _ =>
      if isdigit c then
        let v := if neg then - (digits u 0).1 else (digits u 0).1 in
        if (- 2 ^ (bits - 1) <=? v) && (v <? 2 ^ (bits - 1)) then inr v else inl out_of_range
      else inl invalid_argument
  | [] => inl invalid_argument
  end.
Definition stoi : chars -> num_error + Z := sto 32.
Definition stol : chars -> num_error + Z := sto 64.
Definition stoll : chars -> num_error + Z := sto 64.

Definition digit_value (c : ascii) : Z :=
  if isdigit c then ord c - 48 else if islower c then ord c - 87 else ord c - 55.

(** Digits of a base: the value, how many there were, and the rest. *)
Fixpoint base_digits (base : Z) (is_digit : ascii -> bool) (s : chars) (acc : Z) (n : Z) : Z * Z * chars :=
  match s with
  | c :: r => if is_digit c then base_digits base is_digit r (acc * base + digit_value c) (n + 1) else (acc, n, s)
  | [] => (acc, n, [])
  end.

(** Digits with an optional point: the value without the point, the number of
    digits after it, and the rest; [None] without a digit. *)
Definition mantissa (base : Z) (is_digit : ascii -> bool) (s : chars) : option (Z * Z * chars) :=
  let '(v, n, r) := base_digits base is_digit s 0 0 in
  let '(v, f, r) :=
    match r with
    | c :: r' => if ch_eqb c "." then base_digits base is_digit r' v 0 else (v, 0, r)
    | [] => (v, 0, [])
    end in
  if n + f =? 0 then None else Some (v, f, r).

(** An exponent after the letter [mark]; none is zero. *)
Definition exponent (mark : ascii) (s : chars) : Z :=
  match s with
  | c :: r =>
      if ch_eqb (tolower c) mark then
        let '(neg, u) := read_sign r in
        match u with
        | d :: _ => if isdigit d then if neg then - (digits u 0).1 else (digits u 0).1 else 0
        | [] => 0
        end
      else 0
  | [] => 0
  end.

Definition hex_prefix (s : chars) : option chars :=
  match s with
  | z :: x :: r => if ch_eqb z "0" && ch_eqb (tolower x) "x" then Some r else None
  | _ => None
  end.

(** The value of an unsigned literal, as a ratio. *)
Definition decimal (s : chars) : option (Z * Z) :=
  match mantissa 10 isdigit s with
  | None => None
  | Some (v, f, r) => let x := exponent "e" r - f in Some (v * 10 ^ Z.max 0 x, 10 ^ Z.max 0 (- x))
  end.
Definition hexadecimal (s : chars) : option (Z * Z) :=
  match hex_prefix s with
  | None => None
  | Some r =>
      match mantissa 16 isxdigit r with
      | None => None
      | Some (v, f, r) => let x := exponent "p" r - 4 * f in Some (v * up x, down x)
      end
  end.

(** A result that is not exact and below the normal range is an error, too. *)
Definition underflows (fmt : Format) (n d : Z) : bool :=
  let '(m, e) := round_pos fmt (Z.abs n) d in
  (m <? 2 ^ (prec fmt - 1)) && negb (m * up e * d =? Z.abs n * down e).

(** [std::stof] and [std::stod]. *)
Definition stof (fmt : Format) (s : chars) : num_error + float :=
  let '(neg, u) := read_sign (skip_spaces s) in
  let lower := map tolower u in
  if starts_with ["i"; "n"; "f"]%char lower then inr (Inf neg)
  else if starts_with ["n"; "a"; "n"]%char lower then inr NaN
  else
    match (match hexadecimal u with Some q => Some q | None => decimal u end) with
    | None => inl invalid_argument
    | Some (n, d) =>
        match of_ratio fmt (if neg then - n else n) d with
        | Fin m e => if negb (n =? 0) && underflows fmt n d then inl out_of_range else inr (Fin m e)
        | _ => inl out_of_range
        end
    end.

(** ** Rounding to integers *)

Lemma round_even_lower n d k : 0 < d -> k * d <= n -> k <= round_even n d.
Proof.
  intros Hd H. unfold round_even. assert (k <= n / d) by (apply Z.div_le_lower_bound; lia).
  repeat case_match; lia.
Qed.

Lemma round_even_upper n d k : 0 < d -> n <= k * d -> round_even n d <= k.
Proof.
  intros Hd H. unfold round_even. pose proof (Z.div_mod n d ltac:(lia)) as E. pose proof (Z.mod_pos_bound n d Hd).
  destruct (Z.eq_dec (n / d) k) as [Hk|Hk].
  - assert (n mod d = 0) as -> by nia. case_match; lia.
  - assert (n / d < k) by (assert (n / d <= k) by (apply Z.div_le_upper_bound; lia); lia). repeat case_match; lia.
Qed.

Lemma round_even_near n d k : 0 < d -> d < 2 * (n - k * d) -> k < round_even n d.
Proof.
  intros Hd H. unfold round_even. pose proof (Z.div_mod n d ltac:(lia)) as E. pose proof (Z.mod_pos_bound n d Hd).
  assert (k <= n / d) by (apply Z.div_le_lower_bound; lia).
  destruct (Z.eq_dec (n / d) k) as [Hk|Hk]; [|repeat case_match; lia].
  assert (n mod d = n - k * d) as -> by nia. repeat case_match; lia.
Qed.

Lemma round_even_exact k d : 0 < d -> round_even (k * d) d = k.
Proof. intros Hd. apply Z.le_antisymm; [apply round_even_upper|apply round_even_lower]; lia. Qed.

Lemma round_even_scale c n d : 0 < c -> 0 < d -> round_even (c * n) (c * d) = round_even n d.
Proof.
  intros Hc Hd. unfold round_even. rewrite Z.div_mul_cancel_l, Z.mul_mod_distr_l by lia.
  assert (forall a b, (c * a <? c * b) = (a <? b)) as Hlt.
  { intros a b. destruct (Z.ltb_spec (c * a) (c * b)), (Z.ltb_spec a b); [done|nia|nia|done]. }
  replace (2 * (c * (n mod d))) with (c * (2 * (n mod d))) by lia. by rewrite !Hlt.
Qed.

(** ** Powers of two *)

Lemma up_pos e : 0 < up e.
Proof. apply Z.pow_pos_nonneg; lia. Qed.
Lemma down_pos e : 0 < down e.
Proof. apply Z.pow_pos_nonneg; lia. Qed.
#[local] Hint Resolve up_pos down_pos : core.

Lemma up_nonneg e : 0 <= e -> up e = 2 ^ e /\ down e = 1.
Proof. intros H. unfold up, down. by rewrite Z.max_r, Z.max_l by lia. Qed.
Lemma up_nonpos e : e <= 0 -> up e = 1 /\ down e = 2 ^ (- e).
Proof. intros H. unfold up, down. by rewrite Z.max_l, Z.max_r by lia. Qed.

Lemma up_down_add a b : up (a + b) * down a * down b = up a * up b * down (a + b).
Proof. unfold up, down. rewrite <- !Z.pow_add_r by lia. f_equal. lia. Qed.
Lemma up_down_sub a b : up a * down b * down (a - b) = down a * up b * up (a - b).
Proof. unfold up, down. rewrite <- !Z.pow_add_r by lia. f_equal. lia. Qed.

(** The order of [n / d] and [2 ^ k] follows [k]. *)
Lemma up_down_mono a b : a <= b -> up a * down b <= up b * down a.
Proof. intros H. unfold up, down. rewrite <- !Z.pow_add_r by lia. apply Z.pow_le_mono_r; lia. Qed.

Lemma log2_ratio_spec n d :
  0 < n -> 0 < d -> let k := log2_ratio n d in d * up k <= n * down k /\ n * down (k + 1) < d * up (k + 1).
Proof.
  intros Hn Hd. unfold log2_ratio. set (k := Z.log2 n - Z.log2 d).
  pose proof (Z.log2_spec n Hn) as [Hn1 Hn2]. pose proof (Z.log2_spec d Hd) as [Hd1 Hd2].
  pose proof (Z.log2_nonneg n). pose proof (Z.log2_nonneg d).
  assert (n * down (k + 1) < d * up (k + 1)) as Hup.
  { apply Z.lt_le_trans with (2 ^ Z.succ (Z.log2 n) * down (k + 1)); [pose proof (down_pos (k + 1)); nia|].
    apply Z.le_trans with (2 ^ Z.log2 d * up (k + 1)); [|pose proof (up_pos (k + 1)); nia].
    unfold up, down. rewrite <- !Z.pow_add_r by lia. apply Z.pow_le_mono_r; lia. }
  cbv zeta. destruct (Z.leb_spec (d * up k) (n * down k)) as [H1|H1]; [by split|].
  replace (k - 1 + 1) with k by lia. split; [|done].
  apply Z.le_trans with (2 ^ Z.succ (Z.log2 d) * up (k - 1)); [pose proof (up_pos (k - 1)); nia|].
  apply Z.le_trans with (2 ^ Z.log2 n * down (k - 1)); [|pose proof (down_pos (k - 1)); nia].
  unfold up, down. rewrite <- !Z.pow_add_r by lia. apply Z.pow_le_mono_r; lia.
Qed.

Lemma log2_ratio_le n d : 0 < d -> log2_ratio n d <= Z.log2 n.
Proof. intros Hd. unfold log2_ratio. pose proof (Z.log2_nonneg d). case_match; lia. Qed.

(** Two bounds of one ratio on powers of two. *)
Lemma pow_between n d j k : 0 < d -> 0 < n -> d * up j <= n * down j -> n * down k < d * up k -> j < k.
Proof.
  intros Hd Hn H1 H2. destruct (Z.lt_ge_cases j k) as [|H]; [done|].
  pose proof (up_down_mono k j H). pose proof (down_pos k). pose proof (down_pos j). pose proof (up_pos j). pose proof (up_pos k).
  assert (d * (up j * down k) <= n * (down j * down k)) by nia.
  assert (n * (down j * down k) < d * (up k * down j)) by nia. nia.
Qed.

Lemma log2_ratio_unique n d k :
  0 < n -> 0 < d -> d * up k <= n * down k -> n * down (k + 1) < d * up (k + 1) -> log2_ratio n d = k.
Proof.
  intros Hn Hd H1 H2. destruct (log2_ratio_spec n d Hn Hd) as [G1 G2].
  pose proof (pow_between _ _ _ _ Hd Hn H1 G2). pose proof (pow_between _ _ _ _ Hd Hn G1 H2). lia.
Qed.

Lemma log2_ratio_scale c n d : 0 < c -> 0 < n -> 0 < d -> log2_ratio (c * n) (c * d) = log2_ratio n d.
Proof.
  intros Hc Hn Hd. destruct (log2_ratio_spec n d Hn Hd) as [G1 G2].
  apply log2_ratio_unique; [nia|nia| |]; rewrite <- !Z.mul_assoc; nia.
Qed.

Lemma of_ratio_scale fmt c n d : 0 < c -> 0 < n -> 0 < d -> of_ratio fmt (c * n) (c * d) = of_ratio fmt n d.
Proof.
  intros Hc Hn Hd. unfold of_ratio, round_pos, last_place.
  rewrite !Z.abs_eq, log2_ratio_scale by nia. rewrite <- !Z.mul_assoc, round_even_scale by (done || by apply Z.mul_pos_pos).
  rewrite !(proj2 (Z.eqb_neq _ _)), !(proj2 (Z.ltb_ge _ _)), !Z.sgn_pos by nia. done.
Qed.

(** Equal ratios round to the same float. *)
Lemma of_ratio_eq fmt n d n' d' :
  0 < n -> 0 < d -> 0 < n' -> 0 < d' -> n * d' = n' * d -> of_ratio fmt n d = of_ratio fmt n' d'.
Proof.
  intros Hn Hd Hn' Hd' H. rewrite <- (of_ratio_scale fmt d' n d), <- (of_ratio_scale fmt d n' d') by done.
  f_equal; lia.
Qed.

(** ** Rounding of a ratio next to integers *)

Lemma up_ge_2 e : 0 < e -> 2 <= up e.
Proof.
  intros He. destruct (up_nonneg e) as [-> _]; [lia|]. change 2 with (2 ^ 1) at 1. apply Z.pow_le_mono_r; lia.
Qed.

Section near_integers.
Variable fmt : Format.
Hypothesis Hprec : 1 < prec fmt.
Hypothesis Hemin : emin fmt < 0.
Variables n d : Z.
Hypothesis Hn : 0 < n.
Hypothesis Hd : 0 < d.

Abbreviation e := (last_place fmt n d).
Abbreviation m := (round_pos fmt n d).1.

(** A positive last place means at least [2 ^ (prec - 1)] of it. *)
Lemma last_place_pos : 0 < e -> d * up (e + (prec fmt - 1)) <= n * down (e + (prec fmt - 1)).
Proof.
  unfold last_place. intros H. rewrite Z.max_r in * by lia.
  replace (log2_ratio n d - (prec fmt - 1) + (prec fmt - 1)) with (log2_ratio n d) by lia.
  by destruct (log2_ratio_spec n d Hn Hd).
Qed.

Lemma large_ratio : 0 < e -> d * 2 ^ (prec fmt - 1) * up e <= n /\ down e = 1.
Proof.
  intros H. pose proof (last_place_pos H) as Hl.
  destruct (up_nonneg (e + (prec fmt - 1))) as [E1 E2]; [lia|]. destruct (up_nonneg e) as [-> ->]; [lia|].
  rewrite E1, E2, Z.pow_add_r in Hl by lia. split; [lia|done].
Qed.

Lemma two_pow_prec : 2 ^ prec fmt = 2 * 2 ^ (prec fmt - 1).
Proof. rewrite <- Z.pow_succ_r by lia. f_equal. lia. Qed.

Lemma int_lower k : 0 <= k <= 2 ^ prec fmt -> k * d <= n -> k * down e <= m * up e.
Proof.
  intros Hk H. cbn [round_pos fst]. destruct (Z.le_gt_cases e 0) as [He|He].
  - destruct (up_nonpos e He) as [-> _]. rewrite !Z.mul_1_r. apply round_even_lower; [done|].
    pose proof (down_pos e). nia.
  - destruct (large_ratio He) as [Hl ->]. rewrite !Z.mul_1_r.
    assert (2 ^ (prec fmt - 1) <= round_even n (d * up e)).
    { apply round_even_lower; [by apply Z.mul_pos_pos|lia]. }
    pose proof (up_ge_2 e He).
    rewrite two_pow_prec in Hk. nia.
Qed.

Lemma int_upper k : 0 <= k <= 2 ^ prec fmt -> n <= k * d -> m * up e <= k * down e.
Proof.
  intros Hk H. cbn [round_pos fst]. destruct (Z.le_gt_cases e 0) as [He|He].
  - destruct (up_nonpos e He) as [-> _]. rewrite !Z.mul_1_r. apply round_even_upper; [done|].
    pose proof (down_pos e). nia.
  - destruct (large_ratio He) as [Hl ->]. rewrite !Z.mul_1_r. rewrite two_pow_prec in Hk.
    assert (0 < 2 ^ (prec fmt - 1)) by (apply Z.pow_pos_nonneg; lia).
    assert (up e = 2 ^ e) as Hup by (apply up_nonneg; lia).
    assert (e = 1) as E1.
    { destruct (Z.eq_dec e 1) as [|Hne]; [done|]. exfalso.
      assert (4 <= up e) by (rewrite Hup; change 4 with (2 ^ 2); apply Z.pow_le_mono_r; lia).
      assert (0 < d * 2 ^ (prec fmt - 1)) by (by apply Z.mul_pos_pos).
      assert (k * d <= 2 * (d * 2 ^ (prec fmt - 1))) by nia.
      assert (d * 2 ^ (prec fmt - 1) * 4 <= d * 2 ^ (prec fmt - 1) * up e) by (apply Z.mul_le_mono_nonneg_l; lia). lia. }
    rewrite Hup, E1 in *. change (2 ^ 1) with 2 in *.
    assert (round_even n (d * 2) <= 2 ^ (prec fmt - 1)) by (apply round_even_upper; nia). nia.
Qed.

(** Strictly above an integer, a ratio of small numbers does not round to it. *)
Lemma int_strict k : n < 2 ^ prec fmt -> d <= down (emin fmt) -> k * d < n -> 0 <= k -> k * down e < m * up e.
Proof.
  intros Hs Hsd H Hk. cbn [round_pos fst]. destruct (Z.le_gt_cases e 0) as [He|He].
  - destruct (up_nonpos e He) as [-> Hdn]. rewrite !Z.mul_1_r.
    assert (d < 2 * down e) as Hde.
    { unfold last_place in *. destruct (Z.max_spec (emin fmt) (log2_ratio n d - (prec fmt - 1))) as [[_ E]|[_ E]];
        rewrite E in *; [|pose proof (down_pos (emin fmt)); lia].
      destruct (log2_ratio_spec n d Hn Hd) as [Hl _]. set (k' := log2_ratio n d) in *.
      rewrite Hdn, <- Z.pow_succ_r by lia.
      assert (2 ^ prec fmt * down k' <= 2 ^ Z.succ (- (k' - (prec fmt - 1))) * up k') as Hpow.
      { unfold up, down. rewrite <- !Z.pow_add_r by lia. apply Z.pow_le_mono_r; lia. }
      apply (Z.mul_lt_mono_pos_r (up k')); [done|]. eapply Z.le_lt_trans; [exact Hl|].
      eapply Z.lt_le_trans; [apply Z.mul_lt_mono_pos_r; [done|exact Hs]|done]. }
    apply round_even_near; [done|]. nia.
  - destruct (large_ratio He) as [Hl _]. rewrite two_pow_prec in Hs.
    pose proof (up_ge_2 e He).
    assert (0 < 2 ^ (prec fmt - 1)) by (apply Z.pow_pos_nonneg; lia). exfalso.
    assert (2 ^ (prec fmt - 1) <= d * 2 ^ (prec fmt - 1)) by nia.
    assert (d * 2 ^ (prec fmt - 1) * 2 <= d * 2 ^ (prec fmt - 1) * up e) by (apply Z.mul_le_mono_nonneg_l; lia). lia.
Qed.

Lemma of_ratio_finite : n < 2 ^ (emax fmt - 1) -> emin fmt < emax fmt - prec fmt -> of_ratio fmt n d = Fin m e.
Proof.
  intros Hb He. unfold of_ratio. rewrite (proj2 (Z.eqb_neq _ _)), Z.abs_eq by lia.
  assert (e < emax fmt - prec fmt).
  { unfold last_place. pose proof (log2_ratio_le n d Hd).
    assert (Z.log2 n < emax fmt - 1) by (apply Z.log2_lt_pow2; lia). lia. }
  unfold round_pos, overflows. rewrite !(proj2 (Z.ltb_ge _ _)), (proj2 (Z.eqb_neq _ _)), Z.sgn_pos by lia.
  cbn. by rewrite Z.mul_1_l.
Qed.

(** A number with few significant bits is a float. *)
Lemma exact_value t s : d = 1 -> n = t * 2 ^ s -> 0 <= s -> t < 2 ^ prec fmt -> m * up e = n * down e.
Proof.
  intros Hd1 Ht Hs Hlt. cbn [round_pos fst]. destruct (Z.le_gt_cases e 0) as [He|He].
  - destruct (up_nonpos e He) as [-> _]. replace (d * 1) with 1 by lia.
    rewrite Z.mul_1_r, <- (Z.mul_1_r (n * down e)) at 1. by apply round_even_exact.
  - destruct (large_ratio He) as [_ ->]. replace (d * up e) with (up e) by lia. rewrite !Z.mul_1_r.
    assert (0 < t) by (assert (0 < 2 ^ s) by (apply Z.pow_pos_nonneg; lia); nia).
    assert (e <= s) as Hes.
    { unfold last_place in *. rewrite Z.max_r in * by lia. pose proof (log2_ratio_le n d Hd).
      assert (Z.log2 n = Z.log2 t + s) as Hl by (rewrite Ht, Z.log2_mul_pow2; lia).
      assert (Z.log2 t < prec fmt) by (apply Z.log2_lt_pow2; lia). lia. }
    destruct (up_nonneg e) as [-> _]; [lia|].
    assert (n = t * 2 ^ (s - e) * 2 ^ e) as Hne by (rewrite <- Z.mul_assoc, <- Z.pow_add_r by lia; rewrite Ht; do 2 f_equal; lia).
    rewrite Hne at 1. rewrite round_even_exact by (apply Z.pow_pos_nonneg; lia). by rewrite <- Hne.
Qed.
End near_integers.

(** ** Integers through floating point *)

(** A number with at most [prec] significant bits. *)
Definition representable (fmt : Format) (z : Z) : Prop :=
  0 < z < 2 ^ (emax fmt - 1) /\ exists t s, z = t * 2 ^ s /\ 0 <= s /\ t < 2 ^ prec fmt.

Definition sane_format (fmt : Format) : Prop :=
  1 < prec fmt /\ emin fmt < 0 /\ emin fmt < emax fmt - prec fmt /\ prec fmt < emax fmt /\ emin fmt + prec fmt <= 0.
Lemma sane_32 : sane_format binary32.
Proof. by repeat split. Qed.
Lemma sane_64 : sane_format binary64.
Proof. by repeat split. Qed.
#[export] Hint Resolve sane_32 sane_64 : collector.

Lemma representable_small fmt z : sane_format fmt -> 0 < z < 2 ^ prec fmt -> representable fmt z.
Proof.
  intros (H1 & H2 & H3 & H4) H. split; [|exists z, 0; change (2 ^ 0) with 1; lia].
  split; [lia|]. eapply Z.lt_le_trans; [apply H|]. apply Z.pow_le_mono_r; lia.
Qed.

(** [x] is the number [z] (or [a / b]), without rounding. *)
Definition is_ratio (x : float) (a b : Z) : Prop := exists m e, x = Fin m e /\ 0 < m /\ m * up e * b = a * down e.

Lemma of_Z_exact fmt z : sane_format fmt -> representable fmt z -> is_ratio (of_Z fmt z) z 1.
Proof.
  intros (H1 & H2 & H3 & _) [Hz (t & s & Ht & Hs & Hlt)].
  exists (round_pos fmt z 1).1, (last_place fmt z 1). split; [apply of_ratio_finite; lia|].
  assert ((round_pos fmt z 1).1 * up (last_place fmt z 1) = z * down (last_place fmt z 1)) as E
    by (eapply exact_value; eauto; lia).
  pose proof (up_pos (last_place fmt z 1)). pose proof (down_pos (last_place fmt z 1)). split; [nia|lia].
Qed.

Lemma fdiv_ratio fmt x y a b c d :
  0 < a -> 0 < b -> 0 < c -> 0 < d -> is_ratio x a c -> is_ratio y b d -> fdiv fmt x y = of_ratio fmt (a * d) (c * b).
Proof.
  intros Ha Hb Hc Hd (m1 & e1 & -> & Hm1 & E1) (m2 & e2 & -> & Hm2 & E2). cbn [fdiv].
  rewrite (proj2 (Z.eqb_neq m2 0)) by lia.
  pose proof (up_pos (e1 - e2)) as HU. pose proof (down_pos (e1 - e2)) as HD. rewrite Z.sgn_pos, Z.abs_eq, Z.mul_1_r by lia.
  apply of_ratio_eq; [by apply Z.mul_pos_pos ..|].
  pose proof (up_down_sub e1 e2) as HS. pose proof (up_pos e1). pose proof (down_pos e2).
  apply (Z.mul_cancel_r _ _ (up e1 * down e2)); [nia|].
  transitivity ((m1 * up e1 * c) * up (e1 - e2) * (b * down e2)); [ring|]. rewrite E1, <- E2.
  transitivity (a * m2 * d * (down e1 * up e2 * up (e1 - e2))); [ring|]. rewrite <- HS. ring.
Qed.

Lemma fmul_ratio fmt x y a b c d :
  0 < a -> 0 < b -> 0 < c -> 0 < d -> is_ratio x a c -> is_ratio y b d -> fmul fmt x y = of_ratio fmt (a * b) (c * d).
Proof.
  intros Ha Hb Hc Hd (m1 & e1 & -> & Hm1 & E1) (m2 & e2 & -> & Hm2 & E2). cbn [fmul].
  pose proof (up_pos (e1 + e2)) as HU. pose proof (down_pos (e1 + e2)) as HD.
  apply of_ratio_eq; [by repeat apply Z.mul_pos_pos ..|].
  pose proof (up_down_add e1 e2) as HS. pose proof (down_pos e1). pose proof (down_pos e2).
  apply (Z.mul_cancel_r _ _ (down e1 * down e2)); [nia|].
  transitivity (m1 * m2 * c * d * (up (e1 + e2) * down e1 * down e2)); [ring|]. rewrite HS.
  transitivity ((m1 * up e1 * c) * (m2 * up e2 * d) * down (e1 + e2)); [ring|]. rewrite E1, E2. ring.
Qed.

Lemma ceil_Z_le m e k : ceil_Z m e <= k <-> m * up e <= k * down e.
Proof.
  unfold ceil_Z. pose proof (down_pos e). split; intros H1.
  - pose proof (Z.mul_div_le (- (m * up e)) (down e) ltac:(lia)). nia.
  - assert (- k <= - (m * up e) / down e) by (apply Z.div_le_lower_bound; lia). lia.
Qed.

(** The quotient rounded up. *)
Definition cdiv (n d : Z) : Z := - (- n / d).
Lemma cdiv_le n d k : 0 < d -> cdiv n d <= k <-> n <= k * d.
Proof.
  intros Hd. unfold cdiv. split; intros H1.
  - pose proof (Z.mul_div_le (- n) d ltac:(lia)). nia.
  - assert (- k <= - n / d) by (apply Z.div_le_lower_bound; lia). lia.
Qed.

(** [std::ceil] of a quotient of small numbers is the quotient rounded up. *)
Lemma ceil_ratio fmt n d :
  sane_format fmt -> 0 < n < 2 ^ prec fmt -> 0 < d <= down (emin fmt) ->
  exists m e, of_ratio fmt n d = Fin m e /\ ceil_Z m e = cdiv n d.
Proof.
  intros (H1 & H2 & H3 & H4) Hn Hd. exists (round_pos fmt n d).1, (last_place fmt n d). split.
  { apply of_ratio_finite; [lia|lia| |done]. eapply Z.lt_le_trans; [apply Hn|]. apply Z.pow_le_mono_r; lia. }
  assert (0 < cdiv n d) as Hpos by (destruct (Z.lt_ge_cases 0 (cdiv n d)) as [|Hc]; [done|]; apply cdiv_le in Hc; lia).
  assert (cdiv n d <= n) as Hle by (apply cdiv_le; nia).
  apply Z.le_antisymm.
  - apply ceil_Z_le, int_upper; [lia ..|]. apply cdiv_le; lia.
  - set (c := ceil_Z _ _). destruct (Z.le_gt_cases (cdiv n d) c) as [|Hc]; [done|]. exfalso.
    assert (~ c <= cdiv n d - 1) as Hn1; [|lia]. subst c. rewrite ceil_Z_le. apply Z.lt_nge.
    apply int_strict; try lia. apply Z.lt_nge. rewrite <- cdiv_le by lia. lia.
Qed.

(** [std::ceil] of any quotient stays on the side of a small integer on which the
    quotient is. *)
Lemma ceil_bounds fmt n d :
  sane_format fmt -> 0 < n < 2 ^ (emax fmt - 1) -> 0 < d ->
  exists m e, of_ratio fmt n d = Fin m e /\
    forall k, 0 <= k <= 2 ^ prec fmt -> (n <= k * d -> ceil_Z m e <= k) /\ (k * d <= n -> k <= ceil_Z m e).
Proof.
  intros (H1 & H2 & H3 & H4) Hn Hd. exists (round_pos fmt n d).1, (last_place fmt n d).
  split; [apply of_ratio_finite; lia|]. intros k Hk. split; intros H.
  - apply ceil_Z_le, int_upper; lia || done.
  - pose proof (int_lower fmt H1 H2 n d ltac:(lia) Hd k Hk H) as Hl.
    pose proof (proj1 (ceil_Z_le (round_pos fmt n d).1 (last_place fmt n d) _) (Z.le_refl _)) as Hc.
    pose proof (down_pos (last_place fmt n d)). nia.
Qed.

Lemma round_even_near_below n d k : 0 < d -> d < 2 * (k * d - n) -> round_even n d < k.
Proof.
  intros Hd H. unfold round_even. pose proof (Z.div_mod n d ltac:(lia)) as E. pose proof (Z.mod_pos_bound n d Hd).
  assert (n / d < k) by (apply Z.div_lt_upper_bound; lia).
  destruct (Z.eq_dec (n / d + 1) k) as [Hk|Hk]; [|repeat case_match; lia].
  assert (2 * (n mod d) < d) by nia. case_match; lia.
Qed.

(** Next to halves: when the last place is small against [1 / d]. *)
Lemma half_spec fmt n d k :
  0 < n -> 0 < d < down (last_place fmt n d) -> last_place fmt n d < 0 ->
  k * down (last_place fmt n d) <= 2 * ((round_pos fmt n d).1 * up (last_place fmt n d)) <-> k * d <= 2 * n.
Proof.
  intros Hn Hd He. cbn [round_pos fst]. destruct (up_nonpos (last_place fmt n d)) as [-> Hdn]; [lia|].
  assert (exists h, down (last_place fmt n d) = 2 * h) as [h Hh].
  { exists (2 ^ (- last_place fmt n d - 1)). rewrite Hdn, <- Z.pow_succ_r by lia. f_equal. lia. }
  rewrite Hh in *. rewrite !Z.mul_1_r. split; intros H.
  - destruct (Z.le_gt_cases (k * d) (2 * n)) as [|Hlt]; [done|]. exfalso.
    pose proof (round_even_near_below (n * (2 * h)) d (k * h) ltac:(lia)) as Hr.
    assert (round_even (n * (2 * h)) d < k * h) by (apply Hr; nia). lia.
  - assert (k * h <= round_even (n * (2 * h)) d) by (apply round_even_lower; nia). lia.
Qed.

Lemma round_Z_ge m e k : 0 <= m -> k <= round_Z m e <-> (2 * k - 1) * down e <= 2 * (m * up e) \/ (k <= 0 /\ m = 0).
Proof.
  intros Hm. unfold round_Z. pose proof (down_pos e) as Hd. destruct (Z.eq_dec m 0) as [->|Hm0].
  { cbn. split; [intros H; right; lia|]. intros [H|H]; [|lia]. nia. }
  rewrite Z.sgn_pos, Z.abs_eq, Z.mul_1_l by lia. split; intros H.
  - left. pose proof (Z.mul_div_le (2 * (m * up e) + down e) (2 * down e) ltac:(lia)). nia.
  - destruct H as [H|H]; [|lia]. apply Z.div_le_lower_bound; lia.
Qed.

(** [std::round] of a quotient of small numbers is the quotient rounded, halves up. *)
Lemma round_ratio n d :
  0 < n < 2 ^ 24 -> 0 < d < 2 ^ 24 ->
  exists m e, of_ratio binary64 n d = Fin m e /\ round_Z m e = (2 * n + d) / (2 * d).
Proof.
  intros Hn Hd. exists (round_pos binary64 n d).1, (last_place binary64 n d).
  assert (last_place binary64 n d <= -29) as Hle.
  { unfold last_place. pose proof (log2_ratio_le n d ltac:(lia)). assert (Z.log2 n < 24) by (apply Z.log2_lt_pow2; lia).
    cbn [prec emin binary64]. lia. }
  assert (d < down (last_place binary64 n d)) as Hdd.
  { destruct (up_nonpos (last_place binary64 n d)) as [_ ->]; [lia|].
    apply Z.lt_le_trans with (2 ^ 29); [lia|]. apply Z.pow_le_mono_r; lia. }
  split; [apply of_ratio_finite; [lia|lia| |done]; eapply Z.lt_trans; [apply Hn|done]|].
  assert (0 <= (round_pos binary64 n d).1) as Hm.
  { cbn [round_pos fst]. apply round_even_lower; [|pose proof (down_pos (last_place binary64 n d)); nia].
    apply Z.mul_pos_pos; [lia|apply up_pos]. }
  assert (forall k, 1 <= k -> k <= round_Z (round_pos binary64 n d).1 (last_place binary64 n d) <-> (2 * k - 1) * d <= 2 * n) as Hk.
  { intros k Hk. rewrite round_Z_ge, half_spec by lia. lia. }
  assert (0 <= round_Z (round_pos binary64 n d).1 (last_place binary64 n d)) as H0.
  { apply Z.mul_nonneg_nonneg; [by apply Z.sgn_nonneg|]. pose proof (up_pos (last_place binary64 n d)).
    pose proof (down_pos (last_place binary64 n d)). apply Z.div_pos; nia. }
  set (r := round_Z _ _) in *. apply Z.div_unique with (2 * n + d - 2 * d * r); [left|lia].
  pose proof (proj2 (Hk (r + 1) ltac:(lia))) as Hup. destruct (Z.eq_dec r 0) as [Hr|Hr]; [nia|].
  pose proof (proj1 (Hk r ltac:(lia)) ltac:(lia)) as Hlo. nia.
Qed.

(** ** Reading decimal integers *)

Lemma digit_chars c :
  isdigit c = true ->
  isspace c = false /\ ch_eqb c "-" = false /\ ch_eqb c "+" = false /\ tolower c = c /\ ch_eqb c "i" = false /\
  ch_eqb c "n" = false /\ ch_eqb c "x" = false /\ digit_value c = ord c - 48.
Proof. destruct c as [[] [] [] [] [] [] [] []]; vm_compute; intros H; (discriminate H || by repeat split). Qed.

Lemma base_digits_digits s acc n :
  forallb isdigit s = true ->
  base_digits 10 isdigit s acc n = ((digits s acc).1, n + Z.of_nat (length s), []).
Proof.
  revert acc n. induction s as [|c s IH]; intros acc n; cbn [forallb base_digits digits length]; [by rewrite Z.add_0_r|].
  intros [Hc Hs]%andb_prop. rewrite Hc, IH by done. destruct (digit_chars c Hc) as (_ & _ & _ & _ & _ & _ & _ & ->).
  do 2 f_equal. lia.
Qed.

Lemma decimal_digits s : s <> [] -> forallb isdigit s = true -> decimal s = Some ((digits s 0).1, 1).
Proof.
  intros Hne Hs. unfold decimal, mantissa. rewrite base_digits_digits by done.
  destruct s as [|c r]; [done|]. rewrite (proj2 (Z.eqb_neq _ _)) by (cbn [length]; lia). cbn [exponent Z.sub Z.opp Z.add Z.max Z.pow].
  by rewrite Z.mul_1_r.
Qed.

(** A positive whole number in text is read exactly. *)
Lemma stof_digits s z :
  forallb isdigit s = true -> (digits s 0).1 = z -> 0 < z < 2 ^ 24 ->
  exists x, stof binary32 s = inr x /\ is_ratio x z 1.
Proof.
  intros Hs Hz Hr. destruct s as [|c r]; [cbn in Hz; lia|]. pose proof Hs as [Hc Hcr]%andb_prop.
  destruct (digit_chars c Hc) as (E1 & E2 & E3 & E4 & E5 & E6 & _). unfold stof. cbn [skip_spaces]. rewrite E1.
  cbn [read_sign]. rewrite E2, E3. cbn [map]. rewrite E4.
  assert (forall d t u, ch_eqb c d = false -> starts_with (d :: t) (c :: u) = false) as Hsw.
  { intros d t u Hd. cbn. unfold ch_eqb in Hd. unfold ch_eqb. by rewrite Ascii.eqb_sym, Hd. }
  rewrite !Hsw by done.
  assert (hexadecimal (c :: r) = None) as ->.
  { unfold hexadecimal, hex_prefix. destruct r as [|x r]; [done|]. cbn [forallb] in Hcr. apply andb_prop in Hcr as [Hx _].
    destruct (digit_chars x Hx) as (_ & _ & _ & Hl & _ & _ & Hxx & _). by rewrite Hl, Hxx, andb_false_r. }
  rewrite decimal_digits by done. rewrite Hz.
  destruct (of_Z_exact binary32 z sane_32) as (m & e & Hof & Hm & Hex).
  { apply representable_small; [apply sane_32|done]. }
  unfold of_Z in Hof. rewrite Hof.
  assert (underflows binary32 z 1 = false) as ->.
  { unfold underflows, of_ratio in *. rewrite (proj2 (Z.eqb_neq z 0)), Z.abs_eq in * by lia.
    destruct (round_pos binary32 z 1) as [m' e']. destruct (overflows _ _ _); [done|].
    rewrite Z.sgn_pos, Z.mul_1_l in Hof by lia. injection Hof as -> ->.
    rewrite (proj2 (Z.eqb_eq _ _) Hex). by rewrite andb_false_r. }
  rewrite andb_false_r. eexists. split; [done|]. by exists m, e.
Qed.

(** A quotient is at most twice the power of two of its numerator, rounded. *)
Lemma ceil_upper fmt n d :
  sane_format fmt -> 0 < n -> 0 < d ->
  0 <= ceil_Z (round_pos fmt n d).1 (last_place fmt n d) <= 2 ^ (Z.log2 n + 1).
Proof.
  intros (H1 & H2 & H3 & H4) Hn Hd. pose proof (Z.log2_nonneg n). set (e := last_place fmt n d).
  destruct (log2_ratio_spec n d Hn Hd) as [_ Hup]. pose proof (log2_ratio_le n d Hd).
  assert (log2_ratio n d + 1 <= e + prec fmt) as Hk by (subst e; unfold last_place; lia).
  assert ((round_pos fmt n d).1 <= 2 ^ prec fmt) as Hm.
  { cbn [round_pos fst]. fold e. apply round_even_upper; [by apply Z.mul_pos_pos|].
    pose proof (up_down_mono _ _ Hk) as Hmono. pose proof (up_down_add e (prec fmt)) as Hadd.
    destruct (up_nonneg (prec fmt)) as [E1 E2]; [lia|]. rewrite E1, E2 in Hadd.
    pose proof (down_pos (log2_ratio n d + 1)). pose proof (down_pos (e + prec fmt)). pose proof (down_pos e).
    apply (Z.mul_le_mono_pos_r _ _ (down (log2_ratio n d + 1) * down (e + prec fmt))); [by apply Z.mul_pos_pos|].
    apply Z.le_trans with (d * up (log2_ratio n d + 1) * (down e * down (e + prec fmt))).
    { replace (n * down e * (down (log2_ratio n d + 1) * down (e + prec fmt)))
        with (n * down (log2_ratio n d + 1) * (down e * down (e + prec fmt))) by ring.
      apply Z.mul_le_mono_nonneg_r; [nia|lia]. }
    replace (d * up (log2_ratio n d + 1) * (down e * down (e + prec fmt)))
      with (d * down e * (up (log2_ratio n d + 1) * down (e + prec fmt))) by ring.
    replace (2 ^ prec fmt * (d * up e) * (down (log2_ratio n d + 1) * down (e + prec fmt)))
      with (d * down (log2_ratio n d + 1) * (up e * 2 ^ prec fmt * down (e + prec fmt))) by ring.
    rewrite <- Hadd. replace (d * down (log2_ratio n d + 1) * (up (e + prec fmt) * down e * 1))
      with (d * down e * (up (e + prec fmt) * down (log2_ratio n d + 1))) by ring.
    apply Z.mul_le_mono_nonneg_l; [nia|done]. }
  assert (0 <= (round_pos fmt n d).1) as Hm0.
  { cbn [round_pos fst]. fold e. apply round_even_lower; [by apply Z.mul_pos_pos|]. pose proof (down_pos e). nia. }
  pose proof (up_pos e). pose proof (down_pos e). split.
  - unfold ceil_Z. assert (- ((round_pos fmt n d).1 * up e) / down e <= 0) by (apply Z.div_le_upper_bound; nia). lia.
  - apply ceil_Z_le. apply Z.le_trans with (2 ^ prec fmt * up e); [nia|].
    unfold up, down. rewrite <- !Z.pow_add_r by lia. apply Z.pow_le_mono_r; [lia|].
    assert (e <= Z.log2 n + 1 - prec fmt \/ e = emin fmt) as [He|He]; [subst e; unfold last_place; lia| |]; lia.
Qed.
