(* ===== verification/NetParse.v ===== *)
(** * Networks in text ([NetworkConnection.cpp]: [Address::parse], [IPNet::parse])

    [getaddrinfo] with [AI_NUMERICHOST] is the C library's: its return code and the
    bytes of the socket address that it allocates are a parameter.  The structure
    that the code copies them into is a list of 128 bytes, not initialised. *)

From S2P Require Import Prelude HostOrder UMap NetAddress CStrings Floats.

Definition AF_INET : Z := 2.
Definition AF_INET6 : Z := 10.

Section parse.
Context `{ho : HostOrder}.
Variable getaddrinfo : chars -> Z * option (list Z).
Variable uninit : list Z.

Definition parse_address (address : chars) : option (list Z) :=
  let '(rc, ai_addr) := getaddrinfo address in
  match ai_addr with
  | Some bytes => if rc =? 0 then Some (bytes ++ drop (length bytes) uninit) else None
  | None => None
  end.

(** [ss_family], the first two bytes. *)
Definition ss_family (sockaddr : list Z) : Z := load_word (take 2 sockaddr).

Definition get_family (sockaddr : list Z) : Family.t :=
  if ss_family sockaddr =? AF_INET then Family.IPV4
  else if ss_family sockaddr =? AF_INET6 then Family.IPV6 else Family.UNKNOWN.

(** A pointer to [sin_addr] or [sin6_addr]. *)
Definition get_raw_address (sockaddr : list Z) : option (list Z) :=
  if ss_family sockaddr =? AF_INET then Some (drop 4 sockaddr)
  else if ss_family sockaddr =? AF_INET6 then Some (drop 8 sockaddr) else None.

Definition Address_parse (address_string : chars) : option Address :=
  match parse_address address_string with
  | None => None
  | Some sockaddr =>
      match get_raw_address sockaddr with
      | None => None
      | Some raw_address => Some (Address_bytes (get_family sockaddr) (take 16 raw_address))
      end
  end.

(** The address part and the length of the prefix; [None] when the latter is not
    a number. *)
Definition split_prefix (ipnet_string : chars) : option (chars * Z) :=
  match find_char "/" ipnet_string 0 with
  | None => Some (ipnet_string, 0)
  | Some slash =>
      match stol (drop (slash + 1) ipnet_string) with
      | inl _ => None
      | inr v => Some (take slash ipnet_string, u32 v)
      end
  end.

Definition IPNet_parse (ipnet_string : chars) : option IPNet :=
  match split_prefix ipnet_string with
  | None => None
  | Some (address_string, prefix_length) =>
      match Address_parse address_string with
      | None => None
      | Some address => Some (IPNet_make address prefix_length (negb (prefix_length =? 0)))
      end
  end.

End parse.

(** ** Properties *)

(** A socket address as the C library writes it: the family, a port and, for
    IPv6, the flow, then the address. *)
Definition sockaddr_of `{ho : HostOrder} (a : Address) (rest : list Z) : list Z :=
  match family_ a with
  | Family.IPV4 => store_word 2 AF_INET ++ [0; 0] ++ take 4 (data_bytes a) ++ rest
  | _ => store_word 2 AF_INET6 ++ [0; 0; 0; 0; 0; 0] ++ take 16 (data_bytes a) ++ rest
  end.

Section theorems.
Context `{ho : HostOrder}.
Variable getaddrinfo : chars -> Z * option (list Z).
Variable uninit : list Z.

Lemma ss_family_store f rest : in_range 16 f -> ss_family (store_word 2 f ++ rest) = f.
Proof.
  intros Hf. unfold ss_family. rewrite take_app_le by (rewrite store_word_length; lia).
  rewrite take_ge by (rewrite store_word_length; lia). by apply load_store.
Qed.

Lemma memcpy_words_take n bytes : (n <= 16)%nat -> memcpy_words n (take 16 bytes) = memcpy_words n bytes.
Proof. intros Hn. unfold memcpy_words. by rewrite take_take, Nat.min_l by lia. Qed.

Lemma drop_header (h body : list Z) n : length h = n -> drop n (h ++ body) = body.
Proof. intros <-. apply drop_app_length. Qed.

(** Reading back the socket address of an address. *)
Lemma Address_parse_sockaddr text a rest :
  getaddrinfo text = (0, Some (sockaddr_of a rest)) -> addr_wf a -> addr_padded a -> family_ a <> Family.UNKNOWN ->
  Address_parse getaddrinfo uninit text = Some a.
Proof.
  intros Hg Ha Hp Hf. unfold Address_parse, parse_address. rewrite Hg. cbn [Z.eqb].
  set (tail := drop _ uninit). pose proof (fun rest => memcpy_words_data a rest Ha Hp) as Hm.
  unfold sockaddr_of, length_ in *. destruct (family_ a) eqn:Ef; [done| |]; cbn [Length] in Hm;
    rewrite <- !app_assoc; unfold get_raw_address, get_family; rewrite !ss_family_store by (by split);
    cbn [Z.eqb Pos.eqb AF_INET AF_INET6]; f_equal; unfold Address_bytes; rewrite memcpy_words_take by (cbn; lia).
  - rewrite (app_assoc (store_word 2 AF_INET)), drop_header by (by rewrite length_app, store_word_length).
    etransitivity; [apply f_equal2; [exact (Hm _)|reflexivity]|]. destruct a. cbn in *. by subst.
  - rewrite (app_assoc (store_word 2 AF_INET6)), drop_header by (by rewrite length_app, store_word_length).
    etransitivity; [apply f_equal2; [exact (Hm _)|reflexivity]|]. destruct a. cbn in *. by subst.
Qed.

Lemma split_prefix_slash addr p :
  ~ In "/"%char addr ->
  split_prefix (addr ++ "/"%char :: p) = match stol p with inl _ => None | inr v => Some (addr, u32 v) end.
Proof.
  intros Hno. unfold split_prefix, find_char. rewrite drop_0, find_from_app by done. cbn [Nat.add].
  rewrite take_app_length. replace (length addr + 1)%nat with (length (addr ++ ["/"%char])) by (rewrite length_app; done).
  replace (addr ++ "/"%char :: p) with ((addr ++ ["/"%char]) ++ p) by (by rewrite <- app_assoc).
  by rewrite drop_app_length.
Qed.

Lemma split_prefix_bare addr : ~ In "/"%char addr -> split_prefix addr = Some (addr, 0).
Proof. intros Hno. unfold split_prefix, find_char. rewrite drop_0. by rewrite (proj2 (find_from_None _ _ _) Hno). Qed.

(** C35: an address with a prefix length in text is the network of the addresses
    that agree with it in so many bits (or in all, when there are fewer), in either
    byte order; without a readable prefix length it is refused.  A bare address is
    taken for the network of all the addresses of its family. *)
Theorem IPNet_parse_exact text p a rest x :
  getaddrinfo text = (0, Some (sockaddr_of a rest)) -> ~ In "/"%char text ->
  addr_wf a -> addr_padded a -> family_ a <> Family.UNKNOWN -> addr_wf x ->
  match stol p with
  | inl _ => IPNet_parse getaddrinfo uninit (text ++ "/"%char :: p) = None
  | inr v =>
      exists net, IPNet_parse getaddrinfo uninit (text ++ "/"%char :: p) = Some net /\ address_ net = a /\
        (Contains net x = true <->
         family_ x = family_ a /\
         let k := Z.to_nat (Z.min (u32 v) (Length (family_ a) * 8)) in take k (addr_bits x) = take k (addr_bits a))
  end /\
  exists net, IPNet_parse getaddrinfo uninit text = Some net /\ (Contains net x = true <-> family_ x = family_ a).
Proof.
  intros Hg Hno Ha Hp Hf Hx. pose proof (Address_parse_sockaddr text a rest Hg Ha Hp Hf) as Hparse.
  assert (forall b f, 0 <= b -> Contains (IPNet_make a b f) x = true <->
    family_ x = family_ a /\
    let k := Z.to_nat (Z.min b (Length (family_ a) * 8)) in take k (addr_bits x) = take k (addr_bits a)) as Hc.
  { intros b f Hb. by apply Contains_prefix. }
  split.
  - unfold IPNet_parse. rewrite split_prefix_slash by done. destruct (stol p) as [|v]; [done|]. rewrite Hparse.
    eexists. split; [done|]. split; [done|]. apply Hc. apply Z.mod_pos_bound. lia.
  - unfold IPNet_parse. rewrite split_prefix_bare, Hparse by done. eexists. split; [done|]. rewrite Hc by done.
    rewrite Z.min_l by (destruct (family_ a); cbn; lia). cbn. tauto.
Qed.
End theorems.

(** ** Witness *)

Definition wit_net_address `{ho : HostOrder} : Address := Address_octets 10 1 2 3.
Definition wit_getaddrinfo (text : chars) : Z * option (list Z) :=
  (0, Some (sockaddr_of (ho := true) (wit_net_address (ho := true)) (replicate 8 0))).

Lemma IPNet_parse_exact_witness :
  let text := ["1"; "0"; "."; "1"; "."; "2"; "."; "3"]%char in
  exists net, IPNet_parse (ho := true) wit_getaddrinfo (replicate 128 7) (text ++ ["/"; "8"]%char) = Some net /\
    Contains (ho := true) net (Address_octets (ho := true) 10 99 0 1) = true.
Proof.
  intros text.
  destruct (IPNet_parse_exact (ho := true) wit_getaddrinfo (replicate 128 7) text ["8"%char] (wit_net_address (ho := true))
    (replicate 8 0) (Address_octets (ho := true) 10 99 0 1)) as [(net & Hn & _ & Hc) _].
  - reflexivity.
  - by apply find_from_None with 0%nat.
  - apply Address_octets_wf.
  - reflexivity.
  - discriminate.
  - apply Address_octets_wf.
  - exists net. split; [exact Hn|]. apply Hc. split; vm_compute; reflexivity.
Defined.
