(* ===== verification/OptList.v ===== *)
(** * Options and their linked lists ([optionparser.h])

    The parser of command lines keeps every option it finds in an array, and the
    options of one kind in a doubly linked list through the array.  The links are
    addresses; the lowest bit of an address is set where the list wraps around, so
    that the first node's [prev_] leads to the last node and the last node's [next_]
    to the first.

    A heap maps addresses of nodes to nodes; a dereference of any other address is
    [Crash].  Character pointers name one of the argument strings and the text from
    the pointer to the terminating NUL. *)

From stdpp Require Import gmap.
From S2P Require Import Prelude CStrings.

Inductive ArgStatus := ARG_NONE | ARG_OK | ARG_IGNORE | ARG_ILLEGAL.
#[global] Instance ArgStatus_eq_dec : EqDecision ArgStatus.
Proof. solve_decision. Defined.

(** ** Character pointers *)

Record cptr := mkPtr { str : nat; rest : chars }.
#[global] Instance cptr_eq_dec : EqDecision cptr.
Proof. solve_decision. Defined.

Definition NUL : ascii := "000"%char.
(** [*p], and [p + n] for a pointer that stays within its string. *)
Definition deref (s : chars) : ascii := hd NUL s.
Definition advance_ptr (n : nat) (p : cptr) : cptr := mkPtr (str p) (drop n (rest p)).

(** ** Nodes

    [desc] points to an entry of the table [usage]: its position. *)

Record Option := mkOption {
  next_ : Z; prev_ : Z; desc : option nat; name : option cptr; arg : option cptr; namelen : Z
}.

Abbreviation heap := (gmap Z Option).

Definition tag (ptr : Z) : Z := ptr |. 1.
Definition untag (ptr : Z) : Z := ptr &. not64 1.
Definition isTagged (ptr : Z) : bool := negb ((ptr &. 1) =? 0).

(** The length of a name that starts with a minus, up to an equals sign. *)
Fixpoint name_length (s : chars) : Z :=
  match s with
  | [] => 0
  | c :: s => if ch_eqb c "=" then 0 else 1 + name_length s
  end.

(** [init] on the node at address [this]. *)
Definition Option_init (this : Z) (desc : option nat) (name arg : option cptr) : Option :=
  mkOption (tag this) (tag this) desc name arg
    (match name with
     | None => 0
     | Some p => if negb (ch_eqb (deref (rest p)) "-") then 1 else 1 + name_length (tl (rest p))
     end).

(** The default constructor, the one with arguments, and the copy. *)
Definition Option_default (this : Z) : Option := mkOption (tag this) (tag this) None None None 0.
Definition Option_make (this : Z) (desc : option nat) (name arg : option cptr) : Option := Option_init this desc name arg.
Definition Option_assign (this : Z) (orig : Option) : Option := Option_init this (desc orig) (name orig) (arg orig).

(** The conversion to a pointer: null for an unused node. *)
Definition Option_used (o : Option) : bool := bool_decide (desc o <> None).

Definition isFirst (o : Option) : bool := isTagged (prev_ o).
Definition isLast (o : Option) : bool := isTagged (next_ o).

Definition load (h : heap) (p : Z) : outcome Option :=
  match h !! p with Some o => Ret o | None => Crash end.
Definition set_next (n : Z) (o : Option) : Option := mkOption n (prev_ o) (desc o) (name o) (arg o) (namelen o).
Definition set_prev (p : Z) (o : Option) : Option := mkOption (next_ o) p (desc o) (name o) (arg o) (namelen o).
Definition store_with (f : Option -> Option) (p : Z) (h : heap) : outcome heap :=
  o ← load h p; Ret (<[p := f o]> h).

(** The walks give up as [Blocked] after as many steps as there are nodes. *)
Fixpoint first_loop (fuel : nat) (h : heap) (p : Z) : outcome Z :=
  o ← load h p;
  if isFirst o then Ret p
  else match fuel with O => Blocked | S fuel => first_loop fuel h (prev_ o) end.
Definition Option_first (h : heap) (this : Z) : outcome Z := first_loop (size h) h this.

Definition prevwrap (h : heap) (this : Z) : outcome Z := o ← load h this; Ret (untag (prev_ o)).
Definition nextwrap (h : heap) (this : Z) : outcome Z := o ← load h this; Ret (untag (next_ o)).
Definition Option_last (h : heap) (this : Z) : outcome Z := f ← Option_first h this; prevwrap h f.
Definition Option_prev (h : heap) (this : Z) : outcome (option Z) :=
  o ← load h this; Ret (if isFirst o then None else Some (prev_ o)).
Definition Option_next (h : heap) (this : Z) : outcome (option Z) :=
  o ← load h this; Ret (if isLast o then None else Some (next_ o)).

Fixpoint count_loop (fuel : nat) (h : heap) (p c : Z) : outcome Z :=
  o ← load h p;
  if isLast o then Ret c
  else match fuel with O => Blocked | S fuel => count_loop fuel h (next_ o) (c + 1) end.
Definition Option_count (h : heap) (this : Z) : outcome Z :=
  o ← load h this; p ← Option_first h this;
  count_loop (size h) h p (match desc o with None => 0 | Some _ => 1 end).

Definition Option_append (h : heap) (this new_last : Z) : outcome heap :=
  p ← Option_last h this;
  f ← Option_first h this;
  h ← store_with (set_next new_last) p h;
  h ← store_with (set_prev p) new_last h;
  h ← store_with (set_next (tag f)) new_last h;
  store_with (set_prev (tag new_last)) f h.

(** ** Addresses *)

(** Nodes are aligned to eight bytes, so that their lowest bit is free. *)
Definition aligned (p : Z) : Prop := 0 <= p < 2 ^ 64 /\ Z.testbit p 0 = false.

Section tags.
Implicit Types p q : Z.

Lemma testbit_one i : 0 <= i -> Z.testbit 1 i = (i =? 0).
Proof. by destruct i. Qed.

Lemma testbit_tag p i : 0 <= i -> Z.testbit (tag p) i = (i =? 0) || Z.testbit p i.
Proof.
  intros Hi. unfold tag. by rewrite Z.lor_spec, orb_comm, testbit_one.
Qed.

Lemma isTagged_testbit p : isTagged p = Z.testbit p 0.
Proof.
  unfold isTagged. change (p &. 1) with (p &. Z.ones 1). rewrite Z.land_ones by lia. change (2 ^ 1) with 2.
  rewrite Zmod_odd, Z.bit0_odd. by destruct (Z.odd p).
Qed.

Lemma isTagged_tag p : isTagged (tag p) = true.
Proof. by rewrite isTagged_testbit, testbit_tag. Qed.

Lemma isTagged_aligned p : aligned p -> isTagged p = false.
Proof. intros [_ H]. by rewrite isTagged_testbit. Qed.

Lemma untag_tag p : aligned p -> untag (tag p) = p.
Proof.
  intros [Hr H0]. unfold untag. apply Z.bits_inj'. intros i Hi. rewrite Z.land_spec, testbit_tag by done.
  destruct (Z.lt_ge_cases i 64) as [Hlt|Hge].
  - rewrite not64_spec, testbit_one by lia.
    destruct (Z.eqb_spec i 0) as [->|]; cbn [negb orb].
    + by rewrite H0.
    + by rewrite andb_true_r.
  - rewrite (in_range_testbit 64 p) by (lia || done). destruct (Z.eqb_spec i 0); [lia|done].
Qed.
End tags.

(** ** Lists in the heap

    [ring h ps]: the nodes at [ps] form one list, in this order. *)

Definition payload (o : Option) : option nat * option cptr * option cptr * Z := (desc o, name o, arg o, namelen o).

Definition node_at (h : heap) (p prev next : Z) : Prop :=
  exists o, h !! p = Some o /\ prev_ o = prev /\ next_ o = next.

Definition prev_link (ps : list Z) (i : nat) : Z :=
  match i with O => tag (default 0 (last ps)) | S j => default 0 (ps !! j) end.
Definition next_link (ps : list Z) (i : nat) : Z :=
  match ps !! S i with Some q => q | None => tag (default 0 (ps !! 0%nat)) end.

Record ring (h : heap) (ps : list Z) : Prop := {
  ring_some : ps <> [];
  ring_aligned : Forall aligned ps;
  ring_NoDup : NoDup ps;
  ring_nodes : forall i p, ps !! i = Some p -> node_at h p (prev_link ps i) (next_link ps i)
}.

Lemma alter_lookup (f : Option -> Option) p q (h : heap) :
  alter f p h !! q = (if decide (p = q) then f else id) <$> h !! q.
Proof.
  destruct (decide (p = q)) as [->|]; [apply lookup_alter_eq|]. rewrite lookup_alter_ne by done. by destruct (h !! q).
Qed.

Lemma load_Some h p o : h !! p = Some o -> load h p = Ret o.
Proof. unfold load. by intros ->. Qed.

Lemma store_const h p o x : h !! p = Some o -> store_with (fun _ => x) p h = Ret (<[p := x]> h).
Proof. intros H. unfold store_with. by rewrite (load_Some _ _ _ H). Qed.

Lemma store_with_alter f p h : is_Some (h !! p) -> store_with f p h = Ret (alter f p h).
Proof.
  intros [o Ho]. unfold store_with, load. rewrite Ho. cbn. f_equal. apply map_eq. intros q. rewrite alter_lookup.
  destruct (decide (p = q)) as [->|]; [by rewrite lookup_insert_eq, Ho|]. rewrite lookup_insert_ne by done. by destruct (h !! q).
Qed.

Section rings.
Implicit Types (h : heap) (ps : list Z).

Lemma ring_lookup h ps i p : ring h ps -> ps !! i = Some p ->
  exists o, load h p = Ret o /\ prev_ o = prev_link ps i /\ next_ o = next_link ps i.
Proof. intros H Hi. destruct (ring_nodes _ _ H i p Hi) as (o & Ho & ? & ?). exists o. unfold load. by rewrite Ho. Qed.

Lemma ring_size h ps : ring h ps -> (length ps <= size h)%nat.
Proof.
  intros H. rewrite <- size_dom, <- (size_list_to_set (C := gset Z)) by apply H. apply subseteq_size.
  intros p Hp. apply elem_of_list_to_set, list_elem_of_lookup in Hp as [i Hi].
  destruct (ring_nodes _ _ H i p Hi) as (o & Ho & _). by apply elem_of_dom_2 in Ho.
Qed.

Lemma ring_aligned_at h ps i p : ring h ps -> ps !! i = Some p -> aligned p.
Proof. intros H Hi. exact (Forall_lookup_1 _ _ _ _ (ring_aligned _ _ H) Hi). Qed.

Lemma ring_isFirst h ps i o : ring h ps -> (i < length ps)%nat -> prev_ o = prev_link ps i -> isFirst o = bool_decide (i = 0%nat).
Proof.
  intros H Hi E. unfold isFirst. rewrite E. destruct i as [|i]; cbn [prev_link]; [by rewrite isTagged_tag|].
  destruct (ps !! i) as [p|] eqn:Ep; [|apply lookup_ge_None in Ep; lia]. cbn. rewrite isTagged_aligned by by eapply ring_aligned_at.
  done.
Qed.

Lemma ring_isLast h ps i o : ring h ps -> next_ o = next_link ps i -> isLast o = bool_decide (ps !! S i = None).
Proof.
  intros H E. unfold isLast. rewrite E. unfold next_link. destruct (ps !! S i) as [p|] eqn:Ep.
  - rewrite isTagged_aligned by by eapply ring_aligned_at. done.
  - by rewrite isTagged_tag.
Qed.

Lemma first_loop_ring h ps i p fuel : ring h ps -> ps !! i = Some p -> (i <= fuel)%nat ->
  first_loop fuel h p = Ret (default 0 (ps !! 0%nat)).
Proof.
  intros H. revert i p. induction fuel as [|fuel IH]; intros i p Hi Hf.
  all: destruct (ring_lookup _ _ _ _ H Hi) as (o & Ho & Hprev & _); cbn; rewrite Ho; cbn.
  all: rewrite (ring_isFirst h ps i) by (done || by eapply lookup_lt_Some); destruct i as [|i]; cbn [bool_decide]; [by rewrite Hi|].
  - lia.
  - rewrite Hprev. cbn [prev_link]. apply lookup_lt_Some in Hi as Hlt.
    destruct (ps !! i) as [q|] eqn:Eq; [|apply lookup_ge_None in Eq; lia]. apply (IH i); [done|lia].
Qed.

Lemma first_ring h ps p : ring h ps -> p ∈ ps -> Option_first h p = Ret (default 0 (ps !! 0%nat)).
Proof.
  intros H [i Hi]%list_elem_of_lookup. apply (first_loop_ring _ _ i); [done|done|].
  pose proof (ring_size _ _ H). apply lookup_lt_Some in Hi. lia.
Qed.

Lemma last_ring h ps p : ring h ps -> p ∈ ps -> Option_last h p = Ret (default 0 (last ps)).
Proof.
  intros H Hp. unfold Option_last. rewrite (first_ring h ps) by done. cbn.
  destruct ps as [|f r]; [by destruct (ring_some _ _ H)|].
  destruct (ring_lookup _ _ 0 f H eq_refl) as (o & Ho & Hprev & _). unfold prevwrap. cbn. rewrite Ho. cbn. f_equal.
  rewrite Hprev. apply untag_tag. destruct (last (f :: r)) as [l|] eqn:El; [|by apply last_None in El].
  rewrite last_lookup in El. by eapply ring_aligned_at.
Qed.

Lemma count_loop_ring h ps i p fuel c : ring h ps -> ps !! i = Some p -> (length ps <= fuel + S i)%nat ->
  count_loop fuel h p c = Ret (c + Z.of_nat (length ps - S i)).
Proof.
  intros H. revert i p c. induction fuel as [|fuel IH]; intros i p c Hi Hf.
  all: destruct (ring_lookup _ _ _ _ H Hi) as (o & Ho & _ & Hnext); cbn; rewrite Ho; cbn.
  all: rewrite (ring_isLast h ps i) by done; apply lookup_lt_Some in Hi; destruct (ps !! S i) as [q|] eqn:Eq; cbn [bool_decide].
  all: try (apply lookup_ge_None in Eq; cbn; f_equal; lia).
  - apply lookup_lt_Some in Eq. lia.
  - rewrite bool_decide_eq_false_2 by done. rewrite Hnext. unfold next_link. rewrite Eq. apply lookup_lt_Some in Eq as Hlt.
    rewrite (IH (S i)) by (done || lia). f_equal. lia.
Qed.

(** The number of options in the list of a used node. *)
Lemma count_ring h ps p : ring h ps -> p ∈ ps -> (exists o, h !! p = Some o /\ desc o <> None) ->
  Option_count h p = Ret (Z.of_nat (length ps)).
Proof.
  intros H Hp (o & Ho & Hd). unfold Option_count, load. rewrite Ho. cbn. rewrite (first_ring h ps) by done. cbn.
  destruct ps as [|f r]; [by destruct (ring_some _ _ H)|]. rewrite (count_loop_ring h (f :: r) 0 f) by (done || pose proof (ring_size _ _ H); lia).
  destruct (desc o); [|done]. f_equal. cbn. lia.
Qed.

Lemma next_ring h ps i p : ring h ps -> ps !! i = Some p -> Option_next h p = Ret (ps !! S i).
Proof.
  intros H Hi. destruct (ring_lookup _ _ _ _ H Hi) as (o & Ho & _ & Hn). unfold Option_next. rewrite Ho. cbn.
  rewrite (ring_isLast h ps i) by done. rewrite Hn. unfold next_link. by destruct (ps !! S i).
Qed.

Lemma ring_frame h h' ps : (forall p, p ∈ ps -> h' !! p = h !! p) -> ring h ps -> ring h' ps.
Proof.
  intros E [H1 H2 H3 H4]. split; [done ..|]. intros i p Hi. destruct (H4 i p Hi) as (o & Ho & Hl). exists o.
  rewrite E; [done|]. by eapply list_elem_of_lookup_2.
Qed.

Lemma ring_single h p o : aligned p -> h !! p = Some o -> prev_ o = tag p -> next_ o = tag p -> ring h [p].
Proof.
  intros Ha Ho Hp Hn. split; [done|by constructor|by apply NoDup_singleton|].
  intros [|i] q Hq; [|done]. injection Hq as <-. exists o. by rewrite Hp, Hn.
Qed.

(** The heap after [append]. *)
Definition appended (h : heap) (l f new : Z) : heap :=
  alter (set_prev (tag new)) f (alter (set_next (tag f)) new (alter (set_prev l) new (alter (set_next new) l h))).

Lemma append_Ret h ps p new : ring h ps -> p ∈ ps -> is_Some (h !! new) ->
  Option_append h p new = Ret (appended h (default 0 (last ps)) (default 0 (ps !! 0%nat)) new).
Proof.
  intros H Hp Hn. unfold Option_append. rewrite (last_ring h ps), (first_ring h ps) by done. cbn [mbind outcome_bind].
  destruct ps as [|f r]; [by destruct (ring_some _ _ H)|]. destruct (last (f :: r)) as [l|] eqn:El; [|by apply last_None in El].
  rewrite last_lookup in El. destruct (ring_nodes _ _ H _ _ El) as (ol & Hol & _).
  destruct (ring_nodes _ _ H 0%nat f eq_refl) as (nf & Hof & _). cbn [lookup list_lookup default].
  repeat (rewrite store_with_alter by (rewrite ?alter_lookup, ?fmap_is_Some; eauto); cbn [mbind outcome_bind]). done.
Qed.

Lemma append_lookup h l f new p :
  appended h l f new !! p =
  (fun o => (if decide (f = p) then set_prev (tag new) else id)
     ((if decide (new = p) then fun o => set_next (tag f) (set_prev l o) else id)
        ((if decide (l = p) then set_next new else id) o))) <$> h !! p.
Proof. unfold appended. rewrite !alter_lookup. destruct (h !! p), (decide (new = p)); done. Qed.

Lemma append_payload h l f new p : payload <$> appended h l f new !! p = payload <$> h !! p.
Proof. rewrite append_lookup. destruct (h !! p); [|done]. cbn. by repeat case_decide. Qed.

Section append.
Variables (h : heap) (ps : list Z) (f l new : Z).
Hypotheses (H : ring h ps) (Hf : ps !! 0%nat = Some f) (Hl : last ps = Some l) (Hn : new ∉ ps).

Lemma append_old i p : ps !! i = Some p ->
  node_at (appended h l f new) p (prev_link (ps ++ [new]) i) (next_link (ps ++ [new]) i).
Proof using All.
  intros Hi. rewrite last_lookup in Hl. destruct (ring_nodes _ _ H i p Hi) as (o & Ho & Hprev & Hnext).
  assert (new <> p) as Hnp by (intros ->; apply Hn; by eapply list_elem_of_lookup_2). apply lookup_lt_Some in Hi as Hlt.
  eexists. rewrite append_lookup, Ho, (decide_False _ _ Hnp). split; [done|]. split.
  - destruct i as [|i]; cbn [prev_link].
    + assert (f = p) as <- by congruence. rewrite decide_True, last_snoc by done. by destruct (decide (l = f)).
    + rewrite lookup_app_l by lia. rewrite decide_False; [by destruct (decide (l = p))|]. intros ->.
      pose proof (NoDup_lookup _ _ _ _ (ring_NoDup _ _ H) Hf Hi). lia.
  - unfold next_link in *. destruct (decide (l = p)) as [->|Hne].
    + pose proof (NoDup_lookup _ _ _ _ (ring_NoDup _ _ H) Hl Hi) as <-.
      replace (S (Nat.pred (length ps))) with (length ps) by lia. rewrite list_lookup_middle by done. by destruct (decide (f = p)).
    + assert (S i <> length ps) by (intros E; apply Hne; replace (Nat.pred (length ps)) with i in Hl by lia; congruence).
      rewrite lookup_app_l by lia. destruct (ps !! S i) eqn:E; [|apply lookup_ge_None in E; lia]. by destruct (decide (f = p)).
Qed.

Lemma append_new : is_Some (h !! new) ->
  node_at (appended h l f new) new (prev_link (ps ++ [new]) (length ps)) (next_link (ps ++ [new]) (length ps)).
Proof using All.
  intros [on Hon]. rewrite last_lookup in Hl. assert (f <> new) as Hfn by (intros ->; apply Hn; by eapply list_elem_of_lookup_2).
  apply lookup_lt_Some in Hf as Hlen.
  eexists. rewrite append_lookup, Hon, (decide_False _ _ Hfn), decide_True by done. split; [done|]. cbn. split.
  - destruct (length ps) as [|n] eqn:En; [lia|]. cbn [prev_link]. rewrite lookup_app_l by lia. cbn [Nat.pred] in Hl. by rewrite Hl.
  - unfold next_link. rewrite lookup_ge_None_2 by (rewrite length_app; cbn; lia). rewrite lookup_app_l by lia. by rewrite Hf.
Qed.

Lemma append_ring : aligned new -> is_Some (h !! new) -> ring (appended h l f new) (ps ++ [new]).
Proof using All.
  intros Ha Hon. split.
  - by destruct ps.
  - apply Forall_app. split; [apply H|by constructor].
  - apply NoDup_app. split; [apply H|]. split; [|by apply NoDup_singleton]. by intros x Hx ->%list_elem_of_singleton.
  - intros i p [[_ Hi]|[-> <-]]%lookup_snoc_Some; [by apply append_old|by apply append_new].
Qed.
End append.
End rings.
