(* ===== verification/OptParse.v ===== *)
(** * The parser of command lines ([optionparser.h])

    [workhorse] walks over the argument vector and hands every option to an action:
    counting ([Stats]) or storing ([Parser]).  In GNU mode it moves the non-option
    arguments behind the options, in place.  The checks of option arguments are
    functions of the client; they may change its state. *)

From stdpp Require Import gmap.
From S2P Require Import Prelude CStrings OptList.

(** ** The table of options *)

(** A null pointer in [shortopt] and [longopt] ends the table. *)
Record Descriptor {S : Type} := mkDescriptor {
  index : Z; type : Z; shortopt : option chars; longopt : option chars;
  check_arg : option (Option -> bool -> S -> ArgStatus * S); help : option chars
}.
Arguments Descriptor : clear implicits.

(** The two checks of the library. *)
Definition Arg_None {S} (o : Option) (msg : bool) (s : S) : ArgStatus * S := (ARG_NONE, s).
Definition Arg_Optional {S} (o : Option) (msg : bool) (s : S) : ArgStatus * S :=
  match arg o, name o with
  | Some _, Some n => if is_empty (drop (Z.to_nat (namelen o)) (rest n)) then (ARG_IGNORE, s) else (ARG_OK, s)
  | _, _ => (ARG_IGNORE, s)
  end.

Definition Option_type {S} (usage : list (Descriptor S)) (o : Option) : outcome Z :=
  match desc o with
  | None => Ret 0
  | Some d => match usage !! d with Some d => Ret (type d) | None => Crash end
  end.
Definition Option_index {S} (usage : list (Descriptor S)) (o : Option) : outcome Z :=
  match desc o with
  | None => Ret (-1)
  | Some d => match usage !! d with Some d => Ret (index d) | None => Crash end
  end.

(** ** String comparisons *)

Definition at_end (s : chars) : bool := match s with [] => true | c :: _ => ch_eqb c "=" end.

(** [st1] is all of [st2] up to an equals sign. *)
Fixpoint streq (st1 st2 : chars) : bool :=
  match st1, st2 with
  | [], _ => at_end st2
  | c :: st1, d :: st2 => ch_eqb c d && streq st1 st2
  | _ :: _, [] => false
  end.

(** The same for a [st2] that is cut off after at least [min] characters; [n] is the
    number of equal characters so far. *)
Fixpoint streqabbr_from (n : Z) (st1 st2 : chars) (min : Z) : bool :=
  match st1, st2 with
  | c :: st1', d :: st2' =>
      if ch_eqb c d then streqabbr_from (n + 1) st1' st2' min else (0 <? min) && (min <=? n) && at_end st2
  | [], _ => at_end st2
  | _ :: _, [] => (0 <? min) && (min <=? n) && at_end st2
  end.
Definition streqabbr (st1 st2 : chars) (min : Z) : bool := streqabbr_from 0 st1 st2 min.

Fixpoint instr (ch : ascii) (st : chars) : bool :=
  match st with
  | [] => ch_eqb NUL ch
  | c :: st => if ch_eqb c ch then true else instr ch st
  end.

(** ** The argument vector *)

Abbreviation argvec := (list (option cptr)).

(** Swaps [args[i]] and [args[i - 1]], [count] times to the left. *)
Fixpoint shift (args : argvec) (i count : nat) {struct count} : outcome argvec :=
  match count with
  | O => Ret args
  | S count =>
      match i with
      | O => Crash
      | S prev =>
          match args !! i, args !! prev with
          | Some x, Some y => shift (<[prev := x]> (<[i := y]> args)) prev count
          | _, _ => Crash
          end
      end
  end.

Definition arg_at (args : argvec) (i : nat) : outcome (option cptr) :=
  match args !! i with Some a => Ret a | None => Crash end.

(** The text behind the first equals sign. *)
Fixpoint after_equals (s : chars) : option chars :=
  match s with
  | [] => None
  | c :: s => if ch_eqb c "=" then Some s else after_equals s
  end.

(** ** Actions

    [finished] gets the number of non-option arguments and where they start. *)

Record Action {A : Type} := mkAction {
  perform : Option -> A -> outcome (bool * A);
  finished : Z -> option nat -> A -> outcome (bool * A)
}.
Arguments Action : clear implicits.

Section workhorse.
Context {S A : Type}.
Variable usage : list (Descriptor S).
Variable action : Action A.
Variables (gnu single_minus_longopt print_errors : bool) (min_abbr_len : Z).

(** The vector, the position of [args] in it, the number of arguments left
    (negative: up to the null pointer), and the states of the action and the client. *)
Record wstate := mkState { argv : argvec; pos : nat; numargs : Z; acc : A; client : S }.

Definition set_acc (a : A) (st : wstate) := mkState (argv st) (pos st) (numargs st) a (client st).
Definition set_client (s : S) (st : wstate) := mkState (argv st) (pos st) (numargs st) (acc st) s.

(** [++args; if (numargs > 0) --numargs;] *)
Definition next_arg (st : wstate) : wstate :=
  mkState (argv st) (pos st + 1) (if 0 <? numargs st then numargs st - 1 else numargs st) (acc st) (client st).
(** The same behind [shift(args, nonops)]. *)
Definition shift_next (nonops : nat) (st : wstate) : outcome wstate :=
  l ← shift (argv st) (pos st) nonops;
  Ret (next_arg (mkState l (pos st) (numargs st) (acc st) (client st))).

Definition desc_at (i : nat) : outcome (Descriptor S) :=
  match usage !! i with Some d => Ret d | None => Crash end.

(** [while (!stop(usage[i])) ++i;] *)
Fixpoint scan (stop : Descriptor S -> outcome bool) (us : list (Descriptor S)) (i : nat) : outcome nat :=
  match us with
  | [] => Crash
  | d :: us => b ← stop d; if b : bool then Ret i else scan stop us (i + 1)
  end.

Definition stop_long (match_name : chars -> bool) (d : Descriptor S) : outcome bool :=
  Ret (match longopt d with None => true | Some l => match_name l end).
Definition stop_short (c : ascii) (d : Descriptor S) : outcome bool :=
  Ret (match shortopt d with None => true | Some s => instr c s end).
Definition stop_unknown (d : Descriptor S) : outcome bool :=
  match shortopt d with
  | None => Ret true
  | Some (_ :: _) => Ret false
  | Some [] => match longopt d with None => Crash | Some l => Ret (is_empty l) end
  end.

Definition is_end {T} (o : option T) : bool := match o with None => true | Some _ => false end.

(** The entry of a long option; an abbreviation counts when it is unambiguous. *)
Definition find_long (longopt_name : chars) : outcome nat :=
  let abbr := stop_long (fun l => streqabbr l longopt_name min_abbr_len) in
  idx ← scan (stop_long (fun l => streq l longopt_name)) usage 0;
  d ← desc_at idx;
  if is_end (longopt d) && (0 <? min_abbr_len) then
    i1 ← scan abbr usage 0;
    d1 ← desc_at i1;
    if is_end (longopt d1) then Ret idx
    else
      i2 ← scan abbr (drop (i1 + 1) usage) (i1 + 1);
      d2 ← desc_at i2;
      Ret (if is_end (longopt d2) then i1 else idx)
  else Ret idx.

(** [idx] or, for an unknown option, the entry for those, if there is one. *)
Definition find_descriptor (idx : nat) : outcome (option nat) :=
  d ← desc_at idx;
  if is_end (shortopt d) then
    idx ← scan stop_unknown usage 0;
    d ← desc_at idx;
    Ret (if is_end (shortopt d) then None else Some idx)
  else Ret (Some idx).

(** What the body of the inner loop ends with: [return false], [break], or the
    values of [param], [handle_short_options] and [try_single_minus_longopt]. *)
Inductive body_end := BodyFail | BodyBreak | BodyNext (param : cptr) (hs try : bool).

Section group.
Variables (have_more_args : bool) (longopt_name : cptr) (nonops : nat).

Definition detached (st : wstate) : outcome (option cptr) :=
  if have_more_args then arg_at (argv st) (pos st + 1) else Ret None.

(** The body from the choice of the descriptor on. *)
Definition handle_option (idx : nat) (optarg : option cptr) (param : cptr) (hs try : bool) (st : wstate)
    : outcome (body_end * wstate) :=
  descriptor ← find_descriptor idx;
  match descriptor with
  | None => Ret (BodyNext param hs try, st)
  | Some idx =>
      d ← desc_at idx;
      match check_arg d with
      | None => Crash
      | Some check =>
          let option := Option_make 0 (Some idx) (Some param) optarg in
          let '(status, s) := check option print_errors (client st) in
          let st := set_client s st in
          let act (option : Option) (hs : bool) (st : wstate) : outcome (body_end * wstate) :=
            '(ok, a) ← perform action option (acc st);
            Ret (if ok : bool then BodyNext param hs try else BodyFail, set_acc a st) in
          match status with
          | ARG_ILLEGAL => Ret (BodyFail, st)
          | ARG_OK =>
              arg1 ← detached st;
              st ← if negb (is_end optarg) && have_more_args && bool_decide (optarg = arg1)
                   then shift_next nonops st else Ret st;
              act option false st
          | ARG_IGNORE | ARG_NONE =>
              act (mkOption (next_ option) (prev_ option) (desc option) (name option) None (namelen option)) hs st
          end
      end
  end.

Definition group_body (param : cptr) (hs try : bool) (st : wstate) : outcome (body_end * wstate) :=
  found ← if negb hs || try then
            idx ← find_long (rest longopt_name);
            d ← desc_at idx;
            optarg ← match after_equals (rest longopt_name) with
                     | Some r => Ret (Some (mkPtr (str longopt_name) r))
                     | None => detached st
                     end;
            Ret (Some (idx, optarg, is_end (longopt d)))
          else Ret None;
  let hs := match found with Some (_, _, none) => hs && none | None => hs end in
  let try := match found with Some _ => false | None => try end in
  if hs : bool then
    let param := advance_ptr 1 param in
    match rest param with
    | [] => Ret (BodyBreak, st)
    | c :: r =>
        idx ← scan (stop_short c) usage 0;
        optarg ← match r with [] => detached st | _ => Ret (Some (advance_ptr 1 param)) end;
        handle_option idx optarg param hs try st
    end
  else
    match found with
    | Some (idx, optarg, _) => handle_option idx optarg param hs try st
    | None => Crash
    end.

(** The loop over a group of short options; each turn consumes a character.  The
    flag is false for [return false]. *)
Fixpoint group_loop (fuel : nat) (param : cptr) (hs try : bool) (st : wstate) : outcome (bool * wstate) :=
  '(e, st) ← group_body param hs try st;
  match e with
  | BodyFail => Ret (false, st)
  | BodyBreak => Ret (true, st)
  | BodyNext param hs try =>
      if hs : bool then match fuel with O => Blocked | Datatypes.S fuel => group_loop fuel param hs try st end
      else Ret (true, st)
  end.
End group.

(** One argument that starts with a minus and is not [--]. *)
Definition parse_arg (param : cptr) (nonops : nat) (st : wstate) : outcome (bool * wstate) :=
  let long := ch_eqb (deref (tl (rest param))) "-" in
  let longopt_name := advance_ptr (if long then 2 else 1) param in
  let have_more_args := (1 <? numargs st) || (numargs st <? 0) in
  '(go, st) ← group_loop have_more_args longopt_name nonops (length (rest param)) param (negb long) single_minus_longopt st;
  if go : bool then st ← shift_next nonops st; Ret (true, st) else Ret (false, st).

Definition is_nonoption (s : chars) : bool :=
  negb (ch_eqb (deref s) "-") || is_empty (tl s).
Definition is_terminator (s : chars) : bool := bool_decide (s = ["-"%char; "-"%char]).

(** The outer loop: whether to go on to [finished], and the number of non-options
    that were passed over. *)
Fixpoint args_loop (fuel : nat) (nonops : nat) (st : wstate) : outcome (bool * nat * wstate) :=
  if numargs st =? 0 then Ret (true, nonops, st)
  else
    a ← arg_at (argv st) (pos st);
    match a with
    | None => Ret (true, nonops, st)
    | Some param =>
        match fuel with
        | O => Blocked
        | Datatypes.S fuel =>
            if is_nonoption (rest param) then
              if gnu then args_loop fuel (nonops + 1) (next_arg st) else Ret (true, nonops, st)
            else if is_terminator (rest param) then
              st ← shift_next nonops st; Ret (true, nonops, st)
            else
              '(go, st) ← parse_arg param nonops st;
              if go : bool then args_loop fuel nonops st else Ret (false, nonops, st)
        end
    end.

(** [while (args[numargs] != 0) ++numargs;] *)
Fixpoint count_args (l : argvec) : outcome Z :=
  match l with
  | [] => Crash
  | None :: _ => Ret 0
  | Some _ :: l => n ← count_args l; Ret (n + 1)
  end.

Definition workhorse (numargs0 : Z) (args : option argvec) (a : A) (s : S) : outcome (bool * wstate) :=
  match args with
  | None => '(ok, a) ← finished action 0 None a; Ret (ok, mkState [] 0 0 a s)
  | Some l =>
      '(go, nonops, st) ← args_loop (length l) 0 (mkState l 0 numargs0 a s);
      if negb go then Ret (false, st)
      else
        n ← if 0 <? numargs st then a ← arg_at (argv st) (pos st); Ret (if is_end a then 0 else numargs st)
            else if numargs st <? 0 then count_args (drop (pos st) (argv st))
            else Ret (numargs st);
        '(ok, a) ← finished action (n + Z.of_nat nonops) (Some (pos st - nonops)%nat) (acc st);
        Ret (ok, set_acc a st)
  end.
End workhorse.

(** ** Counting: [Stats] *)

(** The actions of the base class accept everything. *)
Definition Action_base {A} : Action A :=
  mkAction A (fun _ a => Ret (true, a)) (fun _ _ a => Ret (true, a)).

Definition CountOptionsAction : Action Z :=
  mkAction Z
    (fun _ buffer_max => if buffer_max =? 0x7fffffff then Ret (false, buffer_max) else Ret (true, u32 (buffer_max + 1)))
    (finished Action_base).

Record Stats := mkStats { buffer_max : Z; options_max : Z }.
Definition Stats_default : Stats := mkStats 1 1.

(** One more than the largest index of the table, and a sentinel. *)
Fixpoint max_options {S} (us : list (Descriptor S)) (options_max : Z) : outcome Z :=
  match us with
  | [] => Crash
  | d :: us =>
      if is_end (shortopt d) then Ret options_max
      else max_options us (if options_max <=? u32 (index d + 1) then u32 (u32 (index d + 1) + 1) else options_max)
  end.

Definition Stats_add {S} (gnu : bool) (usage : list (Descriptor S)) (argc : Z) (args : option argvec)
    (min_abbr_len : Z) (single_minus_longopt : bool) (stats : Stats) (s : S) : outcome (Stats * option argvec * S) :=
  m ← max_options usage (options_max stats);
  '(_, st) ← workhorse usage CountOptionsAction gnu single_minus_longopt false min_abbr_len argc args (buffer_max stats) s;
  Ret (mkStats (acc st) m, (fun _ => argv st) <$> args, client st).

(** The constructor for POSIX command lines. *)
Definition Stats_make {S} (usage : list (Descriptor S)) (argc : Z) (args : option argvec) (s : S) :=
  Stats_add false usage argc args 0 false Stats_default s.

(** ** Storing: [Parser] *)

Record Parser := mkParser { op_count : Z; nonop_count : Z; nonop_args : option nat; err : bool }.
Definition Parser_default : Parser := mkParser 0 0 None false.

Definition optionsCount (p : Parser) : Z := op_count p.
Definition nonOptionsCount (p : Parser) : Z := nonop_count p.
Definition nonOptions (p : Parser) : option nat := nonop_args p.
Definition error (p : Parser) : bool := err p.

Definition set_op_count (n : Z) (p : Parser) : Parser := mkParser n (nonop_count p) (nonop_args p) (err p).
Definition set_err (e : bool) (p : Parser) : Parser := mkParser (op_count p) (nonop_count p) (nonop_args p) e.

(** The address of a node in an array: [sizeof(Option)] is 48. *)
Definition slot (base i : Z) : Z := base + 48 * i.

Section store.
Context {S : Type}.
Variables (usage : list (Descriptor S)) (options buffer bufmax : Z).

(** The first unused slot of the buffer. *)
Fixpoint first_empty (fuel : nat) (h : heap) (bufidx : Z) : outcome Z :=
  if (bufmax <? 0) || (bufidx <? bufmax) then
    o ← load h (slot buffer bufidx);
    if Option_used o then match fuel with O => Blocked | Datatypes.S fuel => first_empty fuel h (bufidx + 1) end
    else Ret bufidx
  else Ret bufidx.
Definition StoreOptionAction_make (p : Parser) (h : heap) : outcome Parser :=
  n ← first_empty (size h) h 0; Ret (set_op_count n p).

Definition store_perform (o : Option) (ph : Parser * heap) : outcome (bool * (Parser * heap)) :=
  let '(p, h) := ph in
  if (bufmax <? 0) || (op_count p <? bufmax) then
    if op_count p =? 0x7fffffff then Ret (false, (p, h))
    else
      let b := slot buffer (op_count p) in
      h ← store_with (fun _ => Option_assign b o) b h;
      o ← load h b;
      idx ← match desc o with None => Crash | Some _ => Option_index usage o end;
      head ← load h (slot options idx);
      h ← if Option_used head then Option_append h (slot options idx) b
          else store_with (fun _ => Option_assign (slot options idx) o) (slot options idx) h;
      Ret (true, (set_op_count (op_count p + 1) p, h))
  else Ret (true, (p, h)).

Definition store_finished (numargs : Z) (args : option nat) (ph : Parser * heap) : outcome (bool * (Parser * heap)) :=
  let '(p, h) := ph in
  Ret (true, (if 0 <? numargs then mkParser (op_count p) numargs args (err p) else p, h)).

Definition StoreOptionAction : Action (Parser * heap) := mkAction _ store_perform store_finished.

Definition Parser_parse (gnu : bool) (argc : Z) (args : option argvec) (min_abbr_len : Z) (single_minus_longopt : bool)
    (p : Parser) (h : heap) (s : S) : outcome (Parser * heap * option argvec * S) :=
  p ← StoreOptionAction_make p h;
  '(ok, st) ← workhorse usage StoreOptionAction gnu single_minus_longopt true min_abbr_len argc args (p, h) s;
  let '(p, h) := acc st in
  Ret (set_err (negb ok) p, h, (fun _ => argv st) <$> args, client st).
End store.

(** The constructor for POSIX command lines, with room for all options. *)
Definition Parser_make {S} (usage : list (Descriptor S)) (argc : Z) (args : option argvec) (options buffer : Z)
    (h : heap) (s : S) : outcome (Parser * heap * option argvec * S) :=
  Parser_parse usage options buffer (-1) false argc args 0 false Parser_default h s.

(** An array of [n] default nodes. *)
Definition fresh_nodes (base : Z) (n : nat) : heap :=
  list_to_map ((fun i => (slot base (Z.of_nat i), Option_default (slot base (Z.of_nat i)))) <$> seq 0 n).
