(* ===== verification/OptRef.v ===== *)
(** * What the parser of command lines computes

    A reference parser over the list of arguments, and the proof that the loops of
    [OptParse], with their positions, counters and in-place shifts, compute it for
    any action and any checks. *)

From stdpp Require Import gmap.
From S2P Require Import Prelude CStrings OptList OptParse.

(** ** A reference parser

    Over the list of arguments, without positions and shifts.  [us] is the table
    without its last entry. *)

Fixpoint find_idx {T} (p : T -> bool) (l : list T) : option nat :=
  match l with
  | [] => None
  | x :: l => if p x then Some O else Datatypes.S <$> find_idx p l
  end.

Section reference.
Context {S : Type}.
Variable us : list (Descriptor S).
Variables (gnu single_minus_longopt : bool) (min_abbr_len : Z).
(** The result of the check of an entry. *)
Variable status : nat -> Option -> ArgStatus.

Definition long_is (f : chars -> bool) (d : Descriptor S) : bool := match longopt d with Some l => f l | None => false end.
Definition short_is (f : chars -> bool) (d : Descriptor S) : bool := match shortopt d with Some l => f l | None => false end.

Definition ref_long (name : chars) : option nat :=
  let abbr := long_is (fun l => streqabbr l name min_abbr_len) in
  match find_idx (long_is (fun l => streq l name)) us with
  | Some i => Some i
  | None =>
      if 0 <? min_abbr_len then
        i ← find_idx abbr us;
        match find_idx abbr (drop (i + 1) us) with None => Some i | Some _ => None end
      else None
  end.
Definition ref_short (c : ascii) : option nat := find_idx (short_is (instr c)) us.
Definition ref_descriptor (found : option nat) : option nat :=
  match found with
  | Some i => Some i
  | None => find_idx (fun d => short_is is_empty d && long_is is_empty d) us
  end.

(** An occurrence of an option: its entry, its name, its possible argument. *)
Record item := mkItem { it_desc : nat; it_name : cptr; it_optarg : option cptr }.
Definition it_option (it : item) : Option := Option_make 0 (Some (it_desc it)) (Some (it_name it)) (it_optarg it).
Definition it_ok (it : item) : bool := bool_decide (status (it_desc it) (it_option it) = ARG_OK).

(** The options of a long name, and whether the next argument belongs to it. *)
Definition ref_longs (next : option cptr) (param : cptr) (name : chars) : list item * bool :=
  let optarg := match after_equals name with Some r => Some (mkPtr (str param) r) | None => next end in
  match ref_descriptor (ref_long name) with
  | None => ([], false)
  | Some i =>
      let it := mkItem i param optarg in
      ([it], it_ok it && is_end (after_equals name) && negb (is_end next))
  end.

(** The options of a group of short ones. *)
Fixpoint ref_group (next : option cptr) (k : nat) (s : chars) : list item * bool :=
  match s with
  | [] => ([], false)
  | c :: r =>
      let optarg := match r with [] => next | _ => Some (mkPtr k r) end in
      match ref_descriptor (ref_short c) with
      | None => ref_group next k r
      | Some i =>
          let it := mkItem i (mkPtr k s) optarg in
          if it_ok it then ([it], is_empty r && negb (is_end next))
          else let '(its, took) := ref_group next k r in (it :: its, took)
      end
  end.

Definition ref_arg (next : option cptr) (param : cptr) : list item * bool :=
  let s := tl (rest param) in
  if ch_eqb (deref s) "-" then ref_longs next param (tl s)
  else if single_minus_longopt && negb (is_end (ref_long s)) then ref_longs next param s
  else ref_group next (str param) s.

(** The options, the arguments they use up, and the other arguments, in order. *)
Record reading := mkReading { r_items : list item; r_used : list cptr; r_others : list cptr }.

Fixpoint ref_parse (args : list cptr) : reading :=
  match args with
  | [] => mkReading [] [] []
  | a :: args' =>
      if is_nonoption (rest a) then
        if gnu then let r := ref_parse args' in mkReading (r_items r) (r_used r) (a :: r_others r)
        else mkReading [] [] (a :: args')
      else if is_terminator (rest a) then mkReading [] [a] args'
      else
        let '(its, took) := ref_arg (head args') a in
        match took, args' with
        | true, b :: args'' =>
            let r := ref_parse args'' in mkReading (its ++ r_items r) (a :: b :: r_used r) (r_others r)
        | _, _ => let r := ref_parse args' in mkReading (its ++ r_items r) (a :: r_used r) (r_others r)
        end
  end.

(** The checks and the action on the options, in order, up to the first that one
    of them refuses. *)
Definition item_option (it : item) (st : ArgStatus) : Option :=
  match st with
  | ARG_OK => it_option it
  | _ => mkOption (tag 0) (tag 0) (Some (it_desc it)) (Some (it_name it)) None (namelen (it_option it))
  end.

Fixpoint run_items {A} (action : Action A) (print_errors : bool) (its : list item) (a : A) (s : S) : outcome (bool * A * S) :=
  match its with
  | [] => Ret (true, a, s)
  | it :: its =>
      match us !! it_desc it with
      | Some (mkDescriptor _ _ _ _ _ (Some check) _) =>
          let '(st, s) := check (it_option it) print_errors s in
          match st with
          | ARG_ILLEGAL => Ret (false, a, s)
          | _ =>
              '(ok, a) ← perform action (item_option it st) a;
              if ok : bool then run_items action print_errors its a s else Ret (false, a, s)
          end
      | _ => Crash
      end
  end.
End reference.

(** ** The parser and its reference *)

Section refinement.
Context {S A : Type}.
Variables (us : list (Descriptor S)) (sentinel : Descriptor S) (action : Action A).
Variables (gnu single_minus_longopt print_errors : bool) (min_abbr_len : Z) (status : nat -> Option -> ArgStatus).

Abbreviation usage := (us ++ [sentinel]).

(** The entries before the last have names and a check; the result of a check does
    not depend on the client's state. *)
Record table_ok : Prop := {
  sentinel_long : longopt sentinel = None;
  sentinel_short : shortopt sentinel = None;
  entries : Forall (fun d => shortopt d <> None /\ longopt d <> None /\ check_arg d <> None) us;
  checks : forall i d f o msg s, us !! i = Some d -> check_arg d = Some f -> (f o msg s).1 = status i o
}.
Hypothesis table : table_ok.

Lemma find_idx_lt {T} (p : T -> bool) l i : find_idx p l = Some i -> (i < length l)%nat.
Proof.
  revert i. induction l as [|x l IH]; intros i; cbn; [done|]. destruct (p x); [intros [= <-]; lia|].
  destruct (find_idx p l) as [j|]; cbn; [|done]. intros [= <-]. specialize (IH j eq_refl). lia.
Qed.

Lemma scan_find (stop : Descriptor S -> outcome bool) p l i :
  (forall d, d ∈ l -> stop d = Ret (p d)) -> stop sentinel = Ret true ->
  scan stop (l ++ [sentinel]) i = Ret (i + default (length l) (find_idx p l))%nat.
Proof.
  intros Hl He. revert i. induction l as [|d l IH]; intros i; cbn.
  - rewrite He. cbn. f_equal. lia.
  - rewrite Hl by by left. cbn. destruct (p d); cbn; [f_equal; lia|]. rewrite IH by (intros; apply Hl; by right).
    f_equal. destruct (find_idx p l); cbn; lia.
Qed.

Lemma entry_ok d : d ∈ us -> exists s l f, shortopt d = Some s /\ longopt d = Some l /\ check_arg d = Some f.
Proof using table.
  intros Hd. pose proof (entries table) as H. rewrite Forall_forall in H. destruct (H d Hd) as (H1 & H2 & H3).
  destruct (shortopt d), (longopt d), (check_arg d); try done. eauto 6.
Qed.

Lemma scan_long f l i : (forall d, d ∈ l -> d ∈ us) ->
  scan (stop_long f) (l ++ [sentinel]) i = Ret (i + default (length l) (find_idx (long_is f) l))%nat.
Proof using table.
  intros Hl. apply scan_find.
  - intros d (s & lo & c & _ & E & _)%Hl%entry_ok. unfold stop_long, long_is. by rewrite E.
  - unfold stop_long. by rewrite (sentinel_long table).
Qed.

Lemma scan_long_all f : scan (stop_long f) usage 0 = Ret (default (length us) (find_idx (long_is f) us)).
Proof using table. by apply scan_long. Qed.

Lemma desc_at_found o : (forall i, o = Some i -> (i < length us)%nat) ->
  exists d, desc_at usage (default (length us) o) = Ret d /\
    match o with Some i => us !! i = Some d | None => d = sentinel end.
Proof.
  intros Ho. unfold desc_at. destruct o as [i|]; cbn [default id].
  - specialize (Ho i eq_refl). destruct (lookup_lt_is_Some_2 us i Ho) as [d E]. exists d.
    by rewrite lookup_app_l, E by done.
  - rewrite list_lookup_middle by done. by exists sentinel.
Qed.

Lemma is_end_found o d : (forall i, o = Some i -> (i < length us)%nat) ->
  match o with Some i => us !! i = Some d | None => d = sentinel end ->
  is_end (longopt d) = is_end o /\ is_end (shortopt d) = is_end o.
Proof using table.
  intros Ho Hd. destruct o as [i|].
  - destruct (entry_ok d) as (s & l & c & -> & -> & _); [by eapply list_elem_of_lookup_2|done].
  - subst. by rewrite (sentinel_long table), (sentinel_short table).
Qed.

Lemma find_long_ref n : find_long usage min_abbr_len n = Ret (default (length us) (ref_long us min_abbr_len n)).
Proof using table.
  unfold find_long, ref_long. rewrite (scan_long_all (fun l => streq l n)). cbn [mbind outcome_bind].
  destruct (desc_at_found (find_idx (long_is (fun l => streq l n)) us)) as (d & -> & Hd); [apply find_idx_lt|]. cbn [mbind outcome_bind].
  destruct (is_end_found _ d (find_idx_lt _ _) Hd) as [-> _].
  destruct (find_idx (long_is (fun l => streq l n)) us) as [i|]; cbn [is_end andb default id]; [done|].
  destruct (0 <? min_abbr_len); [|done]. rewrite scan_long_all. cbn [mbind outcome_bind].
  set (p := long_is _). destruct (desc_at_found (find_idx p us)) as (d1 & -> & Hd1); [apply find_idx_lt|]. cbn [mbind outcome_bind].
  destruct (is_end_found _ d1 (find_idx_lt _ _) Hd1) as [-> _]. destruct (find_idx p us) as [i1|] eqn:E1; cbn [is_end default id option_bind mbind]; [|done].
  apply find_idx_lt in E1. rewrite drop_app_le, scan_long by (lia || (intros d2; rewrite <- (take_drop (i1 + 1) us) at 2; intros; apply elem_of_app; by right)).
  cbn [mbind outcome_bind]. fold p. set (o := find_idx p (drop (i1 + 1) us)).
  set (o' := (fun j => i1 + 1 + j)%nat <$> o).
  assert (forall j, o' = Some j -> (j < length us)%nat) as Ho.
  { intros j Hj. destruct o as [j'|] eqn:E; [|done]. injection Hj as <-. apply find_idx_lt in E. rewrite length_drop in E. lia. }
  replace (i1 + 1 + default (length (drop (i1 + 1) us)) o)%nat with (default (length us) o')
    by (unfold o'; destruct o; cbn; rewrite ?length_drop; lia).
  destruct (desc_at_found o' Ho) as (d2 & -> & Hm). cbn [mbind outcome_bind].
  destruct (is_end_found o' d2 Ho Hm) as [-> _]. unfold o'. by destruct o.
Qed.

Lemma find_short_ref c : scan (stop_short c) usage 0 = Ret (default (length us) (ref_short us c)).
Proof using table.
  apply (scan_find (stop_short c) (short_is (instr c)) us 0).
  - intros d (s & lo & f & E & _)%entry_ok. unfold stop_short, short_is. by rewrite E.
  - unfold stop_short. by rewrite (sentinel_short table).
Qed.

Lemma find_descriptor_ref found : (forall i, found = Some i -> (i < length us)%nat) ->
  find_descriptor usage (default (length us) found) = Ret (ref_descriptor us found).
Proof using table.
  intros Hf. unfold find_descriptor. destruct (desc_at_found found Hf) as (d & -> & Hd). cbn [mbind outcome_bind].
  destruct (is_end_found found d Hf Hd) as [_ ->]. destruct found as [i|]; cbn [is_end]; [done|]. cbn [ref_descriptor].
  set (p := fun d => short_is is_empty d && long_is is_empty d).
  assert (scan stop_unknown usage 0 = Ret (default (length us) (find_idx p us))) as ->.
  { apply (scan_find stop_unknown p us 0).
    - intros d' (s & lo & f & E & E' & _)%entry_ok. unfold stop_unknown, p, short_is, long_is. rewrite E, E'. by destruct s.
    - unfold stop_unknown. by rewrite (sentinel_short table). }
  cbn [mbind outcome_bind]. destruct (desc_at_found (find_idx p us) (find_idx_lt _ _)) as (d2 & -> & Hd2). cbn [mbind outcome_bind].
  destruct (is_end_found _ d2 (find_idx_lt _ _) Hd2) as [_ ->]. by destruct (find_idx p us).
Qed.

Lemma ref_long_lt n i : ref_long us min_abbr_len n = Some i -> (i < length us)%nat.
Proof.
  unfold ref_long. destruct (find_idx _ us) eqn:E; [intros [= <-]; by eapply find_idx_lt|]. destruct (0 <? min_abbr_len); [|done].
  destruct (find_idx _ us) as [j|] eqn:E2 in |- *; [|done]. cbn. destruct (find_idx _ _) eqn:E3 in |- *; [done|]. intros [= <-].
  by eapply find_idx_lt.
Qed.

Lemma ref_descriptor_lt found i : (forall i, found = Some i -> (i < length us)%nat) ->
  ref_descriptor us found = Some i -> (i < length us)%nat.
Proof. intros Hf. unfold ref_descriptor. destruct found; [|apply find_idx_lt]. intros [= <-]. by apply Hf. Qed.

(** The outcome of the loops, as far as the reference determines it. *)
Definition outcome_is (want : outcome (bool * A * S)) (good : wstate -> Prop) (m : outcome (bool * @wstate S A)) : Prop :=
  match want with
  | Ret (ok, a, s) => exists st, m = Ret (ok, st) /\ acc st = a /\ client st = s /\ (ok = true -> good st)
  | Blocked => m = Blocked
  | Crash => m = Crash
  end.

(** *** One argument

    [l], [p], [n] are the vector, the position and the count; [l2], [p2], [n2] those
    with the next argument used up. *)
Section argument.
Variables (hm : bool) (nonops : nat) (l l2 : argvec) (p p2 : nat) (n n2 : Z) (next : option cptr).
Hypothesis Hnext : forall a s, detached hm (mkState l p n a s : @wstate S A) = Ret next.
Hypothesis Hmore : next <> None -> hm = true.
Hypothesis Htake : next <> None -> forall a s, shift_next nonops (mkState l p n a s : @wstate S A) = Ret (mkState l2 p2 n2 a s).

(** The state behind the argument, when it used the next one or not. *)
Definition left_at (took : bool) (st : @wstate S A) : Prop :=
  (argv st, pos st, numargs st) = if took then (l2, p2, n2) else (l, p, n).

Lemma handle_ref found optarg (attached : bool) param hs try a s :
  (forall i, found = Some i -> (i < length us)%nat) ->
  (if attached then optarg <> None /\ optarg <> next else optarg = next) ->
  handle_option usage action print_errors hm nonops (default (length us) found) optarg param hs try (mkState l p n a s) =
  match ref_descriptor us found with
  | None => Ret (BodyNext param hs try, mkState l p n a s)
  | Some i =>
      let it := mkItem i param optarg in
      match us !! i with
      | Some (mkDescriptor _ _ _ _ _ (Some check) _) =>
          let '(st, s) := check (it_option it) print_errors s in
          match st with
          | ARG_ILLEGAL => Ret (BodyFail, mkState l p n a s)
          | _ =>
              '(ok, a) ← perform action (item_option it st) a;
              Ret (if ok : bool then BodyNext param (hs && negb (bool_decide (st = ARG_OK))) try else BodyFail,
                   if bool_decide (st = ARG_OK) && negb attached && negb (is_end next) then mkState l2 p2 n2 a s else mkState l p n a s)
          end
      | _ => Crash
      end
  end.
Proof using table Hnext Hmore Htake.
  intros Hf Ho. unfold handle_option. rewrite (find_descriptor_ref found Hf). cbn [mbind outcome_bind].
  destruct (ref_descriptor us found) as [i|] eqn:Ei; [|done]. apply ref_descriptor_lt in Ei; [|done].
  destruct (desc_at_found (Some i)) as (d & Hd & Hi); [by intros ? [= <-]|]. cbn [default id] in Hd. rewrite Hd, Hi.
  cbn [mbind outcome_bind]. destruct d as [ix ty sh lo [check|] he]; cbn [check_arg]; [|done].
  cbn [client]. unfold it_option. cbn [it_desc it_name it_optarg]. destruct (check _ print_errors s) as [st s'].
  destruct st; cbn [set_client argv pos numargs acc client bool_decide negb andb ArgStatus_eq_dec].
  - destruct (perform _ _ a) as [[[] a']| |]; cbn; by rewrite ?andb_true_r.
  - unfold set_client; cbn [argv pos numargs acc client]. rewrite Hnext. cbn [mbind outcome_bind].
    assert (negb (is_end optarg) && hm && bool_decide (optarg = next) = negb attached && negb (is_end next)) as ->.
    { destruct attached; cbn.
      - rewrite (bool_decide_eq_false_2 _ (proj2 Ho)). by rewrite andb_false_r.
      - subst optarg. rewrite bool_decide_eq_true_2 by done. destruct next; [|done]. by rewrite Hmore by done. }
    change (bool_decide (ARG_OK = ARG_OK)) with true. cbn [andb negb].
    destruct (negb attached && negb (is_end next)) eqn:Et.
    + rewrite Htake by (intros ->; by rewrite andb_false_r in Et). cbn. rewrite andb_false_r. by destruct (perform _ _ a) as [[[] a']| |].
    + cbn. rewrite andb_false_r. by destruct (perform _ _ a) as [[[] a']| |].
  - destruct (perform _ _ a) as [[[] a']| |]; cbn; by rewrite ?andb_true_r.
  - done.
Qed.

(** A pointer into the text of argument [k] differs from the next argument. *)
Definition inside (k : nat) (s : chars) : Prop := forall q, next = Some q -> str q = k -> (length s < length (rest q))%nat.

Lemma inside_ne k s : inside k s -> Some (mkPtr k s) <> next.
Proof. intros H E. symmetry in E. specialize (H _ E eq_refl). cbn in H. lia. Qed.

Lemma inside_tl k s : inside k s -> inside k (tl s).
Proof. intros H q Hq Hk. specialize (H q Hq Hk). destruct s; cbn in *; lia. Qed.

Lemma group_body_short ln k c0 c r a s : inside k r ->
  group_body usage action print_errors min_abbr_len hm ln nonops (mkPtr k (c0 :: c :: r)) true false (mkState l p n a s) =
  handle_option usage action print_errors hm nonops (default (length us) (ref_short us c))
    (match r with [] => next | _ => Some (mkPtr k r) end) (mkPtr k (c :: r)) true false (mkState l p n a s).
Proof using table Hnext.
  intros Hr. unfold group_body. cbn [negb orb mbind outcome_bind]. unfold advance_ptr. cbn [rest str drop].
  rewrite find_short_ref. cbn [mbind outcome_bind]. destruct r; [by rewrite Hnext|done].
Qed.

Lemma check_status i ix ty sh lo check he o s :
  us !! i = Some (mkDescriptor _ ix ty sh lo (Some check) he) -> (check o print_errors s).1 = status i o.
Proof using table. intros Hi. by apply (checks table i _ check o print_errors s Hi). Qed.

Lemma group_ref k ln s c0 fuel a cl : (length s <= fuel)%nat -> inside k s ->
  let '(its, took) := ref_group us status next k s in
  outcome_is (run_items us action print_errors its a cl) (left_at took)
    (group_loop usage action print_errors min_abbr_len hm ln nonops fuel (mkPtr k (c0 :: s)) true false (mkState l p n a cl)).
Proof using table Hnext Hmore Htake.
  revert c0 fuel a cl. induction s as [|c r IH]; intros c0 fuel a cl Hfuel Hin.
  - cbn [ref_group run_items]. destruct fuel; cbn; by eexists.
  - apply inside_tl in Hin. cbn [tl] in Hin. destruct fuel as [|fuel]; [cbn in Hfuel; lia|]. cbn [length] in Hfuel.
    cbn [group_loop ref_group]. rewrite (group_body_short ln k c0 c r a cl Hin).
    rewrite (handle_ref (ref_short us c) _ (negb (is_empty r))); [|apply find_idx_lt|]; [|by destruct r; [|split; [|by apply inside_ne]]].
    destruct (ref_descriptor us (ref_short us c)) as [i|] eqn:Ei; cbn [mbind outcome_bind]; [|by apply IH; [lia|]].
    set (it := mkItem _ _ _). destruct (us !! i) as [[ix ty sh lo [check|] he]|] eqn:Hi; cycle 1.
    1,2: destruct (it_ok status it); [|destruct (ref_group us status next k r)]; cbn; by rewrite Hi.
    pose proof (check_status i ix ty sh lo check he (it_option it) cl Hi) as Hst.
    unfold it_ok. cbn [it it_desc]. rewrite <- Hst.
    destruct (check (it_option it) print_errors cl) as [st cl'] eqn:Ec. cbn [fst].
    destruct (bool_decide (st = ARG_OK)) eqn:Eok.
    + apply bool_decide_eq_true in Eok. subst st. cbn [run_items it it_desc]. rewrite Hi. fold it. rewrite Ec.
      destruct (perform action (item_option it ARG_OK) a) as [[[] a']| |]; cbn; [| |done ..].
      all: eexists; split; [done|]; rewrite negb_involutive; by destruct (is_empty r && negb (is_end next)).
    + specialize (IH c fuel). destruct (ref_group us status next k r) as [its took]. cbn [run_items it it_desc]. rewrite Hi. fold it. rewrite Ec.
      destruct st; [|done| |by eexists].
      all: destruct (perform action (item_option it _) a) as [[[] a']| |]; cbn; [apply IH; [lia|done]|by eexists|done ..].
Qed.

Lemma after_equals_shorter s r : after_equals s = Some r -> (length r < length s)%nat.
Proof.
  induction s as [|c s IH]; cbn; [done|]. destruct (ch_eqb c "="); [intros [= <-]; lia|]. intros H. specialize (IH H). lia.
Qed.

(** The option argument of a long option. *)
Definition long_optarg (k : nat) (name : chars) : option cptr :=
  match after_equals name with Some r => Some (mkPtr k r) | None => next end.

Lemma find_optarg k name a s :
  match after_equals name with
  | Some r => Ret (Some (mkPtr k r))
  | None => detached hm (mkState l p n a s : @wstate S A)
  end = Ret (long_optarg k name).
Proof using Hnext. unfold long_optarg. destruct (after_equals name); [done|]. by rewrite Hnext. Qed.

Lemma group_body_long k name param (hs try : bool) a s :
  negb hs || try && negb (is_end (ref_long us min_abbr_len name)) = true ->
  group_body usage action print_errors min_abbr_len hm (mkPtr k name) nonops param hs try (mkState l p n a s) =
  handle_option usage action print_errors hm nonops (default (length us) (ref_long us min_abbr_len name)) (long_optarg k name)
    param false false (mkState l p n a s).
Proof using table Hnext.
  intros Hh. unfold group_body. assert (negb hs || try = true) as -> by (destruct hs, try; done).
  cbn [rest str]. rewrite find_long_ref. cbn [mbind outcome_bind].
  destruct (desc_at_found _ (ref_long_lt name)) as (d & -> & Hd). cbn [mbind outcome_bind]. rewrite find_optarg. cbn [mbind outcome_bind].
  destruct (is_end_found _ d (ref_long_lt name) Hd) as [-> _].
  assert (hs && is_end (ref_long us min_abbr_len name) = false) as ->; [|done].
  destruct hs, try, (is_end (ref_long us min_abbr_len name)); done.
Qed.

Lemma group_body_not_long k name param a s : ref_long us min_abbr_len name = None ->
  group_body usage action print_errors min_abbr_len hm (mkPtr k name) nonops param true true (mkState l p n a s) =
  group_body usage action print_errors min_abbr_len hm (mkPtr k name) nonops param true false (mkState l p n a s).
Proof using table Hnext.
  intros Hn. unfold group_body. cbn [negb orb rest str]. rewrite find_long_ref, Hn. cbn [mbind outcome_bind].
  destruct (desc_at_found None) as (d & Hd & ->); [done|]. rewrite Hd. cbn [mbind outcome_bind]. rewrite find_optarg. cbn [mbind outcome_bind].
  by rewrite (sentinel_long table).
Qed.

Lemma longs_ref k name param (hs try : bool) fuel a cl :
  negb hs || try && negb (is_end (ref_long us min_abbr_len name)) = true -> inside k name -> str param = k ->
  let '(its, took) := ref_longs us min_abbr_len status next param name in
  outcome_is (run_items us action print_errors its a cl) (left_at took)
    (group_loop usage action print_errors min_abbr_len hm (mkPtr k name) nonops fuel param hs try (mkState l p n a cl)).
Proof using table Hnext Hmore Htake.
  intros Hh Hin Hk. unfold ref_longs. rewrite Hk. fold (long_optarg k name).
  destruct fuel; cbn [group_loop]; rewrite group_body_long by done.
  all: rewrite (handle_ref _ _ (negb (is_end (after_equals name)))); [|apply ref_long_lt|].
  2, 4: unfold long_optarg; destruct (after_equals name) as [r|] eqn:E; [|done].
  2, 3: split; [done|]; apply inside_ne; intros q Hq Hs; specialize (Hin q Hq Hs); apply after_equals_shorter in E; lia.
  all: destruct (ref_descriptor us (ref_long us min_abbr_len name)) as [i|] eqn:Ei; cbn [mbind outcome_bind]; [|by eexists].
  all: set (it := mkItem _ _ _); cbn [run_items it it_desc].
  all: destruct (us !! i) as [[ix ty sh lo [check|] he]|] eqn:Hi; [|done ..].
  all: fold it; pose proof (check_status i ix ty sh lo check he (it_option it) cl Hi) as Hst; unfold it_ok; cbn [it it_desc]; rewrite <- Hst.
  all: destruct (check (it_option it) print_errors cl) as [st cl'] eqn:Ec; cbn [fst andb].
  all: destruct st; [| | |by eexists]; (destruct (perform action (item_option it _) a) as [[[] a']| |]; cbn; [| |done ..]).
  all: eexists; split; [done|]; rewrite ?negb_involutive; by destruct (is_end (after_equals name)), (is_end next).
Qed.

(** The loop over one argument. *)
Lemma argument_ref k c0 s fuel a cl : (length s <= fuel)%nat -> inside k s ->
  let long := ch_eqb (deref s) "-" in
  let '(its, took) := ref_arg us single_minus_longopt min_abbr_len status next (mkPtr k (c0 :: s)) in
  outcome_is (run_items us action print_errors its a cl) (left_at took)
    (group_loop usage action print_errors min_abbr_len hm (advance_ptr (if long then 2 else 1) (mkPtr k (c0 :: s))) nonops fuel
       (mkPtr k (c0 :: s)) (negb long) single_minus_longopt (mkState l p n a cl)).
Proof using table Hnext Hmore Htake.
  intros Hf Hin. cbv zeta. unfold ref_arg. cbn [rest tl str]. unfold advance_ptr. cbn [str rest].
  destruct (ch_eqb (deref s) "-") eqn:El; cbn [negb].
  - change (drop 2 (c0 :: s)) with (drop 1 s). replace (drop 1 s) with (tl s) by by destruct s.
    by apply longs_ref; [|apply inside_tl|].
  - change (drop 1 (c0 :: s)) with s. destruct single_minus_longopt; cbn [andb].
    + destruct (ref_long us min_abbr_len s) as [i|] eqn:Ei; cbn [is_end negb].
      * apply longs_ref; [by rewrite Ei|done|done].
      * pose proof (group_ref k (mkPtr k s) s c0 fuel a cl Hf Hin) as H. destruct (ref_group us status next k s) as [its took].
        replace (group_loop usage action print_errors min_abbr_len hm (mkPtr k s) nonops fuel (mkPtr k (c0 :: s)) true true (mkState l p n a cl))
          with (group_loop usage action print_errors min_abbr_len hm (mkPtr k s) nonops fuel (mkPtr k (c0 :: s)) true false (mkState l p n a cl)); [done|].
        destruct fuel; cbn [group_loop]; by rewrite group_body_not_long.
    + by apply group_ref.
Qed.
End argument.

(** *** The argument vector

    Between two arguments: [C] is used up, [N] are the non-options passed over, [R]
    is still to come, [tail] is the vector behind the arguments. *)

Definition counted (n : Z) (R : list cptr) (tail : argvec) : Prop :=
  n = Z.of_nat (length R) \/ n < 0 /\ exists t, tail = None :: t.

Record at_args (C N R : list cptr) (tail : argvec) (st : @wstate S A) : Prop := {
  at_argv : argv st = (Some <$> C ++ N ++ R) ++ tail;
  at_pos : pos st = (length C + length N)%nat;
  at_count : counted (numargs st) R tail
}.

Lemma shift_rotate (l1 N : argvec) x l2 :
  shift (l1 ++ N ++ x :: l2) (length l1 + length N) (length N) = Ret (l1 ++ x :: N ++ l2).
Proof.
  revert l2. induction N as [|y N IH] using rev_ind; intros l2; [done|]. rewrite length_app. cbn [length].
  rewrite Nat.add_1_r, <- plus_n_Sm. cbn [shift].
  assert ((l1 ++ (N ++ [y]) ++ x :: l2) !! Datatypes.S (length l1 + length N) = Some x) as ->.
  { replace (l1 ++ (N ++ [y]) ++ x :: l2) with ((l1 ++ N ++ [y]) ++ x :: l2) by by rewrite <- !app_assoc.
    rewrite list_lookup_middle; [done|]. rewrite !length_app. cbn. lia. }
  assert ((l1 ++ (N ++ [y]) ++ x :: l2) !! (length l1 + length N)%nat = Some y) as ->.
  { replace (l1 ++ (N ++ [y]) ++ x :: l2) with ((l1 ++ N) ++ y :: x :: l2) by by rewrite <- !app_assoc.
    rewrite list_lookup_middle; [done|]. by rewrite length_app. }
  assert (<[(length l1 + length N)%nat:=x]> (<[Datatypes.S (length l1 + length N):=y]> (l1 ++ (N ++ [y]) ++ x :: l2)) =
    l1 ++ N ++ x :: y :: l2) as ->; [|by rewrite IH, <- app_assoc].
  replace (l1 ++ (N ++ [y]) ++ x :: l2) with ((l1 ++ N) ++ y :: x :: l2) by by rewrite <- !app_assoc.
  rewrite <- (length_app l1 N), <- Nat.add_1_r, insert_app_r, <- (Nat.add_0_r (length (l1 ++ N))), insert_app_r. cbn.
  by rewrite <- app_assoc.
Qed.

Definition less (n : Z) : Z := if 0 <? n then n - 1 else n.

Lemma counted_less n x R tail : counted n (x :: R) tail -> counted (less n) R tail.
Proof.
  unfold counted, less. cbn [length]. intros [->|[Hn Ht]].
  - rewrite (proj2 (Z.ltb_lt _ _)) by lia. left. lia.
  - rewrite (proj2 (Z.ltb_ge _ _)) by lia. by right.
Qed.

Lemma shift_next_at C N x R tail n a s :
  shift_next (length N) (mkState ((Some <$> C ++ N ++ x :: R) ++ tail) (length C + length N) n a s : @wstate S A) =
  Ret (mkState ((Some <$> (C ++ [x]) ++ N ++ R) ++ tail) (length (C ++ [x]) + length N) (less n) a s).
Proof.
  unfold shift_next. cbn [argv pos numargs acc client].
  assert (shift ((Some <$> C ++ N ++ x :: R) ++ tail) (length C + length N) (length N) = Ret ((Some <$> (C ++ [x]) ++ N ++ R) ++ tail)) as ->.
  { pose proof (shift_rotate (Some <$> C) (Some <$> N) (Some x) ((Some <$> R) ++ tail)) as H.
    rewrite !length_fmap in H. rewrite !fmap_app, fmap_cons, <- !app_assoc. cbn [fmap list_fmap app]. exact H. }
  cbn. unfold next_arg. cbn [argv pos numargs acc client]. rewrite length_app. cbn [length]. do 2 f_equal. lia.
Qed.

Lemma arg_at_pos C N R tail i : (i < length R)%nat ->
  arg_at ((Some <$> C ++ N ++ R) ++ tail) (length C + length N + i) = Ret (R !! i).
Proof.
  intros Hi. unfold arg_at. destruct (lookup_lt_is_Some_2 R i Hi) as [x Hx].
  rewrite lookup_app_l by (rewrite length_fmap, !length_app; lia). rewrite list_lookup_fmap, app_assoc, lookup_app_r by (rewrite length_app; lia).
  rewrite length_app. replace (length C + length N + i - (length C + length N))%nat with i by lia. by rewrite Hx.
Qed.

Lemma arg_at_tail C N tail t : tail = None :: t -> arg_at ((Some <$> C ++ N) ++ tail) (length C + length N) = Ret None.
Proof. intros ->. unfold arg_at. rewrite list_lookup_middle; [done|]. by rewrite length_fmap, length_app. Qed.

Lemma detached_at C N x R tail n a s : counted n (x :: R) tail ->
  detached ((1 <? n) || (n <? 0)) (mkState ((Some <$> C ++ N ++ x :: R) ++ tail) (length C + length N) n a s : @wstate S A) = Ret (head R) /\
  (head R <> None -> (1 <? n) || (n <? 0) = true).
Proof.
  intros Hc. unfold detached. cbn [argv pos]. destruct R as [|y R].
  - split; [|done]. destruct Hc as [->|[Hn [t Ht]]]; [done|]. rewrite (proj2 (Z.ltb_lt n 0)), orb_true_r by done.
    replace (C ++ N ++ [x]) with (C ++ (N ++ [x])) by done. etrans; [|exact (arg_at_tail C (N ++ [x]) tail t Ht)]. f_equal.
    rewrite length_app. cbn. lia.
  - assert ((1 <? n) || (n <? 0) = true) as ->.
    { apply orb_true_iff. rewrite !Z.ltb_lt. destruct Hc as [->|[Hn _]]; [left; cbn [length]; lia|by right]. }
    split; [|done]. rewrite arg_at_pos by (cbn; lia). done.
Qed.

(** The arguments are whole strings. *)
Definition whole_strings (E : list cptr) : Prop :=
  forall p q, p ∈ E -> q ∈ E -> str p = str q -> rest p = rest q.

Lemma ref_arg_took x its : ref_arg us single_minus_longopt min_abbr_len status None x = (its, true) -> False.
Proof.
  unfold ref_arg, ref_longs. assert (forall k s its, ref_group us status None k s = (its, true) -> False) as Hg.
  { intros k s. induction s as [|c r IH]; intros its'; cbn; [done|]. destruct (ref_descriptor us _); [|apply IH].
    destruct (it_ok _ _); [by rewrite andb_false_r|]. destruct (ref_group us status None k r) as [i []]; [|done].
    intros _. by apply (IH i). }
  repeat case_match; try done; try (rewrite ?andb_false_r; done). apply Hg.
Qed.

Lemma parse_arg_ref C N x R tail st : at_args C N (x :: R) tail st -> whole_strings (x :: R) -> is_nonoption (rest x) = false ->
  let '(its, took) := ref_arg us single_minus_longopt min_abbr_len status (head R) x in
  outcome_is (run_items us action print_errors its (acc st) (client st))
    (if took then at_args (C ++ x :: take 1 R) N (drop 1 R) tail else at_args (C ++ [x]) N R tail)
    (parse_arg usage action single_minus_longopt print_errors min_abbr_len x (length N) st).
Proof using table.
  intros [Hv Hp Hc] Hw Hopt. destruct st as [v p n a cl]. cbn [argv pos numargs acc client] in *. subst v p.
  destruct x as [k [|c0 s]] eqn:Ex; [done|]. rewrite <- Ex in Hc, Hw |- *. unfold parse_arg. cbn [numargs].
  destruct (detached_at C N x R tail n a cl Hc) as [_ Hm].
  assert (inside (head R) k s) as Hin.
  { intros q Hq Hk. destruct R as [|q' R]; [done|]. injection Hq as ->. rewrite <- (Hw x q); [subst x; cbn; lia|by left|right; by left|by subst x]. }
  pose proof (argument_ref ((1 <? n) || (n <? 0)) (length N) ((Some <$> C ++ N ++ x :: R) ++ tail) ((Some <$> (C ++ [x]) ++ N ++ R) ++ tail)
    (length C + length N) (length (C ++ [x]) + length N) n (less n) (head R)
    (fun a s => proj1 (detached_at C N x R tail n a s Hc)) Hm (fun _ a s => shift_next_at C N x R tail n a s)
    k c0 s (length (rest x)) a cl) as H.
  rewrite <- Ex in H. cbv zeta in H. replace (tl (rest x)) with s by by subst x.
  destruct (ref_arg us single_minus_longopt min_abbr_len status (head R) x) as [its took] eqn:Er.
  specialize (H ltac:(subst x; cbn; lia) Hin).
  unfold outcome_is in *. destruct (run_items us action print_errors its a cl) as [[[ok a'] cl']| |]; [|by rewrite H ..].
  destruct H as (st & -> & Ha & Hcl & Hg). cbn [mbind outcome_bind]. destruct ok; [|by exists st]. specialize (Hg eq_refl).
  destruct st as [v p n' a'' cl'']. cbn [acc client] in Ha, Hcl. subst a'' cl''. unfold left_at in Hg. cbn [argv pos numargs] in Hg.
  destruct took; injection Hg as -> -> ->.
  - destruct R as [|y R]; [by apply ref_arg_took in Er|]. rewrite shift_next_at. cbn [mbind outcome_bind]. eexists. split; [done|].
    split; [done|]. split; [done|]. intros _. split; cbn [argv pos numargs].
    + by rewrite <- (app_assoc C [x]).
    + by rewrite <- (app_assoc C [x]).
    + by apply (counted_less _ y), (counted_less _ x).
  - rewrite shift_next_at. cbn [mbind outcome_bind]. eexists. split; [done|]. split; [done|]. split; [done|]. intros _.
    split; [done|done|]. by apply (counted_less _ x).
Qed.

Lemma run_items_app x y a s :
  run_items us action print_errors (x ++ y) a s =
  '(ok, a, s) ← run_items us action print_errors x a s; if ok : bool then run_items us action print_errors y a s else Ret (false, a, s).
Proof.
  revert a s. induction x as [|it x IH]; intros a s; cbn; [done|]. destruct (us !! it_desc it) as [[? ? ? ? [check|] ?]|]; [|done ..].
  destruct (check _ _ _) as [[] s']; try done; (destruct (perform _ _ a) as [[[] a']| |]; cbn; [apply IH|done ..]).
Qed.

Lemma whole_strings_drop n E : whole_strings E -> whole_strings (drop n E).
Proof.
  intros H p q Hp Hq. assert (forall z, z ∈ drop n E -> z ∈ E) as Hd
    by (intros z Hz; rewrite <- (take_drop n E); apply elem_of_app; by right). by apply H; apply Hd.
Qed.

(** What the outer loop ends with: [N'] of the other arguments were passed over, the
    rest [R'] was not looked at. *)
Definition loop_is (want : outcome (bool * A * S)) (C N : list cptr) (r : reading) (tail : argvec)
    (m : outcome (bool * nat * @wstate S A)) : Prop :=
  match want with
  | Ret (ok, a, s) =>
      exists k st, m = Ret (ok, k, st) /\ acc st = a /\ client st = s /\
        (ok = true -> exists N' R', N ++ r_others r = N' ++ R' /\ k = length N' /\ at_args (C ++ r_used r) N' R' tail st)
  | Blocked => m = Blocked
  | Crash => m = Crash
  end.

Abbreviation reading_of := (ref_parse us gnu single_minus_longopt min_abbr_len status).

Lemma loop_step C N x u R tail its r m st fuel :
  outcome_is (run_items us action print_errors its (acc st) (client st)) (at_args (C ++ x :: u) N R tail) m ->
  (forall st', at_args (C ++ x :: u) N R tail st' ->
     loop_is (run_items us action print_errors (r_items r) (acc st') (client st')) (C ++ x :: u) N r tail
       (args_loop usage action gnu single_minus_longopt print_errors min_abbr_len fuel (length N) st')) ->
  loop_is (run_items us action print_errors (its ++ r_items r) (acc st) (client st)) C N
    (mkReading (its ++ r_items r) (x :: u ++ r_used r) (r_others r)) tail
    ('(go, st) ← m; if go : bool then args_loop usage action gnu single_minus_longopt print_errors min_abbr_len fuel (length N) st
                    else Ret (false, length N, st)).
Proof.
  intros Hm Hr. rewrite run_items_app. unfold outcome_is in Hm.
  destruct (run_items us action print_errors its (acc st) (client st)) as [[[ok a] s]| |]; [|by rewrite Hm ..].
  destruct Hm as (st' & -> & <- & <- & Hg). cbn [mbind outcome_bind]. destruct ok; [|by eexists _, st'].
  specialize (Hr st' (Hg eq_refl)). unfold loop_is in *. destruct (run_items us action print_errors (r_items r) _ _) as [[[ok a] s]| |]; [|done ..].
  destruct Hr as (k & st2 & Hl & Ha & Hs & Hf). exists k, st2. split; [done|]. split; [done|]. split; [done|]. intros Hok.
  destruct (Hf Hok) as (N' & R' & H1 & H2 & H3). exists N', R'. split; [done|]. split; [done|]. cbn [r_used].
  by rewrite <- app_assoc in H3.
Qed.

Lemma loop_stops C N R (st : @wstate S A) tail : counted (numargs st) R tail -> argv st = (Some <$> C ++ N ++ R) ++ tail -> pos st = (length C + length N)%nat ->
  (R = [] -> (numargs st =? 0) = true \/ (numargs st =? 0) = false /\ arg_at (argv st) (pos st) = Ret None) /\
  (forall x R', R = x :: R' -> (numargs st =? 0) = false /\ arg_at (argv st) (pos st) = Ret (Some x)).
Proof.
  intros Hc -> ->. split.
  - intros ->. destruct Hc as [->|[Hn [t Ht]]]; [by left|]. right. split; [by apply Z.eqb_neq; lia|].
    rewrite app_nil_r. by apply (arg_at_tail _ _ _ t).
  - intros x R' ->. split; [apply Z.eqb_neq; destruct Hc as [->|[Hn _]]; cbn [length]; lia|].
    rewrite <- (Nat.add_0_r (length C + length N)). rewrite arg_at_pos by (cbn; lia). done.
Qed.

Lemma at_next_arg C N x R tail st : at_args C N (x :: R) tail st -> at_args C (N ++ [x]) R tail (next_arg st).
Proof.
  intros [Hv Hp Hc]. split; cbn [next_arg argv pos numargs].
  - by rewrite <- app_assoc.
  - rewrite Hp, length_app. cbn. lia.
  - by apply (counted_less _ x).
Qed.

Lemma shift_next_args C N x R tail st : at_args C N (x :: R) tail st ->
  exists st', shift_next (length N) st = Ret st' /\ acc st' = acc st /\ client st' = client st /\ at_args (C ++ [x]) N R tail st'.
Proof.
  destruct st as [v p n a cl]. intros [Hv Hp Hc]. cbn [argv pos numargs] in *. subst. rewrite shift_next_at. eexists.
  split; [done|]. split; [done|]. split; [done|]. split; [done|done|]. by apply (counted_less _ x).
Qed.

Lemma loop_ends C N R tail r (st : @wstate S A) want :
  N ++ r_others r = N ++ R -> at_args (C ++ r_used r) N R tail st -> want = Ret (true, acc st, client st) ->
  loop_is want C N r tail (Ret (true, length N, st)).
Proof. intros H1 H2 ->. exists (length N), st. repeat (split; [done|]). intros _. by exists N, R. Qed.

Lemma args_loop_ref fuel C N R tail st : at_args C N R tail st -> whole_strings R -> (length R <= fuel)%nat ->
  loop_is (run_items us action print_errors (r_items (reading_of R)) (acc st) (client st)) C N (reading_of R) tail
    (args_loop usage action gnu single_minus_longopt print_errors min_abbr_len fuel (length N) st).
Proof using table.
  revert C N R st. induction fuel as [|fuel IH]; intros C N R st H Hw Hf.
  all: destruct (loop_stops C N R st tail (at_count _ _ _ _ _ H) (at_argv _ _ _ _ _ H) (at_pos _ _ _ _ _ H)) as [Hnil Hcons].
  all: destruct R as [|x R]; cbn [args_loop].
  1, 3: destruct (Hnil eq_refl) as [->|[-> ->]]; by apply (loop_ends C N []); [| rewrite app_nil_r|].
  { cbn in Hf. lia. }
  destruct (Hcons x R eq_refl) as [-> ->]. cbn [mbind outcome_bind ref_parse]. cbn [length] in Hf.
  assert (whole_strings R) as Hw' by exact (whole_strings_drop 1 (x :: R) Hw).
  destruct (is_nonoption (rest x)) eqn:En; [destruct gnu eqn:Eg|].
  - specialize (IH C (N ++ [x]) R (next_arg st) (at_next_arg _ _ _ _ _ _ H) Hw' ltac:(lia)).
    rewrite length_app in IH. cbn [length] in IH. cbn [r_items]. revert IH. unfold loop_is. cbn [next_arg acc client r_others r_used].
    destruct (run_items us action print_errors _ _ _) as [[[ok a] s]| |]; [|done ..]. by rewrite <- (app_assoc N [x]).
  - apply (loop_ends C N (x :: R)); cbn; [done|by rewrite app_nil_r|done].
  - destruct (is_terminator (rest x)).
    + destruct (shift_next_args C N x R tail st H) as (st' & -> & Ha & Hcl & H'). cbn [mbind outcome_bind].
      apply (loop_ends C N R); cbn; [done|done|by rewrite Ha, Hcl].
    + pose proof (parse_arg_ref C N x R tail st H Hw En) as Hm.
      destruct (ref_arg us single_minus_longopt min_abbr_len status (head R) x) as [its took] eqn:Er. destruct took.
      * destruct R as [|y R]; [by apply ref_arg_took in Er|]. cbn [take drop] in Hm.
        apply (loop_step C N x [y] R tail its (reading_of R)); [exact Hm|]. intros st' H'.
        apply IH; [done|by apply (whole_strings_drop 1) in Hw'|cbn in Hf; lia].
      * assert (forall st', at_args (C ++ [x]) N R tail st' ->
          loop_is (run_items us action print_errors (r_items (reading_of R)) (acc st') (client st')) (C ++ [x]) N (reading_of R) tail
            (args_loop usage action gnu single_minus_longopt print_errors min_abbr_len fuel (length N) st')) as Hr by (intros; apply IH; [done|done|lia]).
        pose proof (loop_step C N x [] R tail its (reading_of R) _ st fuel Hm Hr) as Hl. by destruct R.
Qed.

(** What a run amounts to: the options go through the checks and the action one by
    one; if none is refused, the action hears of the other arguments. *)
Definition reference_run (E : list cptr) (a : A) (s : S) : outcome (bool * A * S) :=
  let r := reading_of E in
  '(ok, a, s) ← run_items us action print_errors (r_items r) a s;
  if ok : bool then
    '(ok, a) ← finished action (Z.of_nat (length (r_others r))) (Some (length (r_used r))) a; Ret (ok, a, s)
  else Ret (false, a, s).

Lemma workhorse_ref E tail n a s : counted n E tail -> whole_strings E ->
  outcome_is (reference_run E a s)
    (fun st => argv st = (Some <$> r_used (reading_of E) ++ r_others (reading_of E)) ++ tail)
    (workhorse usage action gnu single_minus_longopt print_errors min_abbr_len n (Some ((Some <$> E) ++ tail)) a s).
Proof using table.
  intros Hc Hw. unfold workhorse, reference_run.
  pose proof (args_loop_ref (length ((Some <$> E) ++ tail)) [] [] E tail (mkState ((Some <$> E) ++ tail) 0 n a s)) as H.
  specialize (H ltac:(by split) Hw). rewrite length_app, length_fmap in H |- *. specialize (H ltac:(lia)). cbn [acc client length] in H.
  unfold loop_is in H. destruct (run_items us action print_errors _ a s) as [[[ok a1] s1]| |]; [|by rewrite H ..].
  destruct H as (k & st & -> & <- & <- & Hg). cbn [mbind outcome_bind]. destruct ok; cbn [negb]; [|by exists st].
  destruct (Hg eq_refl) as (N & R & Ho & -> & Hat). cbn [app] in Ho, Hat. destruct Hat as [Hv Hp Hn].
  assert ((if 0 <? numargs st then a ← arg_at (argv st) (pos st); Ret (if is_end a then 0 else numargs st)
           else if numargs st <? 0 then count_args (drop (pos st) (argv st)) else Ret (numargs st)) = Ret (Z.of_nat (length R))) as ->.
  { rewrite Hv, Hp. destruct Hn as [Hn|[Hn [t ->]]].
    - destruct (Z.ltb_spec 0 (numargs st)); [|destruct (Z.ltb_spec (numargs st) 0); [lia|f_equal; lia]].
      destruct R as [|x R]; [cbn in Hn; lia|]. rewrite <- (Nat.add_0_r (_ + _)), arg_at_pos by (cbn; lia). cbn. f_equal. cbn in Hn. lia.
    - rewrite (proj2 (Z.ltb_ge 0 _)), (proj2 (Z.ltb_lt _ 0)) by lia. rewrite app_assoc, fmap_app, <- app_assoc.
      rewrite drop_app_length' by by rewrite length_fmap, length_app. clear. induction R as [|x R IH]; cbn [fmap list_fmap app count_args]; [done|].
      fold (Some <$> R). rewrite IH. cbn [mbind outcome_bind length]. f_equal. lia. }
  cbn [mbind outcome_bind]. rewrite Ho. replace (Z.of_nat (length R) + Z.of_nat (length N)) with (Z.of_nat (length (N ++ R))) by (rewrite length_app; lia).
  rewrite Hp. replace (length (r_used (reading_of E)) + length N - length N)%nat with (length (r_used (reading_of E))) by lia.
  destruct (finished action _ _ _) as [[ok a2]| |]; cbn; [|done ..]. eexists. split; [done|]. split; [done|]. split; [done|]. intros _. cbn.
  by rewrite Hv.
Qed.
End refinement.

(** ** Order of the arguments *)

Section order.
Context {S : Type}.
Variables (us : list (Descriptor S)) (gnu smin : bool) (abbr : Z) (status : nat -> Option -> ArgStatus).
Abbreviation reading_of := (ref_parse us gnu smin abbr status).

(** Induction along the reference parser. *)
Lemma ref_parse_order E : r_used (reading_of E) ++ r_others (reading_of E) ≡ₚ E /\
  r_used (reading_of E) `sublist_of` E /\ r_others (reading_of E) `sublist_of` E.
Proof.
  induction E as [E IH] using (induction_ltof1 _ length). unfold ltof in IH. destruct E as [|x E]; [done|]. cbn [ref_parse].
  destruct (is_nonoption (rest x)); [destruct gnu|destruct (is_terminator (rest x))].
  - destruct (IH E) as (H1 & H2 & H3); [cbn; lia|]. cbn [r_used r_others]. rewrite <- Permutation_middle, H1.
    split; [done|]. split; [by apply sublist_cons|by apply sublist_skip].
  - cbn. split; [done|]. split; [apply sublist_nil_l|done].
  - cbn. split; [done|]. split; [apply sublist_skip, sublist_nil_l|by apply sublist_cons].
  - destruct (ref_arg us smin abbr status (head E) x) as [its took].
    destruct (IH E) as (H1 & H2 & H3); [cbn; lia|].
    assert (forall r, r_used r = x :: r_used (reading_of E) -> r_others r = r_others (reading_of E) ->
      r_used r ++ r_others r ≡ₚ x :: E /\ r_used r `sublist_of` x :: E /\ r_others r `sublist_of` x :: E) as Hone.
    { intros r -> ->. cbn. rewrite H1. split; [done|]. split; [by apply sublist_skip|by apply sublist_cons]. }
    destruct took; [|by destruct E; apply Hone]. destruct E as [|y E]; [by apply Hone|].
    destruct (IH E) as (K1 & K2 & K3); [cbn; lia|]. cbn [r_used r_others app]. rewrite K1.
    split; [done|]. split; [by do 2 apply sublist_skip|by do 2 apply sublist_cons].
Qed.
End order.

(** C19: For every action and every table whose checks depend on the option only, the
    parser does what the reference parser says: it hands the options to the checks and
    the action in order, up to the first refusal, and then tells the action of the
    other arguments.  It leaves the vector as the used arguments followed by the
    others, each in their order; in particular the shifts of GNU mode are a stable
    partition, and no access is outside the vector or the table. *)
Theorem workhorse_exact {S A} (us : list (Descriptor S)) sentinel (action : Action A) gnu single_minus print_errors abbr status E tail n a s :
  table_ok us sentinel status -> counted n E tail -> whole_strings E ->
  let r := ref_parse us gnu single_minus abbr status E in
  outcome_is (reference_run us action gnu single_minus print_errors abbr status E a s)
    (fun st => argv st = (Some <$> r_used r ++ r_others r) ++ tail)
    (workhorse (us ++ [sentinel]) action gnu single_minus print_errors abbr n (Some ((Some <$> E) ++ tail)) a s) /\
  r_used r ++ r_others r ≡ₚ E /\ r_used r `sublist_of` E /\ r_others r `sublist_of` E.
Proof. intros Ht Hc Hw r. split; [by apply workhorse_ref|apply ref_parse_order]. Qed.

(** ** Witness *)

Section witness.
#[local] Open Scope char_scope.

(** A flag [-v], an option [-o]/[--out] with an argument, and the unknown ones. *)
Definition wit_out (o : Option) (msg : bool) (s : nat) : ArgStatus * nat :=
  match arg o with Some _ => (ARG_OK, Datatypes.S s) | None => (ARG_ILLEGAL, s) end.
Definition wit_table : list (Descriptor nat) := [
  mkDescriptor _ 0 0 (Some []) (Some []) (Some Arg_None) None;
  mkDescriptor _ 1 0 (Some ["v"]) (Some []) (Some Arg_None) None;
  mkDescriptor _ 2 0 (Some ["o"]) (Some ["o"; "u"; "t"]) (Some wit_out) None
].
Definition wit_sentinel : Descriptor nat := mkDescriptor _ 0 0 None None None None.
Definition wit_status (i : nat) (o : Option) : ArgStatus :=
  match i with 2%nat => match arg o with Some _ => ARG_OK | None => ARG_ILLEGAL end | _ => ARG_NONE end.
(** Keeps the names and arguments of the options. *)
Definition wit_action : Action (list (option cptr * option cptr)) :=
  mkAction _ (fun o l => Ret (true, l ++ [(name o, arg o)])) (fun _ _ l => Ret (true, l)).
(** [f -vo x --out=y -- -v] *)
Definition wit_line : list cptr :=
  [mkPtr 0 ["f"]; mkPtr 1 ["-"; "v"; "o"]; mkPtr 2 ["x"]; mkPtr 3 ["-"; "-"; "o"; "u"; "t"; "="; "y"]; mkPtr 4 ["-"; "-"]; mkPtr 5 ["-"; "v"]].

Lemma wit_table_ok : table_ok wit_table wit_sentinel wit_status.
Proof.
  split; [done|done|by repeat constructor|]. intros i d f o msg s Hd Hf.
  destruct i as [|[|[|i]]]; [injection Hd as <-; injection Hf as <- ..|done]; [done|done|]. unfold wit_out, wit_status. by destruct (arg o).
Qed.
Lemma wit_line_whole : whole_strings wit_line.
Proof. intros p q. unfold wit_line. rewrite !elem_of_cons, !elem_of_nil. intros Hp Hq. destruct_or!; subst; done. Qed.

Lemma workhorse_exact_witness :
  let r := ref_parse wit_table true false 0 wit_status wit_line in
  reference_run wit_table wit_action true false true 0 wit_status wit_line [] 0%nat =
    Ret (true, [(Some (mkPtr 1 ["v"; "o"]), None); (Some (mkPtr 1 ["o"]), Some (mkPtr 2 ["x"]));
                (Some (mkPtr 3 ["-"; "-"; "o"; "u"; "t"; "="; "y"]), Some (mkPtr 3 ["y"]))], 2%nat) /\
  str <$> r_used r ++ r_others r = [1; 2; 3; 4; 0; 5]%nat /\
  (outcome_is (reference_run wit_table wit_action true false true 0 wit_status wit_line [] 0%nat)
    (fun st => argv st = (Some <$> r_used r ++ r_others r) ++ [None])
    (workhorse (wit_table ++ [wit_sentinel]) wit_action true false true 0 (-1) (Some ((Some <$> wit_line) ++ [None])) [] 0%nat) /\
   r_used r ++ r_others r ≡ₚ wit_line /\ r_used r `sublist_of` wit_line /\ r_others r `sublist_of` wit_line).
Proof.
  split; [vm_compute; reflexivity|]. split; [vm_compute; reflexivity|].
  apply (workhorse_exact wit_table wit_sentinel wit_action true false true 0 wit_status wit_line [None] (-1) [] 0%nat wit_table_ok).
  - right. split; [done|]. by exists [].
  - exact wit_line_whole.
Defined.
End witness.
