(* ===== verification/OptStore.v ===== *)
(** * Options in memory

    [Stats] counts the options, the client makes arrays of these sizes, and [Parser]
    stores the options there.  The arrays are always large enough, and the lists
    hold the options of one index in the order of the command line. *)

From stdpp Require Import gmap.
From S2P Require Import Prelude CStrings OptList OptParse OptRef.

Section store.
Context {S : Type}.
Variables (us : list (Descriptor S)) (sentinel : Descriptor S).
Abbreviation usage := (us ++ [sentinel]).

(** The arrays: [nopt] nodes at [options], [nbuf] at [buffer]. *)
Variables (options buffer nopt nbuf : Z).

Record arrays_ok : Prop := {
  options_slots : forall i, 0 <= i < nopt -> aligned (slot options i);
  buffer_slots : forall i, 0 <= i < nbuf -> aligned (slot buffer i);
  arrays_disjoint : forall i j, 0 <= i < nopt -> 0 <= j < nbuf -> slot options i <> slot buffer j
}.
Hypothesis arrays : arrays_ok.

(** The options the parser hands on: they have an entry, whose index is in range. *)
Definition oindex (o : Option) : Z :=
  match desc o with
  | Some d => match us !! d with Some d => index d | None => -1 end
  | None => -1
  end.
Definition known (o : Option) : Prop := desc o <> None /\ 0 <= oindex o < nopt.

Definition copy_of (o : Option) := payload (Option_init 0 (desc o) (name o) (arg o)).
Definition holds (h : heap) (p : Z) (o : Option) : Prop := exists n, h !! p = Some n /\ payload n = copy_of o.

Definition of_index (i : Z) (os : list Option) : list Option := filter (fun o => oindex o = i) os.

(** The list of index [i] holds the options [sel]. *)
Definition list_holds (h : heap) (os : list Option) (i : Z) (sel : list Option) : Prop :=
  match sel with
  | [] => h !! slot options i = Some (Option_default (slot options i))
  | _ =>
      exists r, ring h (slot options i :: r) /\ Forall2 (holds h) (slot options i :: r) sel /\
        forall q, q ∈ r -> exists j o, q = slot buffer (Z.of_nat j) /\ os !! j = Some o /\ oindex o = i
  end.

(** After the options [os]. *)
Record store_inv (os : list Option) (p : Parser) (h : heap) : Prop := {
  inv_count : op_count p = Z.of_nat (length os);
  inv_buffer : forall j o, os !! j = Some o -> holds h (slot buffer (Z.of_nat j)) o;
  inv_free : forall j, Z.of_nat (length os) <= j < nbuf -> h !! slot buffer j = Some (Option_default (slot buffer j));
  inv_lists : forall i, 0 <= i < nopt -> list_holds h os i (of_index i os)
}.

Lemma slot_inj base i j : slot base i = slot base j -> i = j.
Proof. unfold slot. lia. Qed.

Lemma payload_init p q d n a : payload (Option_init p d n a) = payload (Option_init q d n a).
Proof. done. Qed.

(** What storing one more option does to the heap. *)
Record stored (h h' : heap) (os : list Option) (o : Option) : Prop := {
  st_new : holds h' (slot buffer (Z.of_nat (length os))) o;
  st_list : list_holds h' (os ++ [o]) (oindex o) (of_index (oindex o) os ++ [o]);
  st_data : forall q o', holds h q o' -> holds h' q o' \/ q = slot buffer (Z.of_nat (length os)) \/ q = slot options (oindex o) /\ of_index (oindex o) os = [];
  st_frame : forall q, q <> slot buffer (Z.of_nat (length os)) -> q <> slot options (oindex o) ->
    (forall j o', q = slot buffer (Z.of_nat j) -> os !! j = Some o' -> oindex o' <> oindex o) -> h' !! q = h !! q
}.

Section step.
Variables (os : list Option) (p : Parser) (h : heap) (o : Option).
Hypotheses (Hinv : store_inv os p h) (Hknown : known o) (Hroom : Z.of_nat (length os) < nbuf).
Let b := slot buffer (Z.of_nat (length os)).
Let f := slot options (oindex o).
Let h1 := <[b := Option_assign b o]> h.

Lemma b_not_member i r : 0 <= i < nopt ->
  (forall q, q ∈ r -> exists j o', q = slot buffer (Z.of_nat j) /\ os !! j = Some o' /\ oindex o' = i) -> b ∉ slot options i :: r.
Proof.
  intros Hi Hr [E|(j & o' & E & Hj & _)%Hr]%elem_of_cons.
  - apply (arrays_disjoint arrays i (Z.of_nat (length os))); [done|lia|done].
  - apply slot_inj in E. apply lookup_lt_Some in Hj. lia.
Qed.

Lemma h1_ne q : q <> b -> h1 !! q = h !! q.
Proof. intros H. unfold h1. by rewrite lookup_insert_ne. Qed.

Lemma h1_holds q o' : holds h q o' -> q <> b -> holds h1 q o'.
Proof. intros (n & Hn & Hp) Hq. exists n. by rewrite h1_ne. Qed.

Lemma h1_b : h1 !! b = Some (Option_assign b o).
Proof. unfold h1. by rewrite lookup_insert_eq. Qed.

Lemma f_ne_b : f <> b.
Proof. apply (arrays_disjoint arrays); [apply Hknown|lia]. Qed.

(** The first option of its index. *)
Lemma stored_first : of_index (oindex o) os = [] -> stored h (<[f := Option_assign f (Option_assign b o)]> h1) os o.
Proof.
  intros Hsel. pose proof f_ne_b as Hfb. destruct Hknown as [Hd Hi]. split.
  - exists (Option_assign b o). fold b. rewrite lookup_insert_ne by done. by rewrite h1_b.
  - rewrite Hsel. cbn [app list_holds]. exists []. split; [|split; [|by intros q ?%elem_of_nil]].
    + eapply ring_single; [by apply (options_slots arrays)|apply lookup_insert_eq|done|done].
    + repeat constructor. exists (Option_assign f (Option_assign b o)). by rewrite lookup_insert_eq.
  - intros q o' H. destruct (decide (q = b)); [by right; left|]. destruct (decide (q = f)); [by right; right|]. left.
    destruct H as (n' & Hn & Hp). exists n'. rewrite lookup_insert_ne, h1_ne by done. done.
  - intros q Hb Hf _. rewrite lookup_insert_ne by done. by apply h1_ne.
Qed.

(** A further one. *)
Lemma stored_next r l : of_index (oindex o) os <> [] ->
  ring h (f :: r) -> Forall2 (holds h) (f :: r) (of_index (oindex o) os) ->
  (forall q, q ∈ r -> exists j o', q = slot buffer (Z.of_nat j) /\ os !! j = Some o' /\ oindex o' = oindex o) ->
  last (f :: r) = Some l -> stored h (appended h1 l f b) os o.
Proof.
  intros Hsel Hring Hall Hmem Hl. pose proof (b_not_member (oindex o) r (proj2 Hknown) Hmem) as Hb. fold f in Hb.
  assert (ring h1 (f :: r)) as Hring1 by (eapply ring_frame; [|exact Hring]; intros q Hq; apply h1_ne; intros E; apply Hb; by rewrite <- E).
  assert (forall q o', holds h1 q o' -> holds (appended h1 l f b) q o') as Hkeep.
  { intros q o' (n & Hn & Hp). pose proof (append_payload h1 l f b q) as E. rewrite Hn in E.
    destruct (appended h1 l f b !! q) as [n'|] eqn:En; [|done]. exists n'. split; [done|]. rewrite <- Hp. cbn in E. congruence. }
  assert (holds (appended h1 l f b) b o) as Hnew by (apply Hkeep; exists (Option_assign b o); by rewrite h1_b).
  split; [done| | |].
  - unfold list_holds. destruct (of_index (oindex o) os ++ [o]) eqn:E; [by destruct (of_index (oindex o) os)|]. rewrite <- E. clear E.
    exists (r ++ [b]). split; [|split].
    + change (slot options (oindex o) :: r ++ [b]) with ((f :: r) ++ [b]).
      apply append_ring; [done|done|done|done|apply (buffer_slots arrays); lia|by rewrite h1_b].
    + change (slot options (oindex o) :: r ++ [b]) with ((f :: r) ++ [b]). apply Forall2_app; [|by constructor].
      eapply Forall2_impl_in; [exact Hall|]. intros q o' Hq H. apply Hkeep, h1_holds; [done|]. intros E. apply Hb. by rewrite <- E.
    + intros q [Hq| ->%list_elem_of_singleton]%elem_of_app.
      * destruct (Hmem q Hq) as (j & o' & -> & Hj & Ho). exists j, o'. by rewrite lookup_app_l by by eapply lookup_lt_Some.
      * exists (length os), o. by rewrite list_lookup_middle.
  - intros q o' H. destruct (decide (q = b)); [by right; left|]. left. by apply Hkeep, h1_holds.
  - intros q Hqb Hqf Hq. rewrite append_lookup. rewrite (decide_False _ _ (not_eq_sym Hqf)), (decide_False _ _ (not_eq_sym Hqb)).
    rewrite decide_False.
    + rewrite h1_ne by done. by destruct (h !! q).
    + intros ->. rewrite last_cons in Hl. destruct (last r) as [l'|] eqn:El; [|injection Hl as Hl; by destruct (Hqf (eq_sym Hl))]. injection Hl as ->.
      apply last_Some in El as [r' ->]. destruct (Hmem q) as (j & o' & E & Hj & Ho); [apply elem_of_app; right; by left|].
      by apply (Hq j o').
Qed.

Lemma store_step : op_count p < 0x7fffffff ->
  exists h', store_perform usage options buffer (-1) o (p, h) = Ret (true, (set_op_count (op_count p + 1) p, h')) /\ stored h h' os o.
Proof.
  intros Hmax. unfold store_perform. cbn [Z.ltb orb]. rewrite (proj2 (Z.eqb_neq _ _)) by lia.
  assert (h !! b = Some (Option_default b)) as Hfree by (apply (inv_free _ _ _ Hinv); lia).
  rewrite (inv_count _ _ _ Hinv). fold b. rewrite (store_const _ _ _ _ Hfree). cbn [mbind outcome_bind]. fold h1.
  rewrite (load_Some _ _ _ h1_b). cbn [mbind outcome_bind].
  destruct Hknown as [Hd Hi].
  assert (exists d, desc o = Some d) as [d Ed] by (destruct (desc o); [eauto|done]).
  assert (Option_index usage (Option_assign b o) = Ret (oindex o)) as Hidx.
  { unfold Option_index, oindex in *. cbn [Option_assign Option_init desc]. rewrite Ed in *. destruct (us !! d) as [e|] eqn:Eu; [|lia].
    by rewrite lookup_app_l, Eu by by eapply lookup_lt_Some. }
  assert (match desc (Option_assign b o) with None => Crash | Some _ => Option_index usage (Option_assign b o) end = Ret (oindex o)) as ->
    by (rewrite Hidx; cbn [Option_assign Option_init desc]; by rewrite Ed).
  cbn [mbind outcome_bind]. fold f.
  pose proof f_ne_b as Hfb. pose proof (inv_lists _ _ _ Hinv (oindex o) Hi) as Hlist.
  destruct (of_index (oindex o) os) as [|o1 sel] eqn:Esel.
  - cbn [list_holds] in Hlist. fold f in Hlist. rewrite <- h1_ne in Hlist by done. rewrite (load_Some _ _ _ Hlist). cbn [mbind outcome_bind].
    change (Option_used (Option_default f)) with false. cbv iota. rewrite (store_const _ _ _ _ Hlist). cbn [mbind outcome_bind].
    eexists. split; [done|]. by apply stored_first.
  - destruct Hlist as (r & Hring & Hall & Hmem). fold f in Hring, Hall. rewrite <- Esel in Hall.
    pose proof (b_not_member (oindex o) r Hi Hmem) as Hb. fold f in Hb.
    assert (ring h1 (f :: r)) as Hring1 by (eapply ring_frame; [|exact Hring]; intros q Hq; apply h1_ne; intros E; apply Hb; by rewrite <- E).
    assert (exists n, h !! f = Some n /\ desc n <> None) as (n & Hn & Hdn).
    { rewrite Esel in Hall. inversion Hall as [|? ? ? ? (n & Hn & Hp) _]; subst. exists n. split; [done|].
      assert (o1 ∈ of_index (oindex o) os) as Ho1 by (rewrite Esel; by left). unfold of_index in Ho1.
      apply list_elem_of_filter in Ho1 as [Ho1 _]. injection Hp as Hp _ _ _. rewrite Hp. cbn. intros E. unfold oindex in Ho1 at 1.
      rewrite E in Ho1. lia. }
    rewrite <- h1_ne in Hn by done. rewrite (load_Some _ _ _ Hn). cbn [mbind outcome_bind]. unfold Option_used. rewrite bool_decide_eq_true_2 by done.
    rewrite (append_Ret h1 (f :: r)) by (done || (by left) || by rewrite h1_b). cbn [mbind outcome_bind].
    eexists. split; [done|]. destruct (last (f :: r)) as [l|] eqn:El; [|by apply last_None in El].
    apply (stored_next r l); [by rewrite Esel|done|done|done|done].
Qed.

(** Addresses outside the list of the new option. *)
Lemma stored_other i h' : stored h h' os o -> 0 <= i < nopt -> i <> oindex o -> h' !! slot options i = h !! slot options i.
Proof.
  intros Hst Hi Hne. apply (st_frame _ _ _ _ Hst).
  - apply (arrays_disjoint arrays); [done|lia].
  - by intros E%slot_inj.
  - intros j o' E Hj _. apply (arrays_disjoint arrays i (Z.of_nat j)) in E; [done|done|]. apply lookup_lt_Some in Hj. lia.
Qed.

Lemma stored_buffer j h' : stored h h' os o -> 0 <= j < nbuf -> j <> Z.of_nat (length os) ->
  (forall k o', j = Z.of_nat k -> os !! k = Some o' -> oindex o' <> oindex o) -> h' !! slot buffer j = h !! slot buffer j.
Proof.
  intros Hst Hj Hne Ho. apply (st_frame _ _ _ _ Hst).
  - by intros E%slot_inj.
  - intros E. symmetry in E. by apply (arrays_disjoint arrays) in E; [|apply Hknown|].
  - intros k o' E%slot_inj. by apply Ho.
Qed.

Lemma stored_list i h' : stored h h' os o -> 0 <= i < nopt -> i <> oindex o ->
  list_holds h os i (of_index i os) -> list_holds h' (os ++ [o]) i (of_index i os).
Proof.
  intros Hst Hi Hne. unfold list_holds. destruct (of_index i os) as [|o1 sel]; [by rewrite (stored_other i h')|].
  intros (r & Hring & Hall & Hmem). exists r.
  assert (forall q, q ∈ slot options i :: r -> h' !! q = h !! q) as Hframe.
  { intros q [->|Hq]%elem_of_cons; [by apply stored_other|]. destruct (Hmem q Hq) as (j & o' & -> & Hj & Ho).
    apply lookup_lt_Some in Hj as Hlt. apply stored_buffer; [done|lia|lia|]. intros k o'' E%Nat2Z.inj Hk. subst k. congruence. }
  split; [by eapply ring_frame|]. split.
  - eapply Forall2_impl_in; [exact Hall|]. intros q o' Hq (n & Hn & Hp). exists n. by rewrite Hframe.
  - intros q Hq. destruct (Hmem q Hq) as (j & o' & -> & Hj & Ho). exists j, o'. split; [done|].
    by rewrite lookup_app_l by by eapply lookup_lt_Some.
Qed.

Lemma stored_inv h' : stored h h' os o -> store_inv (os ++ [o]) (set_op_count (op_count p + 1) p) h'.
Proof.
  intros Hst. split.
  - cbn. rewrite (inv_count _ _ _ Hinv), length_app. cbn. lia.
  - intros j o' [[_ Hj]|[-> <-]]%lookup_snoc_Some; [|apply Hst].
    apply lookup_lt_Some in Hj as Hlt. destruct (st_data _ _ _ _ Hst _ _ (inv_buffer _ _ _ Hinv j o' Hj)) as [|[E|[E _]]]; [done| |].
    + apply slot_inj in E. lia.
    + symmetry in E. apply (arrays_disjoint arrays) in E; [done|apply Hknown|lia].
  - intros j. rewrite length_app. cbn [length]. intros Hj. rewrite (stored_buffer j h' Hst) by
      (lia || (intros k o' -> Hk%lookup_lt_Some; lia)). apply (inv_free _ _ _ Hinv). lia.
  - intros i Hi. unfold of_index. rewrite filter_app. destruct (decide (i = oindex o)) as [->|Hne].
    + rewrite (filter_cons_True _ o []) by done. rewrite filter_nil. apply Hst.
    + rewrite (filter_cons_False _ o []) by congruence. rewrite filter_nil, app_nil_r.
      apply stored_list; [done|done|done|]. by apply (inv_lists _ _ _ Hinv).
Qed.
End step.
End store.

(** ** Runs over the options *)

Section runs.
Context {S : Type}.
Variables (us : list (Descriptor S)) (sentinel : Descriptor S) (status : nat -> Option -> ArgStatus).
Hypothesis table : table_ok us sentinel status.

(** The options up to the first illegal one, as they are stored, and whether there is
    none; the client's state after the checks. *)
Fixpoint performed (its : list item) : list Option :=
  match its with
  | [] => []
  | it :: its =>
      match status (it_desc it) (it_option it) with
      | ARG_ILLEGAL => []
      | st => item_option it st :: performed its
      end
  end.
Definition accepted (its : list item) : bool :=
  forallb (fun it => negb (bool_decide (status (it_desc it) (it_option it) = ARG_ILLEGAL))) its.
Fixpoint run_checks (print_errors : bool) (its : list item) (s : S) : S :=
  match its with
  | [] => s
  | it :: its =>
      match us !! it_desc it ≫= check_arg with
      | Some check =>
          let '(st, s) := check (it_option it) print_errors s in
          match st with ARG_ILLEGAL => s | _ => run_checks print_errors its s end
      | None => s
      end
  end.

Definition has_entry (it : item) : Prop := (it_desc it < length us)%nat.

Lemma run_items_cons {A} (action : Action A) pe it its a s : has_entry it ->
  exists s', run_items us action pe (it :: its) a s =
    (match status (it_desc it) (it_option it) with
     | ARG_ILLEGAL => Ret (false, a, s')
     | st => '(ok, a) ← perform action (item_option it st) a; if ok : bool then run_items us action pe its a s' else Ret (false, a, s')
     end) /\
    run_checks pe (it :: its) s = match status (it_desc it) (it_option it) with ARG_ILLEGAL => s' | _ => run_checks pe its s' end.
Proof using table.
  intros [d Hd]%lookup_lt_is_Some_2. cbn [run_items run_checks]. rewrite Hd. cbn [mbind option_bind].
  destruct (entry_ok us sentinel status table d) as (sh & lo & f & Hsh & Hlo & Hf); [by eapply list_elem_of_lookup_2|]. rewrite Hf.
  rewrite <- (checks us sentinel status table _ d f (it_option it) pe s Hd Hf). destruct d as [? ? ? ? c ?]. cbn in Hf. subst c.
  destruct (f (it_option it) pe s) as [st s']. exists s'. by destruct st.
Qed.

Lemma run_items_count pe its m s : Forall has_entry its -> 0 < m -> m + Z.of_nat (length its) <= 0x7fffffff ->
  run_items us CountOptionsAction pe its m s = Ret (accepted its, m + Z.of_nat (length (performed its)), run_checks pe its s).
Proof using table.
  intros Hits. revert m s. induction Hits as [|it its Hit Hits IH]; intros m s Hm Hmax; [cbn; by rewrite Z.add_0_r|].
  destruct (run_items_cons CountOptionsAction pe it its m s Hit) as (s' & -> & ->). cbn [length] in Hmax.
  assert (forall o, perform CountOptionsAction o m = Ret (true, m + 1)) as Hp.
  { intros o. cbn. rewrite (proj2 (Z.eqb_neq _ _)) by lia. by rewrite wrap_id by (unfold in_range; lia). }
  cbn [performed accepted forallb]. destruct (status (it_desc it) (it_option it)); [| | |cbn; by rewrite Z.add_0_r].
  all: rewrite Hp; cbn [mbind outcome_bind]; rewrite IH by lia; cbn [length]; do 3 f_equal; lia.
Qed.

Section arrays.
Variables (options buffer nopt nbuf : Z).
Hypothesis arrays : arrays_ok options buffer nopt nbuf.

Lemma run_items_store pe its os p h s : Forall has_entry its -> Forall (known us nopt) (performed its) ->
  store_inv us options buffer nopt nbuf os p h ->
  Z.of_nat (length os + length (performed its)) <= nbuf -> nbuf <= 0x7fffffff ->
  exists h', run_items us (StoreOptionAction (us ++ [sentinel]) options buffer (-1)) pe its (p, h) s =
      Ret (accepted its, (set_op_count (op_count p + Z.of_nat (length (performed its))) p, h'), run_checks pe its s) /\
    store_inv us options buffer nopt nbuf (os ++ performed its) (set_op_count (op_count p + Z.of_nat (length (performed its))) p) h'.
Proof using table arrays.
  intros Hits. revert os p h s. induction Hits as [|it its Hit Hits IH]; intros os p h s Hk Hinv Hroom Hmax.
  { exists h. cbn. rewrite Z.add_0_r, app_nil_r. by destruct p. }
  destruct (run_items_cons (StoreOptionAction (us ++ [sentinel]) options buffer (-1)) pe it its (p, h) s Hit) as (s' & -> & ->).
  cbn [performed accepted forallb] in *.
  destruct (status (it_desc it) (it_option it)); [| | |exists h; cbn; rewrite Z.add_0_r, app_nil_r; by destruct p].
  all: inversion Hk as [|o os' Ho Hk']; subst; cbn [length] in Hroom |- *.
  all: match goal with |- context [perform _ ?o _] =>
    destruct (store_step us sentinel options buffer nopt nbuf arrays os p h o Hinv Ho ltac:(lia)) as (h1 & Hstep & Hst);
      [rewrite (inv_count _ _ _ _ _ _ _ _ Hinv); lia|];
    pose proof (stored_inv us options buffer nopt nbuf arrays os p h o Hinv Ho ltac:(lia) h1 Hst) as Hinv1;
    specialize (IH (os ++ [o]) (set_op_count (op_count p + 1) p) h1 s' Hk' Hinv1) end.
  all: rewrite length_app in IH; destruct IH as (h2 & Hrun & Hinv2); [cbn [length]; lia|lia|].
  all: exists h2; cbn [perform StoreOptionAction]; rewrite Hstep; cbn [mbind outcome_bind]; rewrite Hrun.
  all: rewrite <- app_assoc in Hinv2; cbn [app op_count set_op_count] in Hinv2 |- *.
  all: replace (op_count p + Z.of_nat (Datatypes.S (length (performed its)))) with (op_count p + 1 + Z.of_nat (length (performed its))) by lia.
  all: by split.
Qed.
End arrays.
End runs.

(** ** Start of the run *)

Section start.
Context {S : Type}.
Variables (us : list (Descriptor S)) (sentinel : Descriptor S) (status : nat -> Option -> ArgStatus).
Hypothesis table : table_ok us sentinel status.
Hypothesis indices : forall d, d ∈ us -> 0 <= index d < 2 ^ 32 - 2.

Lemma find_idx_entry {T} (p : T -> bool) (l : list T) i it : find_idx p l = Some i -> it_desc it = i -> (it_desc it < length l)%nat.
Proof. intros H ->. by apply find_idx_lt in H. Qed.

Lemma ref_items_entries gnu smin abbr E : Forall (has_entry us) (r_items (ref_parse us gnu smin abbr status E)).
Proof.
  assert (forall next k s, Forall (has_entry us) (ref_group us status next k s).1) as Hg.
  { intros next k s. induction s as [|c r IH]; cbn; [done|]. destruct (ref_descriptor us (ref_short us c)) as [i|] eqn:Ei; [|done].
    apply ref_descriptor_lt in Ei; [|apply find_idx_lt]. destruct (it_ok _ _); [by repeat constructor|].
    destruct (ref_group us status next k r). by constructor. }
  assert (forall next x name, Forall (has_entry us) (ref_longs us abbr status next x name).1) as Hl.
  { intros next x name. unfold ref_longs. destruct (ref_descriptor us _) as [i|] eqn:Ei; [|done].
    apply ref_descriptor_lt in Ei; [|apply ref_long_lt]. by repeat constructor. }
  induction E as [E IH] using (induction_ltof1 _ length). unfold ltof in IH. destruct E as [|x E]; [done|]. cbn [ref_parse].
  destruct (is_nonoption (rest x)); [destruct gnu; [apply IH; cbn; lia|done]|]. destruct (is_terminator (rest x)); [done|].
  assert (Forall (has_entry us) (ref_arg us smin abbr status (head E) x).1) as Ha by (unfold ref_arg; by repeat case_match).
  destruct (ref_arg us smin abbr status (head E) x) as [its took]. cbn [fst] in Ha.
  destruct took, E; cbn [r_items]; apply Forall_app; (split; [done|]); try apply IH; cbn; lia || done.
Qed.

Lemma max_options_spec (l : list (Descriptor S)) m : 0 <= m -> (forall d, d ∈ l -> shortopt d <> None /\ 0 <= index d < 2 ^ 32 - 2) ->
  exists M, max_options (l ++ [sentinel]) m = Ret M /\ m <= M /\ forall d, d ∈ l -> index d < M.
Proof using table.
  revert m. induction l as [|d l IH]; intros m Hm Hl.
  - exists m. cbn. rewrite (sentinel_short _ _ _ table). split; [done|]. split; [lia|]. by intros d ?%elem_of_nil.
  - cbn. destruct (Hl d) as [Hs Hd]; [by left|]. assert (is_end (shortopt d) = false) as -> by by destruct (shortopt d).
    rewrite (wrap_id 32 (index d + 1)) by (unfold in_range; lia). rewrite wrap_id by (unfold in_range; lia).
    set (m' := if m <=? index d + 1 then index d + 1 + 1 else m).
    assert (m <= m' /\ index d < m') as [H1 H2] by (unfold m'; destruct (Z.leb_spec m (index d + 1)); lia).
    destruct (IH m' ltac:(lia)) as (M & HM & Hle & Hin); [intros; apply Hl; by right|].
    exists M. split; [done|]. split; [lia|]. intros d' [->|Hd']%elem_of_cons; [lia|by apply Hin].
Qed.

Lemma fresh_lookup base n p o : fresh_nodes base n !! p = Some o <->
  exists i, 0 <= i < Z.of_nat n /\ p = slot base i /\ o = Option_default (slot base i).
Proof.
  unfold fresh_nodes. rewrite <- elem_of_list_to_map.
  - rewrite list_elem_of_fmap. split.
    + intros (i & [= -> ->] & Hi%elem_of_seq). exists (Z.of_nat i). split; [lia|done].
    + intros (i & Hi & -> & ->). exists (Z.to_nat i). rewrite Z2Nat.id by lia. split; [done|]. apply elem_of_seq. lia.
  - rewrite <- list_fmap_compose. apply NoDup_fmap_2; [|apply NoDup_seq]. intros i j H. cbn in H. apply slot_inj in H. lia.
Qed.

Section fresh.
Variables (options buffer nopt nbuf : Z).
Hypothesis arrays : arrays_ok options buffer nopt nbuf.
Definition fresh_arrays : heap := fresh_nodes options (Z.to_nat nopt) ∪ fresh_nodes buffer (Z.to_nat nbuf).

Lemma fresh_options i : 0 <= i < nopt -> fresh_arrays !! slot options i = Some (Option_default (slot options i)).
Proof. intros Hi. apply lookup_union_Some_l, fresh_lookup. exists i. split; [lia|done]. Qed.

Lemma fresh_buffer j : 0 <= j < nbuf -> fresh_arrays !! slot buffer j = Some (Option_default (slot buffer j)).
Proof using arrays.
  intros Hj. unfold fresh_arrays. rewrite lookup_union_r.
  - apply fresh_lookup. exists j. split; [lia|done].
  - destruct (fresh_nodes options _ !! slot buffer j) as [o|] eqn:E; [|done]. exfalso.
    apply fresh_lookup in E as (i & Hi & E & _). symmetry in E. by apply (arrays_disjoint _ _ _ _ arrays) in E; [|lia|].
Qed.

Lemma fresh_inv p : op_count p = 0 -> store_inv us options buffer nopt nbuf [] p fresh_arrays.
Proof using arrays.
  intros Hp. split; [done|done| |].
  - intros j Hj. apply fresh_buffer. cbn in Hj. lia.
  - intros i Hi. by apply fresh_options.
Qed.

Lemma fresh_first p : 0 < nbuf -> StoreOptionAction_make buffer (-1) p fresh_arrays = Ret (set_op_count 0 p).
Proof using arrays.
  intros Hn. unfold StoreOptionAction_make.
  assert (forall fuel, first_empty buffer (-1) fuel fresh_arrays 0 = Ret 0) as ->; [|done].
  intros fuel. assert (load fresh_arrays (slot buffer 0) = Ret (Option_default (slot buffer 0))) as Hl by (apply load_Some, fresh_buffer; lia).
  destruct fuel; cbn [first_empty Z.ltb orb]; rewrite Hl; done.
Qed.
End fresh.

(** *** POSIX mode leaves the vector alone *)

Lemma ref_posix_order smin abbr E : let r := ref_parse us false smin abbr status E in r_used r ++ r_others r = E.
Proof.
  cbv zeta. induction E as [E IH] using (induction_ltof1 _ length). unfold ltof in IH. destruct E as [|x E]; [done|]. cbn [ref_parse].
  destruct (is_nonoption (rest x)); [done|]. destruct (is_terminator (rest x)); [done|].
  destruct (ref_arg us smin abbr status (head E) x) as [its took].
  destruct took, E as [|y E]; cbn [r_used r_others app]; rewrite IH; done || (cbn; lia).
Qed.

Section posix.
Context {A : Type}.
Variables (u : list (Descriptor S)) (action : Action A) (smin pe : bool) (abbr : Z).

Lemma shift_next_posix (st st' : @wstate S A) : shift_next 0 st = Ret st' -> argv st' = argv st.
Proof. unfold shift_next. cbn. by intros [= <-]. Qed.

Lemma handle_option_argv hm i o param hs try (st st' : @wstate S A) e :
  handle_option u action pe hm 0 i o param hs try st = Ret (e, st') -> argv st' = argv st.
Proof.
  unfold handle_option. intros H. inv_bind H. destruct x as [d|]; [|by injection H as _ <-]. inv_bind H.
  destruct (check_arg _) as [check|]; [|done]. destruct (check _ _ _) as [s cl]. destruct s.
  - inv_bind H. by injection H as _ <-.
  - inv_bind H. injection H as _ <-. cbn. destruct (_ && _); [|by injection E2 as <-]. by apply shift_next_posix in E2.
  - inv_bind H. by injection H as _ <-.
  - by injection H as _ <-.
Qed.

Lemma group_body_argv hm ln param hs try (st st' : @wstate S A) e :
  group_body u action pe abbr hm ln 0 param hs try st = Ret (e, st') -> argv st' = argv st.
Proof.
  unfold group_body. intros H. inv_bind H. destruct (match x with Some (_, _, _) => _ | None => _ end).
  - destruct (rest (advance_ptr 1 param)); [by injection H as _ <-|]. inv_bind H. by eapply handle_option_argv.
  - destruct x as [[[i o] ?]|]; [|done]. by eapply handle_option_argv.
Qed.

Lemma group_loop_argv hm ln fuel param hs try (st st' : @wstate S A) go :
  group_loop u action pe abbr hm ln 0 fuel param hs try st = Ret (go, st') -> argv st' = argv st.
Proof.
  revert param hs try st. induction fuel as [|fuel IH]; intros param hs try st H; cbn [group_loop] in H; inv_bind H.
  all: apply group_body_argv in E; rewrite <- E; destruct b as [| |param' [] try']; try by injection H as _ <-.
  - done.
  - by apply IH in H.
Qed.

Lemma parse_arg_argv param (st st' : @wstate S A) go :
  parse_arg u action smin pe abbr param 0 st = Ret (go, st') -> argv st' = argv st.
Proof.
  unfold parse_arg. intros H. inv_bind H. apply group_loop_argv in E. destruct b; [|injection H as _ <-; done].
  inv_bind H. injection H as _ <-. apply shift_next_posix in E0. congruence.
Qed.

Lemma args_loop_argv fuel (st st' : @wstate S A) go k :
  args_loop u action false smin pe abbr fuel 0 st = Ret (go, k, st') -> argv st' = argv st.
Proof.
  revert st. induction fuel as [|fuel IH]; intros st H; cbn [args_loop] in H.
  all: destruct (numargs st =? 0); [by injection H as _ _ <-|]; inv_bind H; destruct x as [param|]; [|by injection H as _ _ <-].
  - done.
  - destruct (is_nonoption (rest param)); [by injection H as _ _ <-|]. destruct (is_terminator (rest param)).
    + inv_bind H. injection H as _ _ <-. by apply shift_next_posix in E0.
    + inv_bind H. apply parse_arg_argv in E0. destruct b; [|by injection H as _ _ <-]. apply IH in H. congruence.
Qed.

Lemma workhorse_argv n l a s st ok :
  workhorse u action false smin pe abbr n (Some l) a s = Ret (ok, st) -> argv st = l.
Proof.
  unfold workhorse. intros H. inv_bind H. destruct p as [go k]. apply args_loop_argv in E. cbn in E.
  destruct go; cbn [negb] in H; [|by injection H as _ <-]. inv_bind H. injection H as _ <-. done.
Qed.
End posix.
End start.

(** ** Counting and storing *)

Section parse.
Context {S : Type}.
Variables (us : list (Descriptor S)) (sentinel : Descriptor S) (status : nat -> Option -> ArgStatus).
Abbreviation usage := (us ++ [sentinel]).

(** What a POSIX command line consists of. *)
Abbreviation posix_reading := (ref_parse us false false 0 status).

Lemma workhorse_posix {A} (action : Action A) pe E tail n a s ok a' s' :
  table_ok us sentinel status -> counted n E tail -> whole_strings E ->
  reference_run us action false false pe 0 status E a s = Ret (ok, a', s') ->
  exists st, workhorse usage action false false pe 0 n (Some ((Some <$> E) ++ tail)) a s = Ret (ok, st) /\
    acc st = a' /\ client st = s' /\ argv st = (Some <$> E) ++ tail.
Proof.
  intros Ht Hc Hw Hr. pose proof (workhorse_ref us sentinel action false false pe 0 status Ht E tail n a s Hc Hw) as H.
  rewrite Hr in H. destruct H as (st & H & Ha & Hs & _). exists st. split; [done|]. split; [done|]. split; [done|].
  by eapply workhorse_argv.
Qed.

Lemma performed_known M its : (forall d, d ∈ us -> 0 <= index d < M) -> Forall (has_entry us) its ->
  Forall (known us M) (performed status its).
Proof.
  intros Hi H. induction H as [|it its [d Hd]%lookup_lt_is_Some_2 H IH]; cbn [performed]; [done|].
  assert (forall st, known us M (item_option it st)) as Hk.
  { intros st. assert (desc (item_option it st) = Some (it_desc it)) as E by by destruct st.
    split; [by rewrite E|]. unfold oindex. rewrite E, Hd. apply Hi. by eapply list_elem_of_lookup_2. }
  destruct (status _ _); [apply Forall_cons; split; [apply Hk|done] ..|done].
Qed.

Lemma performed_length its : (length (performed status its) <= length its)%nat.
Proof. induction its as [|it its IH]; cbn; [lia|]. destruct (status _ _); cbn; lia. Qed.

(** The sizes that [Stats] finds and what [Parser] makes of them. *)
Definition fits (n : Z) (argv : argvec) (its : list item) (s : S) : Prop :=
  exists stats s', Stats_make usage n (Some argv) s = Ret (stats, Some argv, s') /\
    s' = run_checks us false its s /\ max_options usage 1 = Ret (options_max stats) /\
    buffer_max stats = 1 + Z.of_nat (length (performed status its)) /\ forall d, d ∈ us -> index d < options_max stats.

Lemma Stats_fits n E tail s :
  table_ok us sentinel status -> (forall d, d ∈ us -> 0 <= index d < 2 ^ 32 - 2) -> counted n E tail -> whole_strings E ->
  Z.of_nat (length (r_items (posix_reading E))) < 0x7fffffff ->
  fits n ((Some <$> E) ++ tail) (r_items (posix_reading E)) s.
Proof.
  intros Ht Hi Hc Hw Hlen. set (its := r_items (posix_reading E)) in *.
  destruct (max_options_spec us sentinel status Ht us 1) as (M & HM & _ & Hlt); [lia| |].
  { intros d Hd. split; [|by apply Hi]. by destruct (entry_ok us sentinel status Ht d Hd) as (? & ? & ? & -> & _). }
  destruct (workhorse_posix CountOptionsAction false E tail n 1 s (accepted status its) (1 + Z.of_nat (length (performed status its)))
    (run_checks us false its s) Ht Hc Hw) as (st & Hst & Ha & Hcl & Hv).
  { unfold reference_run. fold its. rewrite (run_items_count us sentinel status Ht); [|apply ref_items_entries|lia|lia]. cbn.
    by destruct (accepted status its). }
  exists (mkStats (acc st) M), (client st). unfold Stats_make, Stats_add, Stats_default. cbn [options_max buffer_max].
  rewrite HM. cbn [mbind outcome_bind]. rewrite Hst. cbn. by rewrite Hv.
Qed.

(** Memory after parsing a POSIX command line, wherever the arrays are. *)
Lemma parse_stored n E tail s :
  table_ok us sentinel status -> (forall d, d ∈ us -> 0 <= index d < 2 ^ 32 - 2) -> counted n E tail -> whole_strings E ->
  Z.of_nat (length (r_items (posix_reading E))) < 0x7fffffff ->
  let argv := (Some <$> E) ++ tail in
  let r := posix_reading E in
  exists stats s1, Stats_make usage n (Some argv) s = Ret (stats, Some argv, s1) /\
  max_options usage 1 = Ret (options_max stats) /\ buffer_max stats = 1 + Z.of_nat (length (performed status (r_items r))) /\
  forall options buffer, arrays_ok options buffer (options_max stats) (buffer_max stats) ->
  exists p h s2,
    Parser_make usage n (Some argv) options buffer
      (fresh_arrays options buffer (options_max stats) (buffer_max stats)) s1 = Ret (p, h, Some argv, s2) /\
    s2 = run_checks us true (r_items r) (run_checks us false (r_items r) s) /\
    store_inv us options buffer (options_max stats) (buffer_max stats) (performed status (r_items r)) p h /\
    error p = negb (accepted status (r_items r)) /\
    (error p = false -> nonOptionsCount p = Z.of_nat (length (r_others r)) /\
       (r_others r <> [] -> nonOptions p = Some (length (r_used r)))) /\
    E = r_used r ++ r_others r.
Proof.
  intros Ht Hi Hc Hw Hlen argv r. destruct (Stats_fits n E tail s Ht Hi Hc Hw Hlen) as (stats & s1 & HS & -> & HM & Hb & Hm).
  exists stats, (run_checks us false (r_items r) s). split; [done|]. split; [done|]. split; [done|]. intros options buffer Ha.
  set (its := r_items r) in *. set (os := performed status its) in *. fold r in Hb. fold its os in Hb.
  pose proof (performed_length its) as Hpl. fold os in Hpl. fold r its in Hlen.
  destruct (run_items_store us sentinel status Ht options buffer (options_max stats) (buffer_max stats) Ha true its [] (set_op_count 0 Parser_default)
    (fresh_arrays options buffer (options_max stats) (buffer_max stats)) (run_checks us false its s)) as (h & Hrun & Hinv).
  { apply ref_items_entries. }
  { apply performed_known; [|apply ref_items_entries]. intros d Hd. split; [by apply Hi|by apply Hm]. }
  { by apply fresh_inv. }
  { fold os. cbn. lia. }
  { lia. }
  cbn [app] in Hinv. fold os in Hrun, Hinv. set (p1 := set_op_count (_ + _) _) in *.
  destruct (workhorse_posix (StoreOptionAction usage options buffer (-1)) true E tail n (set_op_count 0 Parser_default,
      fresh_arrays options buffer (options_max stats) (buffer_max stats)) (run_checks us false its s)
    (accepted status its) (if accepted status its then if 0 <? Z.of_nat (length (r_others r)) then
        mkParser (op_count p1) (Z.of_nat (length (r_others r))) (Some (length (r_used r))) (err p1) else p1 else p1, h)
    (run_checks us true its (run_checks us false its s)) Ht Hc Hw) as (st & Hst & Hacc & Hcl & Hv).
  { unfold reference_run. fold r its. rewrite Hrun. cbn. by destruct (accepted status its). }
  unfold Parser_make, Parser_parse. rewrite fresh_first by (done || lia). cbn [mbind outcome_bind].
  unfold argv. rewrite Hst. cbn [mbind outcome_bind]. rewrite Hacc. eexists _, h, _. split; [by rewrite Hv, Hcl|]. split; [done|].
  split; [|split; [done|split]].
  - destruct Hinv as [H1 H2 H3 H4]. split; [|done ..]. cbn. rewrite <- H1. by repeat case_match.
  - cbn. destruct (accepted status its); [|done]. intros _. destruct (Z.ltb_spec 0 (Z.of_nat (length (r_others r)))); [done|].
    destruct (r_others r); [done|cbn in *; lia].
  - symmetry. apply ref_posix_order.
Qed.

(** ** The lists as the client walks them *)

(** [for (Option* opt = p; opt; opt = opt->next())] *)
Fixpoint walk (fuel : nat) (h : heap) (p : Z) : outcome (list (option nat * option cptr * option cptr * Z)) :=
  o ← load h p;
  q ← Option_next h p;
  match q with
  | None => Ret [payload o]
  | Some q => match fuel with O => Blocked | Datatypes.S fuel => l ← walk fuel h q; Ret (payload o :: l) end
  end.

Lemma walk_ring h ps os i p fuel : ring h ps -> Forall2 (holds h) ps os -> ps !! i = Some p -> (length ps <= i + Datatypes.S fuel)%nat ->
  walk fuel h p = Ret (copy_of <$> drop i os).
Proof.
  intros Hr Ha. revert i p. induction fuel as [|fuel IH]; intros i p Hi Hf.
  all: destruct (Forall2_lookup_l _ _ _ _ _ Ha Hi) as (o & Ho & n & Hn & Hp); pose proof (Forall2_length _ _ _ Ha) as Hlen.
  all: cbn [walk]; rewrite (load_Some _ _ _ Hn), (next_ring h ps i p Hr Hi); cbn [mbind outcome_bind].
  all: rewrite (drop_S os o i) by done; destruct (ps !! Datatypes.S i) as [q|] eqn:Eq.
  all: try (apply lookup_ge_None in Eq; rewrite (drop_ge os) by lia; cbn; by rewrite Hp).
  - apply lookup_lt_Some in Eq. lia.
  - apply lookup_lt_Some in Eq as Hlt. rewrite (IH (Datatypes.S i) q) by (done || lia). cbn. by rewrite Hp.
Qed.

(** Whether the list of an index is empty, its length, and its elements. *)
Definition list_reads (h : heap) (first : Z) (sel : list Option) : Prop :=
  exists o, load h first = Ret o /\ Option_used o = negb (bool_decide (sel = [])) /\
    (sel <> [] -> Option_count h first = Ret (Z.of_nat (length sel)) /\ walk (length sel) h first = Ret (copy_of <$> sel)).

Lemma list_holds_reads options buffer nopt h os i : 0 <= i < nopt -> Forall (known us nopt) os ->
  list_holds us options buffer h os i (of_index us i os) -> list_reads h (slot options i) (of_index us i os).
Proof.
  intros Hi Hk. assert (Forall (known us nopt) (of_index us i os)) as Hsel.
  { rewrite Forall_forall in Hk |- *. intros o [_ Ho]%list_elem_of_filter. by apply Hk. }
  unfold list_holds.
  destruct (of_index us i os) as [|o1 sel]; [intros H; eexists; split; [by apply load_Some|]; by split|].
  intros (r & Hring & Hall & _). inversion Hall as [|? ? ? ? (n & Hn & Hp) _]; subst. exists n.
  assert (desc n <> None) as Hd by (inversion Hsel as [|? ? [Hd _] _]; subst; injection Hp as Hp _ _ _; by rewrite Hp).
  split; [by apply load_Some|]. split; [unfold Option_used; by rewrite bool_decide_eq_true_2|]. intros _.
  pose proof (Forall2_length _ _ _ Hall) as Hlen. split.
  - rewrite (count_ring h (slot options i :: r)); [by rewrite Hlen|done|by left|by exists n].
  - rewrite (walk_ring h (slot options i :: r) (o1 :: sel) 0); [done|done|done|done|lia].
Qed.
End parse.

(** C20: The arrays that [Stats] asks for are large enough for [Parser], wherever they
    are: with a table of options whose checks depend on the option only, parsing a
    POSIX command line neither crashes nor hangs, and leaves the vector as it is.
    The buffer then holds the options up to the first illegal one in order; the list
    [options[i]] has, by [count] and by walking it with [next], exactly the options of
    index [i] in order, and is empty if there are none; the other arguments are the
    ones behind the options. *)
Theorem parse_lists {S} (us : list (Descriptor S)) sentinel status n E tail s :
  table_ok us sentinel status -> (forall d, d ∈ us -> 0 <= index d < 2 ^ 32 - 2) -> counted n E tail -> whole_strings E ->
  Z.of_nat (length (r_items (ref_parse us false false 0 status E))) < 0x7fffffff ->
  let argv := (Some <$> E) ++ tail in
  let r := ref_parse us false false 0 status E in
  let os := performed status (r_items r) in
  exists stats s1, Stats_make (us ++ [sentinel]) n (Some argv) s = Ret (stats, Some argv, s1) /\
  forall options buffer, arrays_ok options buffer (options_max stats) (buffer_max stats) ->
  exists p h s2,
    Parser_make (us ++ [sentinel]) n (Some argv) options buffer
      (fresh_arrays options buffer (options_max stats) (buffer_max stats)) s1 = Ret (p, h, Some argv, s2) /\
    error p = negb (accepted status (r_items r)) /\
    optionsCount p = Z.of_nat (length os) /\
    (forall j o, os !! j = Some o -> holds h (slot buffer (Z.of_nat j)) o) /\
    (forall i, 0 <= i < options_max stats -> list_reads h (slot options i) (of_index us i os)) /\
    (error p = false -> nonOptionsCount p = Z.of_nat (length (r_others r)) /\
       (r_others r <> [] -> nonOptions p = Some (length (r_used r)))) /\
    E = r_used r ++ r_others r.
Proof.
  intros Ht Hi Hc Hw Hlen argv r os.
  destruct (parse_stored us sentinel status n E tail s Ht Hi Hc Hw Hlen) as (stats & s1 & HS & HM & _ & Hall). exists stats, s1. split; [done|].
  intros options buffer Ha. destruct (Hall options buffer Ha) as (p & h & s2 & Hp & _ & [K1 K2 K3 K4] & He & Hno & HE). exists p, h, s2.
  split_and!; try done. intros i Hidx. apply (list_holds_reads us options buffer (options_max stats)); [done| |by apply K4].
  destruct (max_options_spec us sentinel status Ht us 1) as (M & HM' & _ & Hlt); [lia| |].
  { intros d Hd. split; [|by apply Hi]. by destruct (entry_ok us sentinel status Ht d Hd) as (? & ? & ? & -> & _). }
  rewrite HM in HM'. injection HM' as <-. apply performed_known; [|apply ref_items_entries]. intros d Hd. split; [by apply Hi|by apply Hlt].
Qed.

(** ** Witness and counterexamples *)

Section witness.
#[local] Open Scope char_scope.

Lemma wit_arrays n : 0 <= n <= 2 ^ 31 -> arrays_ok 4096 8192 6 n.
Proof.
  intros Hn. assert (forall z, 0 <= z < 2 ^ 40 -> aligned (2 * z)) as Ha.
  { intros z Hz. split; [lia|]. by rewrite Z.bit0_odd, Z.odd_mul. }
  split; unfold slot; [..|lia].
  - intros i Hi. replace (4096 + 48 * i) with (2 * (2048 + 24 * i)) by lia. apply Ha. lia.
  - intros i Hi. replace (8192 + 48 * i) with (2 * (4096 + 24 * i)) by lia. apply Ha. lia.
Qed.

(** [-vv -o x f] *)
Definition wit_posix : list cptr := [mkPtr 0 ["-"; "v"; "v"]; mkPtr 1 ["-"; "o"]; mkPtr 2 ["x"]; mkPtr 3 ["f"]].
Lemma wit_posix_whole : whole_strings wit_posix.
Proof. intros p q. unfold wit_posix. rewrite !elem_of_cons, !elem_of_nil. intros Hp Hq. destruct_or!; subst; done. Qed.

Lemma parse_lists_witness :
  exists stats s1, Stats_make (wit_table ++ [wit_sentinel]) 4 (Some ((Some <$> wit_posix) ++ [None])) 0%nat = Ret (stats, Some ((Some <$> wit_posix) ++ [None]), s1) /\
  (forall options buffer, arrays_ok options buffer (options_max stats) (buffer_max stats) ->
   exists p h s2, Parser_make (wit_table ++ [wit_sentinel]) 4 (Some ((Some <$> wit_posix) ++ [None])) options buffer
     (fresh_arrays options buffer (options_max stats) (buffer_max stats)) s1 = Ret (p, h, Some ((Some <$> wit_posix) ++ [None]), s2) /\
     nonOptionsCount p = 1 /\ nonOptions p = Some 3%nat).
Proof.
  destruct (parse_lists wit_table wit_sentinel wit_status 4 wit_posix [None] 0%nat wit_table_ok) as (stats & s1 & H1 & H2).
  - intros d. unfold wit_table. rewrite !elem_of_cons, elem_of_nil. intros. destruct_or!; subst; cbn; lia || done.
  - by left.
  - exact wit_posix_whole.
  - reflexivity.
  - exists stats, s1. split; [exact H1|]. intros options buffer Ha. destruct (H2 options buffer Ha) as (p & h & s2 & Hp & He & _ & _ & _ & Hno & _).
    exists p, h, s2. split; [exact Hp|]. destruct (Hno He) as [K1 K2]. split; [exact K1|]. by apply K2.
Defined.

(** An option [-x] that takes an argument if there is one. *)
Definition maybe_arg (o : Option) (msg : bool) (s : unit) : ArgStatus * unit := (ARG_OK, s).
Definition maybe_table : list (Descriptor unit) :=
  [mkDescriptor _ 1 0 (Some ["x"]) (Some []) (Some maybe_arg) None; mkDescriptor _ 0 0 None None None None].

(** The arguments of the stored options. *)
Definition stored_args (args : argvec) : outcome (list (option cptr)) :=
  '(_, h, _, _) ← Parser_parse maybe_table 4096 8192 (-1) true (-1) (Some args) 0 false Parser_default (fresh_arrays 4096 8192 3 3) tt;
  o ← load h (slot 8192 0); Ret [arg o].

(** The vector [f -x]: [Stats] reorders it to [-x f], so that the parser then takes
    [f] for the argument of [-x]; without [Stats] it does not. *)
Theorem gnu_stats_changes_parse :
  let args := [Some (mkPtr 0 ["f"]); Some (mkPtr 1 ["-"; "x"]); None] in
  stored_args args = Ret [None] /\
  exists stats args', Stats_add true maybe_table (-1) (Some args) 0 false Stats_default tt = Ret (stats, Some args', tt) /\
    stored_args args' = Ret [Some (mkPtr 0 ["f"])].
Proof.
  cbv zeta. split; [vm_compute; reflexivity|].
  exists (mkStats 2 3), [Some (mkPtr 1 ["-"; "x"]); Some (mkPtr 0 ["f"]); None]. split; vm_compute; reflexivity.
Qed.

(** An empty [longopt] stands for no long name, yet [--=y] is read as the option. *)
Theorem empty_longopt_matches :
  stored_args [Some (mkPtr 0 ["-"; "-"; "="; "y"]); None] = Ret [Some (mkPtr 0 ["y"])].
Proof. vm_compute. reflexivity. Qed.
End witness.
