(* ===== verification/OptWrap.v ===== *)
(** * Characters on the screen and wrapping of lines ([optionparser.h])

    [LineWrapper] breaks texts into lines that fit a column, and keeps the lines that
    are not yet written in a ring buffer.  [write] appends to the text written so
    far; a text is a slice, its bytes in order. *)

From S2P Require Import Prelude CStrings OptList.

(** ** Control characters *)

Definition HT : ascii := "009"%char.
Definition NL : ascii := "010"%char.
Definition VT : ascii := "011"%char.

(** ** Writing *)

(** [OStreamWriter]: the bytes are appended to the stream. *)
Definition write (s : chars) (out : chars) : chars := out ++ s.

Definition upmax (i1 i2 : Z) : Z := if i2 <=? i1 then i1 else i2.

(** Spaces from column [x] to [want_x], on a new line if that is to the left: the text
    and the new [x]. *)
Definition indent (x want_x : Z) (out : chars) : Z * chars :=
  let n := want_x - x in
  let '(n, out) := if n <? 0 then (want_x, write [NL] out) else (n, out) in
  if 0 <? n then (want_x, write (replicate (Z.to_nat n) " "%char) out) else (x, out).

(** ** Characters *)

Definition within (lo hi ch : Z) : bool := (lo <=? ch) && (ch <=? hi).
Definition isWideChar (ch : Z) : bool :=
  if ch =? 0x303F then false
  else within 0x1100 0x115F ch || within 0x2329 0x232A ch || within 0x2E80 0xA4C6 ch || within 0xA960 0xA97C ch
    || within 0xAC00 0xD7FB ch || within 0xF900 0xFAFF ch || within 0xFE10 0xFE6B ch || within 0xFF01 0xFF60 ch
    || within 0xFFE0 0xFFE6 ch || (0x1B000 <=? ch).

(** [(unsigned) -1 >> __builtin_clz(v)]; undefined for zero. *)
Definition clz_mask (v : Z) : Z := Z.ones (Z.log2 v + 1).

(** The continuation bytes: the code point and how many. *)
Fixpoint continuation (ch : Z) (s : chars) : Z * nat :=
  match s with
  | b :: s =>
      if Z.lxor (ord b) 0x80 <=? 0x3F then
        let '(c, n) := continuation (Z.lxor (Z.lxor (u32 (ch <<. 6)) (ord b)) 0x80) s in (c, S n)
      else (ch, O)
  | [] => (ch, O)
  end.

(** The first character of a text: its width on the screen, and its bytes. *)
Definition screen_char (c : ascii) (r : chars) : outcome (Z * nat) :=
  if 0xC1 <? ord c then
    if Z.lxor (ord c) 0xFF =? 0 then Crash
    else
      let '(ch, n) := continuation (ord c &. clz_mask (Z.lxor (ord c) 0xFF)) r in
      Ret (if (0x1100 <=? ch) && isWideChar ch then 2 else 1, S n)
  else Ret (1, 1%nat).

(** ** Wrapping lines *)

Definition bufmask : Z := 15.

(** [lbuf] stands for [datbuf] and [lenbuf]: the lines that wait to be written. *)
Record LineWrapper := mkLW { lbuf : list chars; lx : Z; lwidth : Z; lhead : Z; ltail : Z; wrote_something : bool }.

Definition LineWrapper_make (x1 x2 : Z) : LineWrapper :=
  mkLW (replicate 16 []) x1 (if x2 - x1 <? 2 then 2 else x2 - x1) 0 bufmask false.

Definition buf_empty (w : LineWrapper) : bool := ((ltail w + 1) &. bufmask) =? lhead w.
Definition buf_full (w : LineWrapper) : bool := ltail w =? lhead w.
Definition buf_store (data : chars) (w : LineWrapper) : LineWrapper :=
  mkLW (<[Z.to_nat (lhead w) := data]> (lbuf w)) (lx w) (lwidth w) ((lhead w + 1) &. bufmask) (ltail w) (wrote_something w).
Definition buf_next (w : LineWrapper) : LineWrapper :=
  mkLW (lbuf w) (lx w) (lwidth w) (lhead w) ((ltail w + 1) &. bufmask) (wrote_something w).
Definition set_wrote (b : bool) (w : LineWrapper) : LineWrapper :=
  mkLW (lbuf w) (lx w) (lwidth w) (lhead w) (ltail w) b.
(** [...buf[tail]] *)
Definition buf_read (w : LineWrapper) : chars := default [] (lbuf w !! Z.to_nat (ltail w)).

Definition write_one_line (w : LineWrapper) (out : chars) : LineWrapper * chars :=
  let out := if wrote_something w then (indent 0 (lx w) (write [NL] out)).2 else out in
  let '(w, out) := if buf_empty w then (w, out) else let w := buf_next w in (w, write (buf_read w) out) in
  (set_wrote true w, out).

Definition lw_output (data : chars) (w : LineWrapper) (out : chars) : LineWrapper * chars :=
  let '(w, out) := if buf_full w then write_one_line w out else (w, out) in
  (buf_store data w, out).

(** The lines that wait; there are at most fifteen. *)
Fixpoint flush_loop (fuel : nat) (w : LineWrapper) (out : chars) : outcome (LineWrapper * chars) :=
  if buf_empty w then Ret (w, out)
  else match fuel with
       | O => Blocked
       | S fuel => let '(w, out) := write_one_line w out in flush_loop fuel w out
       end.
Definition flush (w : LineWrapper) (out : chars) : outcome (LineWrapper * chars) :=
  if buf_empty w then Ret (w, out)
  else
    '(w, out) ← flush_loop 16 (set_wrote false w) (indent 0 (lx w) out).2;
    Ret (w, write [NL] out).

(** How many bytes of the text fit in [width] columns. *)
Fixpoint fitting (fuel : nat) (s : chars) (maxi : nat) (utf8width width : Z) : outcome nat :=
  match s with
  | [] => Ret maxi
  | c :: r =>
      if utf8width <? width then
        match fuel with
        | O => Blocked
        | S fuel =>
            '(w, n) ← screen_char c r;
            if (w =? 2) && (width <? utf8width + 2) then Ret maxi
            else fitting fuel (drop n s) (maxi + n) (utf8width + w) width
        end
      else Ret maxi
  end.

(** The last space at or before position [i]. *)
Fixpoint last_space (s : chars) (i : nat) : option nat :=
  match s !! i with
  | Some c => if ch_eqb c " " then Some i else match i with O => None | S i => last_space s i end
  | None => match i with O => None | S i => last_space s i end
  end.

(** Where the first line of a text that is too long ends, and where the next starts. *)
Definition split_line (data : chars) (maxi : nat) : nat * nat :=
  match last_space data maxi with Some i => (i, S i) | None => (maxi, maxi) end.

Fixpoint process_loop (fuel : nat) (data : chars) (w : LineWrapper) (out : chars) : outcome (LineWrapper * chars) :=
  match data with
  | [] => Ret (w, out)
  | _ =>
      match fuel with
      | O => Blocked
      | S fuel =>
          if Z.of_nat (length data) <=? lwidth w then Ret (lw_output data w out)
          else
            maxi ← fitting (length data) data 0 0 (lwidth w);
            if (maxi =? length data)%nat then Ret (lw_output data w out)
            else
              let '(i, j) := split_line data maxi in
              let '(w, out) := lw_output (take i data) w out in
              process_loop fuel (drop j data) w out
      end
  end.

Definition process (data : chars) (w : LineWrapper) (out : chars) : outcome (LineWrapper * chars) :=
  '(w, out) ← process_loop (length data) data (set_wrote false w) out;
  Ret (if wrote_something w then (w, out) else write_one_line w out).

Lemma upmax_le a b : a <= upmax a b /\ b <= upmax a b /\ (upmax a b = a \/ upmax a b = b).
Proof. unfold upmax. destruct (Z.leb_spec b a); lia. Qed.

(** ** Texts

    The byte 255 occurs in no encoding; the code has no defined behaviour for it. *)

Definition text_ok (s : chars) : Prop := Forall (fun c => ord c <> 0xFF) s.

Lemma text_ok_drop n s : text_ok s -> text_ok (drop n s).
Proof. apply Forall_drop. Qed.
Lemma text_ok_take n s : text_ok s -> text_ok (take n s).
Proof. apply Forall_take. Qed.
#[local] Hint Resolve text_ok_drop text_ok_take : collector.

Lemma continuation_length ch s : ((continuation ch s).2 <= length s)%nat.
Proof.
  revert ch. induction s as [|b s IH]; intros ch; cbn; [done|]. destruct (_ <=? _); cbn; [|lia].
  specialize (IH (Z.lxor (Z.lxor (u32 (ch <<. 6)) (ord b)) 128)). destruct (continuation _ s). cbn in *. lia.
Qed.

(** A character takes one or two columns, and at least as many bytes. *)
Lemma continuation_zero ch s : (continuation ch s).2 = O -> (continuation ch s).1 = ch.
Proof. destruct s as [|b s]; cbn; [done|]. destruct (_ <=? _); [|done]. by destruct (continuation _ s). Qed.

Lemma screen_char_total c r : ord c <> 0xFF ->
  exists w n, screen_char c r = Ret (w, n) /\ (1 <= n <= S (length r))%nat /\ 1 <= w <= 2 /\ w <= Z.of_nat n.
Proof.
  intros Hc. unfold screen_char. pose proof (ord_range c) as Hr. unfold in_range in Hr. change (2 ^ 8) with 256 in Hr.
  destruct (Z.ltb_spec 0xC1 (ord c)); [|exists 1, 1%nat; repeat split; cbn; lia].
  destruct (Z.eqb_spec (Z.lxor (ord c) 0xFF) 0) as [E|_]; [apply Z.lxor_eq in E; done|].
  set (ch0 := ord c &. clz_mask (Z.lxor (ord c) 255)).
  pose proof (continuation_length ch0 r) as Hn. pose proof (continuation_zero ch0 r) as Hz.
  destruct (continuation ch0 r) as [ch n]. cbn [fst snd] in Hn, Hz.
  destruct ((0x1100 <=? ch) && isWideChar ch) eqn:Ew; eexists _, (S n); (split; [done|]); (split; [lia|]); (split; [lia|]); [|lia].
  destruct n; [|lia]. specialize (Hz eq_refl). subst ch.
  apply andb_prop in Ew as [Ew _]. apply Z.leb_le in Ew. exfalso.
  assert (ch0 <= ord c); [|lia]. unfold ch0, clz_mask. pose proof (Z.log2_nonneg (Z.lxor (ord c) 255)).
  rewrite Z.land_ones by lia. apply Z.mod_le; lia.
Qed.

(** ** The wrapper is a queue of lines *)

Record lw_ok (w : LineWrapper) : Prop := {
  ok_head : 0 <= lhead w < 16;
  ok_tail : 0 <= ltail w < 16;
  ok_buf : length (lbuf w) = 16%nat;
  ok_width : 2 <= lwidth w
}.

Definition waiting (w : LineWrapper) : Z := (lhead w - ltail w - 1) mod 16.
(** The lines that wait, oldest first. *)
Definition pending (w : LineWrapper) : list chars :=
  (fun i => default [] (lbuf w !! Z.to_nat ((ltail w + 1 + Z.of_nat i) mod 16))) <$> seq 0 (Z.to_nat (waiting w)).

Lemma land_bufmask z : (z &. bufmask) = z mod 16.
Proof. exact (Z.land_ones z 4 ltac:(lia)). Qed.

Lemma waiting_range w : 0 <= waiting w < 16.
Proof. apply Z.mod_pos_bound. lia. Qed.

Lemma pending_length w : length (pending w) = Z.to_nat (waiting w).
Proof. unfold pending. by rewrite length_fmap, length_seq. Qed.

Lemma buf_empty_pending w : lw_ok w -> buf_empty w = bool_decide (pending w = []).
Proof.
  intros [Hh Ht _ _]. unfold buf_empty. rewrite land_bufmask. pose proof (pending_length w) as Hl.
  assert ((ltail w + 1) mod 16 = lhead w <-> waiting w = 0) as Hw by (unfold waiting; Z.to_euclidean_division_equations; lia).
  pose proof (waiting_range w). apply eq_true_iff_eq. rewrite Z.eqb_eq, bool_decide_eq_true, Hw. split.
  - intros E. rewrite E in Hl. by destruct (pending w).
  - intros E. rewrite E in Hl. cbn in Hl. lia.
Qed.

Lemma buf_full_waiting w : lw_ok w -> buf_full w = (waiting w =? 15).
Proof.
  intros [Hh Ht _ _]. unfold buf_full, waiting. apply eq_true_iff_eq. rewrite !Z.eqb_eq. Z.to_euclidean_division_equations; lia.
Qed.

Lemma pending_lookup w i : (i < Z.to_nat (waiting w))%nat ->
  pending w !! i = Some (default [] (lbuf w !! Z.to_nat ((ltail w + 1 + Z.of_nat i) mod 16))).
Proof. intros Hi. unfold pending. rewrite list_lookup_fmap, lookup_seq_lt by done. done. Qed.

Lemma store_ok w d : lw_ok w -> lw_ok (buf_store d w).
Proof.
  intros [Hh Ht Hb Hw]. split; cbn; [|done|by rewrite length_insert|done]. rewrite land_bufmask. apply Z.mod_pos_bound. lia.
Qed.

Lemma store_pending w d : lw_ok w -> waiting w < 15 -> pending (buf_store d w) = pending w ++ [d].
Proof.
  intros Hok Hlt. pose proof Hok as [Hh Ht Hb Hw]. pose proof (waiting_range w) as Hr.
  assert (waiting (buf_store d w) = waiting w + 1) as Hn.
  { unfold waiting in *. cbn [lhead ltail buf_store]. rewrite land_bufmask. Z.to_euclidean_division_equations; lia. }
  assert ((ltail w + 1 + waiting w) mod 16 = lhead w) as Hlast by (unfold waiting; Z.to_euclidean_division_equations; lia).
  apply list_eq_same_length with (n := Z.to_nat (waiting w + 1)).
  - rewrite length_app, pending_length. cbn. lia.
  - rewrite pending_length, Hn. done.
  - intros i x y Hi. rewrite pending_lookup by (rewrite Hn; lia). cbn [lbuf ltail buf_store].
    destruct (decide (Z.of_nat i = waiting w)) as [E|E].
    + rewrite E, Hlast, list_lookup_insert_eq by lia. rewrite lookup_app_r by (rewrite pending_length; lia).
      rewrite pending_length. replace (i - Z.to_nat (waiting w))%nat with O by lia. cbn. congruence.
    + rewrite list_lookup_insert_ne.
      * rewrite lookup_app_l by (rewrite pending_length; lia). rewrite pending_lookup by lia. congruence.
      * intros Eq. apply (f_equal Z.of_nat) in Eq. rewrite !Z2Nat.id in Eq by first [lia | apply Z.mod_pos_bound; lia].
        unfold waiting in *. Z.to_euclidean_division_equations; lia.
Qed.

Lemma next_ok w : lw_ok w -> lw_ok (buf_next w).
Proof. intros [Hh Ht Hb Hw]. split; cbn; [done| |done|done]. rewrite land_bufmask. apply Z.mod_pos_bound. lia. Qed.

Lemma next_pending w : lw_ok w -> 0 < waiting w ->
  pending w = buf_read (buf_next w) :: pending (buf_next w) /\ waiting (buf_next w) = waiting w - 1.
Proof.
  intros Hok Hlt. pose proof Hok as [Hh Ht Hb Hw]. pose proof (waiting_range w) as Hr.
  assert (waiting (buf_next w) = waiting w - 1) as Hn.
  { unfold waiting in *. cbn [lhead ltail buf_next]. rewrite land_bufmask. Z.to_euclidean_division_equations; lia. }
  split; [|done]. unfold pending at 1. replace (Z.to_nat (waiting w)) with (S (Z.to_nat (waiting w - 1))) by lia.
  cbn [seq fmap list_fmap]. f_equal.
  - unfold buf_read. cbn [lbuf ltail buf_next]. rewrite land_bufmask. by rewrite Z.add_0_r.
  - unfold pending. rewrite Hn. rewrite <- fmap_S_seq. rewrite <- list_fmap_compose. apply list_fmap_ext. intros i k _. cbn [compose lbuf ltail buf_next].
    rewrite land_bufmask. replace (((ltail w + 1) mod 16 + 1 + Z.of_nat k) mod 16) with ((ltail w + 1 + Z.of_nat (S k)) mod 16); [done|].
    Z.to_euclidean_division_equations; lia.
Qed.

(** *** What is written *)

(** A line break with the indentation of the wrapper. *)
Definition line_break (x : Z) : chars := (indent 0 x [NL]).2.
Fixpoint render (x : Z) (wrote : bool) (ls : list chars) : chars :=
  match ls with
  | [] => []
  | l :: ls => (if wrote then line_break x else []) ++ l ++ render x true ls
  end.

Lemma indent_app a b out pre : (indent a b (pre ++ out)).2 = pre ++ (indent a b out).2.
Proof. unfold indent, write. destruct (b - a <? 0); [destruct (0 <? b)|destruct (0 <? b - a)]; cbn; by rewrite <- ?app_assoc. Qed.

Lemma render_app x b l1 l2 : render x b (l1 ++ l2) = render x b l1 ++ render x (b || negb (bool_decide (l1 = []))) l2.
Proof.
  revert b. induction l1 as [|l l1 IH]; intros b; cbn; [by rewrite orb_false_r|]. rewrite IH. cbn. rewrite orb_true_r. by rewrite <- !app_assoc.
Qed.

(** The lines [written] left the queue, the lines [new] joined it. *)
Record moved (w w' : LineWrapper) (new written : list chars) (out out' : chars) : Prop := {
  mv_ok : lw_ok w';
  mv_queue : pending w ++ new = written ++ pending w';
  mv_out : out' = out ++ render (lx w) (wrote_something w) written;
  mv_wrote : wrote_something w' = wrote_something w || negb (bool_decide (written = []));
  mv_same : lx w' = lx w /\ lwidth w' = lwidth w
}.

Lemma moved_trans w1 w2 w3 n1 n2 r1 r2 o1 o2 o3 :
  moved w1 w2 n1 r1 o1 o2 -> moved w2 w3 n2 r2 o2 o3 -> moved w1 w3 (n1 ++ n2) (r1 ++ r2) o1 o3.
Proof.
  intros [H1 H2 H3 H4 [H5 H6]] [K1 K2 K3 K4 [K5 K6]]. split; [done| | | |split; congruence].
  - by rewrite app_assoc, H2, <- app_assoc, K2, app_assoc.
  - rewrite K3, H3, H4, H5, render_app. by rewrite app_assoc.
  - rewrite K4, H4, <- orb_assoc. f_equal. by destruct r1, r2.
Qed.

Lemma write_one_line_moved w out : lw_ok w -> 0 < waiting w ->
  exists l, moved w (write_one_line w out).1 [] [l] out (write_one_line w out).2 /\ waiting (write_one_line w out).1 = waiting w - 1.
Proof.
  intros Hok Hw. destruct (next_pending w Hok Hw) as [Hp Hn]. exists (buf_read (buf_next w)). unfold write_one_line.
  assert (buf_empty w = false) as -> by (rewrite buf_empty_pending by done; apply bool_decide_eq_false; by rewrite Hp).
  cbn [fst snd]. split; [|exact Hn]. split; [by destruct (next_ok w Hok)| | | |done].
  - by rewrite app_nil_r.
  - cbn [render]. rewrite app_nil_r. destruct (wrote_something w); [|done]. unfold write, line_break.
    rewrite indent_app. by rewrite <- app_assoc.
  - cbn. by rewrite orb_true_r.
Qed.

Lemma moved_refl w out : lw_ok w -> moved w w [] [] out out.
Proof. intros H. split; cbn; rewrite ?app_nil_r, ?orb_false_r; done. Qed.

Lemma store_moved w d out : lw_ok w -> waiting w < 15 -> moved w (buf_store d w) [d] [] out out.
Proof.
  intros H Hw. split; cbn; rewrite ?app_nil_r, ?orb_false_r; [by apply store_ok|by rewrite store_pending|done ..].
Qed.

Lemma output_moved w d out : lw_ok w -> exists r, moved w (lw_output d w out).1 [d] r out (lw_output d w out).2.
Proof.
  intros H. unfold lw_output. rewrite buf_full_waiting by done. pose proof (waiting_range w). destruct (Z.eqb_spec (waiting w) 15).
  - destruct (write_one_line_moved w out H) as (l & Hm & Hn); [lia|]. destruct (write_one_line w out) as [w1 o1]. cbn [fst snd] in *.
    exists ([l] ++ []). eapply (moved_trans w w1 _ []); [done|]. apply store_moved; [apply Hm|lia].
  - exists []. apply store_moved; [done|lia].
Qed.

(** *** Widths *)

(** The first [n] bytes of a text are whole characters of width [v] together. *)
Inductive spans : chars -> nat -> Z -> Prop :=
  | spans_nil s : spans s 0 0
  | spans_char c r w n m v : screen_char c r = Ret (w, n) -> spans (drop n (c :: r)) m v -> spans (c :: r) (n + m) (w + v).

(** The lines of a text: none is wider than [width]; between two of them at most a
    space is left out. *)
Inductive wrapped (width : Z) : chars -> list chars -> Prop :=
  | wrapped_nil : wrapped width [] []
  | wrapped_last data v : data <> [] -> spans data (length data) v -> v <= width -> wrapped width data [data]
  | wrapped_cut data n v ls : (0 < n < length data)%nat -> spans data n v -> v <= width ->
      wrapped width (drop n data) ls -> wrapped width data (take n data :: ls)
  | wrapped_space data n v ls : data !! n = Some " "%char -> spans data n v -> v <= width ->
      wrapped width (drop (S n) data) ls -> wrapped width data (take n data :: ls).

Lemma spans_app s n v m v' : spans s n v -> spans (drop n s) m v' -> spans s (n + m) (v + v').
Proof.
  intros H. revert m v'. induction H as [s|c r w n k v Hc H IH]; intros m v' Hm; [done|].
  rewrite <- Nat.add_assoc, <- Z.add_assoc. econstructor; [done|]. apply IH. by rewrite drop_drop.
Qed.

Lemma spans_all s : text_ok s -> exists v, spans s (length s) v /\ v <= Z.of_nat (length s).
Proof.
  induction s as [s IH] using (induction_ltof1 _ length). unfold ltof in IH. intros Hs. destruct s as [|c r]; [exists 0; split; [constructor|done]|].
  inversion Hs as [|? ? Hc Hr]; subst. destruct (screen_char_total c r Hc) as (w & n & E & Hn & Hw & Hwn).
  destruct (IH (drop n (c :: r))) as (v & Hv & Hle); [rewrite length_drop; cbn; lia|by apply text_ok_drop|]. rewrite length_drop in Hv, Hle.
  exists (w + v). cbn [length] in *. split; [|lia]. replace (S (length r)) with (n + (S (length r) - n))%nat by lia. by econstructor.
Qed.

Lemma cont_byte b : (Z.lxor (ord b) 0x80 <=? 0x3F) = true -> (0x80 <=? ord b) = true.
Proof. destruct b as [[] [] [] [] [] [] [] []]; vm_compute; congruence. Qed.

(** A space is not inside a character. *)
Lemma screen_char_bytes c r w n j d : screen_char c r = Ret (w, n) -> (1 <= j < n)%nat -> (c :: r) !! j = Some d -> 0x80 <= ord d.
Proof.
  assert (forall ch s k e, (k < (continuation ch s).2)%nat -> s !! k = Some e -> 0x80 <= ord e) as Hcont.
  { intros ch s. revert ch. induction s as [|b s IH]; intros ch k e Hk He; [done|]. cbn in Hk.
    destruct (Z.lxor (ord b) 128 <=? 63) eqn:Hb; [|cbn in Hk; lia]. apply cont_byte, Z.leb_le in Hb.
    specialize (IH (Z.lxor (Z.lxor (u32 (ch <<. 6)) (ord b)) 128)). destruct (continuation _ s) as [c' n']. cbn in Hk, IH.
    destruct k as [|k]; [by injection He as <-|by apply (IH k); [lia|]]. }
  unfold screen_char. destruct (0xC1 <? ord c); [|intros [= <- <-]; lia]. destruct (_ =? 0); [done|].
  pose proof (Hcont (ord c &. clz_mask (Z.lxor (ord c) 255)) r) as Hc. destruct (continuation _ r) as [ch k]. cbn in Hc.
  intros [= <- <-] Hj Hd. destruct j as [|j]; [lia|]. apply (Hc j); [lia|done].
Qed.

Lemma spans_le s n v : spans s n v -> text_ok s -> (n <= length s)%nat /\ 0 <= v.
Proof.
  intros H. induction H as [s|c r w n m v Hc H IH]; intros Hs; [split; [lia|done]|].
  inversion Hs as [|? ? Hcc _]; subst. destruct (screen_char_total c r Hcc) as (w' & n' & E & Hn & Hw & _). rewrite Hc in E. injection E as <- <-.
  destruct IH as [IH1 IH2]; [by apply text_ok_drop|]. rewrite length_drop in IH1. cbn [length] in *. lia.
Qed.

Lemma spans_space s n v i : spans s n v -> text_ok s -> (i <= n)%nat -> s !! i = Some " "%char -> exists v', spans s i v' /\ v' <= v.
Proof.
  intros H. revert i. induction H as [s|c r w n m v Hc H IH]; intros i Hs Hi Hsp.
  { exists 0. replace i with O by lia. split; [constructor|done]. }
  inversion Hs as [|? ? Hcc Hrr]; subst. destruct (screen_char_total c r Hcc) as (w' & n' & E & Hn & Hw & _). rewrite Hc in E. injection E as <- <-.
  destruct (decide (i = 0%nat)) as [->|Hi0].
  { exists 0. split; [constructor|]. destruct (spans_le _ _ _ H) as [_ Hv]; [by apply text_ok_drop|]. lia. }
  destruct (decide (i < n)%nat) as [Hlt|Hge].
  { pose proof (screen_char_bytes c r w n i " "%char Hc ltac:(lia) Hsp) as Hb. vm_compute in Hb. done. }
  destruct (IH (i - n)%nat) as (v' & Hv' & Hle); [by apply text_ok_drop|lia|rewrite lookup_drop; by replace (n + (i - n))%nat with i by lia|].
  exists (w + v'). split; [|lia]. replace i with (n + (i - n))%nat by lia. by econstructor.
Qed.

Lemma fitting_total fuel s0 s maxi u width : text_ok s -> (length s <= fuel)%nat -> 2 <= width -> u <= width ->
  spans s0 maxi u -> s = drop maxi s0 -> (maxi <= length s0)%nat -> s <> [] ->
  exists n v, fitting fuel s maxi u width = Ret n /\ spans s0 n v /\ v <= width /\ (maxi <= n <= length s0)%nat /\ (u = 0 -> (maxi < n)%nat).
Proof.
  revert s maxi u. induction fuel as [|fuel IH]; intros s maxi u Hs Hf Hw Hu Hsp Es Hm Hne; (destruct s as [|c r]; [done|]); [cbn in Hf; lia|].
  cbn [fitting]. destruct (Z.ltb_spec u width); [|exists maxi, u; split_and!; done || lia].
  inversion Hs as [|? ? Hc Hr]; subst. destruct (screen_char_total c r Hc) as (w & n & E & Hn & Hwr & _). rewrite E. cbn [mbind outcome_bind].
  destruct ((w =? 2) && (width <? u + 2)) eqn:Eb.
  { breflect. exists maxi, u. split_and!; done || lia. }
  assert (u + w <= width) as Huw by (apply andb_false_iff in Eb as [Eb|Eb]; breflect; lia).
  assert (length (drop maxi s0) = length (c :: r)) as Hlen by by rewrite <- Es. rewrite length_drop in Hlen. cbn [length] in Hlen.
  assert (spans s0 (maxi + n) (u + w)) as Hsp'.
  { eapply spans_app; [done|]. rewrite <- Es. replace n with (n + 0)%nat by lia. replace w with (w + 0) by lia. econstructor; [done|constructor]. }
  assert (drop n (c :: r) = drop (maxi + n) s0) as Ed by by rewrite Es, drop_drop.
  destruct (decide (drop n (c :: r) = [])) as [E0|E0].
  - rewrite E0. exists (maxi + n)%nat, (u + w). destruct fuel; cbn [fitting]; split_and!; done || lia.
  - destruct (IH (drop n (c :: r)) (maxi + n)%nat (u + w)) as (n' & v & -> & H1 & H2 & H3 & H4).
    { by apply text_ok_drop. } { rewrite length_drop. cbn [length] in *. lia. } { done. } { done. } { done. } { done. } { lia. } { done. }
    exists n', v. split_and!; done || lia.
Qed.

Lemma last_space_spec s i n : last_space s i = Some n -> (n <= i)%nat /\ s !! n = Some " "%char.
Proof.
  revert n. induction i as [|i IH]; intros n; cbn [last_space]; destruct (s !! _) as [c|] eqn:E; try done.
  - destruct (ch_eqb c " ") eqn:Ec; [|done]. apply ch_eqb_eq in Ec. subst. by intros [= <-].
  - destruct (ch_eqb c " ") eqn:Ec.
    + apply ch_eqb_eq in Ec. subst. by intros [= <-].
    + intros H%IH. split; [lia|apply H].
  - intros H%IH. split; [lia|apply H].
Qed.

(** *** Wrapping *)

Lemma process_loop_total fuel data w out : lw_ok w -> text_ok data -> (length data <= fuel)%nat ->
  exists w' out' ls r, process_loop fuel data w out = Ret (w', out') /\ wrapped (lwidth w) data ls /\ moved w w' ls r out out'.
Proof.
  revert data w out. induction fuel as [|fuel IH]; intros data w out Hok Ht Hf; (destruct data as [|c r] eqn:Ed; [|rewrite <- Ed in *]).
  1, 3: cbn [process_loop]; exists w, out, [], []; split_and!; [done|constructor|by apply moved_refl].
  { subst data. cbn in Hf. lia. }
  assert (data <> []) as Hne by by rewrite Ed. destruct (spans_all data Ht) as (v & Hv & Hvl).
  assert (v <= lwidth w -> exists w' out' ls r, Ret (lw_output data w out) = Ret (w', out') /\ wrapped (lwidth w) data ls /\ moved w w' ls r out out') as Hlast.
  { intros Hw. destruct (output_moved w data out Hok) as (l & Hm). destruct (lw_output data w out) as [w' out'].
    exists w', out', [data], l. split_and!; [done|by econstructor|done]. }
  cbn [process_loop]. rewrite Ed. cbv beta iota. rewrite <- Ed. destruct (Z.leb_spec (Z.of_nat (length data)) (lwidth w)); [apply Hlast; lia|].
  destruct (fitting_total (length data) data data 0 0 (lwidth w)) as (n & v' & -> & Hsp & Hvw & Hn & Hpos);
    [done|done|apply Hok|destruct Hok; lia|constructor|done|lia|done|]. specialize (Hpos eq_refl). cbn [mbind outcome_bind].
  destruct (Nat.eqb_spec n (length data)) as [->|Hlt].
  { destruct (output_moved w data out Hok) as (l & Hm). destruct (lw_output data w out) as [w' out'].
    exists w', out', [data], l. split_and!; [done|by econstructor|done]. }
  assert (forall i j, (1 <= j)%nat -> (forall ls, wrapped (lwidth w) (drop j data) ls -> wrapped (lwidth w) data (take i data :: ls)) ->
    exists w' out' ls r, (let '(w, out) := lw_output (take i data) w out in process_loop fuel (drop j data) w out) = Ret (w', out') /\
      wrapped (lwidth w) data ls /\ moved w w' ls r out out') as Hgo.
  { intros i j Hj Hwr. destruct (output_moved w (take i data) out Hok) as (l & Hm). destruct (lw_output (take i data) w out) as [w1 o1]. cbn [fst snd] in Hm.
    destruct (IH (drop j data) w1 o1) as (w2 & o2 & ls & r2 & -> & Hls & Hm2); [apply Hm|by apply text_ok_drop|rewrite length_drop; lia|].
    pose proof (mv_same _ _ _ _ _ _ Hm) as [_ Hwd]. rewrite Hwd in Hls.
    exists w2, o2, ([take i data] ++ ls), (l ++ r2). split_and!; [done|by apply Hwr|by eapply moved_trans]. }
  unfold split_line. destruct (last_space data n) as [i|] eqn:El.
  - apply last_space_spec in El as [Hi Hs]. destruct (spans_space data n v' i Hsp Ht Hi Hs) as (vi & Hvi & Hle).
    apply Hgo; [lia|]. intros ls Hls. eapply wrapped_space; [done|done|lia|done].
  - apply Hgo; [lia|]. intros ls Hls. eapply wrapped_cut; [lia|done|done|done].
Qed.

Lemma set_wrote_ok b w : lw_ok w -> lw_ok (set_wrote b w).
Proof. by intros []. Qed.

Lemma process_total data w out : lw_ok w -> text_ok data ->
  exists w' out' ls r, process data w out = Ret (w', out') /\ wrapped (lwidth w) data ls /\
    lw_ok w' /\ lx w' = lx w /\ lwidth w' = lwidth w /\
    pending w ++ ls = r ++ pending w' /\ out' = out ++ render (lx w) false r.
Proof.
  intros Hok Ht. unfold process.
  destruct (process_loop_total (length data) data (set_wrote false w) out (set_wrote_ok false w Hok) Ht (le_n _)) as (w1 & o1 & ls & r1 & -> & Hls & Hm).
  cbn [mbind outcome_bind]. destruct Hm as [Hok1 Hq Ho Hwr [Hx Hwd]]. change (pending (set_wrote false w)) with (pending w) in Hq. cbn in Hls, Ho, Hwr, Hx, Hwd.
  destruct (wrote_something w1) eqn:Ew.
  { exists w1, o1, ls, r1. by split_and!. }
  assert (r1 = []) as -> by by destruct r1. cbn in Hq, Ho. rewrite app_nil_r in Ho. subst o1. destruct (decide (waiting w1 = 0)) as [E0|E0].
  - assert (pending w1 = []) as Hp1 by (pose proof (pending_length w1) as Hl; rewrite E0 in Hl; by destruct (pending w1)).
    unfold write_one_line. rewrite buf_empty_pending by done. rewrite Hp1, Ew. cbn. exists (set_wrote true w1), out, ls, [].
    split_and!; try done; [by apply set_wrote_ok|by rewrite app_nil_r].
  - pose proof (waiting_range w1). destruct (write_one_line_moved w1 out Hok1) as (l & Hm & _); [lia|].
    destruct (write_one_line w1 out) as [w2 o2] eqn:E2. cbn [fst snd] in Hm. destruct Hm as [Hok2 Hq2 Ho2 _ [Hx2 Hw2]].
    exists w2, o2, ls, [l]. rewrite app_nil_r in Hq2. rewrite Ew, Hx in Ho2. split_and!; try done; try congruence.
Qed.

(** [flush] writes all the lines that wait, on lines of their own. *)
Lemma flush_loop_total fuel w out : lw_ok w -> waiting w <= Z.of_nat fuel ->
  exists w', flush_loop fuel w out = Ret (w', out ++ render (lx w) (wrote_something w) (pending w)) /\
    lw_ok w' /\ pending w' = [] /\ lx w' = lx w /\ lwidth w' = lwidth w.
Proof.
  revert w out. induction fuel as [|fuel IH]; intros w out Hok Hf; pose proof (waiting_range w) as Hr.
  all: cbn [flush_loop]; rewrite buf_empty_pending by done; case_bool_decide as Hp.
  1, 3: exists w; rewrite Hp, app_nil_r; by split_and!.
  { assert (waiting w = 0) as E0 by lia. pose proof (pending_length w) as Hl. rewrite E0 in Hl. by destruct (pending w). }
  assert (0 < waiting w) as Hw by (pose proof (pending_length w); destruct (pending w); [done|cbn in *; lia]).
  destruct (write_one_line_moved w out Hok Hw) as (l & [Hok1 Hq Ho Hwr [Hx Hwd]] & Hn). destruct (write_one_line w out) as [w1 o1]. cbn [fst snd] in *.
  destruct (IH w1 o1 Hok1 ltac:(lia)) as (w2 & -> & H1 & H2 & H3 & H4). exists w2. split_and!; try done; try congruence.
  rewrite app_nil_r in Hq. rewrite Hq, Ho, Hx, Hwr. cbn. by rewrite orb_true_r, app_nil_r, <- !app_assoc.
Qed.

Lemma flush_total w out : lw_ok w ->
  exists w', flush w out = Ret (w', match pending w with [] => out | ls => (indent 0 (lx w) out).2 ++ render (lx w) false ls ++ [NL] end) /\
    lw_ok w' /\ pending w' = [] /\ lx w' = lx w /\ lwidth w' = lwidth w.
Proof.
  intros Hok. unfold flush. rewrite buf_empty_pending by done. case_bool_decide as Hp; [exists w; rewrite Hp; by split_and!|].
  destruct (flush_loop_total 16 (set_wrote false w) (indent 0 (lx w) out).2 (set_wrote_ok false w Hok)) as (w' & -> & H1 & H2 & H3 & H4).
  { change (waiting (set_wrote false w)) with (waiting w). pose proof (waiting_range w). lia. }
  cbn [mbind outcome_bind]. exists w'. split_and!; try done. change (pending (set_wrote false w)) with (pending w).
  destruct (pending w); [done|]. unfold write. cbn [lx wrote_something set_wrote]. by rewrite <- app_assoc.
Qed.

Lemma LineWrapper_ok a b : lw_ok (LineWrapper_make a b).
Proof. split; cbn; [lia|unfold bufmask; lia|done|]. destruct (Z.ltb_spec (b - a) 2); lia. Qed.

(** C30: The line wrapper loses nothing: a text is cut into lines no wider than the
    column, between two of which at most one space is left out; the lines join a
    queue of at most fifteen and leave it in order, each written once with a line
    break and the indentation before it; and [flush] writes all that wait. *)
Theorem process_wraps data w out : lw_ok w -> text_ok data ->
  exists w' out' lines written,
    process data w out = Ret (w', out') /\ lw_ok w' /\
    wrapped (lwidth w) data lines /\
    pending w ++ lines = written ++ pending w' /\
    out' = out ++ render (lx w) false written /\
    exists w'', flush w' out' =
      Ret (w'', match pending w' with [] => out' | ls => (indent 0 (lx w) out').2 ++ render (lx w) false ls ++ [NL] end) /\ pending w'' = [].
Proof.
  intros Hok Ht. destruct (process_total data w out Hok Ht) as (w' & out' & ls & r & H1 & H2 & H3 & H4 & H5 & H6 & H7).
  destruct (flush_total w' out' H3) as (w'' & H8 & _ & H9 & _). rewrite H4 in H8. exists w', out', ls, r. split_and!; try done. by exists w''.
Qed.

(** ** Witness *)

Lemma process_wraps_witness :
  exists w' out' lines written,
    process [ "a"%char; " "%char; "b"%char; "c"%char; "d"%char ] (LineWrapper_make 1 3) [] = Ret (w', out') /\ lw_ok w' /\
    wrapped 2 [ "a"%char; " "%char; "b"%char; "c"%char; "d"%char ] lines /\
    pending (LineWrapper_make 1 3) ++ lines = written ++ pending w' /\
    out' = [] ++ render 1 false written /\
    exists w'', flush w' out' =
      Ret (w'', match pending w' with [] => out' | ls => (indent 0 1 out').2 ++ render 1 false ls ++ [NL] end) /\ pending w'' = [].
Proof.
  apply (process_wraps [ "a"%char; " "%char; "b"%char; "c"%char; "d"%char ] (LineWrapper_make 1 3) []).
  - apply LineWrapper_ok.
  - unfold text_ok. repeat constructor; vm_compute; congruence.
Defined.
