(* ===== verification/OptUsage.v ===== *)
(** * The usage message ([PrintUsageImplementation] of [optionparser.h])

    The help texts of the table of options form tables: a tab separates columns, a
    vertical tab the lines of a cell, a newline rows.  [LinePartIterator] walks over
    the parts of a row, and [printUsage] lays out the columns and prints them with
    the line wrappers of [OptWrap].

    A pointer into a help text is the text from there to its NUL; a pointer into the
    table is the rest of the table. *)

From stdpp Require Import gmap.
From S2P Require Import Prelude CStrings OptList OptParse OptWrap.

Definition ends_part (c : ascii) : bool := ch_eqb c VT || ch_eqb c HT || ch_eqb c NL.

(** The bytes and the width up to the end of the part.  Every turn consumes a byte. *)
Fixpoint update_length (fuel : nat) (s : chars) (len : nat) (screenlen : Z) : outcome (nat * Z) :=
  match s with
  | [] => Ret (len, screenlen)
  | c :: r =>
      if ends_part c then Ret (len, screenlen)
      else
        match fuel with
        | O => Blocked
        | S fuel => '(w, n) ← screen_char c r; update_length fuel (drop n s) (len + n) (screenlen + w)
        end
  end.

(** ** Parts of rows *)

Section iterator.
Context {S : Type}.

Record LinePartIterator := mkLPI {
  tablestart : list (Descriptor S); rowdesc : option (list (Descriptor S)); rowstart : option chars; ptr : option chars;
  col : Z; len : nat; screenlen : Z; max_line_in_block : Z; line_in_block : Z; target_line_in_block : Z; hit_target_line : bool
}.

Definition LinePartIterator_make (usage : list (Descriptor S)) : LinePartIterator :=
  mkLPI usage None None None (-1) 0 0 0 0 0 true.

Definition restartTable (t : LinePartIterator) : outcome LinePartIterator :=
  match tablestart t with
  | [] => Crash
  | d :: _ =>
      Ret (mkLPI (tablestart t) (Some (tablestart t)) (help d) None (col t) (len t) (screenlen t)
             (max_line_in_block t) (line_in_block t) (target_line_in_block t) (hit_target_line t))
  end.

(** [while (tablestart->shortopt != 0 && go(tablestart)) ++tablestart;] *)
Fixpoint skip_rows (go : Descriptor S -> bool) (us : list (Descriptor S)) : outcome (list (Descriptor S)) :=
  match us with
  | [] => Crash
  | d :: us' => if go d && negb (is_end (shortopt d)) then skip_rows go us' else Ret us
  end.

Definition nextTable (t : LinePartIterator) : outcome (bool * LinePartIterator) :=
  us ← match rowdesc t with
       | None => Ret (tablestart t)
       | Some _ => skip_rows (fun d => negb (is_end (help d))) (tablestart t)
       end;
  us ← skip_rows (fun d => is_end (help d)) us;
  t ← restartTable (mkLPI us (rowdesc t) (rowstart t) (ptr t) (col t) (len t) (screenlen t)
                      (max_line_in_block t) (line_in_block t) (target_line_in_block t) (hit_target_line t));
  Ret (negb (is_end (rowstart t)), t).

Definition restartRow (t : LinePartIterator) : LinePartIterator :=
  mkLPI (tablestart t) (rowdesc t) (rowstart t) (rowstart t) (-1) 0 0 0 0 0 true.

Definition set_row (us : list (Descriptor S)) (start : option chars) (t : LinePartIterator) : LinePartIterator :=
  mkLPI (tablestart t) (Some us) start (ptr t) (col t) (len t) (screenlen t)
    (max_line_in_block t) (line_in_block t) (target_line_in_block t) (hit_target_line t).

(** From the pointer to the end of the row: the text behind a newline, or none. *)
Fixpoint behind_newline (s : chars) : option chars :=
  match s with
  | [] => None
  | c :: s => if ch_eqb c NL then Some s else behind_newline s
  end.

Definition nextRow (t : LinePartIterator) : outcome (bool * LinePartIterator) :=
  match ptr t with
  | None => let t := restartRow t in Ret (negb (is_end (rowstart t)), t)
  | Some p =>
      match rowdesc t with
      | None => Crash
      | Some us =>
          match behind_newline p with
          | Some s => Ret (true, restartRow (set_row us (Some s) t))
          | None =>
              match tail us with
              | [] => Crash
              | d :: _ =>
                  if is_end (help d) then Ret (false, t)
                  else Ret (true, restartRow (set_row (tail us) (help d) t))
              end
          end
      end
  end.

(** The part at the pointer. *)
Definition update_part (t : LinePartIterator) : outcome LinePartIterator :=
  match ptr t with
  | None => Crash
  | Some p =>
      '(l, w) ← update_length (length p) p 0 0;
      Ret (mkLPI (tablestart t) (rowdesc t) (rowstart t) (ptr t) (col t) l w
             (max_line_in_block t) (line_in_block t) (target_line_in_block t) (hit_target_line t))
  end.

Definition set_hit (b : bool) (t : LinePartIterator) : LinePartIterator :=
  mkLPI (tablestart t) (rowdesc t) (rowstart t) (ptr t) (col t) (len t) (screenlen t)
    (max_line_in_block t) (line_in_block t) (target_line_in_block t) b.

(** [update_length(); hit_target_line = true; return true;] *)
Definition return_part (t : LinePartIterator) : outcome (bool * LinePartIterator) :=
  t ← update_part t; Ret (true, set_hit true t).

Definition set_cell (p : option chars) (col : Z) (maxl line target : Z) (hit : bool) (t : LinePartIterator) : LinePartIterator :=
  mkLPI (tablestart t) (rowdesc t) (rowstart t) p col (len t) (screenlen t) maxl line target hit.

(** The endless loop of [next]. *)
Fixpoint next_loop (fuel : nat) (t : LinePartIterator) : outcome (bool * LinePartIterator) :=
  match fuel with
  | O => Blocked
  | Datatypes.S fuel =>
      match ptr t with
      | None => Crash
      | Some p =>
          let at_row_end :=
            if negb (hit_target_line t) then return_part t
            else
              let target := target_line_in_block t + 1 in
              if max_line_in_block t <? target then
                t ← update_part (set_cell (Some p) (col t) (max_line_in_block t) (line_in_block t) target true t);
                Ret (false, t)
              else next_loop fuel (set_cell (rowstart t) 0 (max_line_in_block t) 0 target false t) in
          match p with
          | [] => at_row_end
          | c :: r =>
              if ch_eqb c VT then
                let line := line_in_block t + 1 in
                let t := set_cell (Some r) (col t) (upmax (max_line_in_block t) line) line (target_line_in_block t) (hit_target_line t) t in
                if line =? target_line_in_block t then return_part t else next_loop fuel t
              else if ch_eqb c HT then
                if negb (hit_target_line t) then return_part t
                else
                  let t := set_cell (Some r) (col t + 1) (max_line_in_block t) 0 (target_line_in_block t) false t in
                  if 0 =? target_line_in_block t then return_part t else next_loop fuel t
              else if ch_eqb c NL then at_row_end
              else next_loop fuel (set_cell (Some r) (col t) (max_line_in_block t) (line_in_block t) (target_line_in_block t) (hit_target_line t) t)
          end
      end
  end.

(** Enough for one row: each line of the block reads the row once, and every column may
    insert a part. *)
Definition row_fuel (t : LinePartIterator) : nat :=
  match rowstart t with Some s => (length s + 2) * (2 * length s + 4) + 2 | None => O end.

Definition next (t : LinePartIterator) : outcome (bool * LinePartIterator) :=
  match ptr t with
  | None => Ret (false, t)
  | Some p =>
      if col t =? -1 then
        t ← update_part (set_cell (Some p) 0 (max_line_in_block t) (line_in_block t) (target_line_in_block t) (hit_target_line t) t);
        Ret (true, t)
      else
        next_loop (row_fuel t)
          (set_cell (Some (drop (len t) p)) (col t) (max_line_in_block t) (line_in_block t) (target_line_in_block t) (hit_target_line t) t)
  end.

Definition column (t : LinePartIterator) : Z := col t.
Definition line (t : LinePartIterator) : Z := target_line_in_block t.
Definition part_data (t : LinePartIterator) : chars := match ptr t with Some p => take (len t) p | None => [] end.
(** [data()[length()]] *)
Definition part_end (t : LinePartIterator) : ascii := match ptr t with Some p => deref (drop (len t) p) | None => NUL end.
End iterator.
Arguments LinePartIterator : clear implicits.

(** ** The message *)

Definition maxcolumns : Z := 8.

Section message.
Context {S : Type}.

(** A part that belongs to a table, as opposed to a paragraph between rows. *)
Definition in_table (t : LinePartIterator S) : bool :=
  (0 <? column t) || (0 <? line t) || ch_eqb (part_end t) HT || ch_eqb (part_end t) VT.

(** [while (part.next()) body] *)
Fixpoint each_part {T} (body : LinePartIterator S -> T -> outcome T) (fuel : nat) (t : LinePartIterator S) (x : T)
    : outcome (LinePartIterator S * T) :=
  '(more, t) ← next t;
  if more : bool then
    match fuel with
    | O => Blocked
    | Datatypes.S fuel => x ← body t x; each_part body fuel t x
    end
  else Ret (t, x).

(** [while (part.nextRow()) body] *)
Fixpoint each_row {T} (body : LinePartIterator S -> T -> outcome (LinePartIterator S * T)) (fuel : nat) (t : LinePartIterator S) (x : T)
    : outcome (LinePartIterator S * T) :=
  '(more, t) ← nextRow t;
  if more : bool then
    match fuel with
    | O => Blocked
    | Datatypes.S fuel => '(t, x) ← body t x; each_row body fuel t x
    end
  else Ret (t, x).

(** The rows of a table: at most as many as characters and entries. *)
Definition table_fuel (t : LinePartIterator S) : nat :=
  foldr (fun d n => n + 1 + length (default [] (help d)))%nat 1%nat (tablestart t).

(** One pass over the table: the last column and the widths of the columns. *)
Definition width_part (threshold : Z) (t : LinePartIterator S) (x : Z * list Z) : outcome (Z * list Z) :=
  let '(lastcolumn, col_width) := x in
  Ret (if column t <? maxcolumns then
         let c := Z.to_nat (column t) in
         (upmax lastcolumn (column t),
          if (screenlen t <? threshold) && in_table t
          then <[c := upmax (default 0 (col_width !! c)) (screenlen t)]> col_width else col_width)
       else x).
Definition column_widths (threshold : Z) (t : LinePartIterator S) : outcome (LinePartIterator S * (Z * list Z)) :=
  t ← restartTable t;
  each_row (fun t x => each_part (width_part threshold) (row_fuel t) t x) (table_fuel t) t (0, replicate 8 0).

(** The passes, with a lower threshold each, until the columns but the last fit. *)
Fixpoint layout_loop (fuel : nat) (width threshold : Z) (t : LinePartIterator S) : outcome (LinePartIterator S * (Z * list Z)) :=
  '(t, (lastcolumn, col_width)) ← column_widths threshold t;
  let left := take (Z.to_nat lastcolumn) col_width in
  if width <? foldr Z.add 0 left then
    match fuel with
    | O => Blocked
    | Datatypes.S fuel => layout_loop fuel width (foldl upmax 0 left) t
    end
  else Ret (t, (lastcolumn, col_width)).

(** The sums of the widths to the left. *)
Definition tabstop (col_width : list Z) (i : Z) : Z := foldr Z.add 0 (take (Z.to_nat i) col_width).

Record layout := mkLayout {
  l_last : Z; l_widths : list Z; l_width : Z; l_right : Z; l_own_line : bool
}.

Definition choose_layout (width min_width own_line_width : Z) (x : Z * list Z) : layout :=
  let '(lastcolumn, col_width) := x in
  let rightwidth := width - tabstop col_width lastcolumn in
  let last_width := default 0 (col_width !! Z.to_nat lastcolumn) in
  let own := (rightwidth <? min_width) && ((last_width =? 0) || (rightwidth <? last_width)) in
  mkLayout lastcolumn col_width width (if own then own_line_width else rightwidth) (own && negb (lastcolumn =? 0)).

(** The column on the screen, the two wrappers (last column, paragraphs) and the text. *)
Record printer := mkPrinter { px : Z; p_last : LineWrapper; p_inter : LineWrapper; p_out : chars }.

Definition print_part (l : layout) (t : LinePartIterator S) (p : printer) : outcome printer :=
  if l_last l <? column t then Ret p
  else
    let '(x, out) := if column t =? 0 then (0, if 0 <=? px p then write [NL] (p_out p) else p_out p) else (px p, p_out p) in
    let '(x, out) := indent x (tabstop (l_widths l) (column t)) out in
    if (column t <? l_last l) && in_table t then
      Ret (mkPrinter (x + screenlen t) (p_last p) (p_inter p) (write (part_data t) out))
    else if negb (l_own_line l) || negb (column t =? l_last l) then
      if column t =? 0 then '(w, out) ← process (part_data t) (p_inter p) out; Ret (mkPrinter x (p_last p) w out)
      else '(w, out) ← process (part_data t) (p_last p) out; Ret (mkPrinter x w (p_inter p) out)
    else Ret (mkPrinter x (p_last p) (p_inter p) out).

(** The last column of a row, below its other columns. *)
Definition print_own_line (l : layout) (t : LinePartIterator S) (p : printer) : outcome printer :=
  if column t =? l_last l then
    '(w, out) ← process (part_data t) (p_last p) (indent 0 (l_width l - l_right l) (write [NL] (p_out p))).2;
    Ret (mkPrinter (px p) w (p_inter p) out)
  else Ret p.

Definition print_row (l : layout) (t : LinePartIterator S) (p : printer) : outcome (LinePartIterator S * printer) :=
  '(t, p) ← each_part (print_part l) (row_fuel t) t (mkPrinter (-1) (p_last p) (p_inter p) (p_out p));
  '(t, p) ← if l_own_line l then let t := restartRow t in each_part (print_own_line l) (row_fuel t) t p else Ret (t, p);
  '(w, out) ← flush (p_last p) (write [NL] (p_out p));
  '(w', out) ← flush (p_inter p) out;
  Ret (t, mkPrinter (px p) w w' out).

Definition print_table (width min_width own_line_width : Z) (t : LinePartIterator S) (out : chars)
    : outcome (LinePartIterator S * chars) :=
  '(t, x) ← layout_loop (Z.to_nat 10000) width 10000 t;
  let l := choose_layout width min_width own_line_width x in
  t ← restartTable t;
  '(t, p) ← each_row (print_row l) (table_fuel t) t
    (mkPrinter (-1) (LineWrapper_make (width - l_right l) width) (LineWrapper_make 0 width) out);
  Ret (t, p_out p).

Fixpoint print_tables (fuel : nat) (width min_width own_line_width : Z) (t : LinePartIterator S) (out : chars) : outcome chars :=
  '(more, t) ← nextTable t;
  if more : bool then
    match fuel with
    | O => Blocked
    | Datatypes.S fuel => '(t, out) ← print_table width min_width own_line_width t out; print_tables fuel width min_width own_line_width t out
    end
  else Ret out.

Definition printUsage (usage : list (Descriptor S)) (width last_column_min_percent last_column_own_line_max_percent : Z) (out : chars)
    : outcome chars :=
  let width := if width <? 1 then 80 else width in
  let width := if 10000 <? width then 10000 else width in
  let min_width := Z.quot (width * last_column_min_percent + 50) 100 in
  let own := Z.quot (width * last_column_own_line_max_percent + 50) 100 in
  print_tables (length usage) width min_width (if own =? 0 then 1 else own) (LinePartIterator_make usage) out.

(** With the default arguments. *)
Definition printUsage_default (usage : list (Descriptor S)) : outcome chars := printUsage usage 80 50 75 [].
End message.

Lemma update_length_total fuel s l w : text_ok s -> (length s <= fuel)%nat ->
  exists n w', update_length fuel s l w = Ret ((l + n)%nat, w') /\ (n <= length s)%nat /\ (0 <= w -> 0 <= w').
Proof.
  revert s l w. induction fuel as [|fuel IH]; intros s l w Hs Hf.
  all: destruct s as [|c r]; cbn [update_length]; [exists O, w; rewrite Nat.add_0_r; repeat split; lia|].
  all: destruct (ends_part c); [exists O, w; rewrite Nat.add_0_r; repeat split; cbn; lia|].
  - cbn in Hf. lia.
  - inversion Hs as [|? ? Hc Hr]; subst. destruct (screen_char_total c r Hc) as (w1 & n1 & -> & Hn1 & Hw1 & _). cbn [mbind outcome_bind].
    destruct (IH (drop n1 (c :: r)) (l + n1)%nat (w + w1)) as (n & w' & -> & Hn & Hw).
    { by apply text_ok_drop. } { rewrite length_drop. cbn in *. lia. }
    rewrite length_drop in Hn. cbn [length] in Hn. exists (n1 + n)%nat, w'. rewrite Nat.add_assoc. split; [done|]. cbn [length]. split; [lia|]. intros. apply Hw. lia.
Qed.

(** ** The iterator comes to an end *)

Section iterating.
Context {S : Type}.
Implicit Types t : LinePartIterator S.

(** Within a row whose text is [s], with the pointer at [p]. *)
Record in_row (s p : chars) t : Prop := {
  ir_start : rowstart t = Some s;
  ir_ptr : ptr t = Some p;
  ir_text : text_ok s;
  ir_ptext : text_ok p;
  ir_screen : 0 <= screenlen t;
  ir_line : 0 <= line_in_block t /\ Z.of_nat (length p) + line_in_block t <= Z.of_nat (length s);
  ir_max : 0 <= target_line_in_block t <= max_line_in_block t /\ max_line_in_block t <= Z.of_nat (length s);
  ir_col : 0 <= col t
}.

(** What is still to read. *)
Definition rank (s p : chars) t : Z :=
  (Z.of_nat (length s) + 1 - target_line_in_block t) * (2 * Z.of_nat (length s) + 4) + 2 * Z.of_nat (length p)
    + if hit_target_line t then 0 else 1.

Definition same_row t t' : Prop := tablestart t' = tablestart t /\ rowdesc t' = rowdesc t /\ rowstart t' = rowstart t.

(** [next] without a part still leaves the pointer in the row. *)
Definition steps_to (s : chars) (r : Z) t (m : outcome (bool * LinePartIterator S)) : Prop :=
  exists b t' p', m = Ret (b, t') /\ same_row t t' /\ ptr t' = Some p' /\ text_ok p' /\ (length p' <= length s)%nat /\
    (b = true -> in_row s p' t' /\ rank s p' t' < r /\ (len t' <= length p')%nat).

Lemma update_part_total s p t : in_row s p t ->
  exists n w, update_part t = Ret (mkLPI (tablestart t) (rowdesc t) (rowstart t) (ptr t) (col t) n w
    (max_line_in_block t) (line_in_block t) (target_line_in_block t) (hit_target_line t)) /\ (n <= length p)%nat /\ 0 <= w.
Proof.
  intros H. unfold update_part. rewrite (ir_ptr _ _ _ H).
  destruct (update_length_total (length p) p 0 0 (ir_ptext _ _ _ H)) as (n & w & -> & Hn & Hw); [done|]. cbn [mbind outcome_bind].
  exists n, w. split; [done|]. split; [done|by apply Hw].
Qed.

Lemma return_part_total s p r t t0 : in_row s p t -> same_row t0 t -> rank s p (set_hit true t) < r ->
  steps_to s r t0 (return_part t).
Proof.
  intros H Hs Hr. unfold return_part. destruct (update_part_total s p t H) as (n & w & -> & Hn & Hw). cbn [mbind outcome_bind].
  eexists true, _, p. split; [done|]. split; [done|]. destruct H. split; [done|]. split; [done|]. split; [lia|]. intros _. split; [by split|]. by split.
Qed.

Lemma in_row_set s p p' col maxl line target hit t : in_row s p t -> text_ok p' -> 0 <= col ->
  0 <= line -> Z.of_nat (length p') + line <= Z.of_nat (length s) -> 0 <= target <= maxl -> maxl <= Z.of_nat (length s) ->
  in_row s p' (set_cell (Some p') col maxl line target hit t).
Proof. intros [] ? ? ? ? ? ?. split; cbn; done || lia. Qed.

(** At the end of the row: an inserted part, the end, or the next line of the block. *)
Definition row_end (go : LinePartIterator S -> outcome (bool * LinePartIterator S)) p t : outcome (bool * LinePartIterator S) :=
  if negb (hit_target_line t) then return_part t
  else
    let target := target_line_in_block t + 1 in
    if max_line_in_block t <? target then
      t ← update_part (set_cell (Some p) (col t) (max_line_in_block t) (line_in_block t) target true t); Ret (false, t)
    else go (set_cell (rowstart t) 0 (max_line_in_block t) 0 target false t).

Lemma row_end_total go s p r t t0 : in_row s p t -> same_row t0 t -> rank s p t <= r ->
  (forall t', in_row s s t' -> same_row t0 t' -> rank s s t' < rank s p t -> steps_to s r t0 (go t')) ->
  steps_to s r t0 (row_end go p t).
Proof.
  intros H Hs Hr Hgo. unfold row_end. destruct (hit_target_line t) eqn:Eh; cbn [negb].
  - pose proof (ir_line _ _ _ H) as Hline. pose proof (ir_max _ _ _ H) as Hm. destruct (Z.ltb_spec (max_line_in_block t) (target_line_in_block t + 1)).
    + unfold update_part. cbn [ptr set_cell].
      destruct (update_length_total (length p) p 0 0 (ir_ptext _ _ _ H)) as (n & w & -> & Hn & Hw); [done|]. cbn [mbind outcome_bind].
      eexists false, _, p. split; [done|]. split; [done|]. split; [done|]. split; [apply H|]. split; [lia|done].
    + rewrite (ir_start _ _ _ H). apply Hgo.
      * apply (in_row_set s p); try done; try lia. apply H.
      * destruct Hs as (? & ? & ?). split; [done|]. by split.
      * unfold rank. cbn [target_line_in_block hit_target_line set_cell]. rewrite Eh. nia.
  - apply (return_part_total s p); [done|done|]. unfold rank in *. rewrite Eh in Hr. cbn [target_line_in_block hit_target_line set_hit]. lia.
Qed.

Lemma next_loop_total fuel s p r t t0 : in_row s p t -> same_row t0 t -> rank s p t <= r ->
  rank s p t < Z.of_nat fuel -> steps_to s r t0 (next_loop fuel t).
Proof.
  revert p t. induction fuel as [|fuel IH]; intros p t H Hs Hr Hf.
  { pose proof (ir_max _ _ _ H). unfold rank in Hf. destruct (hit_target_line t); nia. }
  cbn [next_loop]. rewrite (ir_ptr _ _ _ H). fold (row_end (next_loop fuel) p t).
  assert (steps_to s r t0 (row_end (next_loop fuel) p t)) as Hend.
  { apply (row_end_total _ s p); [done|done|done|]. intros t' H' Hs' Hr'. apply (IH s); [done|done|lia|lia]. }
  destruct p as [|c q]; [done|]. pose proof (ir_line _ _ _ H) as [Hl1 Hl2]. pose proof (ir_max _ _ _ H) as [Hm1 Hm2]. cbn [length] in Hl2.
  pose proof (ir_ptext _ _ _ H) as Hp. assert (text_ok q) as Hq by by inversion Hp. pose proof (ir_col _ _ _ H) as Hc.
  assert (forall col maxl line hit, 0 <= col -> 0 <= line -> Z.of_nat (length q) + line <= Z.of_nat (length s) ->
    target_line_in_block t <= maxl -> maxl <= Z.of_nat (length s) ->
    steps_to s r t0 (next_loop fuel (set_cell (Some q) col maxl line (target_line_in_block t) hit t)) /\
    steps_to s r t0 (return_part (set_cell (Some q) col maxl line (target_line_in_block t) hit t))) as Hgo.
  { intros col' maxl line' hit ? ? ? ? ?. assert (in_row s q (set_cell (Some q) col' maxl line' (target_line_in_block t) hit t)) as H'
      by (apply (in_row_set s (c :: q)); done || lia).
    unfold rank in *. cbn [length] in *. split.
    - apply (IH q); [done|done| |]; unfold rank; cbn [target_line_in_block hit_target_line set_cell]; destruct hit, (hit_target_line t); lia.
    - apply (return_part_total s q); [done|done|]. unfold rank. cbn [target_line_in_block hit_target_line set_cell set_hit]. destruct (hit_target_line t); lia. }
  destruct (ch_eqb c VT); [|destruct (ch_eqb c HT); [|destruct (ch_eqb c NL); [done|]]].
  - pose proof (upmax_le (max_line_in_block t) (line_in_block t + 1)). cbn [target_line_in_block set_cell].
    destruct (_ =? _); apply Hgo; lia.
  - destruct (hit_target_line t) eqn:Eh; cbn [negb].
    + cbn [target_line_in_block set_cell]. destruct (_ =? _); apply Hgo; lia.
    + apply (return_part_total s (c :: q)); [done|done|]. unfold rank in *. rewrite Eh in Hr. cbn [target_line_in_block hit_target_line set_hit]. lia.
  - apply Hgo; lia.
Qed.

(** *** Rows *)

Lemma rank_bound s p t : in_row s p t -> 0 <= rank s p t < Z.of_nat (row_fuel t).
Proof.
  intros H. unfold row_fuel. rewrite (ir_start _ _ _ H). pose proof (ir_max _ _ _ H). pose proof (ir_line _ _ _ H). unfold rank.
  destruct (hit_target_line t); nia.
Qed.

Lemma next_total s p t : in_row s p t -> (len t <= length p)%nat -> steps_to s (rank s p t) t (next t).
Proof.
  intros H Hl. unfold next. rewrite (ir_ptr _ _ _ H). pose proof (ir_col _ _ _ H). rewrite (proj2 (Z.eqb_neq _ _)) by lia.
  pose proof (rank_bound s p t H) as Hb. pose proof (ir_line _ _ _ H). pose proof (ir_max _ _ _ H).
  set (t1 := set_cell _ _ _ _ _ _ _). assert (in_row s (drop (len t) p) t1) as Hin.
  { apply (in_row_set s p); try done; try lia; [apply text_ok_drop, H|]. rewrite length_drop. lia. }
  assert (rank s (drop (len t) p) t1 <= rank s p t) as Hle by (unfold rank; rewrite length_drop; cbn; lia).
  apply (next_loop_total _ s (drop (len t) p)); [done|done|done|lia].
Qed.

(** At the start of a row: the first part is always there. *)
Record at_row (s : chars) t : Prop := {
  ar_start : rowstart t = Some s;
  ar_text : text_ok s;
  ar_fresh : restartRow t = t
}.

Lemma first_total s t : at_row s t ->
  exists t', next t = Ret (true, t') /\ same_row t t' /\ in_row s s t' /\ (len t' <= length s)%nat.
Proof.
  intros [Hs Ht Hf]. rewrite <- Hf. unfold next, restartRow. cbn [ptr col rowstart]. rewrite Hs. cbn [Z.eqb].
  unfold update_part. cbn [ptr set_cell].
  destruct (update_length_total (length s) s 0 0 Ht) as (n & w & -> & Hn & Hw); [done|]. cbn [mbind outcome_bind].
  eexists. split; [done|]. split; [done|]. split; [|done]. split; cbn; done || lia || by apply Hw.
Qed.

(** A loop over the parts of a row, with an invariant of what it computes. *)
Section parts.
Context {T : Type}.
Variables (body : LinePartIterator S -> T -> outcome T) (P : T -> Prop).
Hypothesis Hbody : forall s p t x, in_row s p t -> (len t <= length p)%nat -> P x -> exists x', body t x = Ret x' /\ P x'.

Definition ends_row (s : chars) t (m : outcome (LinePartIterator S * T)) : Prop :=
  exists t' p' x', m = Ret (t', x') /\ same_row t t' /\ ptr t' = Some p' /\ text_ok p' /\ (length p' <= length s)%nat /\ P x'.

Lemma same_row_trans t1 t2 t3 : same_row t1 t2 -> same_row t2 t3 -> same_row t1 t3.
Proof. intros (? & ? & ?) (? & ? & ?). split_and!; congruence. Qed.

Lemma each_part_in_row fuel s p t x : in_row s p t -> (len t <= length p)%nat -> P x -> rank s p t <= Z.of_nat fuel ->
  ends_row s t (each_part body fuel t x).
Proof using Hbody.
  revert p t x. induction fuel as [|fuel IH]; intros p t x H Hl Hx Hf.
  all: destruct (next_total s p t H Hl) as (b & t' & p' & Hn & Hs & Hp & Hpt & Hpl & Hb); cbn [each_part]; rewrite Hn; cbn [mbind outcome_bind].
  all: destruct b; [|by exists t', p', x]; destruct (Hb eq_refl) as (H' & Hr' & Hl').
  - pose proof (rank_bound s p' t' H'). lia.
  - destruct (Hbody s p' t' x H' Hl' Hx) as (x' & -> & Hx'). cbn [mbind outcome_bind].
    destruct (IH p' t' x' H' Hl' Hx' ltac:(lia)) as (t2 & p2 & x2 & -> & Hs2 & ? & ? & ? & ?). exists t2, p2, x2.
    split; [done|]. split; [by eapply same_row_trans|done].
Qed.

Lemma each_part_total s t x : at_row s t -> P x -> ends_row s t (each_part body (row_fuel t) t x).
Proof using Hbody.
  intros H Hx. destruct (first_total s t H) as (t' & Hn & Hs & H' & Hl).
  assert (exists f, row_fuel t = Datatypes.S f) as [f Ef] by (unfold row_fuel; rewrite (ar_start _ _ H); eexists; rewrite Nat.add_succ_r; done).
  rewrite Ef. cbn [each_part]. rewrite Hn. cbn [mbind outcome_bind]. destruct (Hbody s s t' x H' Hl Hx) as (x' & -> & Hx'). cbn [mbind outcome_bind].
  destruct (each_part_in_row f s s t' x' H' Hl Hx') as (t2 & p2 & x2 & -> & Hs2 & ? & ? & ? & ?).
  - pose proof (rank_bound s s t' H') as Hb. pose proof Hs as (_ & _ & Hrs). unfold row_fuel in Hb, Ef. rewrite Hrs in Hb. lia.
  - exists t2, p2, x2. split; [done|]. split; [by eapply same_row_trans|done].
Qed.
End parts.

(** *** Tables *)

(** The rest of a table of options that ends properly and whose texts are valid. *)
Inductive help_ok : list (Descriptor S) -> Prop :=
  | help_end d r : shortopt d = None -> help d = None -> help_ok (d :: r)
  | help_entry d r : shortopt d <> None -> text_ok (default [] (help d)) -> help_ok r -> help_ok (d :: r).

Definition text_size (ds : list (Descriptor S)) : nat := foldr (fun d n => n + 1 + length (default [] (help d)))%nat O ds.

(** In the row [s] of the first of the entries [ds]. *)
Definition row_of (s : chars) (ds : list (Descriptor S)) t : Prop :=
  rowdesc t = Some ds /\ help_ok ds /\ rowstart t = Some s /\ text_ok s /\ match ds with d :: _ => shortopt d <> None | [] => False end.

Definition rows_left (s : chars) (ds : list (Descriptor S)) : nat := (length s + text_size (tail ds))%nat.

Lemma behind_newline_shorter p q : behind_newline p = Some q -> (length q < length p)%nat /\ exists n, q = drop n p.
Proof.
  induction p as [|c p IH]; cbn; [done|]. destruct (ch_eqb c NL).
  - intros [= <-]. split; [lia|]. by exists 1%nat.
  - intros [H [n ->]]%IH. split; [lia|]. by exists (Datatypes.S n).
Qed.

Lemma help_ok_tail d r : help_ok (d :: r) -> shortopt d <> None -> help_ok r.
Proof. intros H Hd. by inversion H. Qed.

Lemma at_restartRow s t : rowstart t = Some s -> text_ok s -> at_row s (restartRow t).
Proof. intros H Ht. by split. Qed.

Lemma nextRow_total s ds p t : row_of s ds t -> ptr t = Some p -> text_ok p -> (length p <= length s)%nat ->
  exists b t', nextRow t = Ret (b, t') /\ tablestart t' = tablestart t /\ rowdesc t' <> None /\
    (b = true -> exists s' ds', row_of s' ds' t' /\ at_row s' t' /\ (rows_left s' ds' < rows_left s ds)%nat).
Proof.
  intros (Hd & Hh & Hs & Ht & Hne) Hp Hpt Hpl. unfold nextRow. rewrite Hp, Hd. destruct (behind_newline p) as [q|] eqn:Eq.
  - apply behind_newline_shorter in Eq as [Hlt [n ->]]. apply (text_ok_drop n) in Hpt.
    eexists true, _. split; [done|]. split; [done|]. split; [done|]. intros _. exists (drop n p), ds.
    split; [by split_and!|]. split; [by apply at_restartRow|]. unfold rows_left. lia.
  - destruct ds as [|d ds]; [done|]. apply help_ok_tail in Hh; [|done]. cbn [tail].
    assert (exists e ds', ds = e :: ds') as (e & ds' & ->) by (inversion Hh; eauto).
    destruct (help e) as [h|] eqn:Eh; cbn [is_end].
    + eexists true, _. split; [done|]. split; [done|]. split; [done|]. intros _. exists h, (e :: ds').
      assert (shortopt e <> None) by (inversion Hh; subst; congruence || done).
      assert (text_ok h) by (inversion Hh as [|? ? ? Hx]; subst; [congruence|by rewrite Eh in Hx]).
      split; [by split_and!|]. split; [by apply at_restartRow|]. unfold rows_left. cbn [tail text_size foldr]. rewrite Eh. cbn. lia.
    + eexists false, t. rewrite Hd. by split_and!.
Qed.

Section rows.
Context {T : Type}.
Variables (body : LinePartIterator S -> T -> outcome (LinePartIterator S * T)) (P : T -> Prop).
Hypothesis Hbody : forall s t x, at_row s t -> P x -> ends_row P s t (body t x).

Definition ends_table t (m : outcome (LinePartIterator S * T)) : Prop :=
  exists t' x', m = Ret (t', x') /\ tablestart t' = tablestart t /\ rowdesc t' <> None /\ P x'.

Lemma each_row_from fuel s ds p t x : row_of s ds t -> ptr t = Some p -> text_ok p -> (length p <= length s)%nat -> P x ->
  (rows_left s ds <= fuel)%nat -> ends_table t (each_row body fuel t x).
Proof using Hbody.
  revert s ds p t x. induction fuel as [|fuel IH]; intros s ds p t x H Hp Hpt Hpl Hx Hf.
  all: destruct (nextRow_total s ds p t H Hp Hpt Hpl) as (b & t1 & Hn & Hts & Hrd & Hb); cbn [each_row]; rewrite Hn; cbn [mbind outcome_bind].
  all: destruct b; [|by exists t1, x]; destruct (Hb eq_refl) as (s1 & ds1 & H1 & Ha1 & Hlt).
  { lia. }
  destruct (Hbody s1 t1 x Ha1 Hx) as (t2 & p2 & x2 & -> & (Hs2 & Hd2 & Hr2) & Hp2 & Hpt2 & Hpl2 & Hx2). cbn [mbind outcome_bind].
  destruct (IH s1 ds1 p2 t2 x2) as (t3 & x3 & -> & Ht3 & Hd3 & Hx3); [|done|done|done|done|lia|].
  - destruct H1 as (K1 & K2 & K3 & K4 & K5). split_and!; congruence || done.
  - exists t3, x3. split; [done|]. split; [congruence|done].
Qed.

Lemma each_row_total ds t x : rowdesc t = Some ds -> tablestart t = ds -> help_ok ds -> ptr t = None ->
  rowstart t = (d ← head ds; help d) -> P x -> ends_table t (each_row body (table_fuel t) t x).
Proof using Hbody.
  intros Hd Hts Hh Hp Hs Hx. assert (exists f, table_fuel t = Datatypes.S f /\ f = text_size ds) as (f & -> & Ef).
  { unfold table_fuel. rewrite Hts. exists (text_size ds). split; [|done]. clear. unfold text_size. induction ds as [|d ds IH]; [done|]. cbn [foldr]. rewrite IH. lia. }
  cbn [each_row]. unfold nextRow at 1. rewrite Hp. cbv zeta. cbn [mbind outcome_bind]. change (rowstart (restartRow t)) with (rowstart t).
  destruct (rowstart t) as [s|] eqn:Es; cbn [is_end negb].
  - destruct ds as [|d ds]; [done|]. cbn in Hs. assert (text_ok s /\ shortopt d <> None) as [Hst Hsd]
      by (inversion Hh as [|? ? ? Hx']; subst; [congruence|rewrite <- Hs in Hx'; done]).
    destruct (Hbody s (restartRow t) x) as (t2 & p2 & x2 & Hrun & (Hs2 & Hd2 & Hr2) & Hp2 & Hpt2 & Hpl2 & Hx2); [by apply at_restartRow|done|].
    rewrite Hrun. cbn [mbind outcome_bind].
    destruct (each_row_from f s (d :: ds) p2 t2 x2) as (t3 & x3 & -> & Ht3 & Hd3 & Hx3); [|done|done|done|done| |].
    + cbn in Hd2, Hr2. split_and!; congruence || done.
    + unfold rows_left. cbn [tail]. subst f. cbn [text_size foldr]. rewrite <- Hs. cbn. fold (text_size ds). lia.
    + exists t3, x3. split; [done|]. split; [cbn in Hs2; congruence|done].
  - eexists _, x. split; [done|]. cbn. split; [done|]. by rewrite Hd.
Qed.
End rows.
End iterating.

(** ** The message is written *)

Section printing.
Context {S : Type}.
Implicit Types t : LinePartIterator S.

Lemma restartTable_total ds t : tablestart t = ds -> help_ok ds ->
  exists t', restartTable t = Ret t' /\ tablestart t' = ds /\ rowdesc t' = Some ds /\ ptr t' = None /\ rowstart t' = (d ← head ds; help d).
Proof. intros Ht Hh. unfold restartTable. rewrite Ht. destruct ds as [|d ds]; [inversion Hh|]. eexists. by split_and!. Qed.

(** *** Columns *)

Definition widths_ok (threshold : Z) (x : Z * list Z) : Prop :=
  0 <= x.1 < 8 /\ length x.2 = 8%nat /\ Forall (fun v => v = 0 \/ 0 <= v < threshold) x.2.

Lemma width_part_total threshold s p t x : in_row s p t -> widths_ok threshold x ->
  exists x', width_part threshold t x = Ret x' /\ widths_ok threshold x'.
Proof.
  intros H (Hl & Hlen & Hall). destruct x as [l cw]. cbn [fst snd] in *. unfold width_part. eexists. split; [done|]. unfold maxcolumns, column.
  destruct (Z.ltb_spec (col t) 8); [|done]. pose proof (ir_col _ _ _ H). pose proof (upmax_le l (col t)).
  split; [cbn; lia|]. destruct ((screenlen t <? threshold) && in_table t) eqn:E; [|done]. breflect. cbn [snd]. split; [by rewrite length_insert|].
  apply Forall_insert; [done|]. pose proof (ir_screen _ _ _ H).
  destruct (lookup_lt_is_Some_2 cw (Z.to_nat (col t))) as [v Hv]; [lia|]. rewrite Hv. cbn [default id].
  pose proof (upmax_le v (screenlen t)) as (_ & _ & [->| ->]); [exact (Forall_lookup_1 _ _ _ _ Hall Hv)|by right].
Qed.

Lemma column_widths_total threshold ds t : tablestart t = ds -> help_ok ds ->
  exists t' x, column_widths threshold t = Ret (t', x) /\ tablestart t' = ds /\ widths_ok threshold x.
Proof.
  intros Ht Hh. unfold column_widths. destruct (restartTable_total ds t Ht Hh) as (t1 & -> & H1 & H2 & H3 & H4). cbn [mbind outcome_bind].
  destruct (each_row_total (fun t x => each_part (width_part threshold) (row_fuel t) t x) (widths_ok threshold)) with (ds := ds) (t := t1) (x := (0, replicate 8 0))
    as (t2 & x2 & -> & H5 & _ & H6); try done.
  - intros s t2 x Ha Hx. apply (each_part_total (width_part threshold) (widths_ok threshold)); [|done|done].
    intros s' p t3 x' Hr _ Hx'. by eapply width_part_total.
  - split; [done|]. split; [done|]. by repeat constructor.
  - exists t2, x2. split; [done|]. split; [congruence|done].
Qed.

Lemma foldl_upmax l m : m <= foldl upmax m l /\ (foldl upmax m l = m \/ In (foldl upmax m l) l) /\ Forall (fun v => v <= foldl upmax m l) l.
Proof.
  revert m. induction l as [|x l IH]; intros m; cbn; [split_and!; [lia|by left|done]|].
  destruct (IH (upmax m x)) as (H1 & H2 & H3). pose proof (upmax_le m x) as (U1 & U2 & U3). split_and!; [lia| |constructor; [lia|done]].
  destruct H2 as [->|H2]; [|right; by right]. destruct U3 as [U|U]; rewrite U; [by left|right; by left].
Qed.

Lemma sum_nonpos l : Forall (fun v => v <= 0) l -> foldr Z.add 0 l <= 0.
Proof. induction 1; cbn; lia. Qed.

(** The threshold decreases from pass to pass. *)
Lemma layout_loop_total fuel width threshold ds t : 1 <= width -> 1 <= threshold <= Z.of_nat fuel + 1 -> tablestart t = ds -> help_ok ds ->
  exists t' x, layout_loop fuel width threshold t = Ret (t', x) /\ tablestart t' = ds /\ 0 <= x.1 < 8.
Proof.
  intros Hw. revert threshold t. induction fuel as [|fuel IH]; intros threshold t Hth Ht Hh.
  all: destruct (column_widths_total threshold ds t Ht Hh) as (t1 & [l cw] & E & H1 & (Hl & Hlen & Hall)); cbn [layout_loop]; rewrite E; cbn [mbind outcome_bind].
  all: destruct (Z.ltb_spec width (foldr Z.add 0 (take (Z.to_nat l) cw))) as [Hlt|]; [|exists t1, (l, cw); split; [done|]; by split].
  all: set (left := take (Z.to_nat l) cw) in *; destruct (foldl_upmax left 0) as (Hm0 & Hmem & Hmax).
  all: assert (Forall (fun v => v = 0 \/ 0 <= v < threshold) left) as Hleft by by apply Forall_take.
  all: assert (foldl upmax 0 left < threshold) as Hdec by (destruct Hmem as [->|Hin]; [lia|]; rewrite List.Forall_forall in Hleft; destruct (Hleft _ Hin); lia).
  all: assert (0 < foldl upmax 0 left) as Hpos by (destruct (Z.lt_ge_cases 0 (foldl upmax 0 left)); [done|]; exfalso;
    assert (foldr Z.add 0 left <= 0) by (apply sum_nonpos; eapply Forall_impl; [exact Hmax|]; cbn; lia); lia).
  - lia.
  - apply IH; [lia|done|done].
Qed.

(** *** Rows *)

Definition printer_ok (p : printer) : Prop := lw_ok (p_last p) /\ lw_ok (p_inter p).

Lemma part_data_ok s p t : in_row s p t -> text_ok (part_data t).
Proof. intros H. unfold part_data. rewrite (ir_ptr _ _ _ H). apply text_ok_take, H. Qed.

Lemma print_part_total l s q t p : in_row s q t -> printer_ok p -> exists p', print_part l t p = Ret p' /\ printer_ok p'.
Proof.
  intros H [H1 H2]. unfold print_part. destruct (l_last l <? column t); [by exists p|].
  destruct (if column t =? 0 then _ else _) as [x out]. destruct (indent x _ out) as [x' out'].
  destruct ((column t <? l_last l) && in_table t); [by eexists|]. destruct (negb (l_own_line l) || negb (column t =? l_last l)); [|by eexists].
  destruct (column t =? 0).
  - destruct (process_total (part_data t) (p_inter p) out' H2 (part_data_ok s q t H)) as (w & o & ls & r & -> & _ & Hw & _). by eexists.
  - destruct (process_total (part_data t) (p_last p) out' H1 (part_data_ok s q t H)) as (w & o & ls & r & -> & _ & Hw & _). by eexists.
Qed.

Lemma print_own_line_total l s q t p : in_row s q t -> printer_ok p -> exists p', print_own_line l t p = Ret p' /\ printer_ok p'.
Proof.
  intros H [H1 H2]. unfold print_own_line. destruct (column t =? l_last l); [|by exists p].
  destruct (process_total (part_data t) (p_last p) (indent 0 (l_width l - l_right l) (write [NL] (p_out p))).2 H1 (part_data_ok s q t H))
    as (w & o & ls & r & -> & _ & Hw & _). by eexists.
Qed.

Lemma print_row_total l s t p : at_row s t -> printer_ok p -> ends_row printer_ok s t (print_row l t p).
Proof.
  intros Ha Hp. unfold print_row.
  destruct (each_part_total (print_part l) printer_ok (fun s q t x H _ => print_part_total l s q t x H) s t
    (mkPrinter (-1) (p_last p) (p_inter p) (p_out p)) Ha Hp) as (t1 & q1 & p1 & -> & Hs1 & Hq1 & Hqt1 & Hql1 & Hp1). cbn [mbind outcome_bind].
  assert (ends_row printer_ok s t (if l_own_line l then each_part (print_own_line l) (row_fuel (restartRow t1)) (restartRow t1) p1 else Ret (t1, p1)))
    as (t2 & q2 & p2 & -> & Hs2 & Hq2 & Hqt2 & Hql2 & [Hp2 Hp2']).
  { destruct (l_own_line l); [|by exists t1, q1, p1]. pose proof Hs1 as (_ & _ & Hr1).
    assert (at_row s (restartRow t1)) as Ha1 by (apply at_restartRow; [rewrite Hr1|]; apply Ha).
    destruct (each_part_total (print_own_line l) printer_ok (fun s q t x H _ => print_own_line_total l s q t x H) s (restartRow t1) p1 Ha1 Hp1)
      as (t2 & q2 & p2 & Hrun & Hs2 & ?). exists t2, q2, p2. split; [exact Hrun|]. split; [|done]. by eapply same_row_trans. }
  cbn [mbind outcome_bind]. destruct (flush_total (p_last p2) (write [NL] (p_out p2)) Hp2) as (w & -> & Hw & _). cbn [mbind outcome_bind].
  match goal with |- context [flush (p_inter p2) ?o] => destruct (flush_total (p_inter p2) o Hp2') as (w' & -> & Hw' & _) end. cbn [mbind outcome_bind].
  eexists t2, q2, _. split; [done|]. by split_and!.
Qed.

(** *** Tables *)

Lemma print_table_total width mw ow ds t out : 1 <= width -> tablestart t = ds -> help_ok ds ->
  exists t' out', print_table width mw ow t out = Ret (t', out') /\ tablestart t' = ds /\ rowdesc t' <> None.
Proof.
  intros Hw Ht Hh. unfold print_table.
  destruct (layout_loop_total (Z.to_nat 10000) width 10000 ds t Hw ltac:(lia) Ht Hh) as (t1 & x & -> & H1 & _). cbn [mbind outcome_bind].
  destruct (restartTable_total ds t1 H1 Hh) as (t2 & -> & H2 & H3 & H4 & H5). cbn [mbind outcome_bind].
  match goal with |- context [each_row (print_row ?l) _ _ ?p0] =>
    destruct (each_row_total (print_row l) printer_ok (print_row_total l) ds t2 p0) as (t3 & p3 & -> & H6 & H7 & _) end; try done.
  { split; apply LineWrapper_ok. }
  cbn [mbind outcome_bind]. eexists _, _. split; [done|]. split; [congruence|done].
Qed.

Lemma skip_rows_total go (ds : list (Descriptor S)) : help_ok ds ->
  exists ds', skip_rows go ds = Ret ds' /\ help_ok ds' /\ (length ds' <= length ds)%nat /\
    (match ds with d :: _ => go d = true /\ shortopt d <> None | [] => False end -> (length ds' < length ds)%nat).
Proof.
  induction 1 as [d r Hs Hd|d r Hs Ht Hr IH]; cbn [skip_rows].
  - rewrite Hs. cbn. rewrite andb_false_r. exists (d :: r). split; [done|]. split; [by constructor|]. split; [done|]. by intros [_ ?].
  - assert (is_end (shortopt d) = false) as -> by by destruct (shortopt d). cbn. rewrite andb_true_r. destruct (go d) eqn:Eg.
    + destruct IH as (ds' & -> & H1 & H2 & _). exists ds'. split_and!; done || lia.
    + exists (d :: r). split; [done|]. split; [by constructor|]. split; [done|]. by intros [? _].
Qed.

Definition has_help (ds : list (Descriptor S)) : Prop := match ds with d :: _ => help d <> None /\ shortopt d <> None | [] => False end.

Lemma nextTable_total ds t : tablestart t = ds -> help_ok ds ->
  exists b t' ds', nextTable t = Ret (b, t') /\ tablestart t' = ds' /\ help_ok ds' /\ (length ds' <= length ds)%nat /\ (b = true -> has_help ds') /\
    (rowdesc t <> None -> has_help ds -> (length ds' < length ds)%nat).
Proof.
  intros Ht Hh. unfold nextTable. rewrite Ht.
  assert (exists ds1, match rowdesc t with None => Ret ds | Some _ => skip_rows (fun d => negb (is_end (help d))) ds end = Ret ds1 /\
    help_ok ds1 /\ (length ds1 <= length ds)%nat /\ (rowdesc t <> None -> has_help ds -> (length ds1 < length ds)%nat)) as (ds1 & -> & H1 & H2 & H3).
  { destruct (rowdesc t); [|by exists ds]. destruct (skip_rows_total (fun d => negb (is_end (help d))) ds Hh) as (ds1 & -> & K1 & K2 & K3). exists ds1.
    split_and!; try done. intros _ Hhelp. apply K3. destruct ds as [|d ds]; [done|]. destruct Hhelp as [Ha Hb]. split; [by destruct (help d)|done]. }
  cbn [mbind outcome_bind]. destruct (skip_rows_total (fun d => is_end (help d)) ds1 H1) as (ds2 & -> & K1 & K2 & _). cbn [mbind outcome_bind].
  match goal with |- context [restartTable ?t1] => destruct (restartTable_total ds2 t1 eq_refl K1) as (t2 & -> & L1 & L2 & L3 & L4) end. cbn [mbind outcome_bind].
  eexists _, t2, ds2. split; [done|]. split; [done|]. split; [done|]. split; [lia|]. split; [|intros ? Hx; specialize (H3 H Hx); lia].
  rewrite L4. destruct ds2 as [|d ds2]; [done|]. cbn. intros Hb. inversion K1; subst; (destruct (help d) eqn:Ehd; [|done]); [congruence|by split].
Qed.

Lemma print_tables_total fuel width mw ow ds t out : 1 <= width -> tablestart t = ds -> help_ok ds ->
  (rowdesc t = None /\ (length ds <= fuel)%nat \/ rowdesc t <> None /\ has_help ds /\ (length ds <= Datatypes.S fuel)%nat) ->
  exists out', print_tables fuel width mw ow t out = Ret out'.
Proof.
  intros Hw. revert ds t out. induction fuel as [|fuel IH]; intros ds t out Ht Hh Hf.
  all: destruct (nextTable_total ds t Ht Hh) as (b & t1 & ds1 & E & H1 & H2 & H3 & H4 & H5); cbn [print_tables]; rewrite E; cbn [mbind outcome_bind].
  all: destruct b; [|by eexists]; specialize (H4 eq_refl).
  all: assert (1 <= length ds1)%nat as Hpos by (destruct ds1; [done|cbn; lia]).
  all: assert (length ds1 <= length ds /\ (rowdesc t = None \/ length ds1 < length ds))%nat as [Hle Hlt]
    by (split; [done|]; destruct Hf as [[? _]|(Hr & Hhelp & _)]; [by left|right; by apply H5]).
  - destruct Hf as [[_ Hf]|(Hr & _ & Hf)]; destruct Hlt; lia || done.
  - destruct (print_table_total width mw ow ds1 t1 out Hw H1 H2) as (t2 & out2 & -> & H6 & H7). cbn [mbind outcome_bind].
    apply (IH ds1); [done|done|]. right. split; [done|]. split; [done|]. destruct Hf as [[_ Hf]|(Hr & _ & Hf)]; destruct Hlt; lia || done.
Qed.
End printing.

(** C29: Printing the usage returns, for every table of options that ends with its
    null entry and whose help texts hold no byte 255, at every width: the passes over
    the columns, the walks over tables, rows and parts, and the wrapping of lines all
    come to an end without leaving the table or a text. *)
Theorem printUsage_returns {S} (usage : list (Descriptor S)) width percent own_percent out :
  help_ok usage -> exists text, printUsage usage width percent own_percent out = Ret text.
Proof.
  intros H. unfold printUsage. apply (print_tables_total _ _ _ _ usage); [|done|done|by left].
  destruct (Z.ltb_spec width 1); [done|]. destruct (Z.ltb_spec 10000 width); lia.
Qed.

(** ** Witnesses *)

Definition wit_row : Descriptor unit :=
  mkDescriptor _ 1 0 (Some []) (Some [ "v"%char ]) (Some Arg_None) (Some [ "v"%char; HT; "o"%char; "n"%char; VT; "x"%char ]).
Definition wit_end : Descriptor unit := mkDescriptor _ 0 0 None None None None.

Lemma printUsage_returns_witness :
  printUsage_default [wit_row; wit_end] = Ret [ "v"%char; "o"%char; "n"%char; NL; " "%char; "x"%char; NL ] /\
  exists text, printUsage [wit_row; wit_end] 3 50 75 [] = Ret text.
Proof.
  split; [vm_compute; reflexivity|]. apply (printUsage_returns [wit_row; wit_end] 3 50 75 []).
  apply help_entry; [done| |by apply help_end]. cbn. unfold text_ok. repeat constructor; vm_compute; congruence.
Defined.

