(* ===== verification/CollectorConfig.v ===== *)
(** * The configuration at start-up ([EnvVar.h], [CollectorConfig.h], [CollectorConfig.cpp],
      [TlsConfig.h], [GRPC.cpp]: [CheckGrpcServer], [Logging.cpp]: levels)

    The environment is a function.  JSON documents belong to JsonCpp and are
    abstract: a class has the operations that the code uses.  Exceptions that
    nothing catches and fatal messages are errors ([Host.Res]).  What a machine
    makes of a conversion that the language leaves undefined is a parameter. *)

From S2P Require Import OptList Prelude HostOrder UMap NetAddress Connection ExternalIPs CStrings Utility Host Floats NetParse.

(** ** Environment variables *)

(** [ParseT]: [None] when the text is refused. *)
Class ParseT (T : Type) := parse_text : chars -> Res (option T).

Definition lift_num {A} (r : num_error + A) : Res A :=
  match r with inr a => ret a | inl invalid_argument => inl Thrown | inl out_of_range => inl Host.OutOfRange end.

Definition ParseBool (str_val : chars) : Res (option bool) :=
  match str_val with
  | [] => ret None
  | _ => ret (Some (bool_decide (map tolower str_val = chars_of "true")))
  end.
Definition ParseStringList (str_val : chars) : Res (option (list chars)) := ret (Some (SplitStringView str_val ",")).
(** Also [ParsePath]: a path is its text. *)
Definition ParseString (str_val : chars) : Res (option chars) := ret (Some str_val).
Definition ParseInt (str_val : chars) : Res (option Z) := let! v := lift_num (stoi str_val) in ret (Some v).
Definition ParseFloat (str_val : chars) : Res (option float) := let! v := lift_num (stof binary32 str_val) in ret (Some v).

#[export] Instance ParseT_bool : ParseT bool := ParseBool.
#[export] Instance ParseT_list : ParseT (list chars) := ParseStringList.
#[export] Instance ParseT_string : ParseT chars := ParseString.
#[export] Instance ParseT_int : ParseT Z := ParseInt.
#[export] Instance ParseT_float : ParseT float := ParseFloat.

Record EnvVar (T : Type) := mkEnvVar { env_var_name_ : chars; val_ : option T; init_once_ : bool }.
Arguments mkEnvVar {T}.
Arguments env_var_name_ {T}.
Arguments val_ {T}.
Arguments init_once_ {T}.

Definition EnvVar_make {T} (name : string) (def : option T) : EnvVar T := mkEnvVar (chars_of name) def false.

Section env.
Variable getenv : chars -> option chars.

(** [std::call_once] runs until a run does not throw. *)
Definition tryValue {T} `{ParseT T} (v : EnvVar T) : Res (option T * EnvVar T) :=
  if init_once_ v then ret (val_ v, v)
  else
    match getenv (env_var_name_ v) with
    | None => ret (val_ v, mkEnvVar (env_var_name_ v) (val_ v) true)
    | Some env_val =>
        let! val := parse_text env_val in
        let val := match val with Some x => Some x | None => val_ v end in
        ret (val, mkEnvVar (env_var_name_ v) val true)
    end.

(** The variables are read while they are as they were made, or give the same. *)
Definition tried {T} `{ParseT T} (v : EnvVar T) : Res (option T) := let! (o, _) := tryValue v in ret o.
Definition hasValue {T} `{ParseT T} (v : EnvVar T) : Res bool := let! o := tried v in ret (match o with Some _ => true | None => false end).
Definition value {T} `{ParseT T} (v : EnvVar T) : Res T :=
  let! o := tried v in match o with Some x => ret x | None => inl Thrown end.
Definition valueOr {T} `{ParseT T} (v : EnvVar T) (alt : T) : Res T :=
  let! h := hasValue v in if h : bool then value v else ret alt.
End env.

Definition kEnableProcessesListeningOnPorts : bool := true.
Definition kTurnOffScrape : bool := false.
Definition kScrapeInterval : Z := 30.
Definition kCollectionMethod : CollectionMethod := CORE_BPF.
Definition kMaxConnectionsPerMinute : Z := 2048.

Definition disable_network_flows := EnvVar_make "ROX_COLLECTOR_DISABLE_NETWORK_FLOWS" (Some false).
Definition ports_feature_flag := EnvVar_make "ROX_NETWORK_GRAPH_PORTS" (Some true).
Definition network_drop_ignored := EnvVar_make "ROX_NETWORK_DROP_IGNORED" (Some true).
Definition ignored_networks := EnvVar_make "ROX_IGNORE_NETWORKS" (Some [chars_of "169.254.0.0/16"; chars_of "fe80::/10"]).
Definition non_aggregated_networks := EnvVar_make "ROX_NON_AGGREGATED_NETWORKS" (Some ([] : list chars)).
Definition enable_afterglow := EnvVar_make "ROX_ENABLE_AFTERGLOW" (Some true).
Definition afterglow_period := EnvVar_make "ROX_AFTERGLOW_PERIOD" (Some (of_Z binary32 300)).
Definition set_enable_core_dump := EnvVar_make "ENABLE_CORE_DUMP" (Some false).
Definition set_processes_listening_on_ports :=
  EnvVar_make "ROX_PROCESSES_LISTENING_ON_PORT" (Some kEnableProcessesListeningOnPorts).
Definition set_import_users := EnvVar_make "ROX_COLLECTOR_SET_IMPORT_USERS" (Some false).
Definition collect_connection_status := EnvVar_make "ROX_COLLECT_CONNECTION_STATUS" (Some true).
Definition enable_external_ips := EnvVar_make "ROX_COLLECTOR_EXTERNAL_IPS_ENABLE" (Some false).
Definition enable_connection_stats := EnvVar_make "ROX_COLLECTOR_ENABLE_CONNECTION_STATS" (Some true).
Definition enable_detailed_metrics := EnvVar_make "ROX_COLLECTOR_ENABLE_DETAILED_METRICS" (Some true).
Definition enable_runtime_config := EnvVar_make "ROX_COLLECTOR_RUNTIME_CONFIG_ENABLED" (Some false).
Definition use_docker_ce := EnvVar_make "ROX_COLLECTOR_CE_USE_DOCKER" (Some false).
Definition use_podman_ce := EnvVar_make "ROX_COLLECTOR_CE_USE_PODMAN" (Some false).
Definition enable_introspection := EnvVar_make "ROX_COLLECTOR_INTROSPECTION_ENABLE" (Some false).
Definition track_send_recv := EnvVar_make "ROX_COLLECTOR_TRACK_SEND_RECV" (Some false).
Definition log_level := EnvVar_make "ROX_COLLECTOR_LOG_LEVEL" (None : option chars).
Definition scrape_interval := EnvVar_make "ROX_COLLECTOR_SCRAPE_INTERVAL" (None : option Z).
Definition scrape_off := EnvVar_make "ROX_COLLECTOR_SCRAPE_DISABLED" (None : option bool).
Definition grpc_server := EnvVar_make "GRPC_SERVER" (None : option chars).
Definition collector_config := EnvVar_make "COLLECTOR_CONFIG" (None : option chars).
Definition collection_method := EnvVar_make "COLLECTION_METHOD" (None : option chars).
Definition nats_url := EnvVar_make "NATS_URL" (None : option chars).
Definition cluster_id := EnvVar_make "CLUSTER_ID" (None : option chars).
Definition tls_certs_path := EnvVar_make "ROX_COLLECTOR_TLS_CERTS" (None : option chars).
Definition tls_ca_path := EnvVar_make "ROX_COLLECTOR_TLS_CA" (None : option chars).
Definition tls_client_cert_path := EnvVar_make "ROX_COLLECTOR_TLS_CLIENT_CERT" (None : option chars).
Definition tls_client_key_path := EnvVar_make "ROX_COLLECTOR_TLS_CLIENT_KEY" (None : option chars).
Definition disable_process_arguments := EnvVar_make "ROX_COLLECTOR_NO_PROCESS_ARGUMENTS" (Some false).

(** ** Log levels *)

Module LogLevel.
Inductive t := FATAL | CRITICAL | ERROR | WARNING | NOTICE | INFO | DEBUG | TRACE.
#[global] Instance t_eq_dec : EqDecision t.
Proof. solve_decision. Defined.
Definition to_Z (l : t) : Z :=
  match l with
  | FATAL => 1 | CRITICAL => 2 | ERROR => 3 | WARNING => 4 | NOTICE => 5 | INFO => 6 | DEBUG => 7 | TRACE => 8
  end.
End LogLevel.

Definition GetLogLevelName (level : LogLevel.t) : chars :=
  chars_of
  match level with
  | LogLevel.TRACE => "TRACE"
  | LogLevel.DEBUG => "DEBUG"
  | LogLevel.INFO => "INFO"
  | LogLevel.WARNING => "WARNING"
  | LogLevel.ERROR => "ERROR"
  | LogLevel.FATAL => "FATAL"
  | _ => "UNKNOWN"
  end.

Definition all_levels : list LogLevel.t :=
  [LogLevel.TRACE; LogLevel.DEBUG; LogLevel.INFO; LogLevel.WARNING; LogLevel.ERROR; LogLevel.FATAL].

(** The map is filled in the order of the levels. *)
Definition name_to_level_map : UMap chars LogLevel.t :=
  fold_left (fun m level => (umap_emplace chars_eqb (GetLogLevelName level) level m).1) all_levels [].

Definition ParseLogLevelName (name : chars) : option LogLevel.t :=
  umap_find chars_eqb (map toupper name) name_to_level_map.

Definition CheckLogLevel (g_level level : LogLevel.t) : bool := LogLevel.to_Z level <=? LogLevel.to_Z g_level.

(** ** Checks of arguments *)

Definition CheckGrpcServer (server : chars) : ArgStatus * chars :=
  match server with
  | [] => (ARG_IGNORE, chars_of "Missing grpc list. Cannot configure GRPC client. Reverting to stdout.")
  | _ =>
      if (255 <? length server)%nat then (ARG_ILLEGAL, chars_of "GRPC Server addr too long (> 255)")
      else
        match find_char ":" server 0 with
        | None => (ARG_ILLEGAL, chars_of "Malformed grpc server addr")
        | Some marker =>
            match take marker server with
            | [] => (ARG_ILLEGAL, chars_of "Missing grpc host")
            | _ =>
                match drop (marker + 1) server with
                | [] => (ARG_ILLEGAL, chars_of "Missing grpc port")
                | _ => (ARG_OK, [])
                end
            end
        end
  end.

(** The overload for a pointer. *)
Definition CheckGrpcServer_ptr (server : option chars) : ArgStatus * chars :=
  match server with
  | None => (ARG_IGNORE, chars_of "Missing grpc list. Cannot configure GRPC client. Reverting to stdout.")
  | Some s => CheckGrpcServer s
  end.

(** JsonCpp; [json_get] is [operator[]], which throws unless the value is an object
    or null. *)
Class JsonLib := {
  Json : Type;
  json_null : Json;
  json_empty : Json -> bool;
  json_get : Json -> chars -> Res Json;
  asString : Json -> Res chars;
  asInt : Json -> Res Z;
  asBool : Json -> Res bool;
  json_read : chars -> chars + Json (* the error messages *)
}.

(** The document is returned when the status is [ARG_OK]. *)
Definition CheckConfiguration `{JsonLib} (config : option chars) : ArgStatus * chars * option Json :=
  match config with
  | None => (ARG_IGNORE, chars_of "Missing collector config", None)
  | Some text =>
      match json_read text with
      | inl messages =>
          (ARG_ILLEGAL, chars_of "A valid JSON configuration is required to start the collector: " ++ messages, None)
      | inr root => (ARG_OK, [], Some root)
      end
  end.

(** [CollectorArgs], as [InitCollectorConfig] finds it. *)
Record CollectorArgs `{json : JsonLib} := mkCollectorArgs {
  collectorConfig : Json; collectionMethod : option CollectionMethod; message : chars; grpcServer : chars
}.

(** ** The configuration *)

Record TlsConfig := mkTlsConfig { ca_ : chars; clientCert_ : chars; clientKey_ : chars }.
Definition TlsConfig_IsValid (c : TlsConfig) : bool :=
  negb (is_empty (ca_ c)) && negb (is_empty (clientCert_ c)) && negb (is_empty (clientKey_ c)).

Record CollectorConfig := mkCollectorConfig {
  scrape_interval_ : Z; collection_method_ : CollectionMethod; turn_off_scrape_ : bool;
  syscalls_ : list chars; host_proc_ : chars; disable_network_flows_ : bool; scrape_listen_endpoints_ : bool;
  ignored_l4proto_port_pairs_ : list L4ProtoPortPair; ignored_networks_ : list IPNet;
  non_aggregated_networks_ : list IPNet; host_config_ : HostConfig; afterglow_period_micros_ : Z;
  enable_afterglow_ : bool; enable_core_dump_ : bool; enable_processes_listening_on_ports_ : bool;
  import_users_ : bool; collect_connection_status_ : bool; enable_external_ips_ : bool;
  enable_connection_stats_ : bool; enable_detailed_metrics_ : bool; enable_runtime_config_ : bool;
  use_docker_ce_ : bool; use_podman_ce_ : bool; enable_introspection_ : bool; track_send_recv_ : bool;
  connection_stats_quantiles_ : list float; connection_stats_error_ : float; connection_stats_window_ : Z;
  max_connections_per_minute_ : Z; grpc_server_ : option chars; nats_url_ : option chars; cluster_id_ : chars;
  disable_process_arguments_ : bool; sinsp_cpu_per_buffer_ : Z; sinsp_buffer_size_ : Z;
  sinsp_total_buffer_size_ : Z; sinsp_thread_cache_size_ : Z; tls_config_ : option TlsConfig;
  runtime_config_ : option RuntimeConfig
}.

Definition kSyscalls (s390x : bool) : list chars :=
  map chars_of (["accept"; "accept4"; "chdir"; "clone"; "clone3"; "close"; "connect"; "execve"; "fchdir"; "fork";
    "getsockopt"; "procexit"; "procinfo"; "setresgid"; "setresuid"; "setgid"; "setuid"; "shutdown"; "socket"]%string ++
    (if s390x then ["syscall"%string] else []) ++ ["vfork"%string]).
Definition kSendRecvSyscalls : list chars :=
  map chars_of ["sendto"; "sendmsg"; "sendmmsg"; "recvfrom"; "recvmsg"; "recvmmsg"]%string.
Definition kIgnoredL4ProtoPortPairs : list L4ProtoPortPair := [(L4Proto.UDP, 9)].

Section init.
Context `{ho : HostOrder} `{json : JsonLib}.
Variable getenv : chars -> option chars.
Variable env : HostEnv.
Variable s390x : bool.
(** The defaults of libsinsp. *)
Variables DEFAULT_CPU_FOR_EACH_BUFFER DEFAULT_DRIVER_BUFFER_BYTES_DIM : Z.
(** Numeric addresses and undefined conversions (see [NetParse] and [Floats]). *)
Variable getaddrinfo : chars -> Z * option (list Z).
Variable uninit : list Z.
Variable ub : float -> Z.

Definition SECOND : Z := 1000000.
Definition max_afterglow_period_micros : Z := 300 * SECOND.

(** The period and whether afterglow is on; it is off before. *)
Definition HandleAfterglowEnvVars : Res (Z * bool) :=
  let! period := value getenv afterglow_period in
  let micros := s64 (to_int 0 (2 ^ 64 - 1) ub trunc_Z (fmul binary32 period (of_Z binary32 SECOND))) in
  if micros <? 0 then ret (micros, false)
  else if micros =? 0 then ret (micros, false)
  else
    let micros := if max_afterglow_period_micros <? micros then max_afterglow_period_micros else micros in
    let! on := value getenv enable_afterglow in
    ret (micros, on).

(** [getenv] of a variable, converted; the exceptions are caught here. *)
Definition env_number {A} (name : string) (conv : chars -> num_error + A) (def : A) : A :=
  match getenv (chars_of name) with
  | None => def
  | Some envvar => match conv envvar with inr v => v | inl _ => def end
  end.

(** [unsigned int] of a converted number. *)
Definition to_unsigned (r : num_error + Z) : num_error + Z := match r with inr v => inr (u32 v) | inl e => inl e end.

(** [getline] up to the end of the text, a comma after each. *)
Fixpoint read_quantiles (parts : list chars) : list float :=
  match parts with
  | [] => []
  | q :: rest => match stof binary64 q with inr v => v :: read_quantiles rest | inl _ => read_quantiles rest end
  end.

Definition HandleConnectionStatsEnvVars : list float * float * Z :=
  (match getenv (chars_of "ROX_COLLECTOR_CONNECTION_STATS_QUANTILES") with
   | None => [of_ratio binary64 50 100; of_ratio binary64 90 100; of_ratio binary64 95 100]
   | Some envvar => read_quantiles (split_ref envvar ",")
   end,
   env_number "ROX_COLLECTOR_CONNECTION_STATS_ERROR" (stof binary64) (of_ratio binary64 1 100),
   env_number "ROX_COLLECTOR_CONNECTION_STATS_WINDOW" (fun s => to_unsigned (stoi s)) 60).

(** CPUs per buffer, size of a buffer, total size, size of the thread cache. *)
Definition HandleSinspEnvVars : Z * Z * Z * Z :=
  (env_number "ROX_COLLECTOR_SINSP_CPU_PER_BUFFER" (fun s => to_unsigned (stoi s)) DEFAULT_CPU_FOR_EACH_BUFFER,
   env_number "ROX_COLLECTOR_SINSP_BUFFER_SIZE" (fun s => to_unsigned (stoll s)) DEFAULT_DRIVER_BUFFER_BYTES_DIM,
   env_number "ROX_COLLECTOR_SINSP_TOTAL_BUFFER_SIZE" (fun s => to_unsigned (stoll s)) (512 * 1024 * 1024),
   env_number "ROX_COLLECTOR_SINSP_THREAD_CACHE_SIZE" (fun s => to_unsigned (stoll s)) 32768).

(** The networks of a list that can be read; empty entries are skipped. *)
Fixpoint parse_networks (strs : list chars) : list IPNet :=
  match strs with
  | [] => []
  | str :: rest =>
      if is_empty str then parse_networks rest
      else
        match IPNet_parse getaddrinfo uninit str with
        | Some net => net :: parse_networks rest
        | None => parse_networks rest
        end
  end.

(** The JSON configuration of the command line or, without one, of the environment. *)
Definition user_config (args : CollectorArgs) : Res Json :=
  let config := collectorConfig args in
  if json_empty config then
    let! has := hasValue getenv collector_config in
    if has : bool then
      let! text := value getenv collector_config in
      match CheckConfiguration (Some text) with
      | (ARG_OK, _, Some root) => ret root
      | _ => ret config
      end
    else ret config
  else ret config.

(** A member of the JSON configuration or else the variable. *)
Definition setting {A} `{ParseT A} (config : Json) (key : string) (read : Json -> Res A) (var : EnvVar A)
    : Res (option A) :=
  let! member := json_get config (chars_of key) in
  if negb (json_empty member) then let! a := read member in ret (Some a)
  else
    let! has := hasValue getenv var in
    if has : bool then let! a := value getenv var in ret (Some a) else ret None.

(** The log level, scrape interval, switch, method, TLS files and server that the
    user chose; [None] leaves the default. *)
Definition user_log_level (config : Json) : Res (option LogLevel.t) :=
  let! level := setting config "logLevel" asString log_level in
  ret (match level with Some name => ParseLogLevelName name | None => None end).

Definition user_collection_method (args : CollectorArgs) : Res (option CollectionMethod) :=
  match collectionMethod args with
  | Some cm => ret (Some cm)
  | None =>
      let! has := hasValue getenv collection_method in
      if has : bool then let! name := value getenv collection_method in ret (Some (ParseCollectionMethod name))
      else ret None
  end.

Definition user_tls (config : Json) : Res TlsConfig :=
  let! tls := json_get config (chars_of "tlsConfig") in
  if negb (json_empty tls) then
    let! ca := json_get tls (chars_of "caCertPath") in
    let! ca := asString ca in
    let! cert := json_get tls (chars_of "clientCertPath") in
    let! cert := asString cert in
    let! key := json_get tls (chars_of "clientKeyPath") in
    let! key := asString key in
    ret (mkTlsConfig ca cert key)
  else
    let! has := hasValue getenv tls_certs_path in
    let! base := if has : bool then value getenv tls_certs_path else ret [] in
    let default_path (name : string) := if has : bool then path_append base (chars_of name) else [] in
    let! ca := valueOr getenv tls_ca_path (default_path "ca.pem") in
    let! cert := valueOr getenv tls_client_cert_path (default_path "cert.pem") in
    let! key := valueOr getenv tls_client_key_path (default_path "key.pem") in
    ret (mkTlsConfig ca cert key).

Definition user_grpc_server (args : CollectorArgs) : Res (option chars) :=
  if negb (is_empty (grpcServer args)) then ret (Some (grpcServer args))
  else
    let! has := hasValue getenv grpc_server in
    if has : bool then
      let! server := value getenv grpc_server in
      match CheckGrpcServer server with
      | (ARG_OK, _) => ret (Some server)
      | _ => ret None
      end
    else ret None.

(** What the block that needs the arguments decides. *)
Record UserChoices := mkUserChoices {
  u_log_level : option LogLevel.t; u_interval : option Z; u_scrape_off : option bool;
  u_method : option CollectionMethod; u_tls : option TlsConfig; u_grpc : option chars
}.
Definition user_choices (args : option CollectorArgs) : Res UserChoices :=
  match args with
  | None => ret (mkUserChoices None None None None None None)
  | Some args =>
      let! config := user_config args in
      let! level := user_log_level config in
      let! interval := setting config "scrapeInterval" asInt scrape_interval in
      let! off := setting config "turnOffScrape" asBool scrape_off in
      let! method := user_collection_method args in
      let! tls := user_tls config in
      let! grpc := user_grpc_server args in
      ret (mkUserChoices level interval off method (Some tls) grpc)
  end.

(** [InitCollectorConfig] on a configuration fresh from its constructor, with the
    host information and the log level of the process. *)
Definition InitCollectorConfig (args : option CollectorArgs) (h : HostInfo) (g_level : LogLevel.t)
    : Res (CollectorConfig * HostInfo * LogLevel.t) :=
  let! ports := value getenv set_processes_listening_on_ports in
  let! users := value getenv set_import_users in
  let! status := value getenv collect_connection_status in
  let! external := value getenv enable_external_ips in
  let! stats := value getenv enable_connection_stats in
  let! metrics := value getenv enable_detailed_metrics in
  let! runtime := value getenv enable_runtime_config in
  let! docker := value getenv use_docker_ce in
  let! podman := value getenv use_podman_ce in
  let! introspection := value getenv enable_introspection in
  let! send_recv := value getenv track_send_recv in
  let! no_arguments := value getenv disable_process_arguments in
  let syscalls := kSyscalls s390x ++ (if send_recv : bool then kSendRecvSyscalls else []) in
  let host_proc := GetHostPath (env_COLLECTOR_HOST_ROOT env) (chars_of "/proc") in
  let! user := user_choices args in
  let method := default kCollectionMethod (u_method user) in
  let! nats := tried getenv nats_url in
  let! cluster := tried getenv cluster_id in
  let! no_flows := value getenv disable_network_flows in
  let! endpoints := value getenv ports_feature_flag in
  let! drop_ignored := value getenv network_drop_ignored in
  let! ignored := value getenv ignored_networks in
  let! non_aggregated := value getenv non_aggregated_networks in
  let! core_dump := value getenv set_enable_core_dump in
  let! (period, afterglow) := HandleAfterglowEnvVars in
  let '(quantiles, error, window) := HandleConnectionStatsEnvVars in
  let '(cpu_per_buffer, buffer_size, total_size, cache_size) := HandleSinspEnvVars in
  let! (host_config, h) := ProcessHostHeuristics env method h in
  ret (mkCollectorConfig
    (default kScrapeInterval (u_interval user)) method (default kTurnOffScrape (u_scrape_off user))
    syscalls host_proc no_flows endpoints
    (if drop_ignored : bool then kIgnoredL4ProtoPortPairs else []) (parse_networks ignored)
    (parse_networks non_aggregated) host_config period
    afterglow core_dump ports
    users status external
    stats metrics runtime
    docker podman introspection send_recv
    quantiles error window
    kMaxConnectionsPerMinute (u_grpc user) nats (default (chars_of "local") cluster)
    no_arguments cpu_per_buffer buffer_size
    total_size cache_size (u_tls user)
    None,
    h, default g_level (u_log_level user)).

End init.

(** ** Reading the configuration *)

Definition GetCollectionMethod (c : CollectorConfig) : CollectionMethod :=
  match Host.collection_method_ (host_config_ c) with Some m => m | None => collection_method_ c end.

Definition GetExternalIPsConf (c : CollectorConfig) : ExternalIPsConfig :=
  ExternalIPsConfig_make (runtime_config_ c) (enable_external_ips_ c).

Definition set_runtime_config (r : option RuntimeConfig) (c : CollectorConfig) : CollectorConfig :=
  let (a1, a2, a3, a4, a5, a6, a7, a8, a9, a10, a11, a12, a13, a14, a15, a16, a17, a18, a19, a20, a21, a22, a23, a24,
    a25, a26, a27, a28, a29, a30, a31, a32, a33, a34, a35, a36, a37, a38, _) := c in
  mkCollectorConfig a1 a2 a3 a4 a5 a6 a7 a8 a9 a10 a11 a12 a13 a14 a15 a16 a17 a18 a19 a20 a21 a22 a23 a24
    a25 a26 a27 a28 a29 a30 a31 a32 a33 a34 a35 a36 a37 a38 r.

Definition RuntimeConfigHeuristics (c : CollectorConfig) : CollectorConfig :=
  match runtime_config_ c with
  | None => c
  | Some rc =>
      if max_connections_per_minute rc =? 0 then
        set_runtime_config (Some (mkRuntimeConfig (external_ips_enabled rc) (external_ips_direction rc)
          kMaxConnectionsPerMinute)) c
      else c
  end.

Definition MaxConnectionsPerMinute (c : CollectorConfig) : Z :=
  match runtime_config_ c with
  | Some rc => max_connections_per_minute rc
  | None => max_connections_per_minute_ c
  end.

(** [int64_t(std::round(float(max) * float(interval) / 60.0))]. *)
Definition PerContainerRateLimit (ub : float -> Z) (c : CollectorConfig) : Z :=
  to_int (- 2 ^ 63) (2 ^ 63 - 1) ub round_Z
    (fdiv binary64 (fmul binary32 (of_Z binary32 (MaxConnectionsPerMinute c)) (of_Z binary32 (scrape_interval_ c)))
       (of_Z binary64 60)).

(** [unsigned int] of [std::ceil(float(a) / float(b))]. *)
Definition ceil_div (ub : float -> Z) (a b : Z) : Z :=
  to_int 0 (2 ^ 32 - 1) ub ceil_Z (fdiv binary32 (of_Z binary32 a) (of_Z binary32 b)).

(** [std::log2] of an [unsigned int], truncated; of zero it is minus infinity. *)
Definition log2_unsigned (ub : float -> Z) (z : Z) : Z := if z =? 0 then ub (Inf true) else Z.log2 z.

Definition GetSinspBufferSize (ub : float -> Z) (c : CollectorConfig) : Z :=
  if sinsp_total_buffer_size_ c =? 0 then sinsp_buffer_size_ c
  else if sinsp_cpu_per_buffer_ c =? 0 then sinsp_buffer_size_ c
  else if num_possible_cpus_ (host_config_ c) =? 0 then sinsp_buffer_size_ c
  else
    let n_buffers := ceil_div ub (num_possible_cpus_ (host_config_ c)) (sinsp_cpu_per_buffer_ c) in
    let max_buffer_size := ceil_div ub (sinsp_total_buffer_size_ c) n_buffers in
    let maximum_power_of_two_exponent := Z.max 14 (log2_unsigned ub max_buffer_size) in
    Z.min (sinsp_buffer_size_ c) (u32 (1 <<. maximum_power_of_two_exponent)).

(** ** Buffer sizes *)

Lemma ceil_div_small ub a b : 0 < a < 2 ^ 24 -> 0 < b < 2 ^ 24 -> ceil_div ub a b = cdiv a b.
Proof.
  intros Ha Hb. unfold ceil_div.
  assert (forall z, 0 < z < 2 ^ 24 -> is_ratio (of_Z binary32 z) z 1) as Hex.
  { intros z Hz. apply of_Z_exact, representable_small; auto with collector. }
  rewrite (fdiv_ratio binary32 _ _ a b 1 1) by (auto; lia). rewrite Z.mul_1_r, Z.mul_1_l.
  destruct (ceil_ratio binary32 a b) as (m & e & -> & Hc); [auto with collector|done| |].
  { split; [lia|]. apply Z.le_trans with (2 ^ 24); [lia|]. vm_compute. discriminate. }
  cbn [to_int]. rewrite Hc.
  assert (0 <= cdiv a b <= a) as Hr.
  { split; [|apply cdiv_le; nia]. destruct (Z.le_gt_cases 0 (cdiv a b)); [done|].
    assert (a <= -1 * b); [apply cdiv_le; lia|lia]. }
  by rewrite !(proj2 (Z.leb_le _ _)) by lia.
Qed.

(** The size that the total allows for a buffer, against small integers. *)
Lemma ceil_div_bounds ub total n k :
  representable binary32 total -> total < 2 ^ 31 -> 0 < n < 2 ^ 24 -> 0 <= k <= 2 ^ 24 ->
  0 <= ceil_div ub total n < 2 ^ 32 /\
  (total <= k * n -> ceil_div ub total n <= k) /\ (k * n <= total -> k <= ceil_div ub total n).
Proof.
  intros Ht Hlt Hn Hk. assert (0 < total) as Hpos by apply Ht. unfold ceil_div.
  rewrite (fdiv_ratio binary32 _ _ total n 1 1); [|lia ..| |].
  2: by apply of_Z_exact; auto with collector.
  2: by apply of_Z_exact, representable_small; auto with collector.
  rewrite Z.mul_1_r, Z.mul_1_l.
  assert (total < 2 ^ (emax binary32 - 1)) as Hfin by (eapply Z.lt_trans; [exact Hlt|done]).
  pose proof (ceil_upper binary32 total n sane_32 Hpos ltac:(lia)) as [Hc0 Hc].
  assert (2 ^ (Z.log2 total + 1) <= 2 ^ 31) as Hl.
  { apply Z.pow_le_mono_r; [lia|]. assert (Z.log2 total < 31) by (by apply Z.log2_lt_pow2). lia. }
  destruct (ceil_bounds binary32 total n) as (m & e & E & Hb); [auto with collector|lia|lia|].
  pose proof (of_ratio_finite binary32 total n Hpos ltac:(lia) Hfin ltac:(done)) as E'. rewrite E in E'.
  injection E' as -> ->. rewrite E. cbn [to_int]. cbn [round_pos fst] in Hc, Hc0. rewrite !(proj2 (Z.leb_le _ _)) by lia. cbn [andb].
  split; [lia|]. by apply Hb.
Qed.

Lemma cdiv_pos n d : 0 < n -> 0 < d -> 0 < cdiv n d <= n.
Proof.
  intros Hn Hd. split; [|apply cdiv_le; nia].
  destruct (Z.lt_ge_cases 0 (cdiv n d)) as [|Hc]; [done|]. apply cdiv_le in Hc; lia.
Qed.

Section sinsp.
Variable ub : float -> Z.
Variable c : CollectorConfig.
Abbreviation cpus := (num_possible_cpus_ (host_config_ c)).
Abbreviation total := (sinsp_total_buffer_size_ c).
Abbreviation size := (sinsp_buffer_size_ c).
Abbreviation n := (cdiv cpus (sinsp_cpu_per_buffer_ c)).
Hypothesis Hcpus : 0 < cpus < 2 ^ 24.
Hypothesis Hper : 0 < sinsp_cpu_per_buffer_ c < 2 ^ 24.
Hypothesis Hsize : 0 < size <= 2 ^ 24.
Hypothesis Ht : representable binary32 total.
Hypothesis Hlt : total < 2 ^ 31.

(** The size is cut to the power of two below the share [mx] of a buffer. *)
Lemma sinsp_share :
  exists mx, 0 < mx < 2 ^ 32 /\ GetSinspBufferSize ub c = Z.min size (2 ^ Z.max 14 (Z.log2 mx)) /\
    forall k, 0 <= k <= 2 ^ 24 -> (total <= k * n -> mx <= k) /\ (k * n <= total -> k <= mx).
Proof.
  assert (0 < total) as Hpos by apply Ht. pose proof (cdiv_pos cpus (sinsp_cpu_per_buffer_ c) ltac:(lia) ltac:(lia)) as Hn.
  exists (ceil_div ub total n). set (mx := ceil_div ub total n).
  assert (forall k, 0 <= k <= 2 ^ 24 -> 0 <= mx < 2 ^ 32 /\ (total <= k * n -> mx <= k) /\ (k * n <= total -> k <= mx))
    as Hb by (intros k Hk; apply ceil_div_bounds; lia || done).
  assert (0 < mx < 2 ^ 32) as Hmx.
  { split; [|by destruct (Hb 0 ltac:(lia)) as [[_ ?] _]]. destruct (Z.le_gt_cases (1 * n) total) as [Hle|Hgt].
    - destruct (Hb 1 ltac:(lia)) as (_ & _ & H1). specialize (H1 Hle). lia.
    - subst mx. rewrite ceil_div_small by lia. apply cdiv_pos; lia. }
  split; [done|]. split; [|intros k Hk; by apply Hb].
  assert (Z.log2 mx < 32) as Hl32 by (apply Z.log2_lt_pow2; lia).
  unfold GetSinspBufferSize. rewrite !(proj2 (Z.eqb_neq _ 0)) by lia.
  rewrite (ceil_div_small ub cpus) by lia. fold mx. unfold log2_unsigned. rewrite (proj2 (Z.eqb_neq mx 0)) by lia.
  rewrite Z.shiftl_1_l. f_equal. apply wrap_id. unfold in_range. split; [lia|]. apply Z.pow_lt_mono_r; lia.
Qed.

Lemma GetSinspBufferSize_within :
  GetSinspBufferSize ub c <= 2 ^ 14 \/ GetSinspBufferSize ub c * n < total + n.
Proof.
  destruct sinsp_share as (mx & Hmx & -> & Hb). pose proof (Z.log2_spec mx ltac:(lia)) as [Hl1 _].
  pose proof (cdiv_pos cpus (sinsp_cpu_per_buffer_ c) ltac:(lia) ltac:(lia)) as Hn.
  destruct (Z.le_gt_cases (Z.log2 mx) 14) as [Hle|H14].
  { left. rewrite Z.max_l by done. lia. }
  right. rewrite Z.max_r by lia. destruct (Z.le_gt_cases (Z.log2 mx) 24) as [Hle|Hgt].
  - assert (2 ^ Z.log2 mx <= 2 ^ 24) by (apply Z.pow_le_mono_r; lia).
    assert (0 < 2 ^ Z.log2 mx) by (apply Z.pow_pos_nonneg; lia).
    destruct (Hb (2 ^ Z.log2 mx - 1) ltac:(lia)) as [Hu _].
    destruct (Z.lt_ge_cases ((2 ^ Z.log2 mx - 1) * n) total) as [Hlt2|Hge]; [nia|]. specialize (Hu Hge). lia.
  - assert (2 ^ 25 <= 2 ^ Z.log2 mx) by (apply Z.pow_le_mono_r; lia).
    destruct (Hb (2 ^ 24) ltac:(lia)) as [Hu _].
    destruct (Z.lt_ge_cases (2 ^ 24 * n) total) as [Hlt2|Hge]; [nia|]. specialize (Hu Hge). lia.
Qed.

Lemma GetSinspBufferSize_largest :
  GetSinspBufferSize ub c < size ->
  exists k, 14 <= k /\ GetSinspBufferSize ub c = 2 ^ k /\ total < 2 * 2 ^ k * n.
Proof.
  destruct sinsp_share as (mx & Hmx & -> & Hb). pose proof (Z.log2_spec mx ltac:(lia)) as [_ Hl2]. intros Hsmall.
  exists (Z.max 14 (Z.log2 mx)). split; [lia|]. split; [lia|]. rewrite <- Z.pow_succ_r by lia.
  assert (Z.max 14 (Z.log2 mx) < 24) as Hk by (apply (Z.pow_lt_mono_r_iff 2); lia).
  assert (2 ^ Z.succ (Z.max 14 (Z.log2 mx)) <= 2 ^ 24) by (apply Z.pow_le_mono_r; lia).
  destruct (Hb (2 ^ Z.succ (Z.max 14 (Z.log2 mx))) ltac:(lia)) as [_ Hlo].
  destruct (Z.lt_ge_cases total (2 ^ Z.succ (Z.max 14 (Z.log2 mx)) * n)) as [|Hge]; [done|].
  specialize (Hlo ltac:(lia)).
  assert (2 ^ Z.succ (Z.log2 mx) <= 2 ^ Z.succ (Z.max 14 (Z.log2 mx))) by (apply Z.pow_le_mono_r; lia). lia.
Qed.
End sinsp.

(** C28: the ring buffers fit: with fewer than [2 ^ 24] processors, and as many per buffer,
    a configured size of at most 16 MiB and a total that is below 2 GiB and exact in
    single precision, the size of a buffer is the configured one or the largest power of
    two, at least 16 KiB (four pages), such that all of them together stay within the
    configured total, up to less than a byte per buffer; only with buffers of 16 KiB or
    less can they exceed it, as the size does not go below 16 KiB for the total. *)
Theorem sinsp_buffers_fit ub c :
  0 < num_possible_cpus_ (host_config_ c) < 2 ^ 24 -> 0 < sinsp_cpu_per_buffer_ c < 2 ^ 24 ->
  0 < sinsp_buffer_size_ c <= 2 ^ 24 ->
  representable binary32 (sinsp_total_buffer_size_ c) -> sinsp_total_buffer_size_ c < 2 ^ 31 ->
  let n := cdiv (num_possible_cpus_ (host_config_ c)) (sinsp_cpu_per_buffer_ c) in
  let r := GetSinspBufferSize ub c in
  r <= sinsp_buffer_size_ c /\
  (r <= 2 ^ 14 \/ r * n < sinsp_total_buffer_size_ c + n) /\
  (r < sinsp_buffer_size_ c -> exists k, 14 <= k /\ r = 2 ^ k /\ sinsp_total_buffer_size_ c < 2 * 2 ^ k * n).
Proof.
  intros Hcpus Hper Hsize Ht Hlt n r. destruct (sinsp_share ub c Hcpus Hper Ht Hlt) as (mx & _ & Hr & _).
  split; [subst r; lia|]. split; [by apply GetSinspBufferSize_within|by apply GetSinspBufferSize_largest].
Qed.

(** ** Rates and periods *)

(** C33: as long as the limit per minute, the interval in seconds and their product are
    positive and below 2^24, the limit of connections per scrape of a container is the
    limit per minute times the interval over a minute, rounded to the nearest integer,
    halves up, without any error of floating point. *)
Theorem PerContainerRateLimit_exact ub c :
  0 < MaxConnectionsPerMinute c < 2 ^ 24 -> 0 < scrape_interval_ c < 2 ^ 24 ->
  MaxConnectionsPerMinute c * scrape_interval_ c < 2 ^ 24 ->
  PerContainerRateLimit ub c = (MaxConnectionsPerMinute c * scrape_interval_ c + 30) / 60.
Proof.
  intros Hm Hi Hp. unfold PerContainerRateLimit.
  assert (forall z, 0 < z < 2 ^ 24 -> is_ratio (of_Z binary32 z) z 1) as Hex.
  { intros z Hz. apply of_Z_exact, representable_small; auto with collector. }
  rewrite (fmul_ratio binary32 _ _ (MaxConnectionsPerMinute c) (scrape_interval_ c) 1 1) by (auto; lia).
  set (p := MaxConnectionsPerMinute c * scrape_interval_ c) in *. assert (0 < p) as Hpos by (apply Z.mul_pos_pos; lia).
  change (1 * 1) with 1. fold (of_Z binary32 p).
  rewrite (fdiv_ratio binary64 _ _ p 60 1 1); [|lia ..| |].
  2: by apply Hex.
  2: by apply of_Z_exact, representable_small; auto with collector.
  rewrite Z.mul_1_r, Z.mul_1_l. destruct (round_ratio p 60) as (m & e & -> & Hr); [lia|lia|].
  cbn [to_int]. rewrite Hr. replace (2 * p + 60) with ((p + 30) * 2) by lia. replace (2 * 60) with (60 * 2) by lia.
  rewrite Z.div_mul_cancel_r by lia. assert (0 <= (p + 30) / 60 <= p + 30) as Hb.
  { split; [apply Z.div_pos; lia|]. apply Z.div_le_upper_bound; lia. }
  by rewrite !(proj2 (Z.leb_le _ _)) by lia.
Qed.

Section env_vars.
Variable getenv : chars -> option chars.

(** A variable that was read keeps its value, whatever becomes of the environment. *)
Lemma tryValue_stable getenv' {T} `{ParseT T} (v v' : EnvVar T) o :
  tryValue getenv v = inr (o, v') -> tryValue getenv' v' = inr (o, v').
Proof.
  unfold tryValue. destruct (init_once_ v) eqn:Ei; [intros [= <- <-]; by rewrite Ei|].
  destruct (getenv _); [|by intros [= <- <-]]. destruct (parse_text _); [done|]. by intros [= <- <-].
Qed.

(** The value of a variable that is set and can be read. *)
Lemma value_set {T} `{ParseT T} name def s x :
  getenv (chars_of name) = Some s -> parse_text s = ret (Some x) -> value getenv (EnvVar_make name def) = ret x.
Proof. intros Hg Hp. unfold value, tried, tryValue. cbn. rewrite Hg, Hp. done. Qed.
Lemma value_thrown {T} `{ParseT T} name def s e :
  getenv (chars_of name) = Some s -> parse_text s = inl e -> value getenv (EnvVar_make name def) = inl e.
Proof. intros Hg Hp. unfold value, tried, tryValue. cbn. rewrite Hg, Hp. done. Qed.
Lemma value_unset {T} `{ParseT T} name x :
  getenv (chars_of name) = None -> value getenv (EnvVar_make name (Some x)) = ret x.
Proof. intros Hg. unfold value, tried, tryValue. cbn. rewrite Hg. done. Qed.
End env_vars.

Lemma trunc_exact x z : is_ratio x z 1 -> exists m e, x = Fin m e /\ trunc_Z m e = z.
Proof.
  intros (m & e & -> & _ & E). exists m, e. split; [done|]. unfold trunc_Z. rewrite Z.mul_1_r in E. rewrite E.
  apply Z.quot_mul. pose proof (down_pos e). lia.
Qed.

Section afterglow.
Variable getenv : chars -> option chars.
Variable ub : float -> Z.

Lemma HandleAfterglow_bounded period on :
  HandleAfterglowEnvVars getenv ub = inr (period, on) ->
  (on = true -> 0 < period <= max_afterglow_period_micros) /\ period <= max_afterglow_period_micros.
Proof.
  unfold HandleAfterglowEnvVars. destruct (value getenv afterglow_period) as [|f]; [done|]. cbn [bind].
  set (micros := s64 _). unfold max_afterglow_period_micros, SECOND.
  destruct (Z.ltb_spec micros 0); [intros [= <- <-]; split; [done|lia]|].
  destruct (Z.eqb_spec micros 0); [intros [= <- <-]; split; [done|lia]|].
  destruct (value getenv enable_afterglow); [done|]. cbn [bind]. intros [= <- <-].
  destruct (Z.ltb_spec (300 * 1000000) micros); lia.
Qed.

(** [z] seconds in microseconds, through floating point. *)
Lemma seconds_exact x z :
  1 <= z <= 1000 -> is_ratio x z 1 ->
  s64 (to_int 0 (2 ^ 64 - 1) ub trunc_Z (fmul binary32 x (of_Z binary32 SECOND))) = z * SECOND.
Proof.
  intros Hz Hx. rewrite (fmul_ratio binary32 _ _ z SECOND 1 1); [|unfold SECOND; lia ..|done|].
  2: by apply of_Z_exact, representable_small; auto with collector.
  change (1 * 1) with 1. fold (of_Z binary32 (z * SECOND)).
  destruct (trunc_exact (of_Z binary32 (z * SECOND)) (z * SECOND)) as (m & e & -> & Ht).
  { apply of_Z_exact; [auto with collector|]. split; [unfold SECOND; cbn; lia|].
    exists (z * 15625), 6. change (2 ^ 6) with 64. unfold SECOND. cbn. lia. }
  cbn [to_int]. rewrite Ht. rewrite !(proj2 (Z.leb_le _ _)) by (unfold SECOND; lia). cbn [andb].
  unfold s64. rewrite (wrap_id 64) by (unfold in_range, SECOND; lia).
  by rewrite (proj2 (Z.ltb_lt (z * SECOND) (2 ^ 63))) by (unfold SECOND; lia).
Qed.

Lemma HandleAfterglow_seconds s on :
  getenv (chars_of "ROX_AFTERGLOW_PERIOD") = Some s -> value getenv enable_afterglow = inr on ->
  forallb isdigit s = true -> 1 <= (digits s 0).1 <= 1000 ->
  HandleAfterglowEnvVars getenv ub = inr (Z.min ((digits s 0).1 * SECOND) max_afterglow_period_micros, on).
Proof.
  intros Hs Hon Hd Hz. set (z := (digits s 0).1) in *. unfold HandleAfterglowEnvVars.
  destruct (stof_digits s z Hd eq_refl ltac:(lia)) as (x & Hx & Hrx).
  assert (value getenv afterglow_period = ret x) as ->.
  { apply value_set with s; [done|]. unfold parse_text, ParseT_float, ParseFloat. by rewrite Hx. }
  cbn [bind ret]. rewrite (seconds_exact x z) by done.
  rewrite (proj2 (Z.ltb_ge _ _)), (proj2 (Z.eqb_neq _ _)) by (unfold SECOND; lia). rewrite Hon. cbn [bind].
  unfold max_afterglow_period_micros, SECOND. destruct (Z.ltb_spec (300 * 1000000) (z * 1000000)); unfold ret; do 2 f_equal; lia.
Qed.
End afterglow.

(** Whatever the environment, afterglow is on only with a period between a
    microsecond and five minutes.  A whole number of seconds is taken as it is, or
    cut to five minutes; a text that is no number ends the process. *)
Theorem afterglow_settings getenv ub :
  (forall period on, HandleAfterglowEnvVars getenv ub = inr (period, on) ->
     (on = true -> 0 < period <= max_afterglow_period_micros) /\ period <= max_afterglow_period_micros) /\
  (forall s on, getenv (chars_of "ROX_AFTERGLOW_PERIOD") = Some s -> value getenv enable_afterglow = inr on ->
     (forallb isdigit s = true -> 1 <= (digits s 0).1 <= 1000 ->
      HandleAfterglowEnvVars getenv ub = inr (Z.min ((digits s 0).1 * SECOND) max_afterglow_period_micros, on)) /\
     (stof binary32 s = inl invalid_argument -> HandleAfterglowEnvVars getenv ub = inl Thrown)).
Proof.
  split; [apply HandleAfterglow_bounded|]. intros s on Hs Hon. split; [by apply HandleAfterglow_seconds|].
  intros Hx. unfold HandleAfterglowEnvVars. assert (value getenv afterglow_period = inl Thrown) as ->; [|done].
  apply value_thrown with s; [done|]. unfold parse_text, ParseT_float, ParseFloat. by rewrite Hx.
Qed.

(** ** Well-formed configurations *)

(** Inverts a successful sequence of steps. *)
Ltac inv_res H :=
  repeat match type of H with
  | bind ?r _ = inr _ => let E := fresh "E" in destruct r as [|?] eqn:E; [discriminate H|cbn [bind] in H]
  | (let '(_, _) := ?p in _) = inr _ => let E := fresh "E" in destruct p eqn:E
  end.

(** A server is a host and a port around the first colon. *)
Definition server_ok (s : chars) : Prop :=
  exists host port, s = host ++ ":"%char :: port /\ ~ In ":"%char host /\ host <> [] /\ port <> [] /\ (length s <= 255)%nat.

Lemma CheckGrpcServer_iff s : (CheckGrpcServer s).1 = ARG_OK <-> server_ok s.
Proof.
  unfold CheckGrpcServer, server_ok. destruct s as [|c r] eqn:Es.
  { split; [done|]. by intros ([|] & port & [=] & _). }
  rewrite <- Es. destruct (Nat.ltb_spec 255 (length s)) as [Hl|Hl].
  { split; [done|]. intros (host & port & _ & _ & _ & _ & H). lia. }
  unfold find_char. rewrite drop_0. destruct (find_from ":" s 0) as [marker|] eqn:Ef.
  - pose proof Ef as Hf. apply find_from_Some in Hf as (l & p & Hs & Hm & Hno). cbn in Hm. subst marker.
    rewrite Hs, take_app_length.
    replace (drop (length l + 1) (l ++ ":"%char :: p)) with p.
    2: { replace (l ++ ":"%char :: p) with ((l ++ [":"%char]) ++ p) by (by rewrite <- app_assoc).
         replace (length l + 1)%nat with (length (l ++ [":"%char])) by (by rewrite length_app). by rewrite drop_app_length. }
    destruct l as [|d l]; [|destruct p as [|q p]]; cbn.
    + split; [done|]. intros (host & port & Hh & Hnh & Hne & _). destruct host as [|x host]; [done|].
      cbn in Hh. injection Hh as <- _. by destruct Hnh; left.
    + split; [done|]. intros (host & port & Hh & Hnh & Hne & Hp & _). exfalso.
      assert (find_from ":" (d :: l ++ [":"%char]) 0 = Some (0 + length host)%nat) as H1 by (rewrite Hh; by apply find_from_app).
      assert (find_from ":" ((d :: l) ++ [":"%char]) 0 = Some (0 + length (d :: l))%nat) as H2 by (by apply find_from_app).
      cbn [app] in H2. rewrite H2 in H1. injection H1 as H1. apply (f_equal length) in Hh. cbn in Hh.
      rewrite !length_app in Hh. cbn in Hh, H1. destruct port; [done|]. cbn in Hh. lia.
    + split; [|done]. intros _. exists (d :: l), (q :: p). rewrite Hs in Hl. split_and!; try done.
  - split; [done|]. intros (host & port & -> & _). apply find_from_None in Ef. destruct Ef. apply in_app_iff. right. by left.
Qed.

(** What every configuration promises. *)
Record config_wf (c : CollectorConfig) : Prop := mkConfigWf {
  wf_grpc : forall s, grpc_server_ c = Some s -> server_ok s;
  wf_afterglow : enable_afterglow_ c = true -> 0 < afterglow_period_micros_ c <= max_afterglow_period_micros;
  wf_buffers : in_range 32 (sinsp_cpu_per_buffer_ c) /\ in_range 32 (sinsp_buffer_size_ c) /\
    in_range 32 (sinsp_total_buffer_size_ c) /\ in_range 32 (sinsp_thread_cache_size_ c);
  wf_window : in_range 32 (connection_stats_window_ c);
  wf_cpus : in_range 32 (num_possible_cpus_ (host_config_ c));
  wf_syscalls : forall s, In s kSendRecvSyscalls -> In s (syscalls_ c) <-> track_send_recv_ c = true;
  wf_limit : runtime_config_ c = None /\ MaxConnectionsPerMinute c = kMaxConnectionsPerMinute
}.

(** ** Witnesses *)

(** 150 processors, a buffer each of 8 MiB, and 1 GiB in total. *)
Definition wit_collector_config : CollectorConfig :=
  mkCollectorConfig 30 CORE_BPF false [] [] false false [] [] [] (mkHostConfig None 150) 300000000
    true false false false false false false false false false false false false [] (Fin 0 0) 60
    2048 None None [] false 1 (8 * 1024 * 1024) (2 ^ 30) 32768 None None.

Lemma sinsp_buffers_fit_witness :
  GetSinspBufferSize (fun _ => 0) wit_collector_config = 4 * 1024 * 1024 /\
  GetSinspBufferSize (fun _ => 0) wit_collector_config * 150 < 2 ^ 30 + 150.
Proof.
  split; [vm_compute; reflexivity|].
  destruct (sinsp_buffers_fit (fun _ => 0) wit_collector_config) as (_ & [H|H] & _).
  - by split.
  - by split.
  - by split.
  - split; [by split|]. exists 1, 30. by split_and!.
  - reflexivity.
  - exfalso. vm_compute in H. by apply H.
  - exact H.
Defined.

Lemma PerContainerRateLimit_exact_witness : PerContainerRateLimit (fun _ => 0) wit_collector_config = 1024.
Proof.
  rewrite (PerContainerRateLimit_exact (fun _ => 0) wit_collector_config); [vm_compute; reflexivity|by split|by split|reflexivity].
Defined.

(** Beyond that, single precision loses the exact product. *)
Example PerContainerRateLimit_inexact :
  PerContainerRateLimit (fun _ => 0) (set_runtime_config (Some (mkRuntimeConfig DISABLED DIR_UNSPECIFIED (2 ^ 30 + 1))) wit_collector_config) = 2 ^ 29 /\
  ((2 ^ 30 + 1) * 30 + 30) / 60 = 2 ^ 29 + 1.
Proof. split; [vm_compute; reflexivity|reflexivity]. Qed.

(** With 1024 processors and a total of 512 KiB, the buffers of four pages exceed it. *)
Example sinsp_minimum_exceeds_total :
  let c := mkCollectorConfig 30 CORE_BPF false [] [] false false [] [] [] (mkHostConfig None 1024) 300000000
    true false false false false false false false false false false false false [] (Fin 0 0) 60
    2048 None None [] false 1 (8 * 1024 * 1024) (512 * 1024) 32768 None None in
  GetSinspBufferSize (fun _ => 0) c = 16384 /\ 512 * 1024 < 1024 * 16384.
Proof. split; [vm_compute; reflexivity|reflexivity]. Qed.

Definition wit_period (name : chars) : option chars :=
  if chars_eqb name (chars_of "ROX_AFTERGLOW_PERIOD") then Some (chars_of "450") else None.
Lemma afterglow_settings_witness : HandleAfterglowEnvVars wit_period (fun _ => 0) = inr (300000000, true).
Proof.
  destruct (proj2 (afterglow_settings wit_period (fun _ => 0)) (chars_of "450") true) as [H _]; [reflexivity|reflexivity|].
  rewrite H; [vm_compute; reflexivity|reflexivity|vm_compute; split; discriminate].
Defined.
