(* ===== verification/CollectorArgs.v ===== *)
(** * The command line ([CollectorArgs.h], [CollectorArgs.cpp])

    The table of options, their checks, which keep the values they accept, and
    [parse]: counting the options, making the arrays, and storing the options there.
    The places of the two arrays on the stack are a parameter. *)

From stdpp Require Import gmap.
From S2P Require Import Prelude HostOrder UMap NetAddress Connection ExternalIPs CStrings Utility Host Floats NetParse OptList OptParse OptRef OptStore OptWrap OptUsage CollectorConfig.

Inductive optionIndex := UNKNOWN | HELP | COLLECTOR_CONFIG | COLLECTION_METHOD | GRPC_SERVER.
#[global] Instance optionIndex_eq_dec : EqDecision optionIndex.
Proof. solve_decision. Defined.
(** The values of the enumeration. *)
Definition option_value (i : optionIndex) : Z :=
  match i with UNKNOWN => 0 | HELP => 1 | COLLECTOR_CONFIG => 2 | COLLECTION_METHOD => 3 | GRPC_SERVER => 4 end.

Section args.
Context `{json : JsonLib}.

Definition CollectorArgs_make : CollectorArgs := mkCollectorArgs _ json_null None [] [].

Definition set_message (m : chars) (a : CollectorArgs) : CollectorArgs :=
  mkCollectorArgs _ (collectorConfig a) (collectionMethod a) m (grpcServer a).

Definition checkCollectionMethod (arg : option chars) (msg : bool) (a : CollectorArgs) : ArgStatus * CollectorArgs :=
  match arg with
  | None => (ARG_OK, if msg then set_message (chars_of "Missing collection method, using default.") a else a)
  | Some name =>
      (ARG_OK, mkCollectorArgs _ (collectorConfig a) (Some (ParseCollectionMethod name)) (message a) (grpcServer a))
  end.

Definition checkCollectorConfig (arg : option chars) (msg : bool) (a : CollectorArgs) : ArgStatus * CollectorArgs :=
  let '(status, m, root) := CheckConfiguration arg in
  let a := if msg then set_message m a else a in
  (status,
   match status, root with
   | ARG_OK, Some root => mkCollectorArgs _ root (collectionMethod a) (message a) (grpcServer a)
   | _, _ => a
   end).

Definition checkGRPCServer (arg : option chars) (msg : bool) (a : CollectorArgs) : ArgStatus * CollectorArgs :=
  let '(status, m) := CheckGrpcServer_ptr arg in
  let a :=
    match status, arg with
    | ARG_OK, Some server => mkCollectorArgs _ (collectorConfig a) (collectionMethod a) (message a) server
    | _, _ => a
    end in
  (status, if msg then set_message m a else a).

(** The functions of the table call the singleton. *)
Definition check_with (check : option chars -> bool -> CollectorArgs -> ArgStatus * CollectorArgs)
    (o : Option) (msg : bool) (a : CollectorArgs) : ArgStatus * CollectorArgs := check (rest <$> arg o) msg a.

Definition entry (i : optionIndex) (long : string) check (help : chars) : Descriptor CollectorArgs :=
  mkDescriptor _ (option_value i) 0 (Some []) (Some (chars_of long)) (Some check) (Some help).

Definition usage_entries : list (Descriptor CollectorArgs) := [
  entry UNKNOWN "" Arg_None (chars_of "USAGE: collector [options]" ++ [NL; NL] ++ chars_of "Options:");
  entry HELP "help" Arg_None (chars_of "  --help                " ++ [HT] ++ chars_of "Print usage and exit.");
  entry COLLECTOR_CONFIG "collector-config" (check_with checkCollectorConfig)
    (chars_of "  --collector-config    " ++ [HT] ++
     chars_of "Collector config as a JSON string. Please refer to documentation on the valid JSON format.");
  entry COLLECTION_METHOD "collection-method" (check_with checkCollectionMethod)
    (chars_of "  --collection-method   " ++ [HT] ++ chars_of "Collection method (ebpf or core_bpf).");
  entry GRPC_SERVER "grpc-server" (check_with checkGRPCServer)
    (chars_of "  --grpc-server         " ++ [HT] ++ chars_of "GRPC server endpoint string in the form HOST1:PORT1.");
  entry UNKNOWN "" Arg_None
    ([NL] ++ chars_of "Examples:" ++ [NL] ++ chars_of "  collector --grpc-server=" ++ ["034"%char] ++ chars_of "172.16.0.5:443" ++ ["034"%char] ++ [NL])
].
Definition usage_end : Descriptor CollectorArgs := mkDescriptor _ 0 0 None None None None.
Definition usage : list (Descriptor CollectorArgs) := usage_entries ++ [usage_end].

(** Where the two arrays are, by their sizes. *)
Variable place : Stats -> Z * Z.

(** Whether one of [n] options from position [i] on is unknown. *)
Fixpoint any_unknown (h : heap) (buffer : Z) (n : nat) (i : Z) : outcome bool :=
  match n with
  | O => Ret false
  | S n =>
      opt ← load h (slot buffer i);
      idx ← Option_index usage opt;
      if idx =? option_value UNKNOWN then Ret true else any_unknown h buffer n (i + 1)
  end.

(** Whether to go on, the exit code, and the arguments. *)
Definition Args_parse (argc : Z) (argv : argvec) (a : CollectorArgs) : outcome (bool * Z * CollectorArgs) :=
  let argc := if 0 <? argc then argc - 1 else argc in
  let argv := if 0 <? argc then drop 1 argv else argv in
  '(stats, args, a) ← Stats_make usage argc (Some argv) a;
  let '(options, buffer) := place stats in
  '(parse, h, _, a) ← Parser_make usage argc args options buffer
    (fresh_nodes options (Z.to_nat (options_max stats)) ∪ fresh_nodes buffer (Z.to_nat (buffer_max stats))) a;
  if error parse then Ret (false, 1, a)
  else
    help ← load h (slot options (option_value HELP));
    if Option_used help then out ← printUsage_default usage; Ret (false, 0, set_message out a)
    else
      unknown ← any_unknown h buffer (Z.to_nat (optionsCount parse)) 0;
      if unknown : bool then
        o ← load h (slot options (option_value UNKNOWN));
        match name o with
        | None => Crash
        | Some n => Ret (false, 1, set_message (chars_of "Unknown option: " ++ rest n) a)
        end
      else Ret (true, 0, a).
End args.

(** ** The collector's table of options *)

Section table.
Context `{json : JsonLib}.

(** The results of the checks, whatever the state. *)
Definition usage_status (i : nat) (o : Option) : ArgStatus :=
  match usage_entries !! i ≫= check_arg with Some f => (f o false CollectorArgs_make).1 | None => ARG_NONE end.

Lemma config_status s msg a : (checkCollectorConfig s msg a).1 = (CheckConfiguration s).1.1.
Proof. unfold checkCollectorConfig. by destruct (CheckConfiguration s) as [[st m] root]. Qed.
Lemma method_status s msg a : (checkCollectionMethod s msg a).1 = ARG_OK.
Proof. unfold checkCollectionMethod. by destruct s. Qed.
Lemma grpc_status s msg a : (checkGRPCServer s msg a).1 = (CheckGrpcServer_ptr s).1.
Proof. unfold checkGRPCServer. by destruct (CheckGrpcServer_ptr s). Qed.

Lemma usage_table : table_ok usage_entries usage_end usage_status.
Proof.
  split; [done|done| |].
  - repeat constructor; done.
  - intros i d f o msg s Hd Hf. unfold usage_status. rewrite Hd. cbn [mbind option_bind]. rewrite Hf. unfold usage_entries in Hd.
    destruct i as [|[|[|[|[|[|i]]]]]]; [injection Hd as <-; injection Hf as <- ..|done]. 1, 2, 6: done.
    + unfold check_with. by rewrite !config_status.
    + unfold check_with. by rewrite !method_status.
    + unfold check_with. by rewrite !grpc_status.
Qed.

Lemma usage_indices d : d ∈ usage_entries -> 0 <= index d < 2 ^ 32 - 2.
Proof. unfold usage_entries. rewrite !elem_of_cons. intros H. repeat destruct H as [->|H]; try (cbn; lia). by apply elem_of_nil in H. Qed.

Definition usage_text : chars := Eval vm_compute in match printUsage_default usage with Ret t => t | _ => [] end.
Lemma usage_text_printed : printUsage_default usage = Ret usage_text.
Proof. vm_compute. reflexivity. Qed.

(** The options of a command line, and those with a given index. *)
Definition options_of (E : list cptr) : list item := r_items (ref_parse usage_entries false false 0 usage_status E).
Definition item_index (it : item) : Z := match usage_entries !! it_desc it with Some d => index d | None => -1 end.
Definition is_index (i : optionIndex) (it : item) : bool := item_index it =? option_value i.

(** What [parse] does, as a function of the options. *)
Definition parse_result (its : list item) (a : CollectorArgs) : bool * Z * CollectorArgs :=
  let a := run_checks usage_entries true its (run_checks usage_entries false its a) in
  if negb (accepted usage_status its) then (false, 1, a)
  else if existsb (is_index HELP) its then (false, 0, set_message usage_text a)
  else
    match find (is_index UNKNOWN) its with
    | Some it => (false, 1, set_message (chars_of "Unknown option: " ++ rest (it_name it)) a)
    | None => (true, 0, a)
    end.

Lemma performed_all its : accepted usage_status its = true ->
  performed usage_status its = (fun it => item_option it (usage_status (it_desc it) (it_option it))) <$> its.
Proof.
  induction its as [|it its IH]; cbn [accepted forallb performed fmap list_fmap]; [done|]. intros [H1 H2]%andb_prop. apply negb_true_iff, bool_decide_eq_false in H1.
  specialize (IH H2). destruct (usage_status (it_desc it) (it_option it)) eqn:Es; [..|done]; f_equal; done || exact IH.
Qed.

(** The arguments that an option accepted, in order. *)
Definition taken (i : optionIndex) (its : list item) : list chars :=
  omap (fun it => if is_index i it && it_ok usage_status it then rest <$> it_optarg it else None) its.

(** The last argument of each option counts. *)
Record holds_last (its : list item) (a a' : CollectorArgs) : Prop := {
  last_server : grpcServer a' = default (grpcServer a) (last (taken GRPC_SERVER its));
  last_method : collectionMethod a' = match last (taken COLLECTION_METHOD its) with Some m => Some (ParseCollectionMethod m) | None => collectionMethod a end;
  last_config : collectorConfig a' =
    match last (taken COLLECTOR_CONFIG its) with
    | Some text => match json_read text with inr root => root | inl _ => collectorConfig a end
    | None => collectorConfig a
    end
}.

Lemma taken_cons i it its : taken i (it :: its) = taken i [it] ++ taken i its.
Proof. unfold taken. cbn. by destruct (if is_index i it && _ then _ else _). Qed.

Lemma last_app_default {A} (l1 l2 : list A) : last (l1 ++ l2) = match last l2 with Some x => Some x | None => last l1 end.
Proof. by rewrite last_app. Qed.

Lemma config_taken its : Forall (fun text => exists root, json_read text = inr root) (taken COLLECTOR_CONFIG its).
Proof.
  unfold taken. induction its as [|it its IH]; cbn; [done|]. destruct (is_index COLLECTOR_CONFIG it && it_ok usage_status it) eqn:E; [|done].
  destruct (it_optarg it) as [p|] eqn:Ep; [|done]. cbn. constructor; [|done]. apply andb_prop in E as [Ei Eo]. unfold it_ok in Eo. apply bool_decide_eq_true in Eo.
  unfold is_index, item_index in Ei. unfold usage_status in Eo. unfold usage_entries in *.
  destruct (it_desc it) as [|[|[|[|[|[|i]]]]]]; try done. cbn in Eo. unfold check_with in Eo. rewrite config_status in Eo.
  unfold it_option in Eo. cbn in Eo. rewrite Ep in Eo. cbn in Eo. destruct (json_read (rest p)); [done|eauto].
Qed.

Lemma holds_last_cons it its a a1 a2 : holds_last [it] a a1 -> holds_last its a1 a2 -> holds_last (it :: its) a a2.
Proof.
  intros [H1 H2 H3] [K1 K2 K3]. split; rewrite taken_cons, last_app_default.
  - rewrite K1, H1. by destruct (last (taken GRPC_SERVER its)).
  - rewrite K2, H2. by destruct (last (taken COLLECTION_METHOD its)).
  - rewrite K3, H3. destruct (last (taken COLLECTOR_CONFIG its)) as [t|] eqn:El; [|done]. apply last_Some in El as [l El].
    pose proof (config_taken its) as Hc. rewrite El in Hc. apply Forall_app in Hc as [_ Hc]. inversion Hc as [|? ? [root Hr] _]; subst. by rewrite Hr.
Qed.

Lemma check_holds it d f pe a : usage_entries !! it_desc it = Some d -> check_arg d = Some f -> holds_last [it] a (f (it_option it) pe a).2.
Proof.
  intros Hd Hf. pose proof (checks _ _ _ usage_table _ d f (it_option it) pe a Hd Hf) as Hst. unfold usage_entries in Hd.
  assert (forall i, taken i [it] = if (index d =? option_value i) && bool_decide ((f (it_option it) pe a).1 = ARG_OK) then option_list (rest <$> it_optarg it) else []) as Ht.
  { intros i. unfold taken. cbn [omap list_omap]. unfold is_index, item_index, it_ok. rewrite <- Hst. unfold usage_entries. rewrite Hd.
    destruct (_ && _); [|done]. by destruct (it_optarg it). }
  destruct (it_desc it) as [|[|[|[|[|[|i]]]]]]; [injection Hd as <-; injection Hf as <- ..|done].
  1, 2, 6: split; rewrite Ht; done.
  - clear Hst. revert Ht. unfold check_with, checkCollectorConfig, it_option. cbn [arg Option_make Option_init].
    destruct (it_optarg it) as [p|]; cbn [fmap option_fmap option_map CheckConfiguration]; [destruct (json_read (rest p)) as [m|root] eqn:Ej|].
    all: intros Ht; split; rewrite Ht; destruct pe; cbn; try change (bool_decide (ARG_OK = ARG_OK)) with true; cbn; rewrite ?Ej; done.
  - clear Hst. revert Ht. unfold check_with, checkCollectionMethod, it_option. cbn [arg Option_make Option_init].
    destruct (it_optarg it) as [p|]; intros Ht; split; rewrite Ht; destruct pe; done.
  - clear Hst. revert Ht. unfold check_with, checkGRPCServer, it_option. cbn [arg Option_make Option_init].
    destruct (it_optarg it) as [p|]; cbn [fmap option_fmap option_map CheckGrpcServer_ptr]; [destruct (CheckGrpcServer (rest p)) as [st m]|].
    all: intros Ht; split; rewrite Ht; destruct pe; try done; by destruct st.
Qed.

Lemma run_checks_last pe its a : Forall (has_entry usage_entries) its -> accepted usage_status its = true ->
  holds_last its a (run_checks usage_entries pe its a).
Proof.
  intros He. revert a. induction He as [|it its [d Hd]%lookup_lt_is_Some_2 He IH]; intros a; [by split|].
  cbn [accepted forallb run_checks]. intros [H1 H2]%andb_prop. rewrite Hd. cbn [mbind option_bind].
  destruct (entry_ok _ _ _ usage_table d) as (? & ? & f & _ & _ & Hf); [by eapply list_elem_of_lookup_2|]. rewrite Hf.
  pose proof (check_holds it d f pe a Hd Hf) as Hc. pose proof (checks _ _ _ usage_table _ d f (it_option it) pe a Hd Hf) as Hst.
  apply negb_true_iff, bool_decide_eq_false in H1. rewrite <- Hst in H1. destruct (f (it_option it) pe a) as [st a1]. cbn [fst snd] in *.
  destruct st; try done; by (eapply holds_last_cons; [exact Hc|apply IH]).
Qed.

Lemma holds_last_twice its a a1 a2 : holds_last its a a1 -> holds_last its a1 a2 -> holds_last its a a2.
Proof.
  intros [H1 H2 H3] [K1 K2 K3]. split.
  - rewrite K1, H1. by destruct (last (taken GRPC_SERVER its)).
  - rewrite K2, H2. by destruct (last (taken COLLECTION_METHOD its)).
  - rewrite K3, H3. destruct (last (taken COLLECTOR_CONFIG its)) as [t|]; [|done]. by destruct (json_read t).
Qed.

(** What the check of an illegal argument complains about: only the document and the
    server can be illegal. *)
Definition complaint (it : item) : chars :=
  if is_index COLLECTOR_CONFIG it then (CheckConfiguration (rest <$> it_optarg it)).1.2 else (CheckGrpcServer_ptr (rest <$> it_optarg it)).2.

(** The first option of [its] with an illegal argument is behind [before]. *)
Definition first_illegal (its before : list item) (it : item) : Prop :=
  (exists after, its = before ++ it :: after) /\ accepted usage_status before = true /\ usage_status (it_desc it) (it_option it) = ARG_ILLEGAL.

Lemma first_illegal_exists its : accepted usage_status its = false -> exists before it, first_illegal its before it.
Proof.
  induction its as [|it its IH]; [done|]. unfold accepted. cbn [forallb]. case_bool_decide as Hi; cbn [negb andb].
  - intros _. exists [], it. split; [by exists its|done].
  - intros H. destruct (IH H) as (before & it' & (after & ->) & Hb & Hit). exists (it :: before), it'. split; [by exists after|]. split; [|done].
    unfold accepted in *. cbn [forallb]. by rewrite bool_decide_false.
Qed.

Lemma check_complains it d f a : usage_entries !! it_desc it = Some d -> check_arg d = Some f -> usage_status (it_desc it) (it_option it) = ARG_ILLEGAL ->
  message (f (it_option it) true a).2 = complaint it /\ taken GRPC_SERVER [it] = [] /\ taken COLLECTION_METHOD [it] = [] /\ taken COLLECTOR_CONFIG [it] = [].
Proof.
  intros Hd Hf Hi. split; [|unfold taken, it_ok; cbn [omap list_omap]; rewrite Hi, bool_decide_false, !andb_false_r by done; done].
  pose proof (checks _ _ _ usage_table _ d f (it_option it) true a Hd Hf) as Hst. rewrite Hi in Hst. unfold complaint, is_index, item_index. rewrite Hd.
  unfold usage_entries in Hd. destruct (it_desc it) as [|[|[|[|[|[|i]]]]]]; [injection Hd as <-; injection Hf as <- ..|done]. 1, 2, 6: done.
  - revert Hst. unfold check_with, checkCollectorConfig, it_option. cbn [arg Option_make Option_init].
    destruct (it_optarg it) as [p|]; cbn [fmap option_fmap option_map CheckConfiguration]; [|done]. by destruct (json_read (rest p)).
  - revert Hst. unfold check_with, checkCollectionMethod. by destruct (rest <$> arg (it_option it)).
  - revert Hst. unfold check_with, checkGRPCServer, it_option. cbn [arg Option_make Option_init].
    destruct (it_optarg it) as [p|]; cbn [fmap option_fmap option_map CheckGrpcServer_ptr]; [|done].
    cbn [entry index option_value]. destruct (CheckGrpcServer (rest p)) as [st m]. by destruct st.
Qed.

Lemma run_checks_illegal pe its before it a : Forall (has_entry usage_entries) its -> first_illegal its before it ->
  let a' := run_checks usage_entries pe its a in holds_last before a a' /\ (pe = true -> message a' = complaint it).
Proof.
  intros He ((after & ->) & Hb & Hi). revert a. induction before as [|b before IH]; intros a.
  all: cbn [app] in *; apply Forall_cons in He as [[d Hd]%lookup_lt_is_Some_2 He]; cbn [run_checks]; rewrite Hd; cbn [mbind option_bind].
  all: destruct (entry_ok _ _ _ usage_table d) as (? & ? & f & _ & _ & Hf); [by eapply list_elem_of_lookup_2|]; rewrite Hf.
  - pose proof (check_holds it d f pe a Hd Hf) as [H1 H2 H3]. pose proof (checks _ _ _ usage_table _ d f (it_option it) pe a Hd Hf) as Hst.
    destruct (check_complains it d f a Hd Hf Hi) as (Hm & T1 & T2 & T3). rewrite T1 in H1. rewrite T2 in H2. rewrite T3 in H3. rewrite Hi in Hst.
    destruct (f (it_option it) pe a) as [st a1] eqn:Ef. cbn [fst snd] in *. subst st. cbv zeta. split; [by split|]. intros ->. by rewrite Ef in Hm.
  - pose proof (check_holds b d f pe a Hd Hf) as Hc. pose proof (checks _ _ _ usage_table _ d f (it_option b) pe a Hd Hf) as Hst.
    unfold accepted in Hb. cbn [forallb] in Hb. apply andb_prop in Hb as [H1 H2]. apply negb_true_iff, bool_decide_eq_false in H1. rewrite <- Hst in H1.
    destruct (f (it_option b) pe a) as [st a1]. cbn [fst snd] in *.
    destruct st; try done; (destruct (IH He H2 a1) as [K1 K2]; split; [by eapply holds_last_cons|exact K2]).
Qed.

Lemma item_option_desc it st : desc (item_option it st) = Some (it_desc it) /\ name (item_option it st) = Some (it_name it).
Proof. by destruct st. Qed.

Lemma oindex_item it st : oindex usage_entries (item_option it st) = item_index it.
Proof. unfold oindex. by rewrite (proj1 (item_option_desc it st)). Qed.

(** *** The arrays after parsing *)

(** The places of the arrays on the stack: aligned and disjoint. *)
Definition stack_ok (place : Stats -> Z * Z) : Prop :=
  forall stats, options_max stats = 6 -> 0 < buffer_max stats <= 2 ^ 31 ->
    arrays_ok (place stats).1 (place stats).2 (options_max stats) (buffer_max stats).

(** The vector of [main]. *)
Definition command_line (program : option cptr) (E : list cptr) : argvec := program :: (Some <$> E) ++ [None].

Definition stored_options (its : list item) : list Option :=
  (fun it => item_option it (usage_status (it_desc it) (it_option it))) <$> its.

Lemma of_index_items i its :
  of_index usage_entries i (stored_options its) = stored_options (filter (fun it => item_index it = i) its).
Proof.
  unfold of_index, stored_options. induction its as [|it its IH]; [done|]. cbn [fmap list_fmap].
  destruct (decide (item_index it = i)) as [E|E].
  - rewrite !filter_cons_True by (done || by rewrite oindex_item). cbn. by f_equal.
  - rewrite !filter_cons_False by (done || by rewrite oindex_item). done.
Qed.

Lemma existsb_filter i its : existsb (is_index i) its = negb (bool_decide (filter (fun it => item_index it = option_value i) its = [])).
Proof.
  induction its as [|it its IH]; cbn [existsb]; [done|]. unfold is_index at 1. destruct (Z.eqb_spec (item_index it) (option_value i)).
  - by rewrite filter_cons_True.
  - by rewrite filter_cons_False, IH by done.
Qed.

Lemma find_filter i its : find (is_index i) its = head (filter (fun it => item_index it = option_value i) its).
Proof.
  induction its as [|it its IH]; cbn [find]; [done|]. unfold is_index at 1. destruct (Z.eqb_spec (item_index it) (option_value i)).
  - by rewrite filter_cons_True.
  - by rewrite filter_cons_False, IH by done.
Qed.

Lemma option_read options buffer nopt nbuf its p h i : store_inv usage_entries options buffer nopt nbuf (stored_options its) p h ->
  0 <= option_value i < nopt ->
  exists o, load h (slot options (option_value i)) = Ret o /\ Option_used o = existsb (is_index i) its /\
    name o = it_name <$> find (is_index i) its.
Proof.
  intros Hinv Hi. pose proof (inv_lists _ _ _ _ _ _ _ _ Hinv (option_value i) Hi) as Hl. rewrite of_index_items in Hl.
  rewrite existsb_filter, find_filter. unfold list_holds in Hl.
  destruct (filter _ its) as [|it sel]; cbn [stored_options fmap list_fmap] in Hl.
  - eexists. split; [by apply load_Some|]. by split.
  - destruct Hl as (r & _ & Hall & _). inversion Hall as [|? ? ? ? (n & Hn & Hp) _]; subst. exists n. split; [by apply load_Some|].
    injection Hp as Hd Hname _ _. unfold Option_used. rewrite Hd, Hname. cbn.
    destruct (item_option_desc it (usage_status (it_desc it) (it_option it))) as [-> ->]. by split.
Qed.

Lemma any_unknown_spec buffer h its n i : Forall (has_entry usage_entries) its ->
  (forall j o, stored_options its !! j = Some o -> holds h (slot buffer (Z.of_nat j)) o) -> (i + n = length its)%nat ->
  any_unknown h buffer n (Z.of_nat i) = Ret (existsb (is_index UNKNOWN) (drop i its)).
Proof.
  intros He Hh. revert i. induction n as [|n IH]; intros i Hi; [by rewrite drop_ge by lia|].
  destruct (lookup_lt_is_Some_2 its i) as [it Hit]; [lia|]. rewrite (drop_S its it i Hit). cbn [any_unknown existsb].
  destruct (Hh i (item_option it (usage_status (it_desc it) (it_option it)))) as (o & Ho & Hp).
  { unfold stored_options. by rewrite list_lookup_fmap, Hit. }
  rewrite (load_Some _ _ _ Ho). cbn [mbind outcome_bind]. injection Hp as Hd _ _ _.
  destruct (item_option_desc it (usage_status (it_desc it) (it_option it))) as [Hdesc _].
  assert (exists d, usage_entries !! it_desc it = Some d) as [d Hd2].
  { apply lookup_lt_is_Some_2. exact (Forall_lookup_1 _ _ _ _ He Hit). }
  assert (Option_index usage o = Ret (item_index it)) as ->.
  { unfold Option_index, item_index. change (desc o = desc (item_option it (usage_status (it_desc it) (it_option it)))) in Hd.
    rewrite Hd, Hdesc. unfold usage. by rewrite lookup_app_l, Hd2 by by eapply lookup_lt_Some. }
  cbn [mbind outcome_bind]. unfold is_index at 1. destruct (item_index it =? option_value UNKNOWN); [done|].
  replace (Z.of_nat i + 1) with (Z.of_nat (S i)) by lia. apply IH. lia.
Qed.

Lemma find_existsb {A} (f : A -> bool) l : existsb f l = negb (is_end (find f l)).
Proof. induction l as [|x l IH]; cbn; [done|]. by destruct (f x). Qed.

(** [parse] computes the result of the reference parser. *)
Lemma Args_parse_run place program E a : stack_ok place -> whole_strings E -> Z.of_nat (length (options_of E)) < 0x7fffffff ->
  Args_parse place (Z.of_nat (S (length E))) (command_line program E) a = Ret (parse_result (options_of E) a).
Proof.
  intros Hplace Hw Hlen. unfold Args_parse. rewrite (proj2 (Z.ltb_lt 0 (Z.of_nat (S (length E))))) by lia.
  replace (Z.of_nat (S (length E)) - 1) with (Z.of_nat (length E)) by lia.
  assert (exists tail, (if 0 <? Z.of_nat (length E) then drop 1 (command_line program E) else command_line program E) = (Some <$> E) ++ tail) as [tail ->].
  { destruct E as [|x E]; [by exists [program; None]|]. rewrite (proj2 (Z.ltb_lt _ _)) by (cbn; lia). by exists [None]. }
  destruct (parse_stored usage_entries usage_end usage_status (Z.of_nat (length E)) E tail a usage_table usage_indices (or_introl eq_refl) Hw Hlen)
    as (stats & s1 & HS & HM & Hb & Hall). fold usage in HS, HM, Hall. fold (options_of E) in Hb, Hall. rewrite HS. cbn [mbind outcome_bind].
  assert (options_max stats = 6) as Hom by (vm_compute in HM; by injection HM).
  pose proof (performed_length usage_status (options_of E)) as Hpl.
  destruct (place stats) as [options buffer] eqn:Ep. specialize (Hplace stats Hom ltac:(lia)). rewrite Ep in Hplace. cbn [fst snd] in Hplace.
  destruct (Hall options buffer Hplace) as (p & h & s2 & Hp & Hs2 & Hinv & Herr & _). unfold fresh_arrays in Hp. rewrite Hp. cbn [mbind outcome_bind].
  assert (s1 = run_checks usage_entries false (options_of E) a) as Hs1.
  { destruct (Stats_fits usage_entries usage_end usage_status (Z.of_nat (length E)) E tail a usage_table usage_indices (or_introl eq_refl) Hw Hlen)
      as (st' & s' & HS' & -> & _). fold usage in HS'. rewrite HS in HS'. by injection HS'. }
  unfold parse_result. rewrite <- Hs2, Herr. destruct (accepted usage_status (options_of E)) eqn:Eacc; cbn [negb]; [|done].
  rewrite performed_all in Hinv by done. fold (stored_options (options_of E)) in Hinv.
  destruct (option_read options buffer (options_max stats) (buffer_max stats) (options_of E) p h HELP Hinv) as (o & -> & Hused & _); [cbn; lia|].
  cbn [mbind outcome_bind]. rewrite Hused. destruct (existsb (is_index HELP) (options_of E)); [by rewrite usage_text_printed|].
  pose proof (inv_count _ _ _ _ _ _ _ _ Hinv) as Hcount. unfold stored_options in Hcount. rewrite length_fmap in Hcount. unfold optionsCount. rewrite Hcount, Nat2Z.id.
  pose proof (any_unknown_spec buffer h (options_of E) (length (options_of E)) 0 (ref_items_entries _ _ _ _ _ _)
    (inv_buffer _ _ _ _ _ _ _ _ Hinv) eq_refl) as Hany. change (Z.of_nat 0) with 0 in Hany. rewrite Hany, drop_0. cbn [mbind outcome_bind].
  destruct (option_read options buffer (options_max stats) (buffer_max stats) (options_of E) p h UNKNOWN Hinv) as (o2 & -> & _ & Hname); [cbn; lia|].
  rewrite find_existsb. cbn [mbind outcome_bind]. rewrite Hname. by destruct (find (is_index UNKNOWN) (options_of E)).
Qed.
End table.

(** ** From the command line to the configuration *)

Section lemmas.
Context `{ho : HostOrder} `{json : JsonLib}.

(** Only a server that passed the check is kept. *)
Definition args_ok (a : CollectorArgs) : Prop := grpcServer a = [] \/ server_ok (grpcServer a).

Lemma grpc_ok s msg a : args_ok a -> args_ok (checkGRPCServer s msg a).2.
Proof.
  intros Ha. unfold checkGRPCServer. destruct s as [s|]; cbn [CheckGrpcServer_ptr]; [|by destruct msg].
  destruct (CheckGrpcServer s) as [st m] eqn:E. pose proof (CheckGrpcServer_iff s) as [Hs _]. rewrite E in Hs.
  destruct st, msg; try done; right; by apply Hs.
Qed.

Lemma check_ok i d f o msg a : usage_entries !! i = Some d -> check_arg d = Some f -> args_ok a -> args_ok (f o msg a).2.
Proof.
  intros Hd Hf Ha. unfold usage_entries in Hd. destruct i as [|[|[|[|[|[|i]]]]]]; [injection Hd as <-; injection Hf as <- ..|done]. 1, 2, 6: done.
  - unfold check_with, checkCollectorConfig. destruct (CheckConfiguration _) as [[st m] root]. by destruct st, root, msg.
  - unfold check_with, checkCollectionMethod. by destruct (rest <$> arg o), msg.
  - by apply grpc_ok.
Qed.

Lemma run_checks_ok pe its a : args_ok a -> args_ok (run_checks usage_entries pe its a).
Proof.
  revert a. induction its as [|it its IH]; intros a Ha; [done|]. cbn [run_checks]. destruct (usage_entries !! it_desc it) as [d|] eqn:Ed; [|done].
  cbn [mbind option_bind]. destruct (check_arg d) as [f|] eqn:Ef; [|done]. pose proof (check_ok _ d f (it_option it) pe a Ed Ef Ha) as Hok.
  destruct (f _ pe a) as [[] a']; cbn in Hok; try done; by apply IH.
Qed.

Lemma parse_result_ok its a : args_ok a -> args_ok (parse_result its a).2.
Proof.
  intros Ha. assert (args_ok (run_checks usage_entries true its (run_checks usage_entries false its a))) as H by by do 2 apply run_checks_ok.
  unfold parse_result. by repeat case_match.
Qed.

Variable getenv : chars -> option chars.

Lemma user_grpc_server_ok args s : args_ok args -> user_grpc_server getenv args = inr (Some s) -> server_ok s.
Proof.
  intros Ha. unfold user_grpc_server. destruct (is_empty (grpcServer args)) eqn:Ee; cbn [negb].
  - destruct (hasValue getenv grpc_server) as [|[]]; [done| |done]. cbn [bind].
    destruct (value getenv grpc_server) as [|server]; [done|]. cbn [bind]. pose proof (CheckGrpcServer_iff server) as [Hs _].
    destruct (CheckGrpcServer server) as [st m]. destruct st; [done| |done|done]. intros [= <-]. by apply Hs.
  - intros [= <-]. destruct Ha as [Ha|]; [by rewrite Ha in Ee|done].
Qed.

Lemma env_number_range name conv def :
  in_range 32 def -> in_range 32 (env_number getenv name (fun s => to_unsigned (conv s)) def).
Proof.
  intros Hd. unfold env_number. destruct (getenv _) as [s|]; [|done]. destruct (conv s); [done|]. cbn. by apply wrap_range.
Qed.

Lemma heuristics_cpus env method h hc h' :
  ProcessHostHeuristics env method h = inr (hc, h') -> in_range 32 (num_possible_cpus_ hc).
Proof. unfold ProcessHostHeuristics. intros H. inv_res H. injection H as <- _. cbn. by apply wrap_range. Qed.

Lemma send_recv_iff s390x (b : bool) s :
  In s kSendRecvSyscalls -> In s (kSyscalls s390x ++ if b then kSendRecvSyscalls else []) <-> b = true.
Proof.
  intros Hs. rewrite in_app_iff. split; [|intros ->; by right]. destruct b; [done|]. intros [Hk|[]]. exfalso.
  assert (forallb (fun x => negb (existsb (chars_eqb x) (kSyscalls s390x))) kSendRecvSyscalls = true) as Hf
    by (destruct s390x; vm_compute; reflexivity).
  rewrite forallb_forall in Hf. specialize (Hf s Hs). apply negb_true_iff in Hf.
  assert (existsb (chars_eqb s) (kSyscalls s390x) = true); [|congruence].
  apply existsb_exists. exists s. split; [done|]. unfold chars_eqb. by rewrite bool_decide_true.
Qed.

Lemma user_choices_grpc args u s :
  args_ok args -> user_choices getenv (Some args) = inr u -> u_grpc u = Some s -> server_ok s.
Proof.
  intros Ha H Hs. unfold user_choices in H. inv_res H. injection H as <-. cbn in Hs. subst.
  by eapply user_grpc_server_ok.
Qed.
End lemmas.

Section theorems.
Context `{ho : HostOrder} `{json : JsonLib}.

(** C21: The command line is parsed as documented, without leaving the arrays wherever
    they are on the stack: an illegal argument ends with exit code 1 and what the check of
    the first such argument complains about, and the arguments in front of it count; [--help] with
    exit code 0 and the usage text; an unknown option with exit code 1 and the first
    of them by name; otherwise start-up goes on, with the last accepted argument of
    each option and the previous values where there is none. *)
Theorem Args_parse_exact place program E a :
  stack_ok place -> whole_strings E -> Z.of_nat (length (options_of E)) < 0x7fffffff ->
  let its := options_of E in
  exists a', Args_parse place (Z.of_nat (S (length E))) (command_line program E) a =
    Ret (if negb (accepted usage_status its) then (false, 1, a')
         else if existsb (is_index HELP) its then (false, 0, set_message usage_text a')
         else match find (is_index UNKNOWN) its with
              | Some it => (false, 1, set_message (chars_of "Unknown option: " ++ rest (it_name it)) a')
              | None => (true, 0, a')
              end) /\
    (if accepted usage_status its then holds_last its a a'
     else exists before it, first_illegal its before it /\ holds_last before a a' /\ message a' = complaint it).
Proof.
  intros Hp Hw Hl its. exists (run_checks usage_entries true its (run_checks usage_entries false its a)).
  split; [by apply Args_parse_run|]. destruct (accepted usage_status its) eqn:Hacc.
  - eapply holds_last_twice; apply run_checks_last; done || apply ref_items_entries.
  - destruct (first_illegal_exists its Hacc) as (before & it & Hi). exists before, it. split; [done|].
    assert (Forall (has_entry usage_entries) its) as He by apply ref_items_entries.
    destruct (run_checks_illegal false its before it a He Hi) as [H1 _].
    destruct (run_checks_illegal true its before it (run_checks usage_entries false its a) He Hi) as [H2 Hm].
    split; [by eapply holds_last_twice|by apply Hm].
Qed.

(** The argument of the theorem below. *)
Lemma accepted_config_wf place program E getenv env s390x cpu_default size_default getaddrinfo uninit ub args h level c h' level' :
  in_range 32 cpu_default -> in_range 32 size_default ->
  stack_ok place -> whole_strings E -> Z.of_nat (length (options_of E)) < 0x7fffffff ->
  Args_parse place (Z.of_nat (S (length E))) (command_line program E) CollectorArgs_make = Ret (true, 0, args) ->
  InitCollectorConfig getenv env s390x cpu_default size_default getaddrinfo uninit ub (Some args) h level =
    inr (c, h', level') ->
  config_wf c.
Proof.
  intros Hcpu Hsize Hp Hw Hl Hargs H. assert (args_ok args) as Ha.
  { rewrite (Args_parse_run place program E _ Hp Hw Hl) in Hargs. injection Hargs as Hargs.
    pose proof (parse_result_ok (options_of E) CollectorArgs_make (or_introl eq_refl)) as Hok. by rewrite Hargs in Hok. }
  unfold InitCollectorConfig in H. inv_res H. injection H as <- _ _.
  match goal with E : HandleAfterglowEnvVars _ _ = _ |- _ => apply HandleAfterglow_bounded in E as [Hglow _] end.
  match goal with E : ProcessHostHeuristics _ _ _ = _ |- _ => apply heuristics_cpus in E as Hcpus end.
  match goal with E : HandleConnectionStatsEnvVars _ = _ |- _ => injection E as _ _ Hwindow end.
  match goal with E : HandleSinspEnvVars _ _ _ = _ |- _ => injection E as Hs1 Hs2 Hs3 Hs4 end. subst.
  split; cbn [grpc_server_ enable_afterglow_ afterglow_period_micros_ sinsp_cpu_per_buffer_ sinsp_buffer_size_
    sinsp_total_buffer_size_ sinsp_thread_cache_size_ connection_stats_window_ host_config_ runtime_config_].
  - intros s Hs. by eapply user_choices_grpc.
  - done.
  - split_and!; apply env_number_range; done.
  - by apply env_number_range.
  - done.
  - intros s Hs. by apply send_recv_iff.
  - done.
Qed.

(** C22: whatever the command line and the environment, a configuration that
    start-up accepts is well formed: its server has the form host:port, afterglow
    is on only with a period of at most five minutes, every unsigned number is in
    range, the system calls of sends and receives are traced exactly when asked
    for, and the limit of connections is the default one. *)
Theorem startup_config_wf place program E getenv env s390x cpu_default size_default getaddrinfo uninit ub args h level c h' level' :
  in_range 32 cpu_default -> in_range 32 size_default ->
  stack_ok place -> whole_strings E -> Z.of_nat (length (options_of E)) < 0x7fffffff ->
  Args_parse place (Z.of_nat (S (length E))) (command_line program E) CollectorArgs_make = Ret (true, 0, args) ->
  InitCollectorConfig getenv env s390x cpu_default size_default getaddrinfo uninit ub (Some args) h level =
    inr (c, h', level') ->
  config_wf c.
Proof. apply accepted_config_wf. Qed.
End theorems.

(** ** Witnesses *)

(** Documents that are always null. *)
Definition wit_json : JsonLib := {|
  Json := unit; json_null := tt; json_empty _ := true; json_get _ _ := ret tt;
  asString _ := inl Thrown; asInt _ := inl Thrown; asBool _ := inl Thrown; json_read _ := inl []
|}.
(** The options array at an address, the buffer behind it. *)
Definition wit_place (stats : Stats) : Z * Z := (4096, 4096 + 48 * options_max stats).
Lemma wit_place_ok : stack_ok wit_place.
Proof.
  intros stats Ho Hb. unfold wit_place. cbn [fst snd]. rewrite Ho.
  assert (forall z, 0 <= z < 2 ^ 40 -> aligned (2 * z)) as Ha.
  { intros z Hz. split; [lia|]. by rewrite Z.bit0_odd, Z.odd_mul. }
  split; unfold slot.
  - intros i Hi. replace (4096 + 48 * i) with (2 * (2048 + 24 * i)) by lia. apply Ha. lia.
  - intros i Hi. replace (4096 + 48 * 6 + 48 * i) with (2 * (2048 + 144 + 24 * i)) by lia. apply Ha. lia.
  - lia.
Qed.

Definition wit_args : list cptr :=
  [mkPtr 1 (chars_of "--grpc-server"); mkPtr 2 (chars_of "first:1"); mkPtr 3 (chars_of "--grpc-server=sensor.stackrox:443")].
Lemma wit_args_whole : whole_strings wit_args.
Proof. intros p q. unfold wit_args. rewrite !elem_of_cons, !elem_of_nil. intros Hp Hq. destruct_or!; subst; done. Qed.
Definition wit_getenv (name : chars) : option chars :=
  if chars_eqb name (chars_of "ROX_AFTERGLOW_PERIOD") then Some (chars_of "20") else None.

Lemma Args_parse_exact_witness :
  (exists a', Args_parse (json := wit_json) wit_place 4 (command_line None wit_args) (CollectorArgs_make (json := wit_json)) = Ret (true, 0, a') /\
    grpcServer a' = chars_of "sensor.stackrox:443") /\
  (exists a', Args_parse (json := wit_json) wit_place 2 (command_line None [mkPtr 1 (chars_of "--grpc-server=host:")]) (CollectorArgs_make (json := wit_json)) = Ret (false, 1, a') /\
    message a' = chars_of "Missing grpc port").
Proof.
  assert (whole_strings [mkPtr 1 (chars_of "--grpc-server=host:")]) as Hw by (intros p q ->%list_elem_of_singleton ->%list_elem_of_singleton; done).
  split; [|destruct (Args_parse_exact (json := wit_json) wit_place None [mkPtr 1 (chars_of "--grpc-server=host:")] (CollectorArgs_make (json := wit_json)) wit_place_ok Hw)
    as (a' & H1 & before & it & ((after & H2) & _) & _ & H3); [reflexivity|]; exists a'; split; [exact H1|]; rewrite H3; vm_compute in H2;
    destruct before as [|b [|]]; [injection H2 as <- _; reflexivity|discriminate H2..]].
  destruct (Args_parse_exact (json := wit_json) wit_place None wit_args (CollectorArgs_make (json := wit_json)) wit_place_ok wit_args_whole)
    as (a' & H1 & H2); [reflexivity|]. exists a'. split; [exact H1|]. destruct H2 as [-> _ _]; reflexivity.
Defined.

Definition wit_parsed : CollectorArgs (json := wit_json) :=
  match Args_parse (json := wit_json) wit_place 4 (command_line None wit_args) (CollectorArgs_make (json := wit_json)) with
  | Ret (_, _, a) => a
  | _ => CollectorArgs_make (json := wit_json)
  end.
Definition wit_started :=
  InitCollectorConfig (ho := true) (json := wit_json) wit_getenv wit_env false 1 (8 * 1024 * 1024) (fun _ => (1, None)) []
    (fun _ => 0) (Some wit_parsed) HostInfo_default LogLevel.INFO.

Lemma startup_config_wf_witness :
  match wit_started with
  | inr (c, _, _) => config_wf c /\ grpc_server_ c = Some (chars_of "sensor.stackrox:443") /\ afterglow_period_micros_ c = 20000000
  | inl _ => False
  end.
Proof.
  destruct wit_started as [e|[[c h'] l']] eqn:E; [by vm_compute in E|]. split.
  - apply (startup_config_wf (ho := true) (json := wit_json) wit_place None wit_args wit_getenv wit_env false 1 (8 * 1024 * 1024)
      (fun _ => (1, None)) [] (fun _ => 0) wit_parsed HostInfo_default LogLevel.INFO c h' l');
      [by split|by split|exact wit_place_ok|exact wit_args_whole|reflexivity|vm_compute; reflexivity|exact E].
  - vm_compute in E. injection E as <- _ _. by split.
Defined.
