(* ===== verification/ConfigYaml.v ===== *)
(** * The configuration parser ([ParserYaml] in [ConfigLoader.h], [ConfigLoader.cpp])

    A YAML document is a tree; a message type is the tree of its fields, as its
    descriptors give them (message types do not contain themselves); a message is
    a map from field names to values.  The conversions of yaml-cpp ([node.as<T>])
    are a parameter.  What protobuf treats as a usage error, and an exception that
    nobody catches, end the process ([Crash]). *)

From S2P Require Import Prelude UMap CStrings Utility.

#[local] Set Warnings "-register-all".

(** ** YAML documents *)

Inductive Node :=
  | Undefined
  | Null
  | Scalar (text : chars)
  | Sequence (elems : list Node)
  | Map (entries : list (Node * Node)).

Module NodeType.
Inductive t := Undefined | Null | Scalar | Sequence | Map.
End NodeType.

Definition Type_ (n : Node) : NodeType.t :=
  match n with
  | Undefined => NodeType.Undefined | Null => NodeType.Null | Scalar _ => NodeType.Scalar
  | Sequence _ => NodeType.Sequence | Map _ => NodeType.Map
  end.

Definition IsDefined (n : Node) : bool := match n with Undefined => false | _ => true end.
Definition IsNull (n : Node) : bool := match n with Null => true | _ => false end.
Definition IsScalar (n : Node) : bool := match n with Scalar _ => true | _ => false end.
Definition IsSequence (n : Node) : bool := match n with Sequence _ => true | _ => false end.
Definition IsMap (n : Node) : bool := match n with Map _ => true | _ => false end.

(** The entry of a map whose key is the given string. *)
Fixpoint find_entry (name : chars) (entries : list (Node * Node)) : Node :=
  match entries with
  | [] => Undefined
  | (Scalar key, value) :: rest => if chars_eqb key name then value else find_entry name rest
  | _ :: rest => find_entry name rest
  end.

(** [node[name]] on a constant node, which is not a scalar. *)
Definition subscript (node : Node) (name : chars) : Node :=
  match node with Map entries => find_entry name entries | _ => Undefined end.

Definition NodeTypeToString (type : NodeType.t) : chars :=
  match type with
  | NodeType.Null => chars_of "Null"
  | NodeType.Undefined => chars_of "Undefined"
  | NodeType.Scalar => chars_of "Scalar"
  | NodeType.Sequence => chars_of "Sequence"
  | NodeType.Map => chars_of "Map"
  end.

(** ** Message types *)

Module FieldType.
Inductive t :=
  | DOUBLE | FLOAT | INT64 | UINT64 | INT32 | FIXED64 | FIXED32 | BOOL | STRING | GROUP | MESSAGE
  | BYTES | UINT32 | ENUM | SFIXED32 | SFIXED64 | SINT32 | SINT64.
#[global] Instance t_eq_dec : EqDecision t.
Proof. solve_decision. Defined.
End FieldType.

Module CppType.
Inductive t := INT32 | INT64 | UINT32 | UINT64 | DOUBLE | FLOAT | BOOL | ENUM | STRING | MESSAGE.
#[global] Instance t_eq_dec : EqDecision t.
Proof. solve_decision. Defined.
End CppType.

(** The C++ type that protobuf gives to a type of fields. *)
Definition cpp_type (t : FieldType.t) : CppType.t :=
  match t with
  | FieldType.DOUBLE => CppType.DOUBLE
  | FieldType.FLOAT => CppType.FLOAT
  | FieldType.INT64 | FieldType.SFIXED64 | FieldType.SINT64 => CppType.INT64
  | FieldType.UINT64 | FieldType.FIXED64 => CppType.UINT64
  | FieldType.INT32 | FieldType.SFIXED32 | FieldType.SINT32 => CppType.INT32
  | FieldType.UINT32 | FieldType.FIXED32 => CppType.UINT32
  | FieldType.BOOL => CppType.BOOL
  | FieldType.STRING | FieldType.BYTES => CppType.STRING
  | FieldType.ENUM => CppType.ENUM
  | FieldType.GROUP | FieldType.MESSAGE => CppType.MESSAGE
  end.

Definition type_name (t : FieldType.t) : chars :=
  chars_of
  match t with
  | FieldType.DOUBLE => "double" | FieldType.FLOAT => "float" | FieldType.INT64 => "int64"
  | FieldType.UINT64 => "uint64" | FieldType.INT32 => "int32" | FieldType.FIXED64 => "fixed64"
  | FieldType.FIXED32 => "fixed32" | FieldType.BOOL => "bool" | FieldType.STRING => "string"
  | FieldType.GROUP => "group" | FieldType.MESSAGE => "message" | FieldType.BYTES => "bytes"
  | FieldType.UINT32 => "uint32" | FieldType.ENUM => "enum" | FieldType.SFIXED32 => "sfixed32"
  | FieldType.SFIXED64 => "sfixed64" | FieldType.SINT32 => "sint32" | FieldType.SINT64 => "sint64"
  end.

(** A field with its enum values and, for a message, the fields of its type. *)
Inductive Field := mkField {
  field_name : chars; field_type : FieldType.t; is_repeated : bool; enum_values : list (chars * Z);
  message_fields : list Field
}.
Definition Descriptor : Type := list Field.

Fixpoint FindFieldByName (name : chars) (d : Descriptor) : option Field :=
  match d with
  | [] => None
  | f :: rest => if chars_eqb (field_name f) name then Some f else FindFieldByName name rest
  end.
Fixpoint FindValueByName (name : chars) (values : list (chars * Z)) : option Z :=
  match values with
  | [] => None
  | (n, v) :: rest => if chars_eqb n name then Some v else FindValueByName name rest
  end.

(** ** Names *)

Fixpoint snake_loop (capitalize : bool) (s : chars) : chars :=
  match s with
  | [] => []
  | c :: rest =>
      if ch_eqb c "_" then snake_loop true rest
      else (if capitalize then toupper c else c) :: snake_loop false rest
  end.
Definition SnakeCaseToCamel (s : chars) : chars := snake_loop false s.

Fixpoint camel_loop (first : bool) (s : chars) : chars :=
  match s with
  | [] => []
  | c :: rest =>
      (if negb first && isupper c then ["_"%char] else []) ++ tolower c :: camel_loop false rest
  end.
Definition CamelCaseToSnake (s : chars) : chars := camel_loop true s.

Definition ConcatPath (path name : chars) : chars :=
  (match path with [] => path | _ => path ++ chars_of "." end) ++ name.

(** ** The parser *)

Module ValidationMode.
Inductive t := STRICT | PERMISSIVE | UNKNOWN_FIELDS_ONLY.
End ValidationMode.

Section parser.
(** Values of fields; [node_as T n] is [n.as<T>()], with the message of the
    exception when it fails; [enum_value] stores the number of an enum value. *)
Context {V : Type}.
Variable node_as : CppType.t -> Node -> chars + V.
Variable node_string : Node -> chars + chars.
Variable enum_value : Z -> V.
(** The members of the parser; [file_] as it is printed. *)
Variable file_ : chars.
Variable read_camelcase_ : bool.
Variable validation_mode_ : ValidationMode.t.

Inductive Value := VScalar (v : V) | VRepeated (vs : list V) | VMessage (fields : UMap chars Value).
Definition Message : Type := UMap chars Value.

Definition ParserError : Type := chars.
(** No error is [nullopt]. *)
Definition Parsed : Type := outcome (list ParserError * Message).

Definition WrapError (what : chars) : ParserError := file_ ++ chars_of ": " ++ what.
Definition TryConvert (type : CppType.t) (n : Node) : ParserError + V :=
  match node_as type n with inl e => inl (WrapError e) | inr v => inr v end.
Definition TryConvertString (n : Node) : ParserError + chars :=
  match node_string n with inl e => inl (WrapError e) | inr s => inr s end.

Definition set_value (f : Field) (v : Value) (m : Message) : Message := umap_assign chars_eqb (field_name f) v m.
Definition get_value (name : chars) (m : Message) : option Value := umap_find chars_eqb name m.

(** A setter of the reflection interface for the C++ type [type]; it must be that
    of the field. *)
Definition SetScalar (type : CppType.t) (f : Field) (v : V) (m : Message) : outcome Message :=
  if bool_decide (cpp_type (field_type f) = type) then Ret (set_value f (VScalar v) m) else Crash.

Definition parse_as (type : CppType.t) (node : Node) (f : Field) (m : Message) : Parsed :=
  match TryConvert type node with
  | inl e => Ret ([e], m)
  | inr v => m ← SetScalar type f v m; Ret ([], m)
  end.

Definition ParseScalar (node : Node) (f : Field) (name : chars) (m : Message) : Parsed :=
  match field_type f with
  | FieldType.DOUBLE => parse_as CppType.DOUBLE node f m
  | FieldType.FLOAT => parse_as CppType.FLOAT node f m
  | FieldType.SFIXED64 | FieldType.INT64 => parse_as CppType.INT64 node f m
  | FieldType.SINT64 | FieldType.FIXED64 | FieldType.UINT64 => parse_as CppType.UINT64 node f m
  | FieldType.FIXED32 | FieldType.UINT32 => parse_as CppType.UINT32 node f m
  | FieldType.SINT32 | FieldType.SFIXED32 | FieldType.INT32 => parse_as CppType.INT32 node f m
  | FieldType.BOOL => parse_as CppType.BOOL node f m
  | FieldType.STRING => parse_as CppType.STRING node f m
  | FieldType.BYTES => Ret ([chars_of "Unexpected type BYTES"], m)
  | FieldType.ENUM =>
      match node_string node with
      | inl _ => Crash
      | inr s =>
          let enum_name := map toupper s in
          match FindValueByName enum_name (enum_values f) with
          | None =>
              Ret ([file_ ++ chars_of ": Invalid enum value '" ++ enum_name ++ chars_of "' for field " ++ name], m)
          | Some number => Ret ([], set_value f (VScalar (enum_value number)) m)
          end
      end
  | FieldType.MESSAGE | FieldType.GROUP => Ret ([chars_of "Unexpected type: " ++ type_name (field_type f)], m)
  end.

(** The elements of a sequence that convert, and the errors of the others. *)
Fixpoint convert_all (type : CppType.t) (elems : list Node) : list ParserError * list V :=
  match elems with
  | [] => ([], [])
  | n :: rest =>
      let '(errors, vs) := convert_all type rest in
      match TryConvert type n with inl e => (e :: errors, vs) | inr v => (errors, v :: vs) end
  end.
Definition ParseArrayInner (type : CppType.t) (elems : list Node) (f : Field) (m : Message) : Parsed :=
  let '(errors, vs) := convert_all type elems in Ret (errors, set_value f (VRepeated vs) m).

Fixpoint convert_enums (elems : list Node) (f : Field) : list ParserError * list V :=
  match elems with
  | [] => ([], [])
  | n :: rest =>
      let '(errors, vs) := convert_enums rest f in
      match TryConvertString n with
      | inl e => (e :: errors, vs)
      | inr s =>
          let enum_name := map toupper s in
          match FindValueByName enum_name (enum_values f) with
          | None =>
              ((file_ ++ chars_of ": Invalid enum value '" ++ enum_name ++ chars_of "' for field " ++
                (if read_camelcase_ then SnakeCaseToCamel (field_name f) else field_name f)) :: errors, vs)
          | Some number => (errors, enum_value number :: vs)
          end
      end
  end.
Definition ParseArrayEnum (elems : list Node) (f : Field) (m : Message) : Parsed :=
  let '(errors, vs) := convert_enums elems f in Ret (errors, set_value f (VRepeated vs) m).

Definition ParseArray (elems : list Node) (f : Field) (m : Message) : Parsed :=
  match cpp_type (field_type f) with
  | CppType.ENUM => ParseArrayEnum elems f m
  | CppType.MESSAGE => Ret ([chars_of "Unsupport repeated type MESSAGE"], m)
  | type => ParseArrayInner type elems f m
  end.

(** The name of a field in the document. *)
Definition key_of (f : Field) : chars :=
  if read_camelcase_ then SnakeCaseToCamel (field_name f) else field_name f.

Definition mismatch (name : chars) (expected : string) (n : Node) : ParserError :=
  file_ ++ chars_of ": Type mismatch for '" ++ name ++ chars_of "' - expected " ++ chars_of expected ++
  chars_of ", got " ++ NodeTypeToString (Type_ n).

(** [Parse] for one field; [path] names the enclosing fields. *)
Fixpoint ParseField (f : Field) (path : chars) (node : Node) (m : Message) {struct f} : Parsed :=
  let name := key_of f in
  let value := subscript node name in
  if negb (IsDefined value) then
    match validation_mode_ with
    | ValidationMode.STRICT =>
        Ret ([file_ ++ chars_of ": Missing field '" ++ ConcatPath path name ++ chars_of "'"], m)
    | _ => Ret ([], m)
    end
  else if is_repeated f then
    match value with
    | Sequence elems => ParseArray elems f m
    | _ => Ret ([mismatch name "Sequence" value], m)
    end
  else if bool_decide (field_type f = FieldType.MESSAGE) then
    if IsNull value then Ret ([], m)
    else if negb (IsMap value) then Ret ([mismatch name "Map" value], m)
    else
      let sub := match get_value (field_name f) m with Some (VMessage fields) => fields | _ => [] end in
      let parse_fields :=
        fix parse_fields (fs : list Field) (sub : Message) : Parsed :=
          match fs with
          | [] => Ret ([], sub)
          | g :: rest =>
              '(errors, sub) ← ParseField g (ConcatPath path name) value sub;
              '(errors', sub) ← parse_fields rest sub;
              Ret (errors ++ errors', sub)
          end in
      '(errors, sub) ← parse_fields (message_fields f) sub;
      Ret (errors, set_value f (VMessage sub) m)
  else if negb (IsScalar value) then
    Ret ([file_ ++ chars_of ": Attempting to parse non-scalar field as scalar"], m)
  else ParseScalar value f name m.

(** The loop over the fields of a message type. *)
Fixpoint ParseFields (fs : list Field) (path : chars) (node : Node) (m : Message) : Parsed :=
  match fs with
  | [] => Ret ([], m)
  | f :: rest =>
      '(errors, m) ← ParseField f path node m;
      '(errors', m) ← ParseFields rest path node m;
      Ret (errors ++ errors', m)
  end.

Definition unknown_field (name : chars) : ParserError := file_ ++ chars_of ": Unknown field '" ++ name ++ chars_of "'".

(** [FindUnknownFields]: the keys of a map; an element of a sequence has no key,
    and reading it throws, like a key that is not a string; a repeated field is
    not read as a message. *)
Fixpoint FindUnknownFields (d : Descriptor) (node : Node) {struct node} : outcome (list ParserError) :=
  match node with
  | Map entries =>
      (fix walk (entries : list (Node * Node)) : outcome (list ParserError) :=
        match entries with
        | [] => Ret []
        | (key, value) :: rest =>
            match node_string key with
            | inl _ => Crash
            | inr key_name =>
                let name := if read_camelcase_ then CamelCaseToSnake key_name else key_name in
                errors ←
                  match FindFieldByName name d with
                  | None => Ret [unknown_field name]
                  | Some f =>
                      if IsMap value then
                        if bool_decide (field_type f = FieldType.MESSAGE) then
                          if is_repeated f then Crash else FindUnknownFields (message_fields f) value
                        else
                          Ret [file_ ++ chars_of ": Invalid type '" ++ NodeTypeToString (Type_ value) ++
                               chars_of "' for field " ++ key_name ++ chars_of ", expected '" ++
                               type_name (field_type f) ++ chars_of "'"]
                      else Ret []
                  end;
                errors' ← walk rest;
                Ret (errors ++ errors')
            end
        end) entries
  | Sequence (_ :: _) => Crash
  | _ => Ret []
  end.

Definition is_permissive : bool := match validation_mode_ with ValidationMode.PERMISSIVE => true | _ => false end.

Definition Parse (d : Descriptor) (node : Node) (m : Message) : Parsed :=
  if IsScalar node || IsNull node then Ret ([chars_of "Invalid configuration"], m)
  else
    '(errors, m) ← ParseFields d [] node m;
    unknown ← (if is_permissive then Ret [] else FindUnknownFields d node);
    Ret (errors ++ unknown, m).

(** [Parse] of the file: the document it holds or the text of the exception. *)
Definition ParseFile (d : Descriptor) (file : chars + Node) (m : Message) : Parsed :=
  match file with
  | inl e => Ret ([WrapError e], m)
  | inr node => Parse d node m
  end.

End parser.
Arguments Value : clear implicits.
Arguments Message : clear implicits.

(** ** Names: round trip *)

(** A name in snake case: words of lower-case letters and digits, each of which
    starts with a letter. *)
Fixpoint snake_words (s : chars) : bool :=
  match s with
  | [] => true
  | c :: rest =>
      if ch_eqb c "_" then match rest with d :: rest' => islower d && snake_words rest' | [] => false end
      else (islower c || isdigit c) && snake_words rest
  end.
Definition snake_name (s : chars) : bool := match s with c :: rest => islower c && snake_words rest | [] => false end.

Lemma islower_range c : islower c = true <-> 97 <= ord c <= 122.
Proof.
  unfold islower, in_chars. change (ord "a") with 97. change (ord "z") with 122.
  rewrite andb_true_iff, !Z.leb_le. done.
Qed.
Lemma isupper_range c : isupper c = true <-> 65 <= ord c <= 90.
Proof.
  unfold isupper, in_chars. change (ord "A") with 65. change (ord "Z") with 90.
  rewrite andb_true_iff, !Z.leb_le. done.
Qed.

Lemma tolower_toupper c : islower c = true -> tolower (toupper c) = c /\ isupper (toupper c) = true.
Proof.
  intros Hl. unfold toupper. rewrite Hl. apply islower_range in Hl.
  assert (ord (chr (ord c - 32)) = ord c - 32) as E by (apply ord_chr; unfold in_range; lia).
  assert (isupper (chr (ord c - 32)) = true) as Hu by (apply isupper_range; lia).
  unfold tolower. rewrite Hu, E. split; [|done]. rewrite <- (chr_ord c) at 2. f_equal. lia.
Qed.

Lemma lower_keeps c : islower c || isdigit c = true -> tolower c = c /\ isupper c = false.
Proof.
  intros Hc. assert (isupper c = false) as Hu.
  { apply not_true_iff_false. intros Hu%isupper_range. apply orb_true_iff in Hc as [Hc|Hc].
    - apply islower_range in Hc. lia.
    - unfold isdigit, in_chars in Hc. change (ord "0") with 48 in Hc. change (ord "9") with 57 in Hc. breflect. lia. }
  unfold tolower. by rewrite Hu.
Qed.

Lemma underscore_not_word c : islower c || isdigit c = true -> ch_eqb c "_" = false.
Proof. intros Hc. destruct (ch_eqb c "_") eqn:E; [|done]. apply ch_eqb_eq in E as ->. by vm_compute in Hc. Qed.

Lemma camel_snake_words s : snake_words s = true -> camel_loop false (snake_loop false s) = s.
Proof.
  assert (forall n s, (length s <= n)%nat -> snake_words s = true -> camel_loop false (snake_loop false s) = s) as Hn;
    [|by apply (Hn (length s))].
  clear s. induction n as [|n IH]; intros [|c s] Hl Hs; cbn in Hl; [done|lia|done|]. cbn [snake_words] in Hs.
  destruct (ch_eqb c "_") eqn:E; cbn [snake_loop]; rewrite E.
  - destruct s as [|d s]; [done|]. apply andb_true_iff in Hs as [Hd Hs]. apply ch_eqb_eq in E as ->.
    cbn [snake_loop]. rewrite underscore_not_word by (by rewrite Hd).
    destruct (tolower_toupper d Hd) as [Ht Hu]. cbn [camel_loop]. rewrite Hu, Ht. cbn [negb andb app].
    do 2 f_equal. apply IH; [cbn in Hl; lia|done].
  - apply andb_true_iff in Hs as [Hc Hs]. destruct (lower_keeps c Hc) as [Ht Hu].
    cbn [camel_loop]. rewrite Hu, Ht. cbn. f_equal. apply IH; [lia|done].
Qed.

(** Reading a snake-case name in camel case and back gives the name. *)
Lemma camel_snake_name s : snake_name s = true -> CamelCaseToSnake (SnakeCaseToCamel s) = s.
Proof.
  destruct s as [|c s]; [done|]. cbn [snake_name]. intros [Hc Hs]%andb_true_iff.
  unfold CamelCaseToSnake, SnakeCaseToCamel. cbn [snake_loop].
  rewrite underscore_not_word by (by rewrite Hc).
  destruct (lower_keeps c) as [Ht _]; [by rewrite Hc|]. cbn. rewrite Ht. f_equal. by apply camel_snake_words.
Qed.

(** ** What a document says about a field *)

(** Induction over the fields of messages in messages. *)
Lemma Field_nested_ind (P : Field -> Prop) :
  (forall f, Forall P (message_fields f) -> P f) -> forall f, P f.
Proof.
  intros IH. fix rec 1. intros [name type rep enums fields]. apply IH. cbn.
  induction fields as [|g fields IHf]; constructor; [apply rec|apply IHf].
Qed.

(** Field names are unique at every level. *)
Inductive well_named : Descriptor -> Prop :=
  | wn_intro d : NoDup (map field_name d) -> Forall (fun f => well_named (message_fields f)) d -> well_named d.

Section spec.
Context {V : Type}.
Variable node_as : CppType.t -> Node -> chars + V.
Variable node_string : Node -> chars + chars.
Variable enum_value : Z -> V.
Variable file_ : chars.
Variable read_camelcase_ : bool.
Variable validation_mode_ : ValidationMode.t.
Implicit Types m sub : Message V.

Abbreviation key := (key_of read_camelcase_).
Abbreviation parse_field := (ParseField node_as node_string enum_value file_ read_camelcase_ validation_mode_).
Abbreviation parse_fields := (ParseFields node_as node_string enum_value file_ read_camelcase_ validation_mode_).

(** The value of a node for a field: the number of the enum value it names, or its
    conversion to the type of the field. *)
Definition reads (f : Field) (n : Node) (v : V) : Prop :=
  if bool_decide (field_type f = FieldType.ENUM) then
    exists s number, node_string n = inr s /\ FindValueByName (map toupper s) (enum_values f) = Some number /\
      v = enum_value number
  else node_as (cpp_type (field_type f)) n = inr v.

Definition sub_message (old : option (Value V)) : Message V :=
  match old with Some (VMessage fields) => fields | _ => [] end.

(** [populates f node old new]: in a message read from [node], a field [f] that
    was [old] is [new]. *)
Inductive populates : Field -> Node -> option (Value V) -> option (Value V) -> Prop :=
  | pop_missing f node old :
      IsDefined (subscript node (key f)) = false -> validation_mode_ <> ValidationMode.STRICT ->
      populates f node old old
  | pop_array f node old elems vs :
      is_repeated f = true -> cpp_type (field_type f) <> CppType.MESSAGE ->
      subscript node (key f) = Sequence elems -> Forall2 (reads f) elems vs ->
      populates f node old (Some (VRepeated vs))
  | pop_null f node old :
      is_repeated f = false -> field_type f = FieldType.MESSAGE -> subscript node (key f) = Null ->
      populates f node old old
  | pop_message f node old entries sub :
      is_repeated f = false -> field_type f = FieldType.MESSAGE -> subscript node (key f) = Map entries ->
      Forall (fun g => populates g (Map entries) (get_value (field_name g) (sub_message old)) (get_value (field_name g) sub))
        (message_fields f) ->
      (forall name, ~ In name (map field_name (message_fields f)) ->
        get_value name sub = get_value name (sub_message old)) ->
      populates f node old (Some (VMessage sub))
  | pop_scalar f node old text v :
      is_repeated f = false -> cpp_type (field_type f) <> CppType.MESSAGE -> field_type f <> FieldType.BYTES ->
      subscript node (key f) = Scalar text -> reads f (Scalar text) v ->
      populates f node old (Some (VScalar v)).

Lemma get_set f v m name :
  get_value name (set_value f v m) = if chars_eqb name (field_name f) then Some v else get_value name m.
Proof. unfold get_value, set_value. apply (umap_find_assign chars_eqb). Qed.

Lemma get_set_same f v m : get_value (field_name f) (set_value f v m) = Some v.
Proof. rewrite get_set. unfold chars_eqb. by rewrite bool_decide_true. Qed.
Lemma get_set_other f v m name : name <> field_name f -> get_value name (set_value f v m) = get_value name m.
Proof. intros Hn. rewrite get_set. unfold chars_eqb. by rewrite bool_decide_false. Qed.

(** The inner loop is the loop over the fields of a message. *)
Lemma ParseField_eq f path node m :
  parse_field f path node m =
  let name := key f in
  let value := subscript node name in
  if negb (IsDefined value) then
    match validation_mode_ with
    | ValidationMode.STRICT =>
        Ret ([file_ ++ chars_of ": Missing field '" ++ ConcatPath path name ++ chars_of "'"], m)
    | _ => Ret ([], m)
    end
  else if is_repeated f then
    match value with
    | Sequence elems => ParseArray node_as node_string enum_value file_ read_camelcase_ elems f m
    | _ => Ret ([mismatch file_ name "Sequence" value], m)
    end
  else if bool_decide (field_type f = FieldType.MESSAGE) then
    if IsNull value then Ret ([], m)
    else if negb (IsMap value) then Ret ([mismatch file_ name "Map" value], m)
    else
      '(errors, sub) ← parse_fields (message_fields f) (ConcatPath path name) value (sub_message (get_value (field_name f) m));
      Ret (errors, set_value f (VMessage sub) m)
  else if negb (IsScalar value) then
    Ret ([file_ ++ chars_of ": Attempting to parse non-scalar field as scalar"], m)
  else ParseScalar node_as node_string enum_value file_ value f name m.
Proof.
  destruct f as [name type rep enums fields]. cbn [ParseField]. cbv zeta.
  assert (forall path value sub,
    (fix parse_fields (fs : list Field) (sub : Message V) {struct fs} : Parsed :=
       match fs with
       | [] => Ret ([], sub)
       | g :: rest =>
           '(errors, sub) ← parse_field g path value sub;
           '(errors', sub) ← parse_fields rest sub;
           Ret (errors ++ errors', sub)
       end) fields sub = parse_fields fields path value sub) as Hloop.
  { intros pth value. induction fields as [|g fields IH]; intros sub; [done|]. cbn [ParseFields].
    destruct (parse_field g pth value sub) as [[es sub']| |]; [|done ..]. cbn [mbind outcome_bind]. by rewrite IH. }
  destruct (negb (IsDefined _)); [done|]. destruct (is_repeated _); [done|].
  destruct (bool_decide _); [|done]. destruct (IsNull _); [done|]. destruct (negb (IsMap _)); [done|].
  cbn [message_fields]. by rewrite Hloop.
Qed.

Lemma convert_all_ok f elems vs :
  convert_all node_as file_ (cpp_type (field_type f)) elems = ([], vs) ->
  field_type f <> FieldType.ENUM -> Forall2 (reads f) elems vs.
Proof.
  intros Hc Hf. revert vs Hc. induction elems as [|n elems IH]; intros vs; cbn [convert_all]; [by intros [= <-]|].
  destruct (convert_all _ _ _ elems) as [es vs']. unfold TryConvert.
  destruct (node_as _ n) as [e|v] eqn:E; [done|]. intros [= -> <-]. constructor; [|by apply IH].
  unfold reads. by rewrite bool_decide_false.
Qed.

Lemma convert_enums_ok f elems vs :
  convert_enums node_string enum_value file_ read_camelcase_ elems f = ([], vs) ->
  field_type f = FieldType.ENUM -> Forall2 (reads f) elems vs.
Proof.
  intros Hc Hf. revert vs Hc. induction elems as [|n elems IH]; intros vs; cbn [convert_enums]; [by intros [= <-]|].
  destruct (convert_enums _ _ _ _ elems f) as [es vs']. unfold TryConvertString.
  destruct (node_string n) as [e|s] eqn:E; [done|]. destruct (FindValueByName _ _) as [k|] eqn:Ek; [|done].
  intros [= -> <-]. constructor; [|by apply IH]. unfold reads. rewrite bool_decide_true by done. by exists s, k.
Qed.

Lemma ParseArray_ok f elems m m' :
  ParseArray node_as node_string enum_value file_ read_camelcase_ elems f m = Ret ([], m') ->
  cpp_type (field_type f) <> CppType.MESSAGE /\ exists vs, Forall2 (reads f) elems vs /\ m' = set_value f (VRepeated vs) m.
Proof.
  unfold ParseArray, ParseArrayInner, ParseArrayEnum. intros H.
  destruct (field_type f) eqn:Ef; cbn [cpp_type] in H |- *; try done; (split; [done|]).
  all: try (destruct (convert_all _ _ _ elems) as [es vs] eqn:Ec; injection H as -> <-; exists vs; split; [|done];
    apply convert_all_ok; rewrite Ef; done).
  destruct (convert_enums _ _ _ _ elems f) as [es vs] eqn:Ec. injection H as -> <-. exists vs. split; [|done].
  by apply convert_enums_ok.
Qed.

Lemma parse_as_ok type n f m m' :
  parse_as node_as file_ type n f m = Ret ([], m') -> field_type f <> FieldType.ENUM ->
  exists v, reads f n v /\ m' = set_value f (VScalar v) m.
Proof.
  unfold parse_as, TryConvert, SetScalar. intros H Hf. destruct (node_as type n) as [e|v] eqn:E; [done|].
  case_bool_decide as Ht; [|done]. injection H as <-. exists v. split; [|done].
  unfold reads. by rewrite bool_decide_false, Ht.
Qed.

Lemma ParseScalar_ok f n name m m' :
  ParseScalar node_as node_string enum_value file_ n f name m = Ret ([], m') ->
  cpp_type (field_type f) <> CppType.MESSAGE /\ field_type f <> FieldType.BYTES /\
  exists v, reads f n v /\ m' = set_value f (VScalar v) m.
Proof.
  unfold ParseScalar. intros H. destruct (field_type f) eqn:Ef; try done; (split_and!; [done ..|]).
  all: try (eapply parse_as_ok; [exact H|congruence]).
  destruct (node_string n) as [e|s] eqn:Es; [done|]. destruct (FindValueByName _ _) as [k|] eqn:Ek; [|done].
  injection H as <-. exists (enum_value k). split; [|done]. unfold reads. rewrite bool_decide_true by done. by exists s, k.
Qed.

(** A field read without errors, and nothing else changed. *)
Definition field_ok (f : Field) : Prop :=
  forall path node m m', parse_field f path node m = Ret ([], m') -> well_named (message_fields f) ->
    populates f node (get_value (field_name f) m) (get_value (field_name f) m') /\
    forall name, name <> field_name f -> get_value name m' = get_value name m.

Lemma ParseFields_ok fs path node m m' :
  Forall field_ok fs -> parse_fields fs path node m = Ret ([], m') ->
  NoDup (map field_name fs) -> Forall (fun f => well_named (message_fields f)) fs ->
  Forall (fun f => populates f node (get_value (field_name f) m) (get_value (field_name f) m')) fs /\
  forall name, ~ In name (map field_name fs) -> get_value name m' = get_value name m.
Proof.
  intros Hok. revert m. induction Hok as [|f fs Hf Hfs IH]; intros m Hp Hn Hw; cbn [ParseFields] in Hp.
  { by injection Hp as <-. }
  inv_bind Hp. destruct l as [|? l]; [|done]. destruct l0 as [|? l0]; [|done]. injection Hp as <-.
  cbn [map] in Hn. apply NoDup_cons in Hn as [Hnf Hn]. inversion Hw as [|? ? Hwf Hws]; subst.
  rewrite list_elem_of_In in Hnf.
  destruct (Hf _ _ _ _ E Hwf) as [Hpf Hof]. destruct (IH _ E0 Hn Hws) as [Hps Hos].
  split; [constructor|].
  - by rewrite Hos.
  - apply Forall_forall. intros g Hg. rewrite Forall_forall in Hps. specialize (Hps g Hg).
    rewrite Hof in Hps; [done|]. intros Eg. apply Hnf. rewrite <- Eg. apply in_map. by apply list_elem_of_In.
  - intros name Hname. cbn in Hname. rewrite Hos by tauto. apply Hof. intros ->. tauto.
Qed.

Lemma ParseField_ok f : field_ok f.
Proof.
  induction f as [f IH] using Field_nested_ind. intros path node m m' Hp Hw. rewrite ParseField_eq in Hp. cbv zeta in Hp.
  destruct (IsDefined (subscript node (key f))) eqn:Ed; cbn [negb] in Hp.
  2: { destruct validation_mode_ eqn:Em; [done| |]; injection Hp as <-; (split; [|done]); apply pop_missing; rewrite ?Em; done. }
  destruct (is_repeated f) eqn:Er.
  { destruct (subscript node (key f)) as [| | |elems|] eqn:Es; try done.
    apply ParseArray_ok in Hp as (Hm & vs & Hvs & ->). rewrite get_set_same. split; [by eapply pop_array|].
    intros. by apply get_set_other. }
  case_bool_decide as Hmsg.
  - destruct (subscript node (key f)) as [| | | |entries] eqn:Es; try done; cbn [IsNull IsMap negb] in Hp.
    + injection Hp as <-. split; [by apply pop_null|done].
    + inv_bind Hp. injection Hp as -> <-. rewrite get_set_same. inversion Hw as [d Hnd Hws]; subst.
      destruct (ParseFields_ok _ _ _ _ _ IH E Hnd Hws) as [Hpop Hoth].
      split; [by eapply pop_message|]. intros. by apply get_set_other.
  - destruct (IsScalar (subscript node (key f))) eqn:Esc; cbn [negb] in Hp; [|done].
    destruct (subscript node (key f)) as [| |text| |] eqn:Es; try done.
    apply ParseScalar_ok in Hp as (Hm & Hb & v & Hv & ->). rewrite get_set_same.
    split; [by eapply pop_scalar|]. intros. by apply get_set_other.
Qed.

(** The loop over all fields, without errors. *)
Lemma Parse_fields_read d node m m' :
  NoDup (map field_name d) -> Forall (fun f => well_named (message_fields f)) d ->
  Parse node_as node_string enum_value file_ read_camelcase_ validation_mode_ d node m = Ret ([], m') ->
  Forall (fun f => populates f node (get_value (field_name f) m) (get_value (field_name f) m')) d /\
  forall name, ~ In name (map field_name d) -> get_value name m' = get_value name m.
Proof.
  intros Hn Hw Hp. unfold Parse in Hp. destruct (IsScalar node || IsNull node); [done|]. inv_bind Hp.
  injection Hp as He <-. apply app_eq_nil in He as [-> ->]. eapply ParseFields_ok; try done.
  apply Forall_forall. intros f _. apply ParseField_ok.
Qed.

(** ** Unknown fields *)

(** Every key names a field, in nested maps as well, where the field is a message. *)
Inductive known : Descriptor -> Node -> Prop :=
  | known_map d entries :
      Forall (fun kv => exists text f,
        node_string kv.1 = inr text /\
        FindFieldByName (if read_camelcase_ then CamelCaseToSnake text else text) d = Some f /\
        (IsMap kv.2 = true -> field_type f = FieldType.MESSAGE /\ is_repeated f = false /\ known (message_fields f) kv.2))
        entries ->
      known d (Map entries)
  | known_other d node : IsMap node = false -> node = Sequence [] \/ IsSequence node = false -> known d node.

Lemma Node_map_ind (P : Node -> Prop) :
  (forall node, IsMap node = false -> P node) ->
  (forall entries, Forall (fun kv => P kv.2) entries -> P (Map entries)) -> forall node, P node.
Proof.
  intros Ho Hm. fix rec 1. intros [| |text|elems|entries]; try by apply Ho. apply Hm.
  induction entries as [|[k v] entries IH]; constructor; [apply rec|apply IH].
Qed.

Lemma FindUnknownFields_known d node :
  FindUnknownFields node_string file_ read_camelcase_ d node = Ret [] -> known d node.
Proof.
  revert d. induction node as [node Hn|entries IH] using Node_map_ind; intros d Hu.
  - apply known_other; [done|]. destruct node as [| | |[|e es]|]; first [done|by left|by right|exfalso; cbn in Hu; discriminate Hu].
  - apply known_map. cbn [FindUnknownFields] in Hu.
    induction IH as [|[k v] entries Hv _ IHe]; [constructor|]. cbn [snd fst] in Hv.
    destruct (node_string k) as [|text] eqn:Ek; [done|]. inv_bind Hu.
    destruct x as [|? x]; [|done]. destruct x0 as [|? x0]; [|done]. constructor; [|by apply IHe].
    cbn [fst snd]. destruct (FindFieldByName _ d) as [f|] eqn:Ef; [|done]. exists text, f. split_and!; [done ..|].
    intros Hmap. rewrite Hmap in E. case_bool_decide as Hmsg; [|done]. destruct (is_repeated f) eqn:Er; [done|].
    split_and!; [done ..|]. by apply Hv.
Qed.

(** ** Totality *)

(** The document gives the field a value that needs the setter that protobuf refuses: a
    sint64 field that is not repeated, or such a field of a message, gets a scalar that
    reads as an unsigned number. *)
Inductive kills : Field -> Node -> Prop :=
  | kills_sint64 f node text v :
      is_repeated f = false -> field_type f = FieldType.SINT64 -> subscript node (key f) = Scalar text ->
      node_as CppType.UINT64 (Scalar text) = inr v -> kills f node
  | kills_nested f node entries g :
      is_repeated f = false -> field_type f = FieldType.MESSAGE -> subscript node (key f) = Map entries ->
      In g (message_fields f) -> kills g (Map entries) -> kills f node.

Hypothesis strings_read : forall text, exists s, node_string (Scalar text) = inr s.

Lemma ParseArray_returns elems f m :
  exists r, ParseArray node_as node_string enum_value file_ read_camelcase_ elems f m = Ret r.
Proof.
  unfold ParseArray, ParseArrayInner, ParseArrayEnum.
  destruct (cpp_type _); try (destruct (convert_all _ _ _ _)); try (destruct (convert_enums _ _ _ _ _)); by eexists.
Qed.

Lemma parse_as_returns type n f m :
  cpp_type (field_type f) = type -> exists r, parse_as node_as file_ type n f m = Ret r.
Proof.
  intros Ht. unfold parse_as, SetScalar. destruct (TryConvert _ _ _ _); [by eexists|].
  rewrite bool_decide_true by done. by eexists.
Qed.

Lemma ParseScalar_returns text f name m :
  field_type f <> FieldType.SINT64 ->
  exists r, ParseScalar node_as node_string enum_value file_ (Scalar text) f name m = Ret r.
Proof.
  intros Hs. unfold ParseScalar. destruct (field_type f) eqn:Ef; try done;
    try (apply parse_as_returns; by rewrite Ef); try (by eexists).
  destruct (strings_read text) as [s ->]. destruct (FindValueByName _ _); by eexists.
Qed.

(** A step returns, or it kills the process, and which of the two is [P]. *)
Definition dies_iff {A} (P : Prop) (r : outcome A) : Prop := (r = Crash /\ P) \/ ((exists x, r = Ret x) /\ ~ P).

Lemma ParseFields_dies fs path node m :
  Forall (fun f => forall path node m, dies_iff (kills f node) (parse_field f path node m)) fs ->
  dies_iff (exists f, In f fs /\ kills f node) (parse_fields fs path node m).
Proof.
  intros Hf. revert m. induction Hf as [|f fs Hf _ IH]; intros m; cbn [ParseFields]; [right; split; [by eexists|by intros (? & [] & _)]|].
  destruct (Hf path node m) as [[-> Hk]|[[[es m1] ->] Hk]]; [left; split; [done|]; exists f; by split; [left|]|]. cbn [mbind outcome_bind].
  destruct (IH m1) as [[-> (g & Hg & Hk')]|[[[es' m2] ->] Hk']]; [left; split; [done|]; exists g; by split; [right|]|].
  right. split; [by eexists|]. intros (g & [->|Hg] & Hkg); [done|]. apply Hk'. by exists g.
Qed.

Lemma ParseField_dies f : forall path node m, dies_iff (kills f node) (parse_field f path node m).
Proof.
  induction f as [f IH] using Field_nested_ind. intros path node m. rewrite ParseField_eq. cbv zeta.
  assert (forall r, (kills f node -> False) -> dies_iff (kills f node) (Ret (A := list ParserError * Message V) r)) as Hret by (intros r Hk; right; split; [by eexists|done]).
  destruct (negb (IsDefined _)) eqn:Ed.
  { destruct validation_mode_; apply Hret; inversion 1; subst; by destruct (subscript _ _). }
  destruct (is_repeated f) eqn:Er.
  { right. split; [|inversion 1; congruence]. destruct (subscript _ _); try (by eexists). apply ParseArray_returns. }
  case_bool_decide as Et.
  - destruct (subscript node (key f)) as [| | | |entries] eqn:En; cbn [IsNull IsMap negb]; try (apply Hret; inversion 1; congruence).
    destruct (ParseFields_dies (message_fields f) (ConcatPath path (key f)) (Map entries)
      (sub_message (get_value (field_name f) m)) IH) as [[-> (g & Hg & Hk)]|[[[es sub] ->] Hk]].
    + left. split; [done|]. by eapply kills_nested.
    + apply Hret. inversion 1; subst; [congruence|]. apply Hk. eexists. split; [done|]. congruence.
  - destruct (subscript node (key f)) as [| |text| |] eqn:En; cbn [IsScalar negb]; try (apply Hret; inversion 1; congruence).
    destruct (decide (field_type f = FieldType.SINT64)) as [E|E].
    + unfold ParseScalar, parse_as, TryConvert, SetScalar. rewrite E. destruct (node_as CppType.UINT64 (Scalar text)) as [e|v] eqn:Ev.
      * apply Hret. inversion 1; congruence.
      * left. split; [done|]. by eapply kills_sint64.
    + right. split; [by apply ParseScalar_returns|]. inversion 1; congruence.
Qed.
End spec.

(** ** Properties *)

Section theorems.
Context {V : Type}.
Variable node_as : CppType.t -> Node -> chars + V.
Variable node_string : Node -> chars + chars.
Variable enum_value : Z -> V.
Variable file_ : chars.

(** C16: a configuration that parses without errors says exactly what the message
    holds: each field has the value its key in the document converts to, field by
    field in nested messages; a field whose key is missing keeps its value (and is
    an error in strict mode); nothing else changes; and unless the parser is
    permissive every key of the document names a field. *)
Theorem Parse_populates camel mode d node (m m' : Message V) :
  well_named d -> Parse node_as node_string enum_value file_ camel mode d node m = Ret ([], m') ->
  Forall (fun f => populates node_as node_string enum_value camel mode f node
    (get_value (field_name f) m) (get_value (field_name f) m')) d /\
  (forall name, ~ In name (map field_name d) -> get_value name m' = get_value name m) /\
  (mode <> ValidationMode.PERMISSIVE -> known node_string camel d node).
Proof.
  intros [d' Hn Hw] Hp. destruct (Parse_fields_read _ _ _ _ _ _ _ _ _ _ Hn Hw Hp). split_and!; [done ..|].
  intros Hmode. unfold Parse in Hp. destruct (IsScalar node || IsNull node); [done|]. inv_bind Hp.
  injection Hp as He <-. apply app_eq_nil in He as [-> ->].
  eapply FindUnknownFields_known. destruct mode; [exact E0|done|exact E0].
Qed.

(** C17: when every scalar reads as a string, a permissive parser returns on every
    document and for every message type, unless the document gives a scalar that reads as
    an unsigned number to a sint64 field that is not repeated, at the top or in nested
    messages; then, and only then, the process dies: for such a field the unsigned
    setter is called, which protobuf refuses. *)
Theorem Parse_returns camel d node (m : Message V) :
  (forall text, exists s, node_string (Scalar text) = inr s) ->
  let parsed := Parse node_as node_string enum_value file_ camel ValidationMode.PERMISSIVE d node m in
  (parsed = Crash <-> exists f, In f d /\ kills node_as camel f node) /\
  (parsed = Crash \/ exists errors m', parsed = Ret (errors, m')).
Proof.
  intros Hstr parsed. subst parsed. cut (dies_iff (exists f, In f d /\ kills node_as camel f node)
    (Parse node_as node_string enum_value file_ camel ValidationMode.PERMISSIVE d node m)).
  { intros [[-> Hk]|[[[es m'] ->] Hk]]; (split; [done|]); [by left|right; by do 2 eexists]. }
  unfold Parse. destruct (IsScalar node || IsNull node) eqn:En.
  - right. split; [by eexists|]. intros (f & _ & Hk). destruct Hk as [f node text v _ _ Hk|f node entries g _ _ Hk]; by destruct node.
  - destruct (ParseFields_dies node_as node_string enum_value file_ camel ValidationMode.PERMISSIVE d [] node m)
      as [[-> Hk]|[[[es m'] ->] Hk]]; [|by left|right; split; [by eexists|done]].
    apply Forall_forall. intros f _. by apply ParseField_dies.
Qed.
End theorems.

(** The key under which a field is read in camel case is the one that the check
    for unknown fields leads back to the field, for every type whose field names
    are unique and in snake case. *)
Theorem field_names_agree d f :
  NoDup (map field_name d) -> Forall (fun f => snake_name (field_name f) = true) d -> In f d ->
  FindFieldByName (CamelCaseToSnake (key_of true f)) d = Some f.
Proof.
  intros Hn Hs Hf. unfold key_of. rewrite camel_snake_name.
  2: { rewrite Forall_forall in Hs. apply Hs. by apply list_elem_of_In. }
  clear Hs. induction d as [|g d IH]; [done|]. cbn [map] in Hn. apply NoDup_cons in Hn as [Hg Hn].
  cbn [FindFieldByName]. unfold chars_eqb. destruct Hf as [->|Hf]; [by rewrite bool_decide_true|].
  rewrite bool_decide_false; [by apply IH|]. intros E. apply Hg. rewrite E. apply list_elem_of_In. by apply in_map.
Qed.

(** ** Witnesses: the type of the runtime configuration *)

Definition wit_field (name : string) (t : FieldType.t) (enums : list (chars * Z)) (fs : list Field) : Field :=
  mkField (chars_of name) t false enums fs.
Definition wit_config : Descriptor :=
  [wit_field "networking" FieldType.MESSAGE []
     [wit_field "external_ips" FieldType.MESSAGE []
        [wit_field "enabled" FieldType.ENUM [(chars_of "DISABLED", 0); (chars_of "ENABLED", 1)] []];
      wit_field "max_connections_per_minute" FieldType.INT64 [] []]].

(** Numbers are counted by their length, which is enough to tell values apart. *)
Definition wit_as (t : CppType.t) (n : Node) : chars + Z :=
  match n with Scalar s => inr (Z.of_nat (length s)) | _ => inl (chars_of "bad conversion") end.
Definition wit_string (n : Node) : chars + chars :=
  match n with Scalar s => inr s | _ => inl (chars_of "bad conversion") end.
Definition wit_entry (k : string) (v : Node) : Node * Node := (Scalar (chars_of k), v).
Definition wit_document : Node :=
  Map [wit_entry "networking" (Map [
    wit_entry "externalIps" (Map [wit_entry "enabled" (Scalar (chars_of "enabled"))]);
    wit_entry "maxConnectionsPerMinute" (Scalar (chars_of "2048"))])].
Definition wit_message : Message Z :=
  [(chars_of "networking", VMessage
     [(chars_of "external_ips", VMessage [(chars_of "enabled", VScalar 1)]);
      (chars_of "max_connections_per_minute", VScalar 4)])].

Lemma wit_well_named : well_named wit_config.
Proof.
  repeat first [apply (bool_decide_unpack _); vm_compute; exact I|constructor].
Qed.

Lemma Parse_populates_witness :
  Forall (fun f => populates wit_as wit_string id true ValidationMode.STRICT f wit_document
    None (get_value (field_name f) wit_message)) wit_config /\
  known wit_string true wit_config wit_document.
Proof.
  destruct (Parse_populates wit_as wit_string id (chars_of "f") true ValidationMode.STRICT wit_config wit_document [] wit_message)
    as (Hp & _ & Hk).
  - apply wit_well_named.
  - vm_compute. reflexivity.
  - split; [exact Hp|apply Hk; discriminate].
Defined.

Definition wit_counter : Descriptor := [wit_field "name" FieldType.STRING [] []; wit_field "sub" FieldType.MESSAGE [] [wit_field "n" FieldType.SINT64 [] []]].

Lemma Parse_returns_witness :
  (exists errors m', Parse wit_as wit_string id (chars_of "f") true ValidationMode.PERMISSIVE wit_counter wit_document [] =
    Ret (errors, m')) /\
  Parse wit_as wit_string id (chars_of "f") true ValidationMode.PERMISSIVE wit_counter
    (Map [wit_entry "sub" (Map [wit_entry "n" (Scalar (chars_of "5"))])]) [] = Crash.
Proof.
  assert (forall text, exists s, wit_string (Scalar text) = inr s) as Hs by (intros text; by exists text).
  split.
  - destruct (Parse_returns wit_as wit_string id (chars_of "f") true wit_counter wit_document [] Hs) as [_ [H|H]]; [discriminate H|exact H].
  - apply (Parse_returns wit_as wit_string id (chars_of "f") true wit_counter _ [] Hs).
    eexists. split; [right; left; reflexivity|]. eapply kills_nested; [reflexivity..|by left|]. by eapply (kills_sint64 _ _ _ _ (chars_of "5") 1).
Defined.

Lemma field_names_agree_witness :
  FindFieldByName (CamelCaseToSnake (chars_of "maxConnectionsPerMinute"))
    (match wit_config with f :: _ => message_fields f | [] => [] end) =
  Some (wit_field "max_connections_per_minute" FieldType.INT64 [] []).
Proof.
  apply (field_names_agree _ (wit_field "max_connections_per_minute" FieldType.INT64 [] [])).
  - apply (bool_decide_unpack _). vm_compute. exact I.
  - repeat constructor.
  - right. left. reflexivity.
Defined.
