(* ===== verification/Inotify.v ===== *)
(** * The inotify wrapper ([Inotify.h], [Inotify.cpp])

    The buffer of events is a list of bytes in the order of the host, read as the
    code reads it.  The results of the system calls are inputs; the descriptors
    given to [inotify_rm_watch] are recorded.  Reading outside the buffer ends the
    process ([Crash]). *)

From S2P Require Import Prelude HostOrder CStrings Utility.

(** ** Flags of [<sys/inotify.h>] *)

Definition IN_ACCESS : Z := 0x1.
Definition IN_MODIFY : Z := 0x2.
Definition IN_ATTRIB : Z := 0x4.
Definition IN_CLOSE_WRITE : Z := 0x8.
Definition IN_CLOSE_NOWRITE : Z := 0x10.
Definition IN_OPEN : Z := 0x20.
Definition IN_MOVED_FROM : Z := 0x40.
Definition IN_MOVED_TO : Z := 0x80.
Definition IN_CREATE : Z := 0x100.
Definition IN_DELETE : Z := 0x200.
Definition IN_DELETE_SELF : Z := 0x400.
Definition IN_MOVE_SELF : Z := 0x800.
Definition IN_UNMOUNT : Z := 0x2000.
Definition IN_Q_OVERFLOW : Z := 0x4000.
Definition IN_IGNORED : Z := 0x8000.
Definition IN_DONT_FOLLOW : Z := 0x2000000.
Definition IN_ISDIR : Z := 0x40000000.
Definition IN_ONESHOT : Z := 0x80000000.

Definition has_flag (mask flags : Z) : bool := negb (mask &. flags =? 0).

(** [BIT_MASKS] and [MASK_STR]. *)
Definition MASKS : list (Z * string) :=
  [(IN_ACCESS, "access"); (IN_MODIFY, "modify"); (IN_ATTRIB, "attrib"); (IN_CLOSE_WRITE, "close_write");
   (IN_CLOSE_NOWRITE, "close_nowrite"); (IN_OPEN, "open"); (IN_MOVED_FROM, "moved_from"); (IN_MOVED_TO, "moved_to");
   (IN_CREATE, "create"); (IN_DELETE, "delete"); (IN_DELETE_SELF, "delete_self"); (IN_MOVE_SELF, "move_self");
   (IN_UNMOUNT, "unmount"); (IN_Q_OVERFLOW, "q_overflow"); (IN_IGNORED, "ignored"); (IN_ISDIR, "isdir");
   (IN_ONESHOT, "oneshot")].

Definition MaskToString (mask : Z) : chars :=
  fold_left (fun out m =>
    if has_flag mask m.1
    then (match out with [] => out | _ => out ++ chars_of " | " end) ++ chars_of m.2
    else out) MASKS [].

(** ** Watchers *)

Record Watcher := mkWatcher { wd : Z; path : chars; tag : Z }.

Section inotify.
Context `{ho : HostOrder}.

(** [rm_calls_] records the calls of [inotify_rm_watch]. *)
Record Inotify := mkInotify {
  fd_ : Z; buffer_ : list Z; curr_byte_ : Z; read_data_ : Z; watchers_ : list Watcher; rm_calls_ : list Z
}.

(** The constructor; [fd] is the result of [inotify_init]. *)
Definition Inotify_make (fd : Z) : Inotify := mkInotify fd (replicate 1024 0) 0 0 [] [].
Definition IsValid (i : Inotify) : bool := 0 <? fd_ i.

Definition set_watchers (ws : list Watcher) (rm : list Z) (i : Inotify) : Inotify :=
  mkInotify (fd_ i) (buffer_ i) (curr_byte_ i) (read_data_ i) ws (rm_calls_ i ++ rm).
Definition set_buffer (b : list Z) (curr data : Z) (i : Inotify) : Inotify :=
  mkInotify (fd_ i) b curr data (watchers_ i) (rm_calls_ i).

(** Iterators are positions; [watchers_.end()] is [None]. *)
Fixpoint find_pos {A} (p : A -> bool) (l : list A) : option nat :=
  match l with
  | [] => None
  | x :: r => if p x then Some 0%nat else S <$> find_pos p r
  end.
Definition FindWatcher_path (needle : chars) (i : Inotify) : option nat :=
  find_pos (fun w => bool_decide (path w = needle)) (watchers_ i).
Definition FindWatcher_wd (needle : Z) (i : Inotify) : option nat :=
  find_pos (fun w => wd w =? needle) (watchers_ i).

(** [result] is what [inotify_add_watch] returns for the path and the flags. *)
Definition AddWatcher (p : chars) (tag_ result : Z) (i : Inotify) : Z * Inotify :=
  if result <? 0 then (-1, i)
  else
    match FindWatcher_path p i with
    | None => (result, set_watchers (watchers_ i ++ [mkWatcher result p tag_]) [] i)
    | Some pos =>
        match watchers_ i !! pos with
        | None => (result, i)
        | Some w =>
            let rm := if negb (wd w =? result) then [wd w] else [] in
            (result, set_watchers (<[pos := mkWatcher result (path w) tag_]> (watchers_ i)) rm i)
        end
    end.

Definition file_flags : Z := IN_MODIFY |. IN_MOVE_SELF |. IN_DELETE_SELF |. IN_DONT_FOLLOW.
Definition directory_flags : Z := IN_CREATE |. IN_DELETE |. IN_MOVE_SELF |. IN_DELETE_SELF |. IN_DONT_FOLLOW.

(** [add_watch] is [inotify_add_watch] on the descriptor. *)
Definition AddFileWatcher (add_watch : chars -> Z -> Z) (p : chars) (tag_ : Z) (i : Inotify) : Z * Inotify :=
  AddWatcher p tag_ (add_watch p file_flags) i.
Definition AddDirectoryWatcher (add_watch : chars -> Z -> Z) (p : chars) (tag_ : Z) (i : Inotify) : Z * Inotify :=
  AddWatcher p tag_ (add_watch p directory_flags) i.

Definition RemoveWatcher (it : option nat) (i : Inotify) : Inotify :=
  match it with
  | None => i
  | Some pos =>
      match watchers_ i !! pos with
      | None => i
      | Some w => set_watchers (delete pos (watchers_ i)) [wd w] i
      end
  end.

(** ** Events *)

(** [struct inotify_event]; [ev_name] is the string that starts where the name
    does, whether or not there is one; [None] if it does not end in the buffer. *)
Record inotify_event := mkEvent { ev_wd : Z; ev_mask : Z; ev_cookie : Z; ev_len : Z; ev_name : option chars }.

Definition sizeof_event : Z := 16.

(** Reinterpretation of 32 bits as an [int]. *)
Definition int32 (z : Z) : Z := if z <? 2 ^ 31 then z else z - 2 ^ 32.

(** A string in memory, up to its NUL. *)
Fixpoint c_string (bytes : list Z) : option chars :=
  match bytes with
  | [] => None
  | b :: r => if b =? 0 then Some [] else cons (chr b) <$> c_string r
  end.

Definition event_at (b : list Z) (pos : Z) : outcome inotify_event :=
  if (pos <? 0) || (Z.of_nat (length b) <? pos + sizeof_event) then Crash
  else
    let bytes := drop (Z.to_nat pos) b in
    let word k := load_word (take 4 (drop (4 * k) bytes)) in
    Ret (mkEvent (int32 (word 0%nat)) (word 1%nat) (word 2%nat) (word 3%nat)
           (c_string (drop 16 bytes))).

Inductive InotifyResult := INOTIFY_OK (e : inotify_event) | INOTIFY_ERROR | INOTIFY_TIMEOUT.

(** [ready] is the result of [select]; [data] is what [read] stores, or nothing
    when it fails and returns -1, which is stored as a [size_t]. *)
Definition GetNext (ready : Z) (data : option (list Z)) (i : Inotify) : outcome (InotifyResult * Inotify) :=
  if curr_byte_ i <? read_data_ i then
    event ← event_at (buffer_ i) (curr_byte_ i);
    Ret (INOTIFY_OK event, set_buffer (buffer_ i) (u64 (curr_byte_ i + sizeof_event + ev_len event)) (read_data_ i) i)
  else if ready <? 0 then Ret (INOTIFY_ERROR, i)
  else if ready =? 0 then Ret (INOTIFY_TIMEOUT, i)
  else
    let '(buffer, read_data) :=
      match data with
      | Some bytes => (bytes ++ drop (length bytes) (buffer_ i), Z.of_nat (length bytes))
      | None => (buffer_ i, u64 (-1))
      end in
    if read_data <? 0 then Ret (INOTIFY_ERROR, set_buffer buffer (curr_byte_ i) read_data i)
    else
      event ← event_at buffer 0;
      Ret (INOTIFY_OK event, set_buffer buffer (sizeof_event + ev_len event) read_data i).

End inotify.

(** ** Watchers: what the operations do *)

Section watchers.
Context `{ho : HostOrder}.
Implicit Types i : Inotify.

Lemma find_pos_Some {A} (p : A -> bool) l n :
  find_pos p l = Some n -> exists x, l !! n = Some x /\ p x = true.
Proof.
  revert n. induction l as [|x l IH]; intros n; cbn [find_pos]; [done|].
  destruct (p x) eqn:E; [intros [= <-]; by exists x|]. destruct (find_pos p l) as [m|]; [|done].
  intros [= <-]. by apply IH.
Qed.
Lemma find_pos_None {A} (p : A -> bool) l x : find_pos p l = None -> In x l -> p x = false.
Proof.
  induction l as [|y l IH]; [done|]. cbn [find_pos]. destruct (p y) eqn:E; [done|].
  destruct (find_pos p l); [done|]. intros _ [->|Hx]; [done|by apply IH].
Qed.

(** The watcher of a path. *)
Definition watcher_of (p : chars) i : option Watcher := pos ← FindWatcher_path p i; watchers_ i !! pos.

Definition unique_paths i : Prop := NoDup (map path (watchers_ i)).

Lemma watcher_of_In p i w : watcher_of p i = Some w -> In w (watchers_ i) /\ path w = p.
Proof.
  unfold watcher_of, FindWatcher_path. destruct (find_pos _ _) as [n|] eqn:E; [|done]. cbn [mbind option_bind].
  intros Hw. split; [by eapply list_elem_of_In, list_elem_of_lookup_2|].
  apply find_pos_Some in E as (w' & Hw' & Hp). rewrite Hw in Hw'. injection Hw' as <-. by breflect.
Qed.

Lemma In_watcher_of p i w : unique_paths i -> In w (watchers_ i) -> path w = p -> watcher_of p i = Some w.
Proof.
  intros Hu Hin Hp. unfold watcher_of, FindWatcher_path. destruct (find_pos _ _) as [n|] eqn:E.
  2: { apply (find_pos_None _ _ w) in E; [|done]. by apply bool_decide_eq_false in E. }
  apply find_pos_Some in E as (w' & Hw' & Hp'). cbn [mbind option_bind]. rewrite Hw'. f_equal. breflect.
  apply list_elem_of_In, list_elem_of_lookup in Hin as [k Hk].
  assert (n = k) as ->; [|congruence].
  apply (NoDup_lookup (map path (watchers_ i)) _ _ p); [exact Hu| |]; rewrite list_lookup_fmap;
    [rewrite Hw'|rewrite Hk]; cbn; congruence.
Qed.

Lemma watcher_of_None p i : watcher_of p i = None <-> ~ In p (map path (watchers_ i)).
Proof.
  unfold watcher_of, FindWatcher_path. destruct (find_pos _ _) as [n|] eqn:E; cbn [mbind option_bind].
  - apply find_pos_Some in E as (w & Hw & Hp). rewrite Hw. breflect. split; [done|]. intros Hn. destruct Hn.
    rewrite <- Hp. apply in_map. by eapply list_elem_of_In, list_elem_of_lookup_2.
  - split; [|done]. intros _ (w & Hp & Hin)%in_map_iff. apply (find_pos_None _ _ w) in E; [|done].
    by apply bool_decide_eq_false in E.
Qed.

(** Replacing the watcher at its position keeps the paths. *)
Lemma insert_paths (ws : list Watcher) pos w r t :
  ws !! pos = Some w -> map path (<[pos := mkWatcher r (path w) t]> ws) = map path ws.
Proof.
  intros Hw. change (path <$> <[pos := mkWatcher r (path w) t]> ws = path <$> ws).
  rewrite list_fmap_insert. apply list_insert_id. by rewrite list_lookup_fmap, Hw.
Qed.

Lemma AddWatcher_unique p tag_ result i : unique_paths i -> unique_paths (AddWatcher p tag_ result i).2.
Proof.
  intros Hu. unfold AddWatcher. destruct (result <? 0); [done|].
  destruct (FindWatcher_path p i) as [pos|] eqn:Ef.
  - destruct (watchers_ i !! pos) as [w|] eqn:Hw; [|done]. unfold unique_paths. cbn. by rewrite insert_paths.
  - assert (watcher_of p i = None) as Hno%watcher_of_None by (unfold watcher_of; by rewrite Ef).
    unfold unique_paths. cbn. rewrite map_app. apply NoDup_app. split_and!; [done| |apply NoDup_singleton].
    intros q Hq ->%list_elem_of_singleton. by apply Hno, list_elem_of_In.
Qed.

(** A watcher that is added is found under its path with the new descriptor
    and tag; every other path keeps its watcher, no path is listed twice, and the
    descriptor that was in use for the path before is given back exactly when it
    is another one.  A refused watch changes nothing. *)
Theorem AddWatcher_exact p tag_ result i :
  unique_paths i ->
  let '(r, i') := AddWatcher p tag_ result i in
  unique_paths i' /\
  (result < 0 -> r = -1 /\ i' = i) /\
  (0 <= result ->
   r = result /\ watcher_of p i' = Some (mkWatcher result p tag_) /\
   (forall q, q <> p -> watcher_of q i' = watcher_of q i) /\
   rm_calls_ i' = rm_calls_ i ++
     match watcher_of p i with Some w => if wd w =? result then [] else [wd w] | None => [] end).
Proof.
  intros Hu. pose proof (AddWatcher_unique p tag_ result i Hu) as Hu'. revert Hu'. unfold AddWatcher.
  destruct (result <? 0) eqn:Er; breflect; [intros _; split_and!; [done|done|lia]|].
  destruct (FindWatcher_path p i) as [pos|] eqn:Ef.
  - pose proof Ef as Ef'. unfold FindWatcher_path in Ef'. apply find_pos_Some in Ef' as (w & Hw & Hp). breflect.
    rewrite Hw. cbn [snd]. set (i' := set_watchers _ _ _). intros Hu'. split_and!; [done|lia|]. intros _. split_and!; [done| | |].
    + apply In_watcher_of; [done| |done]. eapply list_elem_of_In, list_elem_of_lookup_2. cbn. rewrite Hp.
      apply list_lookup_insert_eq. by apply lookup_lt_Some in Hw.
    + intros q Hq. destruct (watcher_of q i) as [v|] eqn:Ev.
      * apply watcher_of_In in Ev as [Hin Hv]. apply In_watcher_of; [done| |done].
        apply list_elem_of_In, list_elem_of_lookup in Hin as [k Hk]. eapply list_elem_of_In, list_elem_of_lookup_2. cbn.
        rewrite list_lookup_insert_ne; [exact Hk|]. intros ->. congruence.
      * apply watcher_of_None. cbn. rewrite insert_paths by done. by apply watcher_of_None.
    + unfold watcher_of. rewrite Ef. cbn. rewrite Hw. by destruct (wd w =? result).
  - assert (watcher_of p i = None) as Hno by (unfold watcher_of; by rewrite Ef).
    cbn [snd]. set (i' := set_watchers _ _ _). intros Hu'. split_and!; [done|lia|]. intros _. split_and!; [done| | |].
    + apply In_watcher_of; [done| |done]. cbn. apply in_app_iff. right. by left.
    + intros q Hq. destruct (watcher_of q i) as [v|] eqn:Ev.
      * apply watcher_of_In in Ev as [Hin Hv]. apply In_watcher_of; [done| |done]. cbn. apply in_app_iff. by left.
      * apply watcher_of_None. cbn. rewrite map_app, in_app_iff. apply watcher_of_None in Ev. cbn. intuition.
    + by rewrite Hno.
Qed.

Lemma RemoveWatcher_unique it i : unique_paths i -> unique_paths (RemoveWatcher it i).
Proof.
  intros Hu. unfold RemoveWatcher. destruct it as [pos|]; [|done]. destruct (watchers_ i !! pos); [|done].
  unfold unique_paths in *. cbn. eapply sublist_NoDup; [exact Hu|]. apply fmap_sublist, sublist_delete.
Qed.
End watchers.

(** ** Events: what the kernel writes *)

Section events.
Context `{ho : HostOrder}.

(** An event as the kernel has it: the name, if any, is padded with NULs. *)
Record KernelEvent := mkKernelEvent { k_wd : Z; k_mask : Z; k_cookie : Z; k_name : chars; k_pad : nat }.

Definition k_field (e : KernelEvent) : list Z :=
  match k_name e with [] => [] | name => map ord name ++ replicate (S (k_pad e)) 0 end.

Definition encode (e : KernelEvent) : list Z :=
  store_word 4 (u32 (k_wd e)) ++ store_word 4 (k_mask e) ++ store_word 4 (k_cookie e) ++
  store_word 4 (Z.of_nat (length (k_field e))) ++ k_field e.

Definition kernel_ok (e : KernelEvent) : Prop :=
  - 2 ^ 31 <= k_wd e < 2 ^ 31 /\ in_range 32 (k_mask e) /\ in_range 32 (k_cookie e) /\
  ~ In "000"%char (k_name e) /\ Z.of_nat (length (encode e)) <= 1024.

(** The event of the code stands for that of the kernel. *)
Definition decodes (e : KernelEvent) (v : inotify_event) : Prop :=
  ev_wd v = k_wd e /\ ev_mask v = k_mask e /\ ev_cookie v = k_cookie e /\
  ev_len v = Z.of_nat (length (k_field e)) /\ (k_name e <> [] -> ev_name v = Some (k_name e)).

Lemma encode_length e : length (encode e) = (16 + length (k_field e))%nat.
Proof. unfold encode. rewrite !length_app, !store_word_length. lia. Qed.

Lemma c_string_name name pad rest :
  ~ In "000"%char name -> c_string (map ord name ++ replicate (S pad) 0 ++ rest) = Some name.
Proof.
  induction name as [|c name IH]; intros Hn; [done|]. cbn [map app c_string]. 
  assert ((ord c =? 0) = false) as ->.
  { apply Z.eqb_neq. intros E. apply Hn. left. rewrite <- (chr_ord c), E. done. }
  rewrite chr_ord, IH by (intros ?; apply Hn; by right). done.
Qed.

Lemma int32_u32 z : - 2 ^ 31 <= z < 2 ^ 31 -> int32 (u32 z) = z.
Proof.
  intros Hz. unfold int32, wrap. destruct (Z.lt_ge_cases z 0).
  - replace (z mod 2 ^ 32) with (z + 2 ^ 32); [destruct (Z.ltb_spec (z + 2 ^ 32) (2 ^ 31)); lia|].
    rewrite <- (Z.mod_add z 1) by lia. rewrite Z.mod_small; lia.
  - rewrite Z.mod_small by lia. destruct (Z.ltb_spec z (2 ^ 31)); lia.
Qed.

(** Word [k] of four words and a rest. *)
Lemma nth_word (a b c d rest : list Z) (k : nat) :
  length a = 4%nat -> length b = 4%nat -> length c = 4%nat -> length d = 4%nat ->
  take 4 (drop (4 * k) (a ++ b ++ c ++ d ++ rest)) =
  match k with 0%nat => a | 1%nat => b | 2%nat => c | 3%nat => d | _ => take 4 (drop (4 * (k - 4)) rest) end.
Proof.
  intros Ha Hb Hc Hd.
  destruct k as [|[|[|[|k]]]]; cbn [Nat.mul Nat.add];
    repeat (rewrite drop_app_ge by lia; rewrite ?Ha, ?Hb, ?Hc, ?Hd; cbn [Nat.sub]);
    rewrite ?drop_0, ?take_app_le by lia; rewrite ?take_ge by lia; try done.
  do 2 f_equal. lia.
Qed.

Lemma event_at_encode pre e post :
  kernel_ok e -> exists v, event_at (pre ++ encode e ++ post) (Z.of_nat (length pre)) = Ret v /\ decodes e v.
Proof.
  intros (Hwd & Hm & Hc & Hn & Hl). unfold event_at.
  rewrite !length_app, encode_length. unfold sizeof_event.
  rewrite (proj2 (Z.ltb_ge _ 0)), (proj2 (Z.ltb_ge _ _)) by lia. cbn [orb].
  rewrite Nat2Z.id, drop_app_length. eexists. split; [reflexivity|].
  rewrite encode_length in Hl. unfold encode. rewrite <- !app_assoc.
  unfold decodes. cbn [ev_wd ev_mask ev_cookie ev_len ev_name].
  assert (in_range 32 (u32 (k_wd e))) as Hw by (apply wrap_range; lia).
  assert (in_range 32 (Z.of_nat (length (k_field e)))) as Hlen by (unfold in_range; lia).
  rewrite !nth_word by apply store_word_length. rewrite !load_store by done.
  split_and!; [by apply int32_u32|done ..|]. intros Hne.
  do 4 (rewrite drop_app_ge; rewrite store_word_length; [|lia]). cbn [Nat.sub]. rewrite drop_0.
  unfold k_field. destruct (k_name e) as [|c name]; [done|]. rewrite <- app_assoc. by apply c_string_name.
Qed.

(** [n] calls of [GetNext]; the first may wait for [ready] and read [data]. *)
Fixpoint read_events (n : nat) (ready : Z) (data : option (list Z)) (i : Inotify)
    : outcome (list InotifyResult * Inotify) :=
  match n with
  | O => Ret ([], i)
  | S n =>
      '(r, i) ← GetNext ready data i;
      '(rs, i) ← read_events n ready data i;
      Ret (r :: rs, i)
  end.

Definition delivers (es : list KernelEvent) (rs : list InotifyResult) : Prop :=
  Forall2 (fun e r => exists v, r = INOTIFY_OK v /\ decodes e v) es rs.

Lemma read_leftover es pre post ready data i :
  Forall kernel_ok es -> buffer_ i = pre ++ concat (map encode es) ++ post ->
  curr_byte_ i = Z.of_nat (length pre) ->
  read_data_ i = Z.of_nat (length pre + length (concat (map encode es))) -> read_data_ i <= 1024 ->
  exists rs i', read_events (length es) ready data i = Ret (rs, i') /\ delivers es rs /\
    curr_byte_ i' = read_data_ i /\ read_data_ i' = read_data_ i /\ buffer_ i' = buffer_ i.
Proof.
  intros Hok. revert pre i. induction Hok as [|e es He _ IH]; intros pre i Hb Hc Hr H1024.
  - exists [], i. split_and!; [done|constructor| |done|done]. rewrite Hc, Hr. cbn. lia.
  - cbn [map concat] in Hb, Hr. rewrite length_app, encode_length in Hr. cbn [length read_events].
    unfold GetNext. rewrite (proj2 (Z.ltb_lt _ _)) by lia.
    rewrite Hb, Hc, <- app_assoc.
    destruct (event_at_encode pre e (concat (map encode es) ++ post) He) as (v & -> & Hv).
    cbn [mbind outcome_bind]. assert (ev_len v = Z.of_nat (length (k_field e))) as Hlen by apply Hv.
    set (i1 := set_buffer _ _ _ _).
    destruct (IH (pre ++ encode e) i1) as (rs & i' & Hrs & Hd & Hc' & Hr' & Hb').
    + cbn. by rewrite <- !app_assoc.
    + cbn. rewrite Hlen, length_app, encode_length. unfold sizeof_event. rewrite wrap_id by (unfold in_range; lia). lia.
    + cbn. rewrite Hr, length_app, encode_length. lia.
    + done.
    + rewrite Hrs. exists (INOTIFY_OK v :: rs), i'. split_and!; [done| |done|done|].
      * constructor; [by exists v|done].
      * exact Hb'.
Qed.

(** All the events that one read brings are returned, one per call, in their
    order and with the fields and names that the kernel wrote, in either byte
    order; only then is the descriptor read again. *)
Theorem GetNext_reads_all es ready i :
  es <> [] -> Forall kernel_ok es -> Z.of_nat (length (concat (map encode es))) <= 1024 ->
  length (buffer_ i) = 1024%nat -> read_data_ i <= curr_byte_ i -> 0 < ready ->
  exists rs i', read_events (length es) ready (Some (concat (map encode es))) i = Ret (rs, i') /\ delivers es rs /\
    curr_byte_ i' = read_data_ i' /\ length (buffer_ i') = 1024%nat.
Proof.
  intros Hne Hok Hlen Hbuf Hcur Hready. destruct Hok as [|e es He Hok]; [done|]. clear Hne.
  cbn [length read_events]. unfold GetNext at 1.
  rewrite (proj2 (Z.ltb_ge (curr_byte_ i) _)), (proj2 (Z.ltb_ge ready 0)), (proj2 (Z.eqb_neq ready 0)) by lia.
  rewrite (proj2 (Z.ltb_ge (Z.of_nat _) 0)) by lia. cbn [map concat] in *. rewrite length_app, encode_length in Hlen.
  rewrite <- (app_assoc (encode e)). set (post := drop _ (buffer_ i)).
  destruct (event_at_encode [] e (concat (map encode es) ++ post) He) as (v & Hv & Hd). cbn [length app] in Hv.
  change (Z.of_nat 0) with 0 in Hv. rewrite Hv. cbn [mbind outcome_bind]. set (i1 := set_buffer _ _ _ _).
  assert (ev_len v = Z.of_nat (length (k_field e))) as Hl by apply Hd.
  destruct (read_leftover es (encode e) post ready (Some (encode e ++ concat (map encode es))) i1)
    as (rs & i' & Hrs & Hds & Hc' & Hr' & Hb'); try done.
  - cbn. rewrite Hl, encode_length. unfold sizeof_event. lia.
  - cbn. by rewrite length_app.
  - cbn. rewrite length_app, encode_length. lia.
  - rewrite Hrs. exists (INOTIFY_OK v :: rs), i'. split_and!; [done| |congruence|].
    + constructor; [by exists v|done].
    + rewrite Hb'. subst i1 post. cbn [set_buffer buffer_]. rewrite !length_app, length_drop, !encode_length. lia.
Qed.

(** A read that fails is not noticed, since its result is unsigned: the event at
    the start of the buffer is returned again. *)
Theorem GetNext_failed_read ready i e :
  read_data_ i <= curr_byte_ i -> 0 < ready -> event_at (buffer_ i) 0 = Ret e ->
  exists i', GetNext ready None i = Ret (INOTIFY_OK e, i') /\ read_data_ i' = 2 ^ 64 - 1.
Proof.
  intros Hc Hr He. unfold GetNext.
  rewrite (proj2 (Z.ltb_ge (curr_byte_ i) _)), (proj2 (Z.ltb_ge ready 0)), (proj2 (Z.eqb_neq ready 0)) by lia.
  change (u64 (-1)) with (2 ^ 64 - 1). rewrite (proj2 (Z.ltb_ge (2 ^ 64 - 1) 0)) by lia. rewrite He. by eexists.
Qed.
End events.

(** ** Witnesses *)

Definition wit_inotify : Inotify := Inotify_make 5.
Definition wit_event : KernelEvent := mkKernelEvent 1 IN_CREATE 0 (chars_of "runtime_config.yaml") 12.

Lemma AddWatcher_exact_witness :
  watcher_of (chars_of "/etc/a") (AddWatcher (chars_of "/etc/a") 2 7 wit_inotify).2 = Some (mkWatcher 7 (chars_of "/etc/a") 2).
Proof.
  assert (unique_paths wit_inotify) as Hu by constructor.
  apply (AddWatcher_exact (chars_of "/etc/a") 2 7 wit_inotify Hu). lia.
Defined.

Lemma GetNext_reads_all_witness :
  exists rs i', read_events (ho := true) 2 1 (Some (concat (map (encode (ho := true)) [wit_event; wit_event]))) wit_inotify = Ret (rs, i') /\
    delivers [wit_event; wit_event] rs /\ curr_byte_ i' = read_data_ i' /\ length (buffer_ i') = 1024%nat.
Proof.
  apply (GetNext_reads_all (ho := true) [wit_event; wit_event] 1 wit_inotify).
  - discriminate.
  - repeat constructor; try (vm_compute; discriminate); vm_compute; intuition discriminate.
  - vm_compute. discriminate.
  - reflexivity.
  - vm_compute. discriminate.
  - reflexivity.
Defined.
