(* ===== verification/ConfigLoader.v ===== *)
(** * Reloading of the configuration ([ConfigLoader] in [ConfigLoader.h], [ConfigLoader.cpp])

    The loader watches the configuration file, its directory and, for a symbolic
    link, the file it points to, and loads the file anew when they change.  What
    the file system answers while one event is handled is a record; an exception
    that leaves the thread of the loader ends the process ([Crash]); [Crash] also stands
    for reading a name past the end of the event buffer, which is undefined. *)

From S2P Require Import Prelude HostOrder UMap CStrings Utility CollectorConfig ConfigYaml Inotify.

(** ** Paths *)

(** [path.filename()] and [path.parent_path()] of an absolute path without a
    trailing slash. *)
Definition filename (p : chars) : chars :=
  match rfind (chars_of "/") p with Some pos => drop (pos + 1) p | None => p end.
Definition parent_path (p : chars) : chars :=
  match rfind (chars_of "/") p with
  | Some O => chars_of "/"
  | Some pos => take pos p
  | None => []
  end.

Definition LOADER_PARENT_PATH : Z := 1.
Definition LOADER_CONFIG_FILE : Z := 2.
Definition LOADER_CONFIG_REALPATH : Z := 3.

(** What the file system answers; [fs_canonical] throws for a link that leads
    nowhere; [fs_load] is [YAML::LoadFile] of the configuration file. *)
Record Fs := mkFs {
  fs_exists : chars -> bool; fs_is_symlink : chars -> bool; fs_canonical : chars -> option chars;
  fs_add_watch : chars -> Z -> Z; fs_load : chars + Node
}.

Module LoadResult.
Inductive t := SUCCESS | PARSE_ERROR | FILE_NOT_FOUND.
End LoadResult.

Section loader.
Context {V : Type} `{ho : HostOrder}.
(** The parser's parameters (see [ConfigYaml]); [int_value] stores an int64. *)
Variable node_as : CppType.t -> Node -> chars + V.
Variable node_string : Node -> chars + chars.
Variable enum_value : Z -> V.
Variable int_value : Z -> V.
(** The type of the configuration, and the path of its file, also as printed. *)
Variable descriptor : Descriptor.
Variable file : chars.
Variable file_printed : chars.

(** The part of the configuration object and of the loader that change. *)
Record ConfigLoader := mkConfigLoader { inotify_ : Inotify; runtime_config_ : option (Message V) }.

Definition set_config (c : option (Message V)) (l : ConfigLoader) : ConfigLoader := mkConfigLoader (inotify_ l) c.
Definition set_inotify (i : Inotify) (l : ConfigLoader) : ConfigLoader := mkConfigLoader i (runtime_config_ l).

Definition SetRuntimeConfig (c : Message V) : ConfigLoader -> ConfigLoader := set_config (Some c).
Definition ResetRuntimeConfig : ConfigLoader -> ConfigLoader := set_config None.

Definition NewRuntimeConfig : Message V :=
  [(chars_of "networking",
    VMessage [(chars_of "max_connections_per_minute", VScalar (int_value kMaxConnectionsPerMinute))])].

(** The parser of the loader reads camel case and is permissive. *)
Definition parse_file (doc : chars + Node) : outcome (list ParserError * Message V) :=
  ParseFile node_as node_string enum_value file_printed true ValidationMode.PERMISSIVE descriptor doc NewRuntimeConfig.

Definition LoadConfiguration (fs : Fs) (node : option Node) (l : ConfigLoader) : outcome (LoadResult.t * ConfigLoader) :=
  let doc := match node with Some n => inr n | None => fs_load fs end in
  if match node with None => negb (fs_exists fs file) | Some _ => false end
  then Ret (LoadResult.FILE_NOT_FOUND, l)
  else
    '(errors, runtime_config) ← parse_file doc;
    match errors with
    | [] => Ret (LoadResult.SUCCESS, SetRuntimeConfig runtime_config l)
    | _ => Ret (LoadResult.PARSE_ERROR, l)
    end.

(** [inotify_.AddFileWatcher(p, tag)]. *)
Definition add_file_watcher (fs : Fs) (p : chars) (tag : Z) (l : ConfigLoader) : ConfigLoader :=
  set_inotify (AddFileWatcher (fs_add_watch fs) p tag (inotify_ l)).2 l.

(** If [p] is a symbolic link, a watcher of the file it leads to. *)
Definition watch_realpath (fs : Fs) (p : chars) (l : ConfigLoader) : outcome ConfigLoader :=
  if fs_is_symlink fs p then
    match fs_canonical fs p with
    | None => Crash
    | Some real => Ret (add_file_watcher fs real LOADER_CONFIG_REALPATH l)
    end
  else Ret l.

Definition reload (fs : Fs) (l : ConfigLoader) : outcome ConfigLoader :=
  '(_, l) ← LoadConfiguration fs None l; Ret l.

Definition HandleConfigDirectoryEvent (fs : Fs) (event : inotify_event) (l : ConfigLoader)
    : outcome (bool * ConfigLoader) :=
  if has_flag (ev_mask event) (IN_MOVE_SELF |. IN_DELETE_SELF) then Ret (false, l)
  else
    match ev_name event with
    | None => Crash
    | Some name =>
    if negb (bool_decide (filename file = name)) then Ret (true, l)
    else if has_flag (ev_mask event) (IN_CREATE |. IN_MOVED_TO) then
      let l := add_file_watcher fs file LOADER_CONFIG_FILE l in
      l ← reload fs l;
      l ← watch_realpath fs file l;
      Ret (true, l)
    else if has_flag (ev_mask event) (IN_DELETE |. IN_MOVED_FROM) then
      let w := FindWatcher_path file (inotify_ l) in
      Ret (true, ResetRuntimeConfig (set_inotify (RemoveWatcher w (inotify_ l)) l))
    else Ret (true, l)
    end.

(** [w] is the position of the watcher and [p] its path. *)
Definition HandleConfigFileEvent (fs : Fs) (event : inotify_event) (w : nat) (p : chars) (l : ConfigLoader)
    : outcome ConfigLoader :=
  if has_flag (ev_mask event) IN_MODIFY then
    l ← watch_realpath fs p l;
    reload fs l
  else if has_flag (ev_mask event) (IN_MOVE_SELF |. IN_DELETE_SELF) then
    if fs_exists fs p then
      let l := add_file_watcher fs p LOADER_CONFIG_FILE l in
      l ← watch_realpath fs p l;
      reload fs l
    else Ret (ResetRuntimeConfig (set_inotify (RemoveWatcher (Some w) (inotify_ l)) l))
  else Ret l.

Definition HandleConfigRealpathEvent (fs : Fs) (event : inotify_event) (w : nat) (l : ConfigLoader)
    : outcome ConfigLoader :=
  if has_flag (ev_mask event) IN_MODIFY then reload fs l
  else if has_flag (ev_mask event) (IN_DELETE_SELF |. IN_MOVE_SELF) then
    if fs_is_symlink fs file then
      l ← watch_realpath fs file l;
      reload fs l
    else Ret (ResetRuntimeConfig (set_inotify (RemoveWatcher (Some w) (inotify_ l)) l))
  else Ret l.

Definition HandleEvent (fs : Fs) (event : inotify_event) (l : ConfigLoader) : outcome (bool * ConfigLoader) :=
  match FindWatcher_wd (ev_wd event) (inotify_ l) with
  | None => Ret (true, l)
  | Some pos =>
      match watchers_ (inotify_ l) !! pos with
      | None => Ret (true, l)
      | Some w =>
          if tag w =? LOADER_PARENT_PATH then HandleConfigDirectoryEvent fs event l
          else if tag w =? LOADER_CONFIG_FILE then
            l ← HandleConfigFileEvent fs event pos (path w) l; Ret (true, l)
          else if tag w =? LOADER_CONFIG_REALPATH then
            l ← HandleConfigRealpathEvent fs event pos l; Ret (true, l)
          else Ret (true, l)
      end
  end.

(** One turn of the loop of [WatchFile]: what [GetNext] finds and what the file
    system answers meanwhile. *)
Record Turn := mkTurn { turn_ready : Z; turn_data : option (list Z); turn_fs : Fs }.

(** Whether the thread goes on. *)
Definition watch_turn (t : Turn) (l : ConfigLoader) : outcome (bool * ConfigLoader) :=
  '(res, i) ← GetNext (turn_ready t) (turn_data t) (inotify_ l);
  let l := set_inotify i l in
  match res with
  | INOTIFY_OK event => HandleEvent (turn_fs t) event l
  | INOTIFY_ERROR | INOTIFY_TIMEOUT => Ret (true, l)
  end.

(** The loop, until the thread is told to stop: one turn per iteration. *)
Fixpoint watch_loop (turns : list Turn) (l : ConfigLoader) : outcome ConfigLoader :=
  match turns with
  | [] => Ret l
  | t :: rest =>
      '(continue, l) ← watch_turn t l;
      if negb continue then Ret l else watch_loop rest l
  end.

Definition WatchFile (fs : Fs) (turns : list Turn) (l : ConfigLoader) : outcome ConfigLoader :=
  if negb (IsValid (inotify_ l)) then Ret l
  else
    let '(wd, i) := AddDirectoryWatcher (fs_add_watch fs) (parent_path file) LOADER_PARENT_PATH (inotify_ l) in
    let l := set_inotify i l in
    if wd <? 0 then Ret l
    else
      l ← (if fs_exists fs file then
             let l := add_file_watcher fs file LOADER_CONFIG_FILE l in
             l ← watch_realpath fs file l;
             reload fs l
           else Ret l);
      watch_loop turns l.

End loader.
Arguments ConfigLoader : clear implicits.

(** ** Effects of events *)

Section lemmas.
Context {V : Type} `{ho : HostOrder}.
Variable node_as : CppType.t -> Node -> chars + V.
Variable node_string : Node -> chars + chars.
Variable enum_value : Z -> V.
Variable int_value : Z -> V.
Variable descriptor : Descriptor.
Variable file : chars.
Variable file_printed : chars.
Implicit Types l : ConfigLoader V.

Abbreviation parse := (parse_file node_as node_string enum_value int_value descriptor file_printed).
Abbreviation load := (LoadConfiguration node_as node_string enum_value int_value descriptor file file_printed).
Abbreviation reload_ := (reload node_as node_string enum_value int_value descriptor file file_printed).
Abbreviation handle := (HandleEvent node_as node_string enum_value int_value descriptor file file_printed).
Abbreviation loop := (watch_loop node_as node_string enum_value int_value descriptor file file_printed).

(** What becomes of the configuration. *)
Inductive Effect := Keep | Reset_ | Load.

Definition effect_of (fs : Fs) (event : inotify_event) (w : Watcher) : Effect :=
  let has := has_flag (ev_mask event) in
  if tag w =? LOADER_PARENT_PATH then
    if has (IN_MOVE_SELF |. IN_DELETE_SELF) then Keep
    else if negb (bool_decide (ev_name event = Some (filename file))) then Keep
    else if has (IN_CREATE |. IN_MOVED_TO) then Load
    else if has (IN_DELETE |. IN_MOVED_FROM) then Reset_ else Keep
  else if tag w =? LOADER_CONFIG_FILE then
    if has IN_MODIFY then Load
    else if has (IN_MOVE_SELF |. IN_DELETE_SELF) then if fs_exists fs (path w) then Load else Reset_
    else Keep
  else if tag w =? LOADER_CONFIG_REALPATH then
    if has IN_MODIFY then Load
    else if has (IN_DELETE_SELF |. IN_MOVE_SELF) then if fs_is_symlink fs file then Load else Reset_
    else Keep
  else Keep.

(** A load replaces the configuration when the file is there and parses, and
    leaves it alone otherwise. *)
Definition apply_effect (fs : Fs) (e : Effect) (old : option (Message V)) : option (Message V) :=
  match e with
  | Keep => old
  | Reset_ => None
  | Load =>
      if fs_exists fs file then match parse (fs_load fs) with Ret ([], c) => Some c | _ => old end else old
  end.

(** The effect of a step on the configuration; it keeps the paths of the watchers
    unique. *)
Definition handled (fs : Fs) (e : Effect) l l' : Prop :=
  runtime_config_ l' = apply_effect fs e (runtime_config_ l) /\
  (unique_paths (inotify_ l) -> unique_paths (inotify_ l')).

Lemma handled_then fs e l l1 l' : handled fs Keep l l1 -> handled fs e l1 l' -> handled fs e l l'.
Proof. intros [H1 U1] [H2 U2]. split; [by rewrite H2, H1|auto]. Qed.
Lemma then_handled fs e l l1 l' : handled fs e l l1 -> handled fs Keep l1 l' -> handled fs e l l'.
Proof. intros [H1 U1] [H2 U2]. split; [by rewrite H2, H1|auto]. Qed.
Lemma handled_keep fs l : handled fs Keep l l.
Proof. by split. Qed.

Lemma handled_add fs p t l : handled fs Keep l (add_file_watcher fs p t l).
Proof.
  split; [done|]. intros Hu. unfold add_file_watcher, AddFileWatcher. cbn.
  pose proof (AddWatcher_unique p t (fs_add_watch fs p file_flags) (inotify_ l) Hu) as H. exact H.
Qed.
Lemma handled_remove fs w l : handled fs Reset_ l (ResetRuntimeConfig (set_inotify (RemoveWatcher w (inotify_ l)) l)).
Proof. split; [done|]. cbn. apply RemoveWatcher_unique. Qed.
Lemma handled_realpath fs p l l' : watch_realpath fs p l = Ret l' -> handled fs Keep l l'.
Proof.
  unfold watch_realpath. destruct (fs_is_symlink fs p); [|intros [= <-]; apply handled_keep].
  destruct (fs_canonical fs p); [|done]. intros [= <-]. apply handled_add.
Qed.
Lemma handled_reload fs l l' : reload_ fs l = Ret l' -> handled fs Load l l'.
Proof.
  unfold reload, LoadConfiguration, handled, apply_effect. intros H. inv_bind H. injection H as <-.
  destruct (fs_exists fs file); cbn [negb] in E; [|by injection E as _ <-].
  destruct (parse (fs_load fs)) as [[es c']| |]; [|done ..]. cbn [mbind outcome_bind] in E.
  destruct es; by injection E as _ <-.
Qed.
#[local] Hint Resolve handled_keep handled_add handled_remove : collector.

Lemma has_flag_comm m a b : has_flag m (a |. b) = has_flag m (b |. a).
Proof. unfold has_flag. by rewrite Z.lor_comm. Qed.

Lemma directory_handled fs event l b l' w :
  HandleConfigDirectoryEvent node_as node_string enum_value int_value descriptor file file_printed fs event l = Ret (b, l') ->
  tag w = LOADER_PARENT_PATH -> handled fs (effect_of fs event w) l l'.
Proof.
  unfold HandleConfigDirectoryEvent, effect_of. intros H ->. cbv zeta. cbn [Z.eqb LOADER_PARENT_PATH Pos.eqb].
  destruct (has_flag _ (IN_MOVE_SELF |. _)); [injection H as _ <-; auto with collector|].
  destruct (ev_name event) as [name|]; [|done].
  destruct (bool_decide_reflect (filename file = name)) as [Hn|Hn]; [subst name|]; cbn [negb] in H.
  2: { rewrite bool_decide_false by congruence. cbn. injection H as _ <-. auto with collector. }
  rewrite bool_decide_true by done. cbn [negb]. destruct (has_flag _ (IN_CREATE |. _)).
  - inv_bind H. injection H as _ <-. eapply handled_then; [apply handled_add|].
    eapply then_handled; [by apply handled_reload|by eapply handled_realpath].
  - destruct (has_flag _ _); injection H as _ <-; auto with collector.
Qed.

Lemma file_handled fs event pos l l' w :
  HandleConfigFileEvent node_as node_string enum_value int_value descriptor file file_printed fs event pos (path w) l = Ret l' ->
  tag w = LOADER_CONFIG_FILE -> handled fs (effect_of fs event w) l l'.
Proof.
  unfold HandleConfigFileEvent, effect_of. intros H ->. cbv zeta. cbn [Z.eqb LOADER_PARENT_PATH LOADER_CONFIG_FILE Pos.eqb].
  destruct (has_flag _ IN_MODIFY).
  { inv_bind H. eapply handled_then; [by eapply handled_realpath|by apply handled_reload]. }
  destruct (has_flag _ _); [|injection H as <-; auto with collector].
  destruct (fs_exists fs (path w)); [|injection H as <-; apply (handled_remove fs (Some pos))]. inv_bind H.
  eapply handled_then; [apply handled_add|]. eapply handled_then; [by eapply handled_realpath|by apply handled_reload].
Qed.

Lemma realpath_handled fs event pos l l' w :
  HandleConfigRealpathEvent node_as node_string enum_value int_value descriptor file file_printed fs event pos l = Ret l' ->
  tag w = LOADER_CONFIG_REALPATH -> handled fs (effect_of fs event w) l l'.
Proof.
  unfold HandleConfigRealpathEvent, effect_of. intros H ->. cbv zeta.
  cbn [Z.eqb LOADER_PARENT_PATH LOADER_CONFIG_FILE LOADER_CONFIG_REALPATH Pos.eqb].
  destruct (has_flag _ IN_MODIFY); [by apply handled_reload|].
  destruct (has_flag _ _); [|injection H as <-; auto with collector].
  destruct (fs_is_symlink fs file); [|injection H as <-; apply (handled_remove fs (Some pos))]. inv_bind H.
  eapply handled_then; [by eapply handled_realpath|by apply handled_reload].
Qed.

(** The watcher that an event belongs to. *)
Definition watcher_of_event (event : inotify_event) l : option Watcher :=
  pos ← FindWatcher_wd (ev_wd event) (inotify_ l); watchers_ (inotify_ l) !! pos.

Definition event_effect (fs : Fs) (event : inotify_event) l : Effect :=
  match watcher_of_event event l with Some w => effect_of fs event w | None => Keep end.

Lemma HandleEvent_handled fs event l b l' :
  handle fs event l = Ret (b, l') -> handled fs (event_effect fs event l) l l'.
Proof.
  unfold HandleEvent, event_effect, watcher_of_event.
  destruct (FindWatcher_wd _ _) as [pos|]; cbn [mbind option_bind]; [|intros [= _ <-]; auto with collector].
  destruct (watchers_ (inotify_ l) !! pos) as [w|]; [|intros [= _ <-]; auto with collector]. intros H.
  destruct (Z.eqb_spec (tag w) LOADER_PARENT_PATH) as [Ht|H1]; [by eapply directory_handled|].
  destruct (Z.eqb_spec (tag w) LOADER_CONFIG_FILE) as [Ht|H2].
  { inv_bind H. injection H as _ <-. by eapply file_handled. }
  destruct (Z.eqb_spec (tag w) LOADER_CONFIG_REALPATH) as [Ht|H3].
  { inv_bind H. injection H as _ <-. by eapply realpath_handled. }
  injection H as _ <-. unfold effect_of. rewrite !(proj2 (Z.eqb_neq _ _)) by done. auto with collector.
Qed.

(** ** Runs *)

(** A configuration that one of the file systems had, read over the defaults. *)
Definition offered (fss : list Fs) (c : Message V) : Prop :=
  exists fs, In fs fss /\ fs_exists fs file = true /\ parse (fs_load fs) = Ret ([], c).

(** Where the configuration after a run comes from. *)
Definition traced (fss : list Fs) (old new : option (Message V)) : Prop :=
  new = old \/ new = None \/ exists c, new = Some c /\ offered fss c.

Lemma apply_effect_traced fs e old : traced [fs] old (apply_effect fs e old).
Proof.
  unfold traced, apply_effect, offered. destruct e; [by left|by right; left|].
  destruct (fs_exists fs file) eqn:Ee; [|by left].
  destruct (parse (fs_load fs)) as [[[|] c]| |] eqn:Ep; try by left.
  right. right. exists c. split; [done|]. exists fs. split_and!; [by left|done ..].
Qed.

Lemma traced_trans fs1 fs2 a b c : traced fs1 a b -> traced fs2 b c -> traced (fs1 ++ fs2) a c.
Proof.
  unfold traced, offered.
  intros [-> | [-> | (c1 & -> & fs & Hin & H)]] [-> | [-> | (c2 & -> & fs' & Hin' & H')]]; auto;
    right; right; eexists; (split; [done|]); [exists fs'|exists fs'|exists fs|exists fs'];
    rewrite in_app_iff; auto.
Qed.

Lemma GetNext_watchers ready data i r i' :
  GetNext ready data i = Ret (r, i') -> watchers_ i' = watchers_ i.
Proof.
  unfold GetNext. destruct (_ <? _); [intros H; inv_bind H; by injection H as _ <-|].
  destruct (_ <? 0); [by intros [= _ <-]|]. destruct (_ =? 0); [by intros [= _ <-]|].
  destruct data; (destruct (_ <? 0); [by intros [= _ <-]|]); intros H; inv_bind H; by injection H as _ <-.
Qed.

Lemma watch_turn_traced t l b l' :
  watch_turn node_as node_string enum_value int_value descriptor file file_printed t l = Ret (b, l') ->
  unique_paths (inotify_ l) ->
  unique_paths (inotify_ l') /\ traced [turn_fs t] (runtime_config_ l) (runtime_config_ l').
Proof.
  unfold watch_turn. intros H Hu. inv_bind H. apply GetNext_watchers in E.
  assert (unique_paths i0) as Hu1 by (unfold unique_paths; by rewrite E).
  destruct i; [|by injection H as _ <-; split; [|left] ..].
  apply HandleEvent_handled in H as [Hc Hp]. split; [by apply Hp|]. rewrite Hc. apply apply_effect_traced.
Qed.

Lemma watch_loop_traced turns l l' :
  loop turns l = Ret l' -> unique_paths (inotify_ l) ->
  unique_paths (inotify_ l') /\ traced (map turn_fs turns) (runtime_config_ l) (runtime_config_ l').
Proof.
  revert l. induction turns as [|t turns IH]; intros l; cbn [watch_loop map].
  { intros [= <-]. by split; [|left]. }
  intros H Hu. inv_bind H. destruct (watch_turn_traced _ _ _ _ E Hu) as [Hu1 Ht1].
  change (turn_fs t :: map turn_fs turns) with ([turn_fs t] ++ map turn_fs turns). destruct b; cbn [negb] in H.
  - destruct (IH _ H Hu1) as [Hu2 Ht2]. split; [done|]. by eapply traced_trans.
  - injection H as <-. split; [done|]. eapply traced_trans; [exact Ht1|by left].
Qed.
End lemmas.

(** ** Properties *)

Section theorems.
Context {V : Type} `{ho : HostOrder}.
Variable node_as : CppType.t -> Node -> chars + V.
Variable node_string : Node -> chars + chars.
Variable enum_value : Z -> V.
Variable int_value : Z -> V.
Variable descriptor : Descriptor.
Variable file : chars.
Variable file_printed : chars.

(** A configuration is loaded as a whole or not at all: on success the active
    configuration is the defaults with every field that the document gives set to
    its value, and on a missing file or any parse error nothing changes. *)
Theorem LoadConfiguration_atomic fs node (l l' : ConfigLoader V) r :
  well_named descriptor ->
  LoadConfiguration node_as node_string enum_value int_value descriptor file file_printed fs node l = Ret (r, l') ->
  match r with
  | LoadResult.SUCCESS =>
      inotify_ l' = inotify_ l /\
      exists c doc, runtime_config_ l' = Some c /\
        (match node with Some n => doc = n | None => fs_exists fs file = true /\ fs_load fs = inr doc end) /\
        Forall (fun f => populates node_as node_string enum_value true ValidationMode.PERMISSIVE f doc
          (get_value (field_name f) (NewRuntimeConfig int_value)) (get_value (field_name f) c)) descriptor /\
        (forall name, ~ In name (map field_name descriptor) ->
          get_value name c = get_value name (NewRuntimeConfig int_value))
  | _ => l' = l
  end.
Proof.
  intros Hw. unfold LoadConfiguration. set (doc := match node with Some n => inr n | None => fs_load fs end).
  destruct (match node with None => negb (fs_exists fs file) | Some _ => false end) eqn:En; [by intros [= <- <-]|].
  intros H. inv_bind H. destruct l0 as [|e es]; injection H as <- <-; [|done]. split; [done|].
  unfold parse_file, ParseFile in E. destruct doc as [e|d] eqn:Ed; [done|].
  inversion Hw as [d' Hn Hws]; subst d'.
  destruct (Parse_fields_read node_as node_string enum_value file_printed true ValidationMode.PERMISSIVE descriptor d
    (NewRuntimeConfig int_value) m Hn Hws E) as [Hp Ho].
  exists m, d. split_and!; [done| |done|done]. subst doc. destruct node as [n|].
  - by injection Ed.
  - split; [by apply negb_false_iff|done].
Qed.

(** Every event has exactly the effect that its watcher calls for: a change of
    the file, or of the file behind the link, loads it; its removal drops the
    configuration; events of other files and the end of the directory change
    nothing; and a load that fails keeps the configuration. *)
Theorem HandleEvent_effect fs event (l l' : ConfigLoader V) b :
  HandleEvent node_as node_string enum_value int_value descriptor file file_printed fs event l = Ret (b, l') ->
  runtime_config_ l' =
  apply_effect node_as node_string enum_value int_value descriptor file file_printed fs
    (event_effect file fs event l) (runtime_config_ l).
Proof. intros H. by apply HandleEvent_handled in H as [? _]. Qed.

(** C18: over any number of turns of the loop, whatever the file system does, no
    path is watched twice, and the configuration is the one at the start, none, or
    one that a file on disk had in full, read over the defaults. *)
Theorem watch_loop_config turns (l l' : ConfigLoader V) :
  watch_loop node_as node_string enum_value int_value descriptor file file_printed turns l = Ret l' ->
  unique_paths (inotify_ l) ->
  unique_paths (inotify_ l') /\
  traced node_as node_string enum_value int_value descriptor file file_printed (map turn_fs turns)
    (runtime_config_ l) (runtime_config_ l').
Proof. apply watch_loop_traced. Qed.

(** A link to nothing ends the process: when it appears under the name of the
    configuration file, the loader asks for its target. *)
Theorem dangling_link_crashes fs event (l : ConfigLoader V) w :
  watcher_of_event event l = Some w -> tag w = LOADER_PARENT_PATH ->
  ev_mask event = IN_CREATE -> ev_name event = Some (filename file) ->
  fs_exists fs file = false -> fs_is_symlink fs file = true -> fs_canonical fs file = None ->
  HandleEvent node_as node_string enum_value int_value descriptor file file_printed fs event l = Crash.
Proof.
  unfold watcher_of_event, HandleEvent. intros Hw Ht Hm Hname He Hs Hc.
  destruct (FindWatcher_wd _ _) as [pos|]; [|done]. cbn [mbind option_bind] in Hw. rewrite Hw, Ht. cbn [Z.eqb LOADER_PARENT_PATH Pos.eqb].
  unfold HandleConfigDirectoryEvent. rewrite Hm, Hname. change (has_flag IN_CREATE _) with false at 1. cbv iota.
  rewrite bool_decide_true by done. change (has_flag IN_CREATE (IN_CREATE |. IN_MOVED_TO)) with true. cbn [negb].
  unfold reload, LoadConfiguration. rewrite He. cbn [negb mbind outcome_bind].
  unfold watch_realpath. by rewrite Hs, Hc.
Qed.

(** The directory is not watched for files that are moved into it, although the
    handler provides for it. *)
Theorem moves_not_watched : has_flag directory_flags (IN_MOVED_TO |. IN_MOVED_FROM) = false.
Proof. reflexivity. Qed.
End theorems.

(** ** Witnesses *)

Definition wit_file : chars := chars_of "/etc/stackrox/runtime_config.yaml".
Definition wit_fs : Fs :=
  mkFs (fun _ => true) (fun _ => false) (fun _ => None) (fun _ _ => 4) (inr wit_document).
Definition wit_loader : ConfigLoader Z :=
  mkConfigLoader (AddWatcher wit_file LOADER_CONFIG_FILE 4 (Inotify_make 3)).2 None.
Definition wit_loaded : Message Z :=
  [(chars_of "networking",
    VMessage [(chars_of "max_connections_per_minute", VScalar 4);
              (chars_of "external_ips", VMessage [(chars_of "enabled", VScalar 1)])])].
Definition wit_modified : inotify_event := mkEvent 4 IN_MODIFY 0 0 None.

Lemma LoadConfiguration_atomic_witness :
  match LoadConfiguration wit_as wit_string id id wit_config wit_file wit_file wit_fs None wit_loader with
  | Ret (r, l') => r = LoadResult.SUCCESS /\ exists c, runtime_config_ l' = Some c
  | _ => False
  end.
Proof.
  destruct (LoadConfiguration wit_as wit_string id id wit_config wit_file wit_file wit_fs None wit_loader)
    as [[r l']| |] eqn:E; [|by vm_compute in E ..].
  pose proof (LoadConfiguration_atomic wit_as wit_string id id wit_config wit_file wit_file wit_fs None wit_loader l' r
    wit_well_named E) as H.
  assert (r = LoadResult.SUCCESS) as -> by (vm_compute in E; congruence).
  split; [done|]. destruct H as (_ & c & _ & Hc & _). by exists c.
Defined.

Lemma HandleEvent_effect_witness :
  match HandleEvent wit_as wit_string id id wit_config wit_file wit_file wit_fs wit_modified wit_loader with
  | Ret (_, l') => runtime_config_ l' = Some wit_loaded
  | _ => False
  end.
Proof.
  destruct (HandleEvent wit_as wit_string id id wit_config wit_file wit_file wit_fs wit_modified wit_loader)
    as [[b l']| |] eqn:E; [|by vm_compute in E ..].
  rewrite (HandleEvent_effect wit_as wit_string id id wit_config wit_file wit_file wit_fs wit_modified wit_loader l' b E).
  vm_compute. reflexivity.
Defined.

Definition wit_turns : list Turn :=
  [mkTurn 1 (Some (encode (ho := true) (mkKernelEvent 4 IN_MODIFY 0 [] 0))) wit_fs; mkTurn 0 None wit_fs].

Lemma watch_loop_config_witness :
  match watch_loop (ho := true) wit_as wit_string id id wit_config wit_file wit_file wit_turns wit_loader with
  | Ret l' => unique_paths (inotify_ l') /\ runtime_config_ l' = Some wit_loaded
  | _ => False
  end.
Proof.
  destruct (watch_loop (ho := true) wit_as wit_string id id wit_config wit_file wit_file wit_turns wit_loader)
    as [l'| |] eqn:E; [|by vm_compute in E ..].
  destruct (watch_loop_config (ho := true) wit_as wit_string id id wit_config wit_file wit_file wit_turns wit_loader l' E)
    as [Hu _]; [apply NoDup_singleton|].
  split; [exact Hu|]. vm_compute in E. by injection E as <-.
Defined.
