(* ===== verification/Http.v ===== *)
(** * The HTTP endpoints ([CivetWrapper.cpp], [NetworkStatusInspector.cpp], [LogLevel.cpp],
      [ContainerInfoInspector.cpp], [CollectorRuntimeConfigInspector.cpp], [GetStatus.cpp],
      [ContainerMetadata.cpp])

    A handler maps a request to a status code and a JSON document, which is kept as
    a tree; an object lists its members in the order they were set.  The text of
    addresses ([inet_ntop]) and the JSON of a protobuf message are parameters. *)

From stdpp Require Import pretty.
From S2P Require Import Prelude HostOrder UMap NetAddress Connection ConnStatus Delta CollectorStats ExternalIPs ConnTracker CStrings Utility Host CollectorConfig.

Inductive JValue :=
  | JBool (b : bool) | JNumber (z : Z) | JString (s : chars) | JArray (vs : list JValue)
  | JObject (members : list (chars * JValue)).

(** The body of a success, or the status and text of an error. *)
Inductive Response := HttpOk (body : JValue) | HttpError (code : Z) (body : JValue).
Definition ServerError (err : string) : Response := HttpError 500 (JString (chars_of err)).
Definition ClientError (err : string) : Response := HttpError 400 (JString (chars_of err)).

(** What the handlers read of a request: [local_uri] and [query_string]. *)
Record RequestInfo := mkRequestInfo { local_uri : chars; query_string : option chars }.

(** ** Query parameters *)

Definition QueryParams : Type := UMap chars chars.

Definition parse_statement (params : QueryParams) (statement : chars) : QueryParams :=
  match find_char "=" statement 0 with
  | Some equal => umap_assign chars_eqb (take equal statement) (drop (equal + 1) statement) params
  | None => params
  end.
Definition ParseParameters (queryString : option chars) : QueryParams :=
  match queryString with
  | None => []
  | Some query => fold_left parse_statement (split_ref query "&") []
  end.

Definition GetParameter (params : QueryParams) (paramName : chars) : option chars :=
  if umap_contains chars_eqb paramName params then umap_find chars_eqb paramName params else None.

(** ** Network state *)

Definition kBaseRoute : chars := chars_of "/state/network".
Definition kEndpointRoute : chars := kBaseRoute ++ chars_of "/endpoint".
Definition kConnectionRoute : chars := kBaseRoute ++ chars_of "/connection".
Definition kQueryParam_container : chars := chars_of "container".
Definition kQueryParam_normalize : chars := chars_of "normalize".

Definition Proto2str (proto : L4Proto.t) : chars :=
  chars_of match proto with L4Proto.TCP => "TCP" | L4Proto.UDP => "UDP" | L4Proto.ICMP => "ICMP" | _ => "UNKNOWN" end.

Definition shouldNormalize (query_params : QueryParams) : bool :=
  match GetParameter query_params kQueryParam_normalize with
  | None => true
  | Some normalize_flag => chars_eqb normalize_flag (chars_of "true")
  end.

(** The entries of each container, as the loop collects them: the filter decides,
    and a new entry goes to the front. *)
Definition add_entry {E} (container_of : E -> string) (container_filter : option chars) (by_container : UMap chars (list E))
    (entry : E) : UMap chars (list E) :=
  let container := chars_of (container_of entry) in
  if match container_filter with None => true | Some f => chars_eqb f container end then
    umap_assign chars_eqb container (entry :: default [] (umap_find chars_eqb container by_container)) by_container
  else by_container.
Definition collect {E} (container_of : E -> string) (container_filter : option chars) (entries : list E) : UMap chars (list E) :=
  fold_left (add_entry container_of container_filter) entries [].

Section network.
Context `{ho : HostOrder}.
Variable inet_ntop : Family.t -> list Z -> chars.

Definition IP2str (addr : Address) : chars :=
  match family_ addr with
  | Family.IPV4 | Family.IPV6 => inet_ntop (family_ addr) (take (Z.to_nat (length_ addr)) (data_bytes addr))
  | Family.UNKNOWN => chars_of "unk"
  end.
Definition IPNet2str (net : IPNet) : chars :=
  IP2str (address_ net) ++ (if bits_ net =? 0 then [] else "/"%char :: chars_of (pretty (Z.to_N (bits_ net)))).

Definition SerializeEndpoint (ep : Endpoint) : JValue :=
  JObject [(chars_of "address", JString (IPNet2str (network_ ep))); (chars_of "port", JNumber (port_ ep))].

Definition endpoint_node (endpoint_state : ContainerEndpoint * ConnStatus) : JValue :=
  JObject [(chars_of "active", JBool (IsActive endpoint_state.2));
           (chars_of "l4proto", JString (Proto2str (cep_l4proto_ endpoint_state.1)));
           (chars_of "endpoint", SerializeEndpoint (cep_endpoint_ endpoint_state.1))].

Definition connection_node (connection_state : Connection * ConnStatus) : JValue :=
  let connection := connection_state.1 in
  JObject
    ([(chars_of "active", JBool (IsActive connection_state.2));
      (chars_of "l4proto", JString (Proto2str (l4proto connection)))] ++
     if is_server connection then
       [(chars_of "from", JString (IPNet2str (network_ (remote_ connection)))); (chars_of "port", JNumber (port_ (local_ connection)))]
     else
       [(chars_of "to", JString (IPNet2str (network_ (remote_ connection)))); (chars_of "port", JNumber (port_ (remote_ connection)))]).

Definition body {E} (node : E -> JValue) (by_container : UMap chars (list E)) : JValue :=
  JObject (map (fun container => (container.1, JArray (map node container.2))) by_container).

Definition handleGetEndpoints (t : ConnectionTracker) (query_params : QueryParams) : Response * ConnectionTracker :=
  let '(endpoint_states, t) := FetchEndpointState t (shouldNormalize query_params) false in
  let container_filter := GetParameter query_params kQueryParam_container in
  (HttpOk (body endpoint_node (collect (fun e => cep_container_ e.1) container_filter endpoint_states)), t).

Definition handleGetConnections (t : ConnectionTracker) (query_params : QueryParams) : Response * ConnectionTracker :=
  let '(connection_states, t) := FetchConnState t (shouldNormalize query_params) false in
  let container_filter := GetParameter query_params kQueryParam_container in
  (HttpOk (body connection_node (collect (fun c => container_ c.1) container_filter connection_states)), t).

(** [handleGet]; the tracker is null when network flows are off. *)
Definition Network_handleGet (req_info : option RequestInfo) (conntracker_ : option ConnectionTracker)
    : Response * option ConnectionTracker :=
  match req_info, conntracker_ with
  | None, _ => (ServerError "unable to read request", conntracker_)
  | Some _, None => (ServerError "not tracking network connections", None)
  | Some req, Some t =>
      let parameters := ParseParameters (query_string req) in
      if chars_eqb (local_uri req) kEndpointRoute then
        let '(r, t) := handleGetEndpoints t parameters in (r, Some t)
      else if chars_eqb (local_uri req) kConnectionRoute then
        let '(r, t) := handleGetConnections t parameters in (r, Some t)
      else (ClientError "unknown route", Some t)
  end.
End network.

(** ** Log level *)

(** The first bytes of the request, at most 4096, and the level of the process. *)
Definition LogLevel_handlePost (request : chars) (g_level : LogLevel.t) : Response * LogLevel.t :=
  match request with
  | [] => (HttpOk (JObject [(chars_of "status", JString (chars_of "Ok"));
                            (chars_of "level", JString (GetLogLevelName g_level))]), g_level)
  | _ =>
      match ParseLogLevelName request with
      | Some level => (HttpOk (JObject [(chars_of "status", JString (chars_of "Ok"))]), level)
      | None =>
          (HttpError 400 (JObject [(chars_of "status", JString (chars_of "Error"));
             (chars_of "error", JString (chars_of "Invalid log level '" ++ request ++ chars_of "'"))]), g_level)
      end
  end.

(** ** Containers *)

(** The labels of the containers that libsinsp knows. *)
Definition GetContainerLabel (containers : UMap chars (UMap chars chars)) (container_id label : chars) : chars :=
  match umap_find chars_eqb container_id containers with
  | None => []
  | Some labels => default [] (umap_find chars_eqb label labels)
  end.
Definition GetNamespace (containers : UMap chars (UMap chars chars)) (container_id : chars) : chars :=
  GetContainerLabel containers container_id (chars_of "io.kubernetes.pod.namespace").

Definition Container_handleGet (containers : UMap chars (UMap chars chars)) (req_info : option RequestInfo) : Response :=
  match req_info with
  | None => ServerError "unable to read request"
  | Some req =>
      let url := local_uri req in
      let container_id := match rfind (chars_of "/") url with Some pos => drop (pos + 1) url | None => url end in
      if negb (Nat.eqb (length container_id) 12) then ClientError "invalid container ID"
      else HttpOk (JObject [(chars_of "container_id", JString container_id);
                            (chars_of "namespace", JString (GetNamespace containers container_id))])
  end.

(** ** Runtime configuration *)

(** [MessageToJsonString] may fail. *)
Definition configToJson {M} (message_to_json : M -> option JValue) (runtime_config : option M) : JValue * bool :=
  match runtime_config with
  | None => (JObject [], false)
  | Some config =>
      match message_to_json config with
      | None => (JObject [(chars_of "error", JString (chars_of "Failed to convert protobuf object to JSON"))], true)
      | Some json => (json, false)
      end
  end.
Definition RuntimeConfig_handleGet {M} (message_to_json : M -> option JValue) (req_info : option RequestInfo)
    (runtime_config : option M) : Response :=
  match req_info with
  | None => ServerError "unable to read request"
  | Some _ =>
      let '(json, isError) := configToJson message_to_json runtime_config in
      if isError : bool then HttpError 500 json else HttpOk json
  end.

(** ** Status *)

(** The part of the statistics that is shown; there are none unless the inspector
    runs. *)
Record ShownStats := mkShownStats { nEvents : Z; nDrops : Z; nDropsBuffer : Z; nDropsThreadCache : Z; nPreemptions : Z }.
Definition Status_handleGet (stats : option ShownStats) (hostname : chars) : Response :=
  match stats with
  | Some s =>
      let drops := JObject [(chars_of "total", JNumber (nDrops s)); (chars_of "ringbuffer", JNumber (nDropsBuffer s));
                            (chars_of "threadcache", JNumber (nDropsThreadCache s))] in
      HttpOk (JObject [(chars_of "status", JString (chars_of "ok"));
        (chars_of "collector", JObject [(chars_of "node", JString hostname); (chars_of "events", JNumber (nEvents s));
                                        (chars_of "drops", drops); (chars_of "preemptions", JNumber (nPreemptions s))])])
  | None => HttpError 503 (JObject [])
  end.

(** ** Collecting by container *)


Lemma chars_eqb_refl x : chars_eqb x x = true.
Proof. apply keq_refl. Qed.
Lemma chars_eqb_ne x y : x <> y -> chars_eqb x y = false.
Proof. apply bool_decide_false. Qed.

(** The entries of a container that pass the filter, the last one first. *)
Definition of_container {E} (container_of : E -> string) (container_filter : option chars) (container : chars) (entries : list E) : list E :=
  rev (List.filter (fun e => chars_eqb container (chars_of (container_of e)) &&
    match container_filter with None => true | Some f => chars_eqb f container end) entries).

Lemma collect_find {E} (container_of : E -> string) container_filter entries container :
  umap_find chars_eqb container (collect container_of container_filter entries) =
  match of_container container_of container_filter container entries with [] => None | es => Some es end.
Proof.
  unfold collect, of_container.
  assert (forall m pre, umap_find chars_eqb container m = match pre with [] => None | es => Some es end ->
    umap_find chars_eqb container (fold_left (add_entry container_of container_filter) entries m) =
    match rev (List.filter (fun e => chars_eqb container (chars_of (container_of e)) &&
      match container_filter with None => true | Some f => chars_eqb f container end) entries) ++ pre
    with [] => None | es => Some es end) as H.
  { induction entries as [|e entries IH]; intros m pre Hm; cbn [fold_left List.filter rev app]; [rewrite Hm; by destruct pre|].
    unfold add_entry at 2. set (name := chars_of (container_of e)).
    destruct (decide (container = name)) as [->|Hne].
    - rewrite chars_eqb_refl. cbn [andb]. destruct (match container_filter with None => true | Some f => _ end).
      + cbn [rev]. rewrite <- app_assoc. apply (IH _ (e :: pre)).
        rewrite (umap_find_assign chars_eqb), chars_eqb_refl, Hm. by destruct pre.
      + by apply (IH _ pre).
    - rewrite chars_eqb_ne by done. cbn [andb]. apply (IH _ pre).
      match goal with |- umap_find _ _ (if ?b then _ else _) = _ => destruct b end; [|exact Hm].
      by rewrite (umap_find_assign chars_eqb), chars_eqb_ne. }
  rewrite (H [] []) by done. by rewrite app_nil_r.
Qed.

Lemma find_mapped {E} (node : E -> JValue) (m : UMap chars (list E)) container :
  umap_find chars_eqb container (map (fun c => (c.1, JArray (map node c.2))) m) =
  (fun es => JArray (map node es)) <$> umap_find chars_eqb container m.
Proof. induction m as [|[k es] m IH]; [done|]. cbn. by destruct (chars_eqb container k). Qed.

(** The member of an object. *)
Definition member (name : chars) (v : JValue) : option JValue :=
  match v with JObject members => umap_find chars_eqb name members | _ => None end.

Lemma body_member {E} (node : E -> JValue) container_of container_filter entries container :
  member container (body node (collect container_of container_filter entries)) =
  match of_container container_of container_filter container entries with
  | [] => None
  | es => Some (JArray (map node es))
  end.
Proof. cbn [member body]. rewrite find_mapped, collect_find. by destruct (of_container _ _ _ _). Qed.

(** ** Query strings *)

Lemma split_join parts d : parts <> [] -> Forall (fun p => ~ In d p) parts -> split_ref (join parts d) d = parts.
Proof.
  intros Hne H. induction H as [|p parts Hp H IH]; [done|]. destruct parts as [|q parts]; [by apply split_ref_none|].
  change (join (p :: q :: parts) d) with (p ++ d :: join (q :: parts) d). rewrite split_ref_prefix by done. by rewrite IH.
Qed.

Definition print_parameter (p : chars * chars) : chars := p.1 ++ "="%char :: p.2.

Lemma parse_statement_print params k v :
  ~ In "="%char k -> parse_statement params (print_parameter (k, v)) = umap_assign chars_eqb k v params.
Proof.
  intros Hno. unfold parse_statement, print_parameter, find_char. cbn [fst snd]. rewrite drop_0, find_from_app by done.
  cbn [Nat.add]. rewrite take_app_length. f_equal.
  replace (k ++ "="%char :: v) with ((k ++ ["="%char]) ++ v) by (by rewrite <- app_assoc).
  replace (length k + 1)%nat with (length (k ++ ["="%char])) by (by rewrite length_app). apply drop_app_length.
Qed.

Lemma parse_statements ps params k v :
  Forall (fun p => ~ In "="%char p.1) ps -> NoDup (map fst ps) ->
  In (k, v) ps -> umap_find chars_eqb k (fold_left parse_statement (map print_parameter ps) params) = Some v.
Proof.
  revert params. induction ps as [|[k' v'] ps IH]; intros params Hno Hnd Hin; [done|]. cbn [map fold_left].
  apply Forall_cons in Hno as [Hk Hno]. cbn in Hnd. apply NoDup_cons in Hnd as [Hk' Hnd].
  rewrite parse_statement_print by done. destruct Hin as [[= -> ->]|Hin]; [|by apply IH].
  assert (forall m, umap_find chars_eqb k m = Some v -> ~ In k (map fst ps) ->
    umap_find chars_eqb k (fold_left parse_statement (map print_parameter ps) m) = Some v) as Hrest.
  { clear -Hno. induction ps as [|[k2 v2] ps IH]; intros m Hm Hni; [done|]. cbn [map fold_left]. apply Forall_cons in Hno as [H2 Hno].
    rewrite parse_statement_print by done. apply IH; [done| |intros H; apply Hni; by right].
    rewrite (umap_find_assign chars_eqb), chars_eqb_ne; [done|]. intros ->. apply Hni. by left. }
  apply Hrest; [|by rewrite <- list_elem_of_In]. by rewrite (umap_find_assign chars_eqb), chars_eqb_refl.
Qed.

(** A query string that was made from parameters gives them back. *)
Theorem ParseParameters_print ps k v :
  Forall (fun p => ~ In "="%char p.1 /\ ~ In "&"%char p.1 /\ ~ In "&"%char p.2) ps -> NoDup (map fst ps) -> In (k, v) ps ->
  GetParameter (ParseParameters (Some (join (map print_parameter ps) "&"))) k = Some v.
Proof.
  intros Hok Hnd Hin. unfold ParseParameters. rewrite split_join.
  - unfold GetParameter, umap_contains.
    assert (umap_find chars_eqb k (fold_left parse_statement (map print_parameter ps) []) = Some v) as ->; [|done].
    apply parse_statements; [|done|done]. eapply Forall_impl; [exact Hok|]. by intros p (H & _).
  - destruct ps; done.
  - apply Forall_map. eapply Forall_impl; [exact Hok|]. intros [p q] (H1 & H2 & H3) H. unfold print_parameter in H. cbn in *.
    apply in_app_iff in H as [H|[H|H]]; [done|discriminate|done].
Qed.

(** ** Properties *)

Section theorems.
Context `{ho : HostOrder}.
Variable inet_ntop : Family.t -> list Z -> chars.

(** Reading without clearing leaves both states as they are. *)
Lemma Fetch_reads t normalize :
  (conn_state_ (FetchConnState t normalize false).2 = conn_state_ t /\
   endpoint_state_ (FetchConnState t normalize false).2 = endpoint_state_ t) /\
  (conn_state_ (FetchEndpointState t normalize false).2 = conn_state_ t /\
   endpoint_state_ (FetchEndpointState t normalize false).2 = endpoint_state_ t).
Proof.
  assert (forall K V (m : UMap K V), umap_filter (fun _ => true) m = m) as Hid.
  { intros K V m. induction m as [|x m IH]; [done|]. unfold umap_filter in *. cbn. by rewrite IH. }
  unfold FetchConnState, FetchEndpointState, FetchState. cbn. split; (split; [|done]) || split; try done; apply Hid.
Qed.

(** A request for the network state shows the snapshot and changes nothing: for
    each container that the filter admits, exactly the connections (or endpoints)
    of the snapshot, normalized unless the query says otherwise; containers without
    any are left out; other routes are refused. *)
Theorem Network_handleGet_exact req t :
  let params := ParseParameters (query_string req) in
  let only := GetParameter params kQueryParam_container in
  let '(r, t') := Network_handleGet inet_ntop (Some req) (Some t) in
  (exists s, t' = Some s /\ conn_state_ s = conn_state_ t /\ endpoint_state_ s = endpoint_state_ t) /\
  (local_uri req = kConnectionRoute ->
   exists doc, r = HttpOk doc /\ forall container,
     member container doc =
     match of_container (fun c => container_ c.1) only container (FetchConnState t (shouldNormalize params) false).1 with
     | [] => None
     | es => Some (JArray (map (connection_node inet_ntop) es))
     end) /\
  (local_uri req = kEndpointRoute ->
   exists doc, r = HttpOk doc /\ forall container,
     member container doc =
     match of_container (fun e => cep_container_ e.1) only container (FetchEndpointState t (shouldNormalize params) false).1 with
     | [] => None
     | es => Some (JArray (map (endpoint_node inet_ntop) es))
     end) /\
  (local_uri req <> kConnectionRoute -> local_uri req <> kEndpointRoute -> r = ClientError "unknown route").
Proof.
  intros params only. unfold Network_handleGet. fold params.
  destruct (Fetch_reads t (shouldNormalize params)) as [[Hc1 Hc2] [He1 He2]].
  destruct (decide (local_uri req = kEndpointRoute)) as [Hu|Hu].
  - rewrite Hu, chars_eqb_refl. unfold handleGetEndpoints.
    destruct (FetchEndpointState t (shouldNormalize params) false) as [states s]. cbn [fst snd] in *. fold only.
    split; [by exists s|]. split; [discriminate|]. split; [|done]. intros _. eexists. split; [done|]. intros container.
    apply body_member.
  - rewrite (chars_eqb_ne _ _ Hu). destruct (decide (local_uri req = kConnectionRoute)) as [Hv|Hv].
    + rewrite Hv, chars_eqb_refl. unfold handleGetConnections.
      destruct (FetchConnState t (shouldNormalize params) false) as [states s]. cbn [fst snd] in *. fold only.
      split; [by exists s|]. split; [|split; [discriminate|done]]. intros _. eexists. split; [done|]. intros container.
      apply body_member.
    + rewrite (chars_eqb_ne _ _ Hv). split; [by exists t|]. done.
Qed.
End theorems.

(** The level that a request sets is the one that is shown, for every level with a
    name of its own; any other text changes nothing. *)
Theorem LogLevel_set_get level g_level request :
  In level all_levels ->
  LogLevel_handlePost (GetLogLevelName level) g_level =
    (HttpOk (JObject [(chars_of "status", JString (chars_of "Ok"))]), level) /\
  (request <> [] -> ParseLogLevelName request = None -> (LogLevel_handlePost request g_level).2 = g_level).
Proof.
  intros Hl. split.
  - cbn in Hl. destruct Hl as [<-|[<-|[<-|[<-|[<-|[<-|[]]]]]]]; reflexivity.
  - intros Hne Hp. unfold LogLevel_handlePost. rewrite Hp. by destruct request.
Qed.
