(* ===== verification/CMemory.v ===== *)
(** * The memory of a C program

    Blocks at addresses, with allocation that may fail at any call, freeing, and
    automatic variables.  A null pointer is [None]; an access to what is not
    allocated is [Crash].  [extends] states which blocks a piece of code owns on top
    of a given memory: the heap without them is that memory, so that code which ends
    owning nothing has freed exactly what it allocated. *)

From stdpp Require Import gmap.
From S2P Require Import Prelude.

Abbreviation ptr := (option Z).

Record mem (B : Type) := mkMem { blocks : gmap Z B; calls : nat }.
Arguments mkMem {B}.
Arguments blocks {B}.
Arguments calls {B}.

(** What the code relies on of [malloc] and [calloc]: the answer of the n-th call is
    null or the address of memory that is not in use. *)
Class Allocator (B : Type) := {
  alloc : nat -> gmap Z B -> ptr;
  alloc_fresh n h l : alloc n h = Some l -> h !! l = None
}.

(** Some allocation fails. *)
Definition out_of_memory B `{Allocator B} : Prop := exists n h, alloc n h = None.

Section memory.
Context {B : Type}.
Implicit Types (m : mem B) (h : gmap Z B) (b : B) (own : list (Z * B)).

Definition malloc `{Allocator B} b m : ptr * mem B :=
  match alloc (calls m) (blocks m) with
  | None => (None, mkMem (blocks m) (S (calls m)))
  | Some l => (Some l, mkMem (<[l := b]> (blocks m)) (S (calls m)))
  end.

Definition free (p : ptr) m : outcome (mem B) :=
  match p with
  | None => Ret m
  | Some l => match blocks m !! l with None => Crash | Some _ => Ret (mkMem (delete l (blocks m)) (calls m)) end
  end.

Definition read (p : ptr) m : outcome B :=
  match p with
  | None => Crash
  | Some l => match blocks m !! l with None => Crash | Some b => Ret b end
  end.

Definition update (p : ptr) (f : B -> outcome B) m : outcome (mem B) :=
  match p with
  | None => Crash
  | Some l =>
      match blocks m !! l with
      | None => Crash
      | Some b => b' ← f b; Ret (mkMem (<[l := b']> (blocks m)) (calls m))
      end
  end.

(** An automatic variable, alive while the body runs. *)
Definition with_local {A} b (body : ptr -> mem B -> outcome (A * mem B)) m : outcome (A * mem B) :=
  let l := fresh (dom (blocks m)) in
  '(a, m) ← body (Some l) (mkMem (<[l := b]> (blocks m)) (calls m));
  m ← free (Some l) m;
  Ret (a, m).

(** ** Ownership *)

Definition extends h own m : Prop :=
  NoDup own.*1 /\ (forall l, l ∈ own.*1 -> h !! l = None) /\ blocks m = list_to_map own ∪ h.

Lemma extends_nil h m : extends h [] m <-> blocks m = h.
Proof.
  unfold extends. cbn [list_to_map foldr fmap list_fmap]. rewrite (left_id_L ∅ (∪) h). split; [by intros (_ & _ & ?)|].
  intros ?. split; [apply NoDup_nil_2|]. split; [|done]. intros l Hl. by apply elem_of_nil in Hl.
Qed.

Lemma extends_perm h own own' m : own ≡ₚ own' -> extends h own m -> extends h own' m.
Proof.
  intros Hp (H1 & H2 & H3). split; [by rewrite <- Hp|]. split; [intros l Hl; apply H2; by rewrite Hp|].
  rewrite H3. f_equal. by apply list_to_map_proper.
Qed.

Lemma extends_lookup h own l b m : extends h ((l, b) :: own) m -> blocks m !! l = Some b.
Proof. intros (_ & _ & ->). apply lookup_union_Some_l. cbn. apply lookup_insert_eq. Qed.

Lemma extends_read h own l b m : extends h ((l, b) :: own) m -> read (Some l) m = Ret b.
Proof. intros H. cbn. by rewrite (extends_lookup _ _ _ _ _ H). Qed.

Lemma extends_base h own l b m : extends h own m -> h !! l = Some b -> blocks m !! l = Some b.
Proof.
  intros (_ & Hn & ->) Hl. rewrite lookup_union_r; [done|]. apply not_elem_of_list_to_map. intros Hin. apply Hn in Hin. by rewrite Hin in Hl.
Qed.

Lemma extends_add h own l b n m :
  extends h own m -> blocks m !! l = None -> extends h ((l, b) :: own) (mkMem (<[l := b]> (blocks m)) n).
Proof.
  intros (H1 & H2 & H3) Hl. rewrite H3 in Hl. apply lookup_union_None in Hl as [Ho Hh].
  assert (l ∉ own.*1) as Hn by by apply not_elem_of_list_to_map. split; [by apply NoDup_cons_2|]. split.
  - intros l' [->|Hl']%elem_of_cons; [done|by apply H2].
  - cbn. by rewrite H3, insert_union_l.
Qed.

Lemma extends_malloc `{Allocator B} h own b m :
  extends h own m ->
  exists p m', malloc b m = (p, m') /\
    match p with None => extends h own m' /\ out_of_memory B | Some l => extends h ((l, b) :: own) m' end.
Proof.
  intros He. unfold malloc. destruct (alloc (calls m) (blocks m)) as [l|] eqn:El; eexists _, _; (split; [done|]); [|by split; [|eexists _, _]].
  apply extends_add; [done|]. by eapply alloc_fresh.
Qed.

Lemma extends_free h own l b m :
  extends h ((l, b) :: own) m -> exists m', free (Some l) m = Ret m' /\ extends h own m'.
Proof.
  intros He. unfold free. rewrite (extends_lookup _ _ _ _ _ He). eexists. split; [done|].
  destruct He as (H1 & H2 & H3). apply NoDup_cons in H1 as [Hn H1]. split; [done|]. split; [intros ? ?; apply H2; by right|].
  cbn [blocks]. rewrite H3. cbn [list_to_map foldr fst snd]. change (foldr _ ∅ own) with (list_to_map own : gmap Z B).
  assert (h !! l = None) as Hh by (apply H2; by left).
  assert ((list_to_map own : gmap Z B) !! l = None) as Ho by by apply not_elem_of_list_to_map.
  rewrite delete_union, (delete_id h) by done. by rewrite delete_insert_id.
Qed.

Lemma extends_update h own l b b' f m :
  extends h ((l, b) :: own) m -> f b = Ret b' ->
  exists m', update (Some l) f m = Ret m' /\ extends h ((l, b') :: own) m'.
Proof.
  intros He Hf. unfold update. rewrite (extends_lookup _ _ _ _ _ He), Hf. cbn [mbind outcome_bind]. eexists. split; [done|].
  destruct He as (H1 & H2 & H3). split; [done|]. split; [done|].
  cbn [blocks]. rewrite H3. cbn. by rewrite insert_union_l, insert_insert_eq.
Qed.

Lemma with_local_owned {A} h own b body m (Q : A -> list (Z * B) -> Prop) :
  extends h own m ->
  (forall l m1, extends h ((l, b) :: own) m1 ->
     exists a m2 b' own', body (Some l) m1 = Ret (a, m2) /\ extends h ((l, b') :: own') m2 /\ Q a own') ->
  exists a m' own', with_local b body m = Ret (a, m') /\ extends h own' m' /\ Q a own'.
Proof.
  intros He Hbody. unfold with_local. set (l := fresh (dom (blocks m))).
  destruct (Hbody l (mkMem (<[l := b]> (blocks m)) (calls m))) as (a & m2 & b' & own' & -> & He2 & HQ).
  { apply extends_add; [done|]. apply not_elem_of_dom, is_fresh. }
  cbn [mbind outcome_bind]. destruct (extends_free _ _ _ _ _ He2) as (m' & -> & He'). cbn [mbind outcome_bind]. by exists a, m', own'.
Qed.
End memory.

(** ** Arrays that are filled from the left *)

Lemma insert_at_length {A} (l k : list A) x y : <[length l := y]> (l ++ x :: k) = l ++ y :: k.
Proof. by rewrite <- (Nat.add_0_r (length l)), insert_app_r. Qed.

Lemma concat_nils {A} n : concat (replicate n (@nil A)) = [].
Proof. induction n; [done|]. by cbn. Qed.

(** ** An allocator: the next free address, with the calls that are to fail *)

Definition first_free {B} (h : gmap Z B) : Z := 1 + foldr Z.max 0 (map_to_list h).*1.

Lemma foldr_max_ge (l : list Z) x : x ∈ l -> x <= foldr Z.max 0 l.
Proof. induction 1; cbn; lia. Qed.

Lemma first_free_fresh {B} (h : gmap Z B) : h !! first_free h = None.
Proof.
  destruct (h !! first_free h) as [b|] eqn:E; [|done]. assert (first_free h ∈ (map_to_list h).*1) as Hin.
  { apply list_elem_of_fmap. exists (first_free h, b). split; [done|]. by apply elem_of_map_to_list. }
  apply foldr_max_ge in Hin. unfold first_free in Hin at 1. lia.
Qed.

Definition wit_alloc {B} (fails : nat -> bool) : Allocator B.
Proof.
  refine {| alloc n h := if fails n then None else Some (first_free h) |}.
  intros n h l. destruct (fails n); [done|]. intros [= <-]. apply first_free_fresh.
Defined.
