(* ===== verification/UdpServer.v ===== *)
(** * The UDP server of the integration tests

    integration-tests/container/udp/udp-server.c: the three ways of receiving, with
    the memory they allocate, and the program around them.  The datagrams that wait
    on the socket are a queue; what a turn of the loop meets (datagrams that arrive,
    a failing system call) is an input, as are the answers of [malloc], of
    [getaddrinfo], [socket] and [bind], and what [getopt_long] returns.  [inet_ntop]
    is a parameter. *)

From stdpp Require Import gmap.
From S2P Require Import Prelude CStrings Utility NetParse CMemory.

Definition BUF_SIZE : Z := 4096.
Definition IOVEC_N : nat := 16.
Definition MMSGHDR_N : nat := 32.

Definition EINTR : Z := 4.
Definition EAGAIN : Z := 11.
Definition ENOMEM : Z := 12.

Inductive recv_method_t := RECVFROM | RECVMSG | RECVMMSG.

(** ** Data *)

Record iovec := mkIovec { iov_base : ptr; iov_len : Z }.
Record msghdr := mkMsghdr { msg_name : ptr; msg_namelen : Z; msg_iov : ptr; msg_iovlen : nat }.
Record mmsghdr := mkMmsghdr { msg_hdr : msghdr; msg_len : Z }.

(** A socket address: its family, and the bytes behind it. *)
Record sockaddr := mkSockaddr { sa_family : Z; sa_data : list ascii }.
Definition sockaddr_len (sa : sockaddr) : Z := 2 + Z.of_nat (length (sa_data sa)).
(** [sizeof(struct sockaddr)] *)
Definition sockaddr_size : Z := 16.

Record datagram := mkDatagram { peer : sockaddr; payload : chars }.

(** Bytes that were never written are [None]. *)
Abbreviation cells := (list (option ascii)).
Inductive block :=
| Bytes (c : cells)
| Name (size : Z) (sa : option sockaddr)
| Iovecs (l : list iovec)
| Mmsghdrs (l : list mmsghdr).

Definition iovec_zero : iovec := mkIovec None 0.
Definition mmsghdr_zero : mmsghdr := mkMmsghdr (mkMsghdr None 0 None 0) 0.

Definition get {A} (o : option A) : outcome A := match o with Some a => Ret a | None => Crash end.

Definition iov_at (p : ptr) (i : nat) (m : mem block) : outcome iovec :=
  b ← read p m; match b with Iovecs l => get (l !! i) | _ => Crash end.
Definition set_iov (p : ptr) (i : nat) (v : iovec) : mem block -> outcome (mem block) :=
  update p (fun b => match b with Iovecs l => _ ← get (l !! i); Ret (Iovecs (<[i := v]> l)) | _ => Crash end).
Definition hdr_at (p : ptr) (i : nat) (m : mem block) : outcome mmsghdr :=
  b ← read p m; match b with Mmsghdrs l => get (l !! i) | _ => Crash end.
Definition set_hdr (p : ptr) (i : nat) (v : mmsghdr) : mem block -> outcome (mem block) :=
  update p (fun b => match b with Mmsghdrs l => _ ← get (l !! i); Ret (Mmsghdrs (<[i := v]> l)) | _ => Crash end).

(** [buf[i] = c] *)
Definition put (i : nat) (c : ascii) (cs : cells) : outcome cells :=
  _ ← get (cs !! i); Ret (<[i := Some c]> cs).
Definition set_byte (p : ptr) (i : nat) (c : ascii) : mem block -> outcome (mem block) :=
  update p (fun b => match b with Bytes cs => cs ← put i c cs; Ret (Bytes cs) | _ => Crash end).

(** The string at the start of a buffer, as [%s] reads it. *)
Fixpoint c_string (cs : cells) : outcome chars :=
  match cs with
  | Some c :: cs => if ch_eqb c "000" then Ret [] else s ← c_string cs; Ret (c :: s)
  | _ => Crash
  end.
Definition string_at (p : ptr) (m : mem block) : outcome chars :=
  b ← read p m; match b with Bytes cs => c_string cs | _ => Crash end.
Definition name_at (p : ptr) (m : mem block) : outcome sockaddr :=
  b ← read p m; match b with Name _ sa => get sa | _ => Crash end.

(** ** System calls *)

Definition write_cells (data : chars) (cs : cells) : outcome cells :=
  if (length cs <? length data)%nat then Crash else Ret ((Some <$> data) ++ drop (length data) cs).
Definition write_bytes (p : ptr) (data : chars) : mem block -> outcome (mem block) :=
  update p (fun b => match b with Bytes cs => cs ← write_cells data cs; Ret (Bytes cs) | _ => Crash end).

(** A datagram is spread over the buffers in order; what does not fit is lost. *)
Fixpoint scatter (data : chars) (iovs : list iovec) (m : mem block) : outcome (Z * mem block) :=
  match iovs with
  | [] => Ret (0, m)
  | v :: iovs =>
      let n := Z.to_nat (iov_len v) in
      m ← write_bytes (iov_base v) (take n data) m;
      '(k, m) ← scatter (drop n data) iovs m;
      Ret (Z.of_nat (length (take n data)) + k, m)
  end.

(** The address of the sender is cut to the room for it. *)
Definition cut (room : Z) (sa : sockaddr) : sockaddr :=
  mkSockaddr (sa_family sa) (take (Z.to_nat (room - 2)) (sa_data sa)).
Definition deliver_name (room : Z) (sa : sockaddr) (p : ptr) : mem block -> outcome (mem block) :=
  update p (fun b => match b with
    | Name size _ => if size <? room then Crash else Ret (Name size (Some (cut room sa)))
    | _ => Crash end).

Definition recvmsg (d : datagram) (mh : msghdr) (m : mem block) : outcome (Z * msghdr * mem block) :=
  b ← read (msg_iov mh) m;
  match b with
  | Iovecs l =>
      '(n, m) ← scatter (payload d) (take (msg_iovlen mh) l) m;
      m ← deliver_name (msg_namelen mh) (peer d) (msg_name mh) m;
      Ret (n, mkMsghdr (msg_name mh) (sockaddr_len (peer d)) (msg_iov mh) (msg_iovlen mh), m)
  | _ => Crash
  end.

Fixpoint recvmmsg (ds : list datagram) (mmh : ptr) (i : nat) (m : mem block) : outcome (mem block) :=
  match ds with
  | [] => Ret m
  | d :: ds =>
      h ← hdr_at mmh i m;
      '(n, mh, m) ← recvmsg d (msg_hdr h) m;
      m ← set_hdr mmh i (mkMmsghdr mh n) m;
      recvmmsg ds mmh (S i) m
  end.

(** The socket: the datagrams that wait, and whether the next call fails.  A call
    that finds no datagram within a second fails with [EAGAIN]. *)
Record socket_t := mkSocket { queue : list datagram; failure : option Z }.
Definition take_datagrams (n : nat) (s : socket_t) : Z + (list datagram * socket_t) :=
  match failure s with
  | Some e => inl e
  | None => match queue s with
            | [] => inl EAGAIN
            | q => inr (take n q, mkSocket (drop n q) None)
            end
  end.

(** What the code makes of an error number. *)
Definition error_code (e : Z) : Z := if (e =? EINTR) || (e =? EAGAIN) then 0 else e.

Section server.
Context `{Allocator block} (inet_ntop : Z -> list ascii -> chars).
Implicit Types m : mem block.

(** ** Buffers *)

Fixpoint free_buffers (iov : ptr) (i n : nat) m : outcome (mem block) :=
  match n with
  | O => Ret m
  | S n => v ← iov_at iov i m; m ← free (iov_base v) m; free_buffers iov (S i) n m
  end.

Definition iovec_free (iov : ptr) m : outcome (mem block) :=
  match iov with
  | None => Ret m
  | Some _ => m ← free_buffers iov 0 IOVEC_N m; free iov m
  end.

Fixpoint new_buffers (ret : ptr) (i n : nat) m : outcome (bool * mem block) :=
  match n with
  | O => Ret (true, m)
  | S n =>
      v ← iov_at ret i m;
      let '(p, m) := malloc (Bytes (replicate (Z.to_nat (BUF_SIZE + 1)) None)) m in
      m ← set_iov ret i (mkIovec p (iov_len v)) m;
      match p with
      | None => Ret (false, m)
      | Some _ => m ← set_iov ret i (mkIovec p BUF_SIZE) m; new_buffers ret (S i) n m
      end
  end.

Definition iovec_new m : outcome (ptr * mem block) :=
  let '(ret, m) := malloc (Iovecs (replicate IOVEC_N iovec_zero)) m in
  match ret with
  | None => Ret (None, m)
  | Some _ =>
      '(ok, m) ← new_buffers ret 0 IOVEC_N m;
      if ok : bool then Ret (ret, m) else m ← iovec_free ret m; Ret (None, m)
  end.

Fixpoint free_headers (mmh : ptr) (i n : nat) m : outcome (mem block) :=
  match n with
  | O => Ret m
  | S n =>
      h ← hdr_at mmh i m;
      m ← free (msg_name (msg_hdr h)) m;
      m ← iovec_free (msg_iov (msg_hdr h)) m;
      free_headers mmh (S i) n m
  end.

Definition mmsghdr_free (mmh : ptr) m : outcome (mem block) :=
  match mmh with
  | None => Ret m
  | Some _ => m ← free_headers mmh 0 MMSGHDR_N m; free mmh m
  end.

Fixpoint new_headers (mmh : ptr) (i n : nat) m : outcome (bool * mem block) :=
  match n with
  | O => Ret (true, m)
  | S n =>
      let '(name, m) := malloc (Name sockaddr_size None) m in
      m ← set_hdr mmh i (mkMmsghdr (mkMsghdr name sockaddr_size None 0) 0) m;
      match name with
      | None => Ret (false, m)
      | Some _ =>
          '(iov, m) ← iovec_new m;
          m ← set_hdr mmh i (mkMmsghdr (mkMsghdr name sockaddr_size iov 0) 0) m;
          match iov with
          | None => Ret (false, m)
          | Some _ =>
              m ← set_hdr mmh i (mkMmsghdr (mkMsghdr name sockaddr_size iov IOVEC_N) 0) m;
              new_headers mmh (S i) n m
          end
      end
  end.

Definition mmsghdr_new m : outcome (ptr * mem block) :=
  let '(mmh, m) := malloc (Mmsghdrs (replicate MMSGHDR_N mmsghdr_zero)) m in
  match mmh with
  | None => Ret (None, m)
  | Some _ =>
      '(ok, m) ← new_headers mmh 0 MMSGHDR_N m;
      if ok : bool then Ret (mmh, m) else m ← mmsghdr_free mmh m; Ret (None, m)
  end.

(** ** Printing *)

(** A line of output: the sender, and the text. *)
Abbreviation line := (chars * chars)%type.

(** The memory behind the returned pointer. *)
Definition get_in_addr (sa : sockaddr) : list ascii :=
  if sa_family sa =? AF_INET then drop 2 (sa_data sa) else drop 6 (sa_data sa).

(** [inet_ntop] on the family and the address of a sender; null, which [printf] does
    not accept, for another family. *)
Definition sender_text (sa : sockaddr) : outcome chars :=
  let src := get_in_addr sa in
  let size := if sa_family sa =? AF_INET then 4%nat else 16%nat in
  if negb (sa_family sa =? AF_INET) && negb (sa_family sa =? AF_INET6) then Crash
  else if (length src <? size)%nat then Crash
  else Ret (inet_ntop (sa_family sa) (take size src)).

Fixpoint print_loop (mh : msghdr) (i n : nat) (remaining : Z) m : outcome (list line * mem block) :=
  match n with
  | O => Ret ([], m)
  | S n =>
      if remaining <? 0 then Ret ([], m)
      else
        v ← iov_at (msg_iov mh) i m;
        let terminator_index := if remaining <? iov_len v then remaining else iov_len v in
        m ← set_byte (iov_base v) (Z.to_nat terminator_index) "000" m;
        from ← name_at (msg_name mh) m;
        sender ← sender_text from;
        buf ← string_at (iov_base v) m;
        '(out, m) ← print_loop mh (S i) n (remaining - iov_len v) m;
        Ret ((sender, buf) :: out, m)
  end.
Definition print_msg (mh : msghdr) (remaining : Z) m : outcome (list line * mem block) :=
  print_loop mh 0 (msg_iovlen mh) remaining m.

Fixpoint print_msgs (mmh : ptr) (i n : nat) m : outcome (list line * mem block) :=
  match n with
  | O => Ret ([], m)
  | S n =>
      h ← hdr_at mmh i m;
      '(out, m) ← print_msg (msg_hdr h) (msg_len h) m;
      '(outs, m) ← print_msgs mmh (S i) n m;
      Ret (out ++ outs, m)
  end.

(** ** Receiving *)

Definition receive_recvfrom (s : socket_t) : outcome (Z * list line * socket_t) :=
  match take_datagrams 1 s with
  | inl e => Ret (error_code e, [], s)
  | inr (ds, s) =>
      d ← get (head ds);
      let data := take (Z.to_nat BUF_SIZE) (payload d) in
      buf ← write_cells data (replicate (Z.to_nat (BUF_SIZE + 1)) None);
      buf ← put (length data) "000" buf;
      sender ← sender_text (cut sockaddr_size (peer d));
      text ← c_string buf;
      Ret (0, [(sender, text)], s)
  end.

Definition receive_recvmsg (s : socket_t) m : outcome (Z * list line * socket_t * mem block) :=
  with_local (Name sockaddr_size None) (fun from m =>
    '(iov, m) ← iovec_new m;
    match iov with
    | None => Ret (ENOMEM, [], s, m)
    | Some _ =>
        let mh := mkMsghdr from sockaddr_size iov IOVEC_N in
        match take_datagrams 1 s with
        | inl e => m ← iovec_free iov m; Ret (error_code e, [], s, m)
        | inr (ds, s) =>
            d ← get (head ds);
            '(res, mh, m) ← recvmsg d mh m;
            '(out, m) ← print_msg mh res m;
            m ← iovec_free iov m;
            Ret (0, out, s, m)
        end
    end) m.

Definition receive_recvmmsg (s : socket_t) m : outcome (Z * list line * socket_t * mem block) :=
  '(mmh, m) ← mmsghdr_new m;
  match mmh with
  | None => Ret (ENOMEM, [], s, m)
  | Some _ =>
      match take_datagrams MMSGHDR_N s with
      | inl e => m ← mmsghdr_free mmh m; Ret (error_code e, [], s, m)
      | inr (ds, s) =>
          m ← recvmmsg ds mmh 0 m;
          '(out, m) ← print_msgs mmh 0 (length ds) m;
          m ← mmsghdr_free mmh m;
          Ret (0, out, s, m)
      end
  end.

Definition receive (syscall : recv_method_t) (s : socket_t) m : outcome (Z * list line * socket_t * mem block) :=
  match syscall with
  | RECVFROM => '(ret, out, s) ← receive_recvfrom s; Ret (ret, out, s, m)
  | RECVMSG => receive_recvmsg s m
  | RECVMMSG => receive_recvmmsg s m
  end.

(** ** The program *)

(** What happens before a turn of the loop: datagrams arrive, or the call fails. *)
Record turn := mkTurn { arrivals : list datagram; fails : option Z }.

(** The loop until [handle_stop] clears [running]; the numbers are what is
    reported as failed. *)
Fixpoint receive_loop (syscall : recv_method_t) (turns : list turn) (q : list datagram) m :
    outcome (list Z * list line * list datagram * mem block) :=
  match turns with
  | [] => Ret ([], [], q, m)
  | t :: turns =>
      '(ret, out, s, m) ← receive syscall (mkSocket (q ++ arrivals t) (fails t)) m;
      '(reports, outs, q, m) ← receive_loop syscall turns (queue s) m;
      Ret ((if ret <? 0 then [ret] else []) ++ reports, out ++ outs, q, m)
  end.

Record addrinfo := mkAddrinfo { ai_family : Z; ai_socktype : Z; ai_protocol : Z; ai_addr : sockaddr }.

(** The host: the descriptor that [socket] gives, and whether [bind] succeeds. *)
Record host := mkHost { socket : addrinfo -> ptr; bind : Z -> sockaddr -> bool }.

(** The loop over the candidates; [fds] are the open descriptors. *)
Fixpoint open_socket (w : host) (res : addrinfo) (ps : list addrinfo) (fds : list Z) : ptr * list Z :=
  match ps with
  | [] => (None, fds)
  | p :: ps =>
      match socket w p with
      | None => open_socket w res ps fds
      | Some fd => if bind w fd (ai_addr res) then (Some fd, fd :: fds) else open_socket w res ps (fd :: fds)
      end
  end.

Record result := mkResult { status : Z; printed : list line; reported : list Z; waiting : list datagram; open_fds : list Z }.

Definition run (w : host) (candidates : Z + list addrinfo) (syscall : recv_method_t) (turns : list turn) m :
    outcome (result * mem block) :=
  match candidates with
  | inl _ | inr [] => Ret (mkResult (-1) [] [] [] [], m)
  | inr (res :: ps) =>
      match open_socket w res (res :: ps) [] with
      | (None, fds) => Ret (mkResult (-1) [] [] [] fds, m)
      | (Some fd, fds) =>
          '(reports, out, q, m) ← receive_loop syscall turns [] m;
          Ret (mkResult 0 out reports q (filter (fun x => x <> fd) fds), m)
      end
  end.

(** The options as [getopt_long] returns them, with their arguments. *)
Record options_t := mkOptions { opt_family : Z; opt_port : chars; opt_syscall : recv_method_t }.
Definition options_default : options_t := mkOptions AF_INET (chars_of "9090") RECVFROM.

Definition syscall_of (name : chars) : option recv_method_t :=
  if chars_eqb name (chars_of "recvfrom") then Some RECVFROM
  else if chars_eqb name (chars_of "recvmsg") then Some RECVMSG
  else if chars_eqb name (chars_of "recvmmsg") then Some RECVMMSG
  else None.

Fixpoint read_options (opts : list (ascii * chars)) (o : options_t) : Z + options_t :=
  match opts with
  | [] => inr o
  | (opt, optarg) :: opts =>
      if ch_eqb opt "6" then read_options opts (mkOptions AF_INET6 (opt_port o) (opt_syscall o))
      else if ch_eqb opt "h" then inl 0
      else if ch_eqb opt "p" then read_options opts (mkOptions (opt_family o) optarg (opt_syscall o))
      else if ch_eqb opt "s" then
        match syscall_of optarg with
        | Some syscall => read_options opts (mkOptions (opt_family o) (opt_port o) syscall)
        | None => inl (-1)
        end
      else inl (-1)
  end.

Definition main (w : host) (getaddrinfo : Z -> chars -> Z + list addrinfo) (opts : list (ascii * chars)) (turns : list turn) m :
    outcome (result * mem block) :=
  match read_options opts options_default with
  | inl status => Ret (mkResult status [] [] [] [], m)
  | inr o => run w (getaddrinfo (opt_family o) (opt_port o)) (opt_syscall o) turns m
  end.
End server.

(** ** What is owned *)

Definition buffer_room : nat := Z.to_nat (BUF_SIZE + 1).

(** The blocks that an entry of an array of buffers owns, the array, a header and
    the array of headers.  [full] asks that nothing is missing. *)
Inductive owns_buf (full : bool) : iovec -> list (Z * block) -> Prop :=
| owns_no_buf n : full = false -> owns_buf full (mkIovec None n) []
| owns_one_buf l c n : length c = buffer_room -> (full = true -> n = BUF_SIZE) -> owns_buf full (mkIovec (Some l) n) [(l, Bytes c)].

Inductive owns_iov (full : bool) : ptr -> list (Z * block) -> Prop :=
| owns_no_iov : full = false -> owns_iov full None []
| owns_one_iov l iovs bufs : length iovs = IOVEC_N -> Forall2 (owns_buf full) iovs bufs ->
    owns_iov full (Some l) ((l, Iovecs iovs) :: concat bufs).

Inductive owns_name (full : bool) : ptr -> list (Z * block) -> Prop :=
| owns_no_name : full = false -> owns_name full None []
| owns_one_name l sa : owns_name full (Some l) [(l, Name sockaddr_size sa)].

Inductive owns_hdr (full : bool) (h : mmsghdr) : list (Z * block) -> Prop :=
| owns_header own1 own2 :
    owns_name full (msg_name (msg_hdr h)) own1 -> owns_iov full (msg_iov (msg_hdr h)) own2 ->
    (full = true -> msg_namelen (msg_hdr h) = sockaddr_size /\ msg_iovlen (msg_hdr h) = IOVEC_N) ->
    owns_hdr full h (own1 ++ own2).

Section owned.
Context `{Allocator block}.
Implicit Types (m : mem block) (own rest : list (Z * block)) (h : gmap Z block).

Lemma owns_buf_part b v own : owns_buf b v own -> owns_buf false v own.
Proof. destruct 1; by constructor. Qed.

Lemma owns_iov_part b p own : owns_iov b p own -> owns_iov false p own.
Proof. destruct 1; constructor; [done..|]. eapply Forall2_impl; [done|]. by apply owns_buf_part. Qed.

Lemma free_buf b v own rest h m : owns_buf b v own -> extends h (own ++ rest) m ->
  exists m', free (iov_base v) m = Ret m' /\ extends h rest m'.
Proof. intros [] He; [by exists m|]. eapply extends_free, He. Qed.

Lemma iov_at_owned l iovs rest i v h m :
  extends h ((l, Iovecs iovs) :: rest) m -> iovs !! i = Some v -> iov_at (Some l) i m = Ret v.
Proof. intros He Hi. unfold iov_at. rewrite (extends_read _ _ _ _ _ He). cbn. by rewrite Hi. Qed.

Lemma set_iov_owned l iovs rest i v h m :
  extends h ((l, Iovecs iovs) :: rest) m -> (i < length iovs)%nat ->
  exists m', set_iov (Some l) i v m = Ret m' /\ extends h ((l, Iovecs (<[i := v]> iovs)) :: rest) m'.
Proof.
  intros He Hi. eapply extends_update; [done|]. apply lookup_lt_is_Some_2 in Hi as [x Hx]. cbn. by rewrite Hx.
Qed.

Lemma free_buffers_owned l iovs h rest n : forall i bufs m,
  Forall2 (owns_buf false) (drop i iovs) bufs -> length iovs = (i + n)%nat ->
  extends h ((l, Iovecs iovs) :: concat bufs ++ rest) m ->
  exists m', free_buffers (Some l) i n m = Ret m' /\ extends h ((l, Iovecs iovs) :: rest) m'.
Proof.
  induction n as [|n IH]; intros i bufs m Hf Hlen He; cbn [free_buffers].
  - rewrite drop_ge in Hf by lia. inversion Hf; subst. by exists m.
  - assert (is_Some (iovs !! i)) as [v Hv] by (apply lookup_lt_is_Some_2; lia).
    rewrite (iov_at_owned _ _ _ _ _ _ _ He Hv). cbn [mbind outcome_bind].
    rewrite (drop_S _ _ _ Hv) in Hf. inversion Hf as [|? own ? bufs' Ho Hr]; subst. cbn [concat] in He.
    destruct (free_buf false v own ((l, Iovecs iovs) :: concat bufs' ++ rest) h m) as (m' & -> & He'); [done| |].
    { eapply extends_perm, He. solve_Permutation. }
    cbn [mbind outcome_bind]. apply (IH (S i) bufs'); [done|lia|done].
Qed.

Lemma iovec_free_owned b p own rest h m : owns_iov b p own -> extends h (own ++ rest) m ->
  exists m', iovec_free p m = Ret m' /\ extends h rest m'.
Proof.
  intros [|l iovs bufs Hlen Hf]%owns_iov_part He; [by exists m|]. unfold iovec_free.
  destruct (free_buffers_owned l iovs h rest IOVEC_N 0 bufs m) as (m1 & -> & He1); [done|done|done|].
  cbn [mbind outcome_bind]. eapply extends_free, He1.
Qed.

Lemma new_buffers_owned l h rest n : forall full bufs m,
  Forall2 (owns_buf true) full bufs ->
  extends h ((l, Iovecs (full ++ replicate n iovec_zero)) :: concat bufs ++ rest) m ->
  exists ok m' iovs bufs', new_buffers (Some l) (length full) n m = Ret (ok, m') /\
    length iovs = (length full + n)%nat /\ Forall2 (owns_buf ok) iovs bufs' /\
    extends h ((l, Iovecs iovs) :: concat bufs' ++ rest) m' /\ (ok = false -> out_of_memory block).
Proof.
  induction n as [|n IH]; intros full bufs m Hf He; cbn [new_buffers].
  - rewrite app_nil_r in He. exists true, m, full, bufs. split_and!; [done|lia|done..].
  - cbn [replicate] in He. rewrite (iov_at_owned _ _ _ _ iovec_zero _ _ He) by by rewrite list_lookup_middle.
    cbn [mbind outcome_bind]. destruct (extends_malloc _ _ (Bytes (replicate (Z.to_nat (BUF_SIZE + 1)) None)) _ He) as (p & m1 & -> & He1).
    destruct p as [p|].
    + assert (extends h ((l, Iovecs (full ++ iovec_zero :: replicate n iovec_zero))
        :: concat (bufs ++ [[(p, Bytes (replicate (Z.to_nat (BUF_SIZE + 1)) None))]]) ++ rest) m1) as He2.
      { eapply extends_perm, He1. rewrite concat_app. cbn [concat app]. solve_Permutation. }
      destruct (set_iov_owned _ _ _ (length full) (mkIovec (Some p) (iov_len iovec_zero)) _ _ He2) as (m2 & -> & He3); [rewrite length_app; cbn; lia|].
      cbn [mbind outcome_bind]. rewrite insert_at_length in He3.
      destruct (set_iov_owned _ _ _ (length full) (mkIovec (Some p) BUF_SIZE) _ _ He3) as (m3 & -> & He4); [rewrite length_app; cbn; lia|].
      cbn [mbind outcome_bind]. rewrite insert_at_length, cons_middle, app_assoc in He4.
      edestruct (IH (full ++ [mkIovec (Some p) BUF_SIZE])) with (2 := He4) as (ok & m' & iovs & bufs' & E & Hl & Hb & He5).
      { apply Forall2_app; [done|]. constructor; [|done]. constructor; [|done]. apply length_replicate. }
      rewrite length_app in E, Hl. cbn in E, Hl. rewrite Nat.add_1_r in E. exists ok, m', iovs, bufs'. split_and!; [done|lia|done|by apply He5|by apply He5].
    + destruct He1 as [He1 Hoom]. destruct (set_iov_owned _ _ _ (length full) (mkIovec None (iov_len iovec_zero)) _ _ He1) as (m2 & -> & He2); [rewrite length_app; cbn; lia|].
      cbn [mbind outcome_bind]. rewrite insert_at_length in He2. exists false, m2, (full ++ mkIovec None 0 :: replicate n iovec_zero), (bufs ++ [] :: replicate n []).
      split; [done|]. split; [rewrite length_app; cbn; rewrite length_replicate; lia|]. split; [|split; [|done]].
      * apply Forall2_app; [eapply Forall2_impl; [done|]; by apply owns_buf_part|]. constructor; [by constructor|].
        apply Forall2_replicate. by constructor.
      * rewrite concat_app. cbn [concat app]. replace (concat (replicate n [])) with (@nil (Z * block)); [by rewrite app_nil_r|].
        by rewrite concat_nils.
Qed.

Lemma iovec_new_owned h rest m : extends h rest m ->
  exists p m', iovec_new m = Ret (p, m') /\
    match p with None => extends h rest m' /\ out_of_memory block | Some _ => exists own, owns_iov true p own /\ extends h (own ++ rest) m' end.
Proof.
  intros He. unfold iovec_new. destruct (extends_malloc _ _ (Iovecs (replicate IOVEC_N iovec_zero)) _ He) as (p & m1 & -> & He1).
  destruct p as [l|]; [|by exists None, m1].
  destruct (new_buffers_owned l h rest IOVEC_N [] [] m1) as (ok & m2 & iovs & bufs & E & Hl & Hb & He2 & Hoom); [done|done|].
  cbn [length] in E. rewrite E. cbn [mbind outcome_bind]. destruct ok.
  - exists (Some l), m2. split; [done|]. eexists. split; [by constructor|done].
  - destruct (iovec_free_owned false (Some l) ((l, Iovecs iovs) :: concat bufs) rest h m2) as (m3 & -> & He3); [by constructor|done|].
    exists None, m3. split; [done|]. by split; [|apply Hoom].
Qed.

(** *** Headers *)

Lemma hdr_at_owned l hs rest i v h m :
  extends h ((l, Mmsghdrs hs) :: rest) m -> hs !! i = Some v -> hdr_at (Some l) i m = Ret v.
Proof. intros He Hi. unfold hdr_at. rewrite (extends_read _ _ _ _ _ He). cbn. by rewrite Hi. Qed.

Lemma set_hdr_owned l hs rest i v h m :
  extends h ((l, Mmsghdrs hs) :: rest) m -> (i < length hs)%nat ->
  exists m', set_hdr (Some l) i v m = Ret m' /\ extends h ((l, Mmsghdrs (<[i := v]> hs)) :: rest) m'.
Proof.
  intros He Hi. eapply extends_update; [done|]. apply lookup_lt_is_Some_2 in Hi as [x Hx]. cbn. by rewrite Hx.
Qed.

Lemma owns_hdr_part b v own : owns_hdr b v own -> owns_hdr false v own.
Proof. intros [o1 o2 H1 H2 _]. constructor; [by destruct H1; constructor|by eapply owns_iov_part|done]. Qed.

Lemma owns_hdr_zero : owns_hdr false mmsghdr_zero [].
Proof. change (@nil (Z * block)) with (@nil (Z * block) ++ []). by constructor; [constructor|constructor|]. Qed.

Lemma free_name b p own rest h m : owns_name b p own -> extends h (own ++ rest) m ->
  exists m', free p m = Ret m' /\ extends h rest m'.
Proof. intros [] He; [by exists m|]. eapply extends_free, He. Qed.

Lemma free_headers_owned l hs h rest n : forall i owns m,
  Forall2 (owns_hdr false) (drop i hs) owns -> length hs = (i + n)%nat ->
  extends h ((l, Mmsghdrs hs) :: concat owns ++ rest) m ->
  exists m', free_headers (Some l) i n m = Ret m' /\ extends h ((l, Mmsghdrs hs) :: rest) m'.
Proof.
  induction n as [|n IH]; intros i owns m Hf Hlen He; cbn [free_headers].
  - rewrite drop_ge in Hf by lia. inversion Hf; subst. by exists m.
  - assert (is_Some (hs !! i)) as [v Hv] by (apply lookup_lt_is_Some_2; lia).
    rewrite (hdr_at_owned _ _ _ _ _ _ _ He Hv). cbn [mbind outcome_bind].
    rewrite (drop_S _ _ _ Hv) in Hf. inversion Hf as [|? own ? owns' [o1 o2 H1 H2 _] Hr]; subst. cbn [concat] in He.
    destruct (free_name false _ o1 (o2 ++ (l, Mmsghdrs hs) :: concat owns' ++ rest) h m H1) as (m1 & -> & He1).
    { eapply extends_perm, He. solve_Permutation. }
    cbn [mbind outcome_bind]. destruct (iovec_free_owned _ _ _ _ _ _ H2 He1) as (m2 & -> & He2).
    cbn [mbind outcome_bind]. apply (IH (S i) owns'); [done|lia|done].
Qed.

Lemma mmsghdr_free_owned l hs owns rest h m :
  length hs = MMSGHDR_N -> Forall2 (owns_hdr false) hs owns -> extends h ((l, Mmsghdrs hs) :: concat owns ++ rest) m ->
  exists m', mmsghdr_free (Some l) m = Ret m' /\ extends h rest m'.
Proof.
  intros Hl Hf He. unfold mmsghdr_free. destruct (free_headers_owned l hs h rest MMSGHDR_N 0 owns m) as (m1 & -> & He1); [done..|].
  cbn [mbind outcome_bind]. eapply extends_free, He1.
Qed.

(** The array when an allocation fails: the entries behind are still zero. *)
Lemma headers_partial full owns v own l n rest h m :
  Forall2 (owns_hdr true) full owns -> owns_hdr false v own ->
  extends h ((l, Mmsghdrs (full ++ v :: replicate n mmsghdr_zero)) :: own ++ concat owns ++ rest) m ->
  exists hs owns', length hs = (length full + S n)%nat /\ Forall2 (owns_hdr false) hs owns' /\
    extends h ((l, Mmsghdrs hs) :: concat owns' ++ rest) m.
Proof.
  intros Hf Hv He. exists (full ++ v :: replicate n mmsghdr_zero), (owns ++ own :: replicate n []).
  split; [rewrite length_app; cbn; by rewrite length_replicate|]. split.
  - apply Forall2_app; [eapply Forall2_impl; [done|]; by apply owns_hdr_part|]. constructor; [done|].
    apply Forall2_replicate, owns_hdr_zero.
  - eapply extends_perm, He. rewrite concat_app. cbn [concat]. rewrite concat_nils. solve_Permutation.
Qed.

Lemma new_headers_owned l h rest n : forall full owns m,
  Forall2 (owns_hdr true) full owns ->
  extends h ((l, Mmsghdrs (full ++ replicate n mmsghdr_zero)) :: concat owns ++ rest) m ->
  exists ok m' hs owns', new_headers (Some l) (length full) n m = Ret (ok, m') /\
    length hs = (length full + n)%nat /\ Forall2 (owns_hdr ok) hs owns' /\
    extends h ((l, Mmsghdrs hs) :: concat owns' ++ rest) m' /\ (ok = false -> out_of_memory block).
Proof.
  induction n as [|n IH]; intros full owns m Hf He; cbn [new_headers].
  { rewrite app_nil_r in He. exists true, m, full, owns. split_and!; [done|lia|done..]. }
  cbn [replicate] in He. destruct (extends_malloc _ _ (Name sockaddr_size None) _ He) as (name & m1 & -> & He1).
  assert (exists o1, owns_name (bool_decide (is_Some name)) name o1 /\
    extends h ((l, Mmsghdrs (full ++ mmsghdr_zero :: replicate n mmsghdr_zero)) :: o1 ++ concat owns ++ rest) m1) as (o1 & Ho1 & He1').
  { destruct name as [a|]; [exists [(a, Name sockaddr_size None)]|exists []]; (split; [by constructor|]); [|by destruct He1].
    eapply extends_perm, He1. solve_Permutation. }
  destruct (set_hdr_owned _ _ _ (length full) (mkMmsghdr (mkMsghdr name sockaddr_size None 0) 0) _ _ He1') as (m2 & -> & He2); [rewrite length_app; cbn; lia|].
  rewrite insert_at_length in He2. cbn [mbind outcome_bind]. destruct name as [a|].
  2: { edestruct (headers_partial full owns) with (1 := Hf) (3 := He2) as (hs & owns' & ? & ? & ?); [|exists false, m2, hs, owns'; by destruct He1].
       rewrite <- (app_nil_r o1). by constructor; [|constructor|]. }
  destruct (iovec_new_owned _ _ _ He2) as (iov & m3 & -> & Hiov). cbn [mbind outcome_bind].
  assert (exists o2, owns_iov (bool_decide (is_Some iov)) iov o2 /\
    extends h ((l, Mmsghdrs (full ++ mkMmsghdr (mkMsghdr (Some a) sockaddr_size None 0) 0 :: replicate n mmsghdr_zero)) :: (o1 ++ o2) ++ concat owns ++ rest) m3) as (o2 & Ho2 & He3).
  { destruct iov as [b|]; [destruct Hiov as (o2 & ? & Hx); exists o2|exists []; split; [by constructor|rewrite app_nil_r; by destruct Hiov]].
    split; [done|]. eapply extends_perm, Hx. solve_Permutation. }
  destruct (set_hdr_owned _ _ _ (length full) (mkMmsghdr (mkMsghdr (Some a) sockaddr_size iov 0) 0) _ _ He3) as (m4 & -> & He4); [rewrite length_app; cbn; lia|].
  rewrite insert_at_length in He4. cbn [mbind outcome_bind]. destruct iov as [b|].
  - destruct (set_hdr_owned _ _ _ (length full) (mkMmsghdr (mkMsghdr (Some a) sockaddr_size (Some b) IOVEC_N) 0) _ _ He4) as (m5 & -> & He5); [rewrite length_app; cbn; lia|].
    rewrite insert_at_length, cons_middle, app_assoc in He5. cbn [mbind outcome_bind].
    destruct (IH (full ++ [mkMmsghdr (mkMsghdr (Some a) sockaddr_size (Some b) IOVEC_N) 0]) (owns ++ [o1 ++ o2]) m5) as (ok & m' & hs & owns' & E & Hl & Hb & He6).
    + apply Forall2_app; [done|]. constructor; [|done]. by constructor.
    + eapply extends_perm, He5. rewrite concat_app. cbn [concat]. solve_Permutation.
    + rewrite length_app in E, Hl. cbn in E, Hl. rewrite Nat.add_1_r in E. exists ok, m', hs, owns'. split_and!; [done|lia|done|by apply He6|by apply He6].
  - edestruct (headers_partial full owns) with (1 := Hf) (3 := He4) as (hs & owns' & ? & ? & ?); [|exists false, m4, hs, owns'; by destruct Hiov].
    apply (owns_hdr_part false). constructor; [by destruct Ho1; constructor|done|done].
Qed.

Lemma mmsghdr_new_owned h rest m : extends h rest m ->
  exists p m', mmsghdr_new m = Ret (p, m') /\
    match p with
    | None => extends h rest m' /\ out_of_memory block
    | Some l => exists hs owns, length hs = MMSGHDR_N /\ Forall2 (owns_hdr true) hs owns /\ extends h ((l, Mmsghdrs hs) :: concat owns ++ rest) m'
    end.
Proof.
  intros He. unfold mmsghdr_new. destruct (extends_malloc _ _ (Mmsghdrs (replicate MMSGHDR_N mmsghdr_zero)) _ He) as (p & m1 & -> & He1).
  destruct p as [l|]; [|by exists None, m1].
  destruct (new_headers_owned l h rest MMSGHDR_N [] [] m1) as (ok & m2 & hs & owns & E & Hl & Hb & He2 & Hoom); [done|done|].
  cbn [length] in E. rewrite E. cbn [mbind outcome_bind]. destruct ok.
  - exists (Some l), m2. split; [done|]. by exists hs, owns.
  - destruct (mmsghdr_free_owned l hs owns rest h m2) as (m3 & -> & He3); [done..|].
    exists None, m3. split; [done|]. by split; [|apply Hoom].
Qed.
End owned.

(** ** What is printed *)

(** A text as [%s] prints it: up to the first null character. *)
Fixpoint c_text (s : chars) : chars :=
  match s with
  | c :: s => if ch_eqb c "000" then [] else c :: c_text s
  | [] => []
  end.

(** The lines of a message that is spread over [n] buffers: one per buffer, and one
    more, empty, when the last buffer is full and there is another. *)
Fixpoint msg_lines (n : nat) (data : chars) : list chars :=
  match n with
  | O => []
  | S n =>
      c_text (take (Z.to_nat BUF_SIZE) data) ::
      if (length data <? Z.to_nat BUF_SIZE)%nat then [] else msg_lines n (drop (Z.to_nat BUF_SIZE) data)
  end.

(** Buffers that hold the message, in order. *)
Definition holds_buf (data : chars) (v : iovec) (own : list (Z * block)) : Prop :=
  exists l tail, v = mkIovec (Some l) BUF_SIZE /\ own = [(l, Bytes ((Some <$> data) ++ tail))] /\
    (length data + length tail)%nat = buffer_room.
Inductive holds : chars -> list iovec -> list (list (Z * block)) -> Prop :=
| holds_nil data : holds data [] []
| holds_cons data v iovs own bufs :
    holds_buf (take (Z.to_nat BUF_SIZE) data) v own -> holds (drop (Z.to_nat BUF_SIZE) data) iovs bufs ->
    holds data (v :: iovs) (own :: bufs).

Lemma c_string_text data tail : c_string ((Some <$> data) ++ Some "000"%char :: tail) = Ret (c_text data).
Proof. induction data as [|c data IH]; [done|]. cbn. destruct (ch_eqb c "000"); [done|]. by rewrite IH. Qed.

Lemma bind_one {A B} (f : A -> list B) x : ([x] ≫= f) = f x.
Proof. apply app_nil_r. Qed.

Section receiving.
Context `{Allocator block} (inet_ntop : Z -> list ascii -> chars).
Implicit Types (m : mem block) (own rest : list (Z * block)) (h : gmap Z block).

Lemma buffer_room_size : buffer_room = S (Z.to_nat BUF_SIZE).
Proof. done. Qed.

Lemma write_bytes_owned data l c rest h m :
  extends h ((l, Bytes c) :: rest) m -> (length data <= length c)%nat ->
  exists m', write_bytes (Some l) data m = Ret m' /\ extends h ((l, Bytes ((Some <$> data) ++ drop (length data) c)) :: rest) m'.
Proof.
  intros He Hl. eapply extends_update; [done|]. unfold write_cells.
  by destruct (Nat.ltb_spec (length c) (length data)); [lia|].
Qed.

Lemma scatter_owned h iovs : forall data bufs rest m,
  Forall2 (owns_buf true) iovs bufs -> extends h (concat bufs ++ rest) m ->
  exists m' bufs', scatter data iovs m = Ret (Z.min (Z.of_nat (length data)) (BUF_SIZE * Z.of_nat (length iovs)), m') /\
    holds data iovs bufs' /\ extends h (concat bufs' ++ rest) m'.
Proof.
  induction iovs as [|v iovs IH]; intros data bufs rest m Hf He; inversion Hf as [|? own ? bufs1 Ho Hr]; subst; cbn [scatter].
  { exists m, []. split; [|split; [constructor|done]]. cbn [length]. f_equal. f_equal. lia. }
  destruct Ho as [|l c n Hc ->]; [done| |done]. cbn [concat iov_base iov_len] in *. rewrite <- app_assoc in He.
  destruct (write_bytes_owned (take (Z.to_nat BUF_SIZE) data) l c _ _ _ He) as (m1 & -> & He1).
  { rewrite Hc, length_take, buffer_room_size. lia. }
  cbn [mbind outcome_bind].
  set (c1 := (Some <$> take (Z.to_nat BUF_SIZE) data) ++ drop (length (take (Z.to_nat BUF_SIZE) data)) c) in *.
  destruct (IH (drop (Z.to_nat BUF_SIZE) data) bufs1 ((l, Bytes c1) :: rest) m1 Hr) as (m2 & bufs2 & -> & Hh & He2).
  { eapply extends_perm, He1. solve_Permutation. }
  cbn [mbind outcome_bind]. exists m2, ([(l, Bytes c1)] :: bufs2).
  split; [|split].
  - f_equal. f_equal. rewrite length_take, length_drop. cbn [length]. unfold BUF_SIZE. lia.
  - constructor; [|done]. eexists _, _. split; [done|]. split; [done|]. rewrite length_drop, Hc, length_take, buffer_room_size. lia.
  - eapply extends_perm, He2. cbn [concat]. solve_Permutation.
Qed.

Lemma holds_owns data iovs bufs : holds data iovs bufs -> Forall2 (owns_buf true) iovs bufs.
Proof.
  induction 1 as [|data v iovs own bufs (l & tail & -> & -> & Hl) _ IH]; [done|]. constructor; [|done]. constructor; [|done].
  by rewrite length_app, length_fmap.
Qed.

(** The end of the text in a buffer. *)
Lemma print_one data v own rest h m :
  holds_buf data v own -> (length data <= Z.to_nat BUF_SIZE)%nat -> extends h (own ++ rest) m ->
  exists m' own', set_byte (iov_base v) (length data) "000" m = Ret m' /\ owns_buf true v own' /\ extends h (own' ++ rest) m' /\
    string_at (iov_base v) m' = Ret (c_text data).
Proof.
  intros (l & tail & -> & -> & Hl) Hd He. cbn [iov_base app] in *.
  destruct tail as [|x tail]; [rewrite buffer_room_size in Hl; cbn in Hl; lia|].
  destruct (extends_update h rest l (Bytes ((Some <$> data) ++ x :: tail)) (Bytes ((Some <$> data) ++ Some "000"%char :: tail))
    (fun b => match b with Bytes cs => cs ← put (length data) "000" cs; Ret (Bytes cs) | _ => Crash end) m He) as (m' & E & He').
  { unfold put. rewrite <- (length_fmap Some data), list_lookup_middle by done. cbn [get mbind outcome_bind]. by rewrite insert_at_length. }
  exists m', [(l, Bytes ((Some <$> data) ++ Some "000"%char :: tail))]. split; [exact E|]. split; [|split; [done|]].
  - constructor; [|done]. rewrite length_app, length_fmap. done.
  - unfold string_at. rewrite (extends_read _ _ _ _ _ He'). apply c_string_text.
Qed.

Lemma print_loop_owned mh l all ln sa sender h n : forall i data bufs rest m,
  msg_iov mh = Some l -> msg_name mh = Some ln -> sender_text inet_ntop sa = Ret sender ->
  length all = (i + n)%nat -> holds data (drop i all) bufs ->
  extends h ((l, Iovecs all) :: (ln, Name sockaddr_size (Some sa)) :: concat bufs ++ rest) m ->
  exists m' bufs',
    print_loop inet_ntop mh i n (Z.min (Z.of_nat (length data)) (BUF_SIZE * Z.of_nat n)) m = Ret (pair sender <$> msg_lines n data, m') /\
    Forall2 (owns_buf true) (drop i all) bufs' /\
    extends h ((l, Iovecs all) :: (ln, Name sockaddr_size (Some sa)) :: concat bufs' ++ rest) m'.
Proof.
  induction n as [|n IH]; intros i data bufs rest m Hiov Hname Hs Hl Hh He.
  { exists m, bufs. split; [done|]. split; [by eapply holds_owns|done]. }
  cbn [print_loop msg_lines]. destruct (Z.ltb_spec (Z.min (Z.of_nat (length data)) (BUF_SIZE * Z.of_nat (S n))) 0); [unfold BUF_SIZE in *; lia|].
  assert (is_Some (all !! i)) as [v Hv] by (apply lookup_lt_is_Some_2; lia).
  rewrite (drop_S _ _ _ Hv) in Hh |- *. inversion Hh as [|? ? ? own bufs1 Hb Hr]; subst. cbn [concat] in He.
  rewrite Hiov, (iov_at_owned _ _ _ _ _ _ _ He Hv). cbn [mbind outcome_bind].
  assert (iov_len v = BUF_SIZE) as Hlen by by destruct Hb as (? & ? & -> & _).
  set (part := take (Z.to_nat BUF_SIZE) data) in *.
  destruct (print_one part v own ((l, Iovecs all) :: (ln, Name sockaddr_size (Some sa)) :: concat bufs1 ++ rest) h m Hb) as (m1 & own1 & Eb & Ho & He1 & Et).
  { unfold part. rewrite length_take. lia. }
  { eapply extends_perm, He. solve_Permutation. }
  rewrite Hlen. replace (Z.to_nat (if _ <? BUF_SIZE then _ else BUF_SIZE)) with (length part).
  2: { unfold part. rewrite length_take. unfold BUF_SIZE in *. destruct (Z.ltb_spec (Z.min (Z.of_nat (length data)) (4096 * Z.of_nat (S n))) 4096); lia. }
  rewrite Eb. cbn [mbind outcome_bind].
  assert (extends h ((l, Iovecs all) :: (ln, Name sockaddr_size (Some sa)) :: concat bufs1 ++ own1 ++ rest) m1) as He2.
  { eapply extends_perm, He1. solve_Permutation. }
  unfold name_at. rewrite Hname, (extends_read h ((l, Iovecs all) :: concat bufs1 ++ own1 ++ rest) ln (Name sockaddr_size (Some sa)) m1).
  2: { eapply extends_perm, He2. solve_Permutation. }
  cbn [get mbind outcome_bind]. rewrite Hs, Et. cbn [mbind outcome_bind].
  destruct (Nat.ltb_spec (length data) (Z.to_nat BUF_SIZE)) as [Hend|Hgo].
  - destruct n as [|n]; cbn [print_loop].
    all: try (destruct (Z.ltb_spec (Z.min (Z.of_nat (length data)) (BUF_SIZE * Z.of_nat (S (S n))) - BUF_SIZE) 0); [|unfold BUF_SIZE in *; lia]).
    all: cbn [mbind outcome_bind]; exists m1, (own1 :: bufs1); split; [done|]; split; [constructor; [done|by eapply holds_owns]|].
    all: eapply extends_perm, He2; cbn [concat]; solve_Permutation.
  - destruct (IH (S i) (drop (Z.to_nat BUF_SIZE) data) bufs1 (own1 ++ rest) m1) as (m2 & bufs2 & E2 & Ho2 & He3); try done; [lia|].
    replace (Z.min (Z.of_nat (length data)) (BUF_SIZE * Z.of_nat (S n)) - BUF_SIZE)
      with (Z.min (Z.of_nat (length (drop (Z.to_nat BUF_SIZE) data))) (BUF_SIZE * Z.of_nat n)) by (rewrite length_drop; unfold BUF_SIZE in *; lia).
    rewrite E2. cbn [mbind outcome_bind]. exists m2, (own1 :: bufs2). split; [done|]. split; [by constructor|].
    eapply extends_perm, He3. cbn [concat]. solve_Permutation.
Qed.

(** A message that was received into the buffers of a header. *)
Definition received_len (d : datagram) : Z := Z.min (Z.of_nat (length (payload d))) (BUF_SIZE * Z.of_nat IOVEC_N).
Inductive filled (d : datagram) : msghdr -> list (Z * block) -> Prop :=
| filled_hdr ln l all bufs :
    length all = IOVEC_N -> holds (payload d) all bufs ->
    filled d (mkMsghdr (Some ln) (sockaddr_len (peer d)) (Some l) IOVEC_N)
      ((ln, Name sockaddr_size (Some (cut sockaddr_size (peer d)))) :: (l, Iovecs all) :: concat bufs).

Lemma recvmsg_owned d ln x p own rest h m :
  owns_iov true p own -> extends h ((ln, Name sockaddr_size x) :: own ++ rest) m ->
  exists mh m' own', recvmsg d (mkMsghdr (Some ln) sockaddr_size p IOVEC_N) m = Ret (received_len d, mh, m') /\
    mh = mkMsghdr (Some ln) (sockaddr_len (peer d)) p IOVEC_N /\ filled d mh own' /\ extends h (own' ++ rest) m'.
Proof.
  intros [|l iovs bufs Hl Hf] He; [done|]. unfold recvmsg. cbn [msg_iov msg_iovlen msg_namelen msg_name].
  rewrite (extends_read h ((ln, Name sockaddr_size x) :: concat bufs ++ rest) l (Iovecs iovs) m).
  2: { eapply extends_perm, He. solve_Permutation. }
  cbn [mbind outcome_bind]. rewrite (take_ge iovs) by lia.
  destruct (scatter_owned h iovs (payload d) bufs ((ln, Name sockaddr_size x) :: (l, Iovecs iovs) :: rest) m Hf) as (m1 & bufs1 & -> & Hh & He1).
  { eapply extends_perm, He. solve_Permutation. }
  cbn [mbind outcome_bind].
  destruct (extends_update h ((l, Iovecs iovs) :: concat bufs1 ++ rest) ln (Name sockaddr_size x) (Name sockaddr_size (Some (cut sockaddr_size (peer d))))
    (fun b => match b with
      | Name size _ => if size <? sockaddr_size then Crash else Ret (Name size (Some (cut sockaddr_size (peer d))))
      | _ => Crash end) m1) as (m2 & E & He2); [|done|].
  { eapply extends_perm, He1. solve_Permutation. }
  unfold deliver_name. rewrite E. cbn [mbind outcome_bind]. eexists _, m2, _. split; [by rewrite Hl|]. split; [done|]. split; [by constructor|].
  eapply extends_perm, He2. solve_Permutation.
Qed.

Lemma print_msg_owned d mh own sender rest h m :
  filled d mh own -> sender_text inet_ntop (cut sockaddr_size (peer d)) = Ret sender -> extends h (own ++ rest) m ->
  exists m' ln own1 own2,
    print_msg inet_ntop mh (received_len d) m = Ret (pair sender <$> msg_lines IOVEC_N (payload d), m') /\
    msg_name mh = Some ln /\ own1 = [(ln, Name sockaddr_size (Some (cut sockaddr_size (peer d))))] /\
    owns_iov true (msg_iov mh) own2 /\ extends h (own1 ++ own2 ++ rest) m'.
Proof.
  intros [ln l all bufs Hl Hh] Hs He. unfold print_msg, received_len. cbn [msg_iovlen].
  destruct (print_loop_owned (mkMsghdr (Some ln) (sockaddr_len (peer d)) (Some l) IOVEC_N) l all ln _ sender h IOVEC_N 0 (payload d) bufs rest m
    eq_refl eq_refl Hs Hl Hh) as (m' & bufs' & E & Ho & He').
  { eapply extends_perm, He. solve_Permutation. }
  rewrite E. eexists m', ln, _, ((l, Iovecs all) :: concat bufs'). split_and!; [done|done|done|by constructor|].
  eapply extends_perm, He'. solve_Permutation.
Qed.

(** ** One turn *)

Definition peer_text (d : datagram) : outcome chars := sender_text inet_ntop (cut sockaddr_size (peer d)).
Definition peer_name (d : datagram) : chars := match peer_text d with Ret t => t | _ => [] end.

(** The lines that a datagram is printed as. *)
Definition lines_of (syscall : recv_method_t) (d : datagram) : list (chars * chars) :=
  match syscall with
  | RECVFROM => [(peer_name d, c_text (take (Z.to_nat BUF_SIZE) (payload d)))]
  | _ => pair (peer_name d) <$> msg_lines IOVEC_N (payload d)
  end.

Definition printable (d : datagram) : Prop := peer_text d = Ret (peer_name d).

(** A turn takes datagrams from the head of the queue and prints each, or it takes
    none and returns the error, a lack of memory included. *)
Definition turn_done (syscall : recv_method_t) (s : socket_t) (r : Z * list (chars * chars) * socket_t) : Prop :=
  let '(ret, out, s') := r in
  exists taken, queue s = taken ++ queue s' /\ out = taken ≫= lines_of syscall /\
    (taken = [] /\ (ret = ENOMEM /\ out_of_memory block \/ exists e, take_datagrams 1 s = inl e /\ ret = error_code e) \/
     taken <> [] /\ failure s = None /\ ret = 0).

Lemma take_datagrams_error n s e : take_datagrams n s = inl e -> take_datagrams 1 s = inl e.
Proof. unfold take_datagrams. destruct (failure s); [done|]. by destruct (queue s). Qed.

Lemma take_datagrams_some n s ds s' : (0 < n)%nat -> take_datagrams n s = inr (ds, s') ->
  queue s = ds ++ queue s' /\ ds <> [] /\ failure s = None /\ (length ds <= n)%nat.
Proof.
  unfold take_datagrams. intros Hn E. destruct (failure s); [done|]. destruct (queue s) as [|d q]; [done|]. injection E as <- <-.
  cbn [queue]. split; [by rewrite take_drop|]. split; [by destruct n; [lia|]|]. split; [done|]. rewrite length_take. lia.
Qed.

Lemma turn_failed syscall s ret : (ret = ENOMEM /\ out_of_memory block \/ exists e, take_datagrams 1 s = inl e /\ ret = error_code e) -> turn_done syscall s (ret, [], s).
Proof. intros Hr. exists []. split; [done|]. split; [done|]. by left. Qed.

Lemma turn_took syscall n s ds s' : (0 < n)%nat -> take_datagrams n s = inr (ds, s') -> turn_done syscall s (0, ds ≫= lines_of syscall, s').
Proof. intros Hn (H1 & H2 & H3 & _)%take_datagrams_some; [|done]. exists ds. split; [done|]. split; [done|]. by right. Qed.

Lemma take_one s ds s' : take_datagrams 1 s = inr (ds, s') -> exists d, ds = [d] /\ d ∈ queue s.
Proof.
  intros (Hq & Hn & _ & Hl)%take_datagrams_some; [|lia]. destruct ds as [|d [|]]; [done| |cbn in Hl; lia]. exists d. split; [done|]. rewrite Hq. by left.
Qed.

Lemma local_buffer data : (length data <= Z.to_nat BUF_SIZE)%nat ->
  exists b0 b1, write_cells data (replicate (Z.to_nat (BUF_SIZE + 1)) None) = Ret b0 /\ put (length data) "000" b0 = Ret b1 /\
    c_string b1 = Ret (c_text data).
Proof.
  intros Hl. unfold write_cells. rewrite length_replicate. destruct (Nat.ltb_spec (Z.to_nat (BUF_SIZE + 1)) (length data)); [unfold BUF_SIZE in *; lia|].
  rewrite drop_replicate. destruct (Z.to_nat (BUF_SIZE + 1) - length data)%nat as [|k] eqn:Ek; [unfold BUF_SIZE in *; lia|].
  exists ((Some <$> data) ++ None :: replicate k None), ((Some <$> data) ++ Some "000"%char :: replicate k None). split; [done|].
  split; [|apply c_string_text]. unfold put. by rewrite <- (length_fmap Some data), list_lookup_middle, insert_at_length.
Qed.

Lemma receive_recvfrom_turn s : (forall d, d ∈ queue s -> printable d) ->
  exists r, receive_recvfrom inet_ntop s = Ret r /\ turn_done RECVFROM s r.
Proof.
  intros Hp. unfold receive_recvfrom. destruct (take_datagrams 1 s) as [e|[ds s1]] eqn:Et.
  { eexists. split; [done|]. apply turn_failed. right. by exists e. }
  destruct (take_one _ _ _ Et) as (d & -> & Hd). cbn [head get mbind outcome_bind]. set (data := take (Z.to_nat BUF_SIZE) (payload d)).
  assert (length data <= Z.to_nat BUF_SIZE)%nat as Hl by (unfold data; rewrite length_take; lia).
  destruct (local_buffer data Hl) as (b0 & b1 & -> & E1 & E2). cbn [mbind outcome_bind]. rewrite E1. cbn [mbind outcome_bind].
  pose proof (Hp d Hd) as Hpd. unfold printable, peer_text in Hpd. rewrite Hpd. cbn [mbind outcome_bind]. rewrite E2. cbn [mbind outcome_bind].
  eexists. split; [done|]. change [(peer_name d, c_text data)] with (lines_of RECVFROM d).
  rewrite <- (bind_one (lines_of RECVFROM)). apply (turn_took RECVFROM 1 s [d] s1); [lia|done].
Qed.

Lemma receive_recvmsg_turn s h m : blocks m = h -> (forall d, d ∈ queue s -> printable d) ->
  exists r m', receive_recvmsg inet_ntop s m = Ret (r, m') /\ blocks m' = h /\ turn_done RECVMSG s r.
Proof.
  intros Hm Hp. apply extends_nil in Hm. unfold receive_recvmsg.
  destruct (with_local_owned h [] (Name sockaddr_size None) (fun from m =>
    '(iov, m) ← iovec_new m;
    match iov with
    | None => Ret (ENOMEM, [], s, m)
    | Some _ =>
        let mh := mkMsghdr from sockaddr_size iov IOVEC_N in
        match take_datagrams 1 s with
        | inl e => m ← iovec_free iov m; Ret (error_code e, [], s, m)
        | inr (ds, s) =>
            d ← get (head ds);
            '(res, mh, m) ← recvmsg d mh m;
            '(out, m) ← print_msg inet_ntop mh res m;
            m ← iovec_free iov m;
            Ret (0, out, s, m)
        end
    end) m (fun r own => own = [] /\ turn_done RECVMSG s r) Hm) as (r & m' & own & E & He & -> & Ht).
  2: { exists r, m'. split; [exact E|]. by apply extends_nil in He. }
  intros ln m1 He1. destruct (iovec_new_owned _ _ _ He1) as (iov & m2 & -> & Hiov). cbn [mbind outcome_bind]. destruct iov as [l|].
  2: { destruct Hiov. eexists _, m2, _, []. split; [done|]. split; [done|]. split; [done|]. apply turn_failed. by left. }
  destruct Hiov as (own & Ho & He2). destruct (take_datagrams 1 s) as [e|[ds s1]] eqn:Et.
  { destruct (iovec_free_owned _ _ _ _ _ _ Ho He2) as (m3 & -> & He3). cbn [mbind outcome_bind].
    eexists _, m3, _, []. split; [done|]. split; [done|]. split; [done|]. apply turn_failed. right. by exists e. }
  destruct (take_one _ _ _ Et) as (d & -> & Hd). cbn [head get mbind outcome_bind].
  destruct (recvmsg_owned d ln None (Some l) own [] h m2 Ho) as (mh & m3 & own3 & -> & Hmh & Hf & He3).
  { eapply extends_perm, He2. solve_Permutation. }
  cbn [mbind outcome_bind]. destruct (print_msg_owned d mh own3 (peer_name d) [] h m3 Hf (Hp d Hd) He3) as (m4 & ln' & o1 & o2 & -> & Hn & -> & Ho2 & He4).
  cbn [mbind outcome_bind]. rewrite Hmh in Ho2, Hn. cbn [msg_iov msg_name] in Ho2, Hn. injection Hn as <-.
  destruct (iovec_free_owned _ _ o2 [(ln, Name sockaddr_size (Some (cut sockaddr_size (peer d))))] h m4 Ho2) as (m5 & -> & He5).
  { eapply extends_perm, He4. solve_Permutation. }
  cbn [mbind outcome_bind]. eexists _, m5, _, []. split; [done|]. split; [exact He5|]. split; [done|].
  change (pair (peer_name d) <$> msg_lines IOVEC_N (payload d)) with (lines_of RECVMSG d).
  rewrite <- (bind_one (lines_of RECVMSG)). by apply (turn_took RECVMSG 1 s [d] s1); [lia|].
Qed.

(** The headers behind a call of [recvmmsg]: the first ones hold the datagrams. *)
Inductive received : list datagram -> list mmsghdr -> list (list (Z * block)) -> Prop :=
| received_none hs owns : Forall2 (owns_hdr false) hs owns -> received [] hs owns
| received_one d ds v hs own owns :
    filled d (msg_hdr v) own -> msg_len v = received_len d -> received ds hs owns -> received (d :: ds) (v :: hs) (own :: owns).

Lemma drop_insert_here {A} (l : list A) i x y : l !! i = Some x -> drop i (<[i := y]> l) = y :: drop (S i) l.
Proof.
  intros Hi. erewrite drop_S; [|apply list_lookup_insert_eq; by eapply lookup_lt_Some]. by rewrite drop_insert_lt by lia.
Qed.

Lemma recvmmsg_owned lm h ds : forall i hs owns rest m,
  Forall2 (owns_hdr true) (drop i hs) owns -> (length ds <= length (drop i hs))%nat ->
  extends h ((lm, Mmsghdrs hs) :: concat owns ++ rest) m ->
  exists hs' owns' m', recvmmsg ds (Some lm) i m = Ret m' /\ length hs' = length hs /\ take i hs' = take i hs /\
    received ds (drop i hs') owns' /\ extends h ((lm, Mmsghdrs hs') :: concat owns' ++ rest) m'.
Proof.
  induction ds as [|d ds IH]; intros i hs owns rest m Hf Hl He; cbn [recvmmsg].
  { exists hs, owns, m. split_and!; [done..| |done]. constructor. eapply Forall2_impl; [done|]. apply owns_hdr_part. }
  destruct (drop i hs) as [|v hs1] eqn:Ed; [cbn in Hl; lia|].
  assert (hs !! i = Some v) as Hv by (rewrite <- (Nat.add_0_r i), <- lookup_drop, Ed; done).
  inversion Hf as [|? own ? owns1 Ho Hr]; subst. rewrite (hdr_at_owned _ _ _ _ _ _ _ He Hv). cbn [mbind outcome_bind concat] in *.
  destruct Ho as [o1 o2 Hn Hi Hfull]. destruct (Hfull eq_refl) as [Hlen Hcount]. destruct v as [[name namelen iov iovlen] len]. cbn in Hn, Hi, Hlen, Hcount. subst.
  destruct Hn as [|ln sa]; [done|]. cbn [msg_hdr].
  destruct (recvmsg_owned d ln sa iov o2 ((lm, Mmsghdrs hs) :: concat owns1 ++ rest) h m Hi) as (mh & m1 & own1 & -> & Hmh & Hfill & He1).
  { eapply extends_perm, He. solve_Permutation. }
  cbn [mbind outcome_bind].
  destruct (set_hdr_owned lm hs (concat owns1 ++ own1 ++ rest) i (mkMmsghdr mh (received_len d)) h m1) as (m2 & -> & He2).
  { eapply extends_perm, He1. solve_Permutation. }
  { by eapply lookup_lt_Some. }
  cbn [mbind outcome_bind]. set (hs2 := <[i := mkMmsghdr mh (received_len d)]> hs) in *.
  assert (drop i hs2 = mkMmsghdr mh (received_len d) :: drop (S i) hs) as Hd2 by by eapply drop_insert_here.
  assert (drop (S i) hs2 = drop (S i) hs) as Hd3 by (unfold hs2; by rewrite drop_insert_lt by lia).
  rewrite (drop_S _ _ _ Hv) in Ed. injection Ed as Ed. cbn in Hl.
  destruct (IH (S i) hs2 owns1 (own1 ++ rest) m2) as (hs3 & owns3 & m3 & -> & Hl3 & Ht3 & Hr3 & He3).
  { by rewrite Hd3, Ed. }
  { rewrite Hd3, Ed. lia. }
  { done. }
  assert (hs2 !! i = Some (mkMmsghdr mh (received_len d))) as Hi2 by (apply list_lookup_insert_eq; by eapply lookup_lt_Some).
  assert (hs3 !! i = Some (mkMmsghdr mh (received_len d))) as Hi3.
  { rewrite <- (lookup_take_lt hs3 (S i) i), Ht3, lookup_take_lt by lia. done. }
  exists hs3, (own1 :: owns3), m3. split; [done|]. split; [rewrite Hl3; unfold hs2; by rewrite length_insert|]. split; [|split].
  - replace (take i hs3) with (take i (take (S i) hs3)) by (rewrite take_take; f_equal; lia). rewrite Ht3, take_take, Nat.min_l by lia.
    unfold hs2. by rewrite take_insert_ge by lia.
  - rewrite (drop_S _ _ _ Hi3). by constructor.
  - eapply extends_perm, He3. cbn [concat]. solve_Permutation.
Qed.

Lemma print_msgs_owned lm hs h ds : forall i owns rest m,
  received ds (drop i hs) owns -> (forall d, d ∈ ds -> printable d) ->
  extends h ((lm, Mmsghdrs hs) :: concat owns ++ rest) m ->
  exists owns' m', print_msgs inet_ntop (Some lm) i (length ds) m = Ret (ds ≫= lines_of RECVMMSG, m') /\
    Forall2 (owns_hdr false) (drop i hs) owns' /\ extends h ((lm, Mmsghdrs hs) :: concat owns' ++ rest) m'.
Proof.
  induction ds as [|d ds IH]; intros i owns rest m Hr Hp He; cbn [print_msgs length].
  { inversion Hr; subst. by exists owns, m. }
  destruct (drop i hs) as [|v hs1] eqn:Ed; [inversion Hr|]. inversion Hr as [|? ? ? ? own owns1 Hf Hlen Hr1]; subst.
  assert (hs !! i = Some v) as Hv by (rewrite <- (Nat.add_0_r i), <- lookup_drop, Ed; done).
  rewrite (hdr_at_owned _ _ _ _ _ _ _ He Hv). cbn [mbind outcome_bind concat] in *. rewrite Hlen.
  destruct (print_msg_owned d (msg_hdr v) own (peer_name d) ((lm, Mmsghdrs hs) :: concat owns1 ++ rest) h m Hf) as (m1 & ln & o1 & o2 & -> & Hn & -> & Ho2 & He1).
  { apply Hp. by left. }
  { eapply extends_perm, He. solve_Permutation. }
  cbn [mbind outcome_bind]. rewrite (drop_S _ _ _ Hv) in Ed. injection Ed as <-.
  set (o1 := [(ln, Name sockaddr_size (Some (cut sockaddr_size (peer d))))]) in *.
  destruct (IH (S i) owns1 ((o1 ++ o2) ++ rest) m1 Hr1) as (owns2 & m2 & -> & Hf2 & He2).
  { intros d' Hd. apply Hp. by right. }
  { eapply extends_perm, He1. solve_Permutation. }
  cbn [mbind outcome_bind]. exists ((o1 ++ o2) :: owns2), m2. split; [done|]. split.
  - constructor; [|done]. constructor; [rewrite Hn; constructor|by eapply owns_iov_part|done].
  - eapply extends_perm, He2. cbn [concat]. solve_Permutation.
Qed.

Lemma receive_recvmmsg_turn s h m : blocks m = h -> (forall d, d ∈ queue s -> printable d) ->
  exists r m', receive_recvmmsg inet_ntop s m = Ret (r, m') /\ blocks m' = h /\ turn_done RECVMMSG s r.
Proof.
  intros Hm Hp. apply extends_nil in Hm. unfold receive_recvmmsg.
  destruct (mmsghdr_new_owned _ _ _ Hm) as (mmh & m1 & -> & Hnew). cbn [mbind outcome_bind]. destruct mmh as [lm|].
  2: { destruct Hnew. eexists _, m1. split; [done|]. split; [by apply extends_nil|]. apply turn_failed. by left. }
  destruct Hnew as (hs & owns & Hl & Hf & He). destruct (take_datagrams MMSGHDR_N s) as [e|[ds s1]] eqn:Et.
  { destruct (mmsghdr_free_owned lm hs owns [] h m1 Hl) as (m2 & -> & He2); [eapply Forall2_impl; [done|]; apply owns_hdr_part|done|].
    cbn [mbind outcome_bind]. eexists _, m2. split; [done|]. split; [by apply extends_nil|]. apply turn_failed. right. exists e.
    split; [by eapply take_datagrams_error|done]. }
  assert (0 < MMSGHDR_N)%nat as Hpos by (unfold MMSGHDR_N; lia). destruct (take_datagrams_some _ _ _ _ Hpos Et) as (Hq & _ & _ & Hd).
  destruct (recvmmsg_owned lm h ds 0 hs owns [] m1) as (hs2 & owns2 & m2 & -> & Hl2 & _ & Hr2 & He2); [done|by rewrite drop_0, Hl|done|].
  cbn [mbind outcome_bind]. destruct (print_msgs_owned lm hs2 h ds 0 owns2 [] m2 Hr2) as (owns3 & m3 & -> & Hf3 & He3).
  { intros d Hin. apply Hp. rewrite Hq. apply elem_of_app. by left. }
  { done. }
  cbn [mbind outcome_bind]. destruct (mmsghdr_free_owned lm hs2 owns3 [] h m3) as (m4 & -> & He4); [by rewrite Hl2|by rewrite drop_0 in Hf3|done|].
  cbn [mbind outcome_bind]. eexists _, m4. split; [done|]. split; [by apply extends_nil|].
  apply (turn_took RECVMMSG MMSGHDR_N s ds s1); done.
Qed.

Lemma receive_total syscall s m : (forall d, d ∈ queue s -> printable d) ->
  exists r m', receive inet_ntop syscall s m = Ret (r, m') /\ blocks m' = blocks m /\ turn_done syscall s r.
Proof.
  intros Hp. destruct syscall; cbn [receive].
  - destruct (receive_recvfrom_turn s Hp) as ([[ret out] s'] & -> & Ht). cbn [mbind outcome_bind]. by eexists _, m.
  - by apply receive_recvmsg_turn.
  - by apply receive_recvmmsg_turn.
Qed.
End receiving.

(** ** Theorems *)

(** A sender with an IPv4 address: a [struct sockaddr_in] of sixteen bytes. *)
Definition ipv4_peer (d : datagram) : Prop := sa_family (peer d) = AF_INET /\ length (sa_data (peer d)) = 14%nat.

Section theorems.
Context `{Allocator block} (inet_ntop : Z -> list ascii -> chars).

Lemma ipv4_text d : ipv4_peer d -> peer_text inet_ntop d = Ret (inet_ntop AF_INET (take 4 (drop 2 (sa_data (peer d))))).
Proof.
  intros [Hf Hl]. unfold peer_text, sender_text, get_in_addr, cut. cbn [sa_family sa_data]. rewrite Hf, (take_ge (sa_data (peer d))).
  - cbn [negb andb]. change (AF_INET =? AF_INET) with true. cbn [negb andb].
    destruct (Nat.ltb_spec (length (drop 2 (sa_data (peer d)))) 4) as [Hlt|]; [rewrite length_drop, Hl in Hlt; lia|done].
  - rewrite Hl. change (Z.to_nat (sockaddr_size - 2)) with 14%nat. lia.
Qed.

Lemma ipv4_printable d : ipv4_peer d -> printable inet_ntop d.
Proof. intros Hd. unfold printable, peer_name. by rewrite ipv4_text. Qed.

(** C31: For senders with IPv4 addresses, a call of [receive] returns, whichever of its
    allocations fail: it never leaves a buffer or reads a byte that was not
    written, and it has freed exactly what it allocated.  Either it takes
    datagrams from the head of the queue, prints each one and returns 0; or it leaves
    the queue, prints nothing, and returns the error, 0 for an interrupted call or a
    time-out.  A datagram is printed as the address of its sender with, for [recvfrom],
    the first 4096 bytes, and for the other two calls a line for each 4096 bytes of the
    first 65536 (and an empty one behind a full buffer); in each case up to the first
    null character.  With an IPv6 sender [recvfrom] reads out of bounds
    ([ipv6_sender_overread]). *)
Theorem receive_exact syscall s m :
  (forall d, d ∈ queue s -> ipv4_peer d) ->
  exists ret out s' m' taken,
    receive inet_ntop syscall s m = Ret (ret, out, s', m') /\ blocks m' = blocks m /\
    queue s = taken ++ queue s' /\ out = taken ≫= lines_of inet_ntop syscall /\
    (taken = [] /\ (ret = ENOMEM /\ out_of_memory block \/ exists e, take_datagrams 1 s = inl e /\ ret = error_code e) \/
     taken <> [] /\ failure s = None /\ ret = 0).
Proof.
  intros Hp. destruct (receive_total inet_ntop syscall s m) as ([[ret out] s'] & m' & E & Hb & taken & H1 & H2 & H3).
  { intros d Hd. by apply ipv4_printable, Hp. }
  by exists ret, out, s', m', taken.
Qed.

Lemma turn_ret_pos syscall s ret out s' : (forall e, failure s = Some e -> 0 <= e) -> turn_done inet_ntop syscall s (ret, out, s') -> 0 <= ret.
Proof.
  intros Hf (taken & _ & _ & [[_ [[-> _]|(e & He & ->)]]|(_ & _ & ->)]); [done| |done].
  unfold error_code. case_match; [done|]. unfold take_datagrams in He. destruct (failure s) as [e'|]; [injection He as <-; by apply Hf|].
  destruct (queue s); [|done]. by injection He as <-.
Qed.

Lemma receive_loop_owned syscall turns : forall q m,
  (forall d, d ∈ q ++ concat (arrivals <$> turns) -> printable inet_ntop d) ->
  (forall t e, t ∈ turns -> fails t = Some e -> 0 <= e) ->
  exists q' m' taken, receive_loop inet_ntop syscall turns q m = Ret ([], taken ≫= lines_of inet_ntop syscall, q', m') /\
    blocks m' = blocks m /\ q ++ concat (arrivals <$> turns) = taken ++ q'.
Proof.
  induction turns as [|t turns IH]; intros q m Hp Hf; cbn [receive_loop].
  { exists q, m, []. cbn. by rewrite app_nil_r. }
  destruct (receive_total inet_ntop syscall (mkSocket (q ++ arrivals t) (fails t)) m) as ([[ret out] s'] & m1 & -> & Hb & Ht).
  { cbn [queue]. intros d Hd. apply Hp. cbn. rewrite app_assoc. apply elem_of_app. by left. }
  cbn [mbind outcome_bind]. assert (0 <= ret) as Hret by (eapply turn_ret_pos, Ht; cbn; intros e; apply Hf; by left).
  destruct Ht as (taken & Hq & -> & _). cbn [queue] in Hq.
  destruct (IH (queue s') m1) as (q' & m2 & taken' & -> & Hb2 & Hq2).
  { intros d Hd. apply Hp. cbn. rewrite app_assoc, Hq, <- app_assoc. apply elem_of_app. by right. }
  { intros t' e Ht'. apply Hf. by right. }
  cbn [mbind outcome_bind]. exists q', m2, (taken ++ taken'). destruct (Z.ltb_spec ret 0); [lia|]. split; [by rewrite bind_app|].
  split; [by rewrite Hb2|]. cbn. by rewrite app_assoc, Hq, <- app_assoc, Hq2, app_assoc.
Qed.

(** A server that could bind a socket prints the datagrams of IPv4 senders in the order of
    their arrival, each once, with the lines of the chosen system call; those it
    did not get to are the last ones.  It ends with status 0 and with the memory it
    started with.  It never reports a failed call: error numbers are positive, and
    the loop looks for negative ones. *)
Theorem run_in_order w res ps fd fds syscall turns m :
  open_socket w res (res :: ps) [] = (Some fd, fds) ->
  (forall t d, t ∈ turns -> d ∈ arrivals t -> ipv4_peer d) ->
  (forall t e, t ∈ turns -> fails t = Some e -> 0 <= e) ->
  exists r m' taken, run inet_ntop w (inr (res :: ps)) syscall turns m = Ret (r, m') /\
    status r = 0 /\ reported r = [] /\ blocks m' = blocks m /\
    concat (arrivals <$> turns) = taken ++ waiting r /\ printed r = taken ≫= lines_of inet_ntop syscall.
Proof.
  intros Ho Hp Hf. destruct (receive_loop_owned syscall turns [] m) as (q' & m' & taken & E & Hb & Hq); [|done|].
  { intros d. cbn [app]. intros (l & Hl & Hd)%list_elem_of_In%in_concat. apply list_elem_of_In in Hl, Hd. apply list_elem_of_fmap in Hl as (t & -> & Ht). by eapply ipv4_printable, Hp. }
  unfold run. rewrite Ho, E. cbn [mbind outcome_bind]. by eexists _, m', taken.
Qed.
End theorems.

(** ** Witnesses and counterexamples *)

Definition wit_text (family : Z) (a : list ascii) : chars := a.
Definition wit_ipv4 : sockaddr := mkSockaddr AF_INET (["000"; "000"; "1"; "2"; "3"; "4"] ++ replicate 8 "000")%char.
Definition wit_datagram : datagram := mkDatagram wit_ipv4 ["h"; "i"]%char.

Lemma receive_exact_witness :
  (forall d, d ∈ queue (mkSocket [wit_datagram; wit_datagram] None) -> ipv4_peer d) /\
  exists ret out s' m' taken,
    receive (H := wit_alloc (fun _ => false)) wit_text RECVMMSG (mkSocket [wit_datagram; wit_datagram] None) (mkMem ∅ 0) = Ret (ret, out, s', m') /\
    blocks m' = ∅ /\
    queue (mkSocket [wit_datagram; wit_datagram] None) = taken ++ queue s' /\ out = taken ≫= lines_of wit_text RECVMMSG /\
    (taken = [] /\ (ret = ENOMEM /\ @out_of_memory block (wit_alloc (fun _ => false)) \/ exists e, take_datagrams 1 (mkSocket [wit_datagram; wit_datagram] None) = inl e /\ ret = error_code e) \/
     taken <> [] /\ failure (mkSocket [wit_datagram; wit_datagram] None) = None /\ ret = 0).
Proof.
  assert (forall d, d ∈ queue (mkSocket [wit_datagram; wit_datagram] None) -> ipv4_peer d) as Hp.
  { cbn. intros d [->|[->|[]%elem_of_nil]%elem_of_cons]%elem_of_cons; done. }
  split; [exact Hp|].
  exact (receive_exact (H := wit_alloc (fun _ => false)) wit_text RECVMMSG (mkSocket [wit_datagram; wit_datagram] None) (mkMem ∅ 0) Hp).
Defined.

Definition wit_candidate (family : Z) : addrinfo := mkAddrinfo family 2 17 (mkSockaddr family (replicate 14 "000"%char)).
Definition wit_host : host := mkHost (fun p => Some (ai_family p)) (fun fd a => fd =? sa_family a).
Definition wit_turns : list turn := [mkTurn [wit_datagram] None; mkTurn [] (Some EINTR); mkTurn [] (Some 9); mkTurn [wit_datagram; wit_datagram] None].

Lemma run_in_order_witness :
  open_socket wit_host (wit_candidate AF_INET) [wit_candidate AF_INET] [] = (Some AF_INET, [AF_INET]) /\
  exists r m' taken,
    run (H := wit_alloc (fun n => (n =? 3)%nat)) wit_text wit_host (inr [wit_candidate AF_INET]) RECVMSG wit_turns (mkMem ∅ 0) = Ret (r, m') /\
    status r = 0 /\ reported r = [] /\ blocks m' = ∅ /\
    concat (arrivals <$> wit_turns) = taken ++ waiting r /\ printed r = taken ≫= lines_of wit_text RECVMSG.
Proof.
  split; [reflexivity|].
  apply (run_in_order (H := wit_alloc (fun n => (n =? 3)%nat)) wit_text wit_host (wit_candidate AF_INET) [] AF_INET [AF_INET] RECVMSG wit_turns (mkMem ∅ 0)).
  - reflexivity.
  - intros t d Ht Hd. assert (d = wit_datagram) as ->; [|done]. unfold wit_turns in Ht.
    repeat (apply elem_of_cons in Ht as [->|Ht]; [cbn in Hd; repeat (apply elem_of_cons in Hd as [->|Hd]; [done|]); by apply elem_of_nil in Hd|]).
    by apply elem_of_nil in Ht.
  - intros t e Ht. unfold wit_turns in Ht.
    repeat (apply elem_of_cons in Ht as [->|Ht]; [cbn; intros [=]; subst; unfold EINTR; lia|]). by apply elem_of_nil in Ht.
Defined.

(** The room for the address of the sender is a [struct sockaddr], too small for an
    IPv6 address: printing one reads behind it. *)
Theorem ipv6_sender_overread inet_ntop d q :
  sa_family (peer d) = AF_INET6 -> receive_recvfrom inet_ntop (mkSocket (d :: q) None) = Crash.
Proof.
  intros Hf. unfold receive_recvfrom. cbn [take_datagrams failure queue take head get mbind outcome_bind].
  destruct (local_buffer (take (Z.to_nat BUF_SIZE) (payload d))) as (b0 & b1 & -> & E1 & _); [rewrite length_take; lia|].
  cbn [mbind outcome_bind]. rewrite E1. cbn [mbind outcome_bind].
  assert (sender_text inet_ntop (cut sockaddr_size (peer d)) = Crash) as ->; [|done].
  unfold sender_text, get_in_addr, cut. cbn [sa_family sa_data]. rewrite Hf. change (AF_INET6 =? AF_INET) with false.
  change (AF_INET6 =? AF_INET6) with true. cbn [negb andb]. change (Z.to_nat (sockaddr_size - 2)) with 14%nat.
  destruct (Nat.ltb_spec (length (drop 6 (take 14 (sa_data (peer d))))) 16) as [|Hge]; [done|].
  rewrite length_drop, length_take in Hge. lia.
Qed.

(** Every candidate is bound to the address of the first one, and a descriptor that
    could not be bound stays open. *)
Theorem bind_failure_leaks :
  open_socket wit_host (wit_candidate AF_INET) [wit_candidate AF_INET6; wit_candidate AF_INET] [] = (Some AF_INET, [AF_INET; AF_INET6]).
Proof. reflexivity. Qed.
