(* ===== verification/UdpClient.v ===== *)
(** * The UDP client of the integration tests

    integration-tests/container/udp/udp-client.c: the three ways of sending, the
    memory they allocate, the reading of the targets and the program around them.
    The answers of [malloc], of the system calls that send, of [getaddrinfo] and of
    [socket], and what [getopt_long] returns are inputs. *)

From stdpp Require Import gmap.
From S2P Require Import Prelude CStrings Utility Floats NetParse CMemory.

Definition IOVEC_N : nat := 16.
Definition MMSGHDR_N : Z := 32.
Definition ENOMEM : Z := 12.
(** Messages that one [sendmmsg] sends at most. *)
Definition UIO_MAXIOV : nat := 1024.

Definition LOREM_IPSUM : chars := chars_of
  "Lorem ipsum dolor sit amet, consectetur adipiscing elit. Sed do eiusmod tempor incididunt ut labore et dolore magna aliqua. Ut enim ad minim veniam, quis nostrud exercitation ullamco laboris nisi ut aliquip ex ea commodo consequat. Duis aute irure dolor in reprehenderit in voluptate velit esse cillum dolore eu fugiat nulla pariatur. Excepteur sint occaecat cupidatat non proident, sunt in culpa qui officia deserunt mollit anim id est laborum."
  ++ ["010"%char].
(** [sizeof], with the terminating null character. *)
Definition LOREM_IPSUM_LEN : Z := Z.of_nat (length LOREM_IPSUM) + 1.
(** The first [n] bytes of the array. *)
Definition lorem (n : Z) : chars := take (Z.to_nat n) (LOREM_IPSUM ++ ["000"%char]).

Inductive send_method_t := SENDTO | SENDMSG | SENDMMSG.

(** ** Data *)

(** An address, as [getaddrinfo] gives it. *)
Record addrinfo := mkAddrinfo { ai_addr : chars; ai_addrlen : Z }.
(** [iov_base] is the text or null. *)
Record iovec := mkIovec { iov_base : bool; iov_len : Z }.
Record msghdr := mkMsghdr { msg_name : option chars; msg_namelen : Z; msg_iov : ptr; msg_iovlen : nat }.
(** The number of bytes sent, which [sendmmsg] adds, is not looked at. *)
Abbreviation mmsghdr := msghdr.

Inductive block :=
| Targets (l : list ptr)
| Info (a : addrinfo)
| Iovecs (l : list iovec)
| Mmsghdrs (l : list mmsghdr).

Definition iovec_zero : iovec := mkIovec false 0.
Definition mmsghdr_zero : mmsghdr := mkMsghdr None 0 None 0.

Record target_array_t := mkTargets { ptr_ : ptr; len : Z }.
Record config_t := mkConfig { ai_family : Z; period : Z; syscall : send_method_t; msgs_per_target : Z }.
Record run_data_t := mkRun { r_syscall : send_method_t; targets : target_array_t; fd : Z; r_period : Z; r_msgs_per_target : Z }.

(** [i++] of an [int] counter: past the largest [int] it is undefined. *)
Definition INT_MAX : Z := 2 ^ 31 - 1.
Definition inc (i : Z) : outcome Z := if i <? INT_MAX then Ret (i + 1) else Crash.
Definition inc_index (i : nat) : outcome nat := if Z.of_nat i <? INT_MAX then Ret (S i) else Crash.

Lemma inc_ok i : i < INT_MAX -> inc i = Ret (i + 1).
Proof. unfold inc. intros. by rewrite (proj2 (Z.ltb_lt i INT_MAX)). Qed.
Lemma inc_index_ok i : Z.of_nat i < INT_MAX -> inc_index i = Ret (S i).
Proof. unfold inc_index. intros. by rewrite (proj2 (Z.ltb_lt (Z.of_nat i) INT_MAX)). Qed.

Definition get {A} (o : option A) : outcome A := match o with Some a => Ret a | None => Crash end.

(** [targets.ptr[i]] and what it points to. *)
Definition target_at (p : ptr) (i : nat) (m : mem block) : outcome ptr :=
  b ← read p m; match b with Targets l => get (l !! i) | _ => Crash end.
Definition info_at (p : ptr) (m : mem block) : outcome addrinfo :=
  b ← read p m; match b with Info a => Ret a | _ => Crash end.
Definition set_iov (p : ptr) (i : nat) (v : iovec) : mem block -> outcome (mem block) :=
  update p (fun b => match b with Iovecs l => _ ← get (l !! i); Ret (Iovecs (<[i := v]> l)) | _ => Crash end).
Definition hdr_at (p : ptr) (i : nat) (m : mem block) : outcome mmsghdr :=
  b ← read p m; match b with Mmsghdrs l => get (l !! i) | _ => Crash end.
Definition set_hdr (p : ptr) (i : nat) (v : mmsghdr) : mem block -> outcome (mem block) :=
  update p (fun b => match b with Mmsghdrs l => _ ← get (l !! i); Ret (Mmsghdrs (<[i := v]> l)) | _ => Crash end).

(** ** Sending *)

(** The network: the datagrams sent so far, and the number of attempts. *)
Record net := mkNet { wire : list (chars * chars); attempts : nat }.

(** The text that the buffers of a message make up. *)
Definition gather (iovs : list iovec) : outcome chars :=
  foldr (fun v rest => rest ← rest; if iov_base v then Ret (lorem (iov_len v) ++ rest) else Crash) (Ret []) iovs.

Section client.
Context `{Allocator block} (answer : nat -> option Z).
Implicit Types (m : mem block) (n : net).

(** One datagram: the error number of the attempt, if it fails. *)
Definition transmit (address data : chars) n : option Z * net :=
  match answer (attempts n) with
  | Some e => (Some e, mkNet (wire n) (S (attempts n)))
  | None => (None, mkNet (wire n ++ [(address, data)]) (S (attempts n)))
  end.

Definition sendmsg (mh : msghdr) m n : outcome (option Z * net) :=
  b ← read (msg_iov mh) m;
  address ← get (msg_name mh);
  match b with
  | Iovecs l => data ← gather (take (msg_iovlen mh) l); Ret (transmit address data n)
  | _ => Crash
  end.

(** [sendmmsg] stops at the first message that fails; it fails only if that is the
    first one. *)
Fixpoint sendmmsg (mmh : ptr) (i vlen : nat) m n : outcome (option Z * net) :=
  match vlen with
  | O => Ret (None, n)
  | S vlen =>
      mh ← hdr_at mmh i m;
      '(failed, n) ← sendmsg mh m n;
      match failed with
      | Some e => Ret (if (i =? 0)%nat then Some e else None, n)
      | None => sendmmsg mmh (S i) vlen m n
      end
  end.

Definition iovec_free (iov : ptr) : mem block -> outcome (mem block) := free iov.

Fixpoint fill_iovec (iov : ptr) (i k : nat) m : outcome (mem block) :=
  match k with
  | O => Ret m
  | S k => m ← set_iov iov i (mkIovec true LOREM_IPSUM_LEN) m; fill_iovec iov (S i) k m
  end.

Definition iovec_new m : outcome (ptr * mem block) :=
  let '(iov, m) := malloc (Iovecs (replicate IOVEC_N iovec_zero)) m in
  match iov with
  | None => Ret (None, m)
  | Some _ => m ← fill_iovec iov 0 IOVEC_N m; Ret (iov, m)
  end.

Fixpoint free_headers (mmh : ptr) (i k : nat) m : outcome (mem block) :=
  match k with
  | O => Ret m
  | S k => mh ← hdr_at mmh i m; m ← iovec_free (msg_iov mh) m; i ← inc_index i; free_headers mmh i k m
  end.

Definition mmsghdr_free (mmh : ptr) (len msgs : Z) m : outcome (mem block) :=
  match mmh with
  | None => Ret m
  | Some _ => m ← free_headers mmh 0 (Z.to_nat (u32 (len * msgs))) m; free mmh m
  end.

(** The inner loop, from message [j] of target [i] on. *)
Fixpoint new_messages (mmh : ptr) (server : addrinfo) (i j : Z) (msgs : Z) (k : nat) m : outcome (bool * mem block) :=
  match k with
  | O => Ret (true, m)
  | S k =>
      let at_ := Z.to_nat (u32 (j + i * msgs)) in
      mh ← hdr_at mmh at_ m;
      '(iov, m) ← iovec_new m;
      m ← set_hdr mmh at_ (mkMsghdr (msg_name mh) (msg_namelen mh) iov (msg_iovlen mh)) m;
      match iov with
      | None => Ret (false, m)
      | Some _ =>
          m ← set_hdr mmh at_ (mkMsghdr (Some (ai_addr server)) (ai_addrlen server) iov IOVEC_N) m;
          j ← inc j;
          new_messages mmh server i j msgs k m
      end
  end.

Fixpoint new_targets (mmh targets : ptr) (i : Z) (msgs : Z) (k : nat) m : outcome (bool * mem block) :=
  match k with
  | O => Ret (true, m)
  | S k =>
      p ← target_at targets (Z.to_nat i) m;
      server ← info_at p m;
      '(ok, m) ← new_messages mmh server i 0 msgs (Z.to_nat msgs) m;
      if ok : bool then i ← inc i; new_targets mmh targets i msgs k m else Ret (false, m)
  end.

Definition mmsghdr_new (ts : target_array_t) (msgs : Z) m : outcome (ptr * mem block) :=
  let '(mmh, m) := malloc (Mmsghdrs (replicate (Z.to_nat (u32 (len ts * msgs))) mmsghdr_zero)) m in
  match mmh with
  | None => Ret (None, m)
  | Some _ =>
      '(ok, m) ← new_targets mmh (ptr_ ts) 0 msgs (Z.to_nat (len ts)) m;
      if ok : bool then Ret (mmh, m)
      else m ← mmsghdr_free mmh (len ts) msgs m; Ret (None, m)
  end.

Fixpoint sendto_loop (targets : ptr) (i k : nat) m n : outcome (Z * net) :=
  match k with
  | O => Ret (0, n)
  | S k =>
      p ← target_at targets i m;
      addr ← info_at p m;
      match transmit (ai_addr addr) (lorem LOREM_IPSUM_LEN) n with
      | (Some e, n) => Ret (e, n)
      | (None, n) => i ← inc_index i; sendto_loop targets i k m n
      end
  end.
Definition send_sendto (data : run_data_t) m n : outcome (Z * mem block * net) :=
  '(e, n) ← sendto_loop (ptr_ (targets data)) 0 (Z.to_nat (len (targets data))) m n; Ret (e, m, n).

Fixpoint sendmsg_loop (targets : ptr) (i k : nat) m n : outcome (Z * mem block * net) :=
  match k with
  | O => Ret (0, m, n)
  | S k =>
      p ← target_at targets i m;
      addr ← info_at p m;
      '(iov, m) ← iovec_new m;
      match iov with
      | None => Ret (ENOMEM, m, n)
      | Some _ =>
          let mh := mkMsghdr (Some (ai_addr addr)) (ai_addrlen addr) iov IOVEC_N in
          '(failed, n) ← sendmsg mh m n;
          m ← iovec_free iov m;
          match failed with
          | Some e => if negb (e =? 0) then Ret (e, m, n) else i ← inc_index i; sendmsg_loop targets i k m n
          | None => i ← inc_index i; sendmsg_loop targets i k m n
          end
      end
  end.
Definition send_sendmsg (data : run_data_t) m n : outcome (Z * mem block * net) :=
  sendmsg_loop (ptr_ (targets data)) 0 (Z.to_nat (len (targets data))) m n.

Definition send_sendmmsg (data : run_data_t) m n : outcome (Z * mem block * net) :=
  let vlen := u32 (len (targets data) * r_msgs_per_target data) in
  '(mmh, m) ← mmsghdr_new (targets data) (r_msgs_per_target data) m;
  match mmh with
  | None => Ret (ENOMEM, m, n)
  | Some _ =>
      '(failed, n) ← sendmmsg mmh 0 (Nat.min (Z.to_nat vlen) UIO_MAXIOV) m n;
      m ← mmsghdr_free mmh (len (targets data)) (r_msgs_per_target data) m;
      Ret (default 0 failed, m, n)
  end.

Definition m_send (data : run_data_t) m n : outcome (Z * mem block * net) :=
  match r_syscall data with
  | SENDTO => send_sendto data m n
  | SENDMSG => send_sendmsg data m n
  | SENDMMSG => send_sendmmsg data m n
  end.

(** The turns of the loop until [handle_stop] clears [running]. *)
Fixpoint run (data : run_data_t) (turns : nat) m n : outcome (Z * mem block * net) :=
  match turns with
  | O => Ret (0, m, n)
  | S turns =>
      '(ret, m, n) ← m_send data m n;
      if negb (ret =? 0) then Ret (-1, m, n) else run data turns m n
  end.

(** ** Targets *)

(** The address and the port in an argument. *)
Definition split_target (family : Z) (arg : chars) : option (chars * chars) :=
  if family =? AF_INET6 then
    match rfind ["]"%char] arg with
    | None => Some (arg, chars_of "9090")
    | Some i =>
        if negb (bool_decide (head arg = Some "["%char)) || negb (bool_decide (arg !! S i = Some ":"%char)) then None
        else Some (drop 1 (take i arg), drop (i + 2) arg)
    end
  else
    match rfind [":"%char] arg with
    | Some i => Some (take i arg, drop (i + 1) arg)
    | None => Some (arg, chars_of "9090")
    end.

Section targets.
Context (getaddrinfo : Z -> chars -> chars -> Z + addrinfo).

(** The result of [getaddrinfo] is memory of its own. *)
Definition lookup_target (family : Z) (ip port : chars) m : ptr * mem block :=
  match getaddrinfo family ip port with
  | inl _ => (None, m)
  | inr a => malloc (Info a) m
  end.

Definition set_target (p : ptr) (i : nat) (v : ptr) : mem block -> outcome (mem block) :=
  update p (fun b => match b with Targets l => _ ← get (l !! i); Ret (Targets (<[i := v]> l)) | _ => Crash end).

Fixpoint fill_targets (p : ptr) (i : nat) (family : Z) (args : list chars) m : outcome (bool * mem block) :=
  match args with
  | [] => Ret (true, m)
  | arg :: args =>
      match split_target family arg with
      | None => Ret (false, m)
      | Some (ip, port) =>
          let '(info, m) := lookup_target family ip port m in
          match info with
          | None => Ret (false, m)
          | Some _ => m ← set_target p i info m; i ← inc_index i; fill_targets p i family args m
          end
      end
  end.

Definition get_targets (args : list chars) (family : Z) m : outcome (ptr * mem block) :=
  let '(ts, m) := malloc (Targets (replicate (length args) None)) m in
  match ts with
  | None => Ret (None, m)
  | Some _ =>
      '(ok, m) ← fill_targets ts 0 family args m;
      if ok : bool then Ret (ts, m) else m ← free ts m; Ret (None, m)
  end.

(** ** The program *)

Definition config_default : config_t := mkConfig AF_INET 2 SENDTO MMSGHDR_N.

(** The value of [strtol], saturated, as an [int]. *)
Definition atoi (s : chars) : Z :=
  let '(neg, s) := read_sign (skip_spaces s) in
  let v := (digits s 0).1 in
  let v := u32 (Z.max (- 2 ^ 63) (Z.min (2 ^ 63 - 1) (if neg then - v else v))) in
  if v <? 2 ^ 31 then v else v - 2 ^ 32.

Definition syscall_of (name : chars) : option send_method_t :=
  if chars_eqb name (chars_of "sendto") then Some SENDTO
  else if chars_eqb name (chars_of "sendmsg") then Some SENDMSG
  else if chars_eqb name (chars_of "sendmmsg") then Some SENDMMSG
  else None.

(** The options as [getopt_long] returns them, with their arguments. *)
Fixpoint read_options (opts : list (ascii * chars)) (c : config_t) : Z + config_t :=
  match opts with
  | [] => inr c
  | (opt, optarg) :: opts =>
      if ch_eqb opt "6" then read_options opts (mkConfig AF_INET6 (period c) (syscall c) (msgs_per_target c))
      else if ch_eqb opt "h" then inl 0
      else if ch_eqb opt "p" then read_options opts (mkConfig (ai_family c) (atoi optarg) (syscall c) (msgs_per_target c))
      else if ch_eqb opt "s" then
        match syscall_of optarg with
        | Some s => read_options opts (mkConfig (ai_family c) (period c) s (msgs_per_target c))
        | None => inl (-1)
        end
      else if ch_eqb opt "m" then read_options opts (mkConfig (ai_family c) (period c) (syscall c) (u32 (atoi optarg)))
      else inl (-1)
  end.

(** The loop at the end of [main]: the memory, and how often the socket is closed. *)
Fixpoint cleanup (targets : ptr) (i k : nat) m : outcome (nat * mem block) :=
  match k with
  | O => Ret (0%nat, m)
  | S k =>
      p ← target_at targets i m;
      m ← free p m;
      i ← inc_index i;
      '(closes, m) ← cleanup targets i k m;
      Ret (S closes, m)
  end.

Record result := mkResult { status : Z; sent : net; closes : nat }.

Definition main (socket : Z -> ptr) (opts : list (ascii * chars)) (args : list chars) (turns : nat) m n : outcome (result * mem block) :=
  match read_options opts config_default with
  | inl e => Ret (mkResult e n 0, m)
  | inr c =>
      if Z.of_nat (length args) <=? 0 then Ret (mkResult (-1) n 0, m)
      else
        '(ts, m) ← get_targets args (ai_family c) m;
        match ts with
        | None => Ret (mkResult (-1) n 0, m)
        | Some _ =>
            match socket (ai_family c) with
            | None => Ret (mkResult (-1) n 0, m)
            | Some fd =>
                let data := mkRun (syscall c) (mkTargets ts (Z.of_nat (length args))) fd (period c) (msgs_per_target c) in
                '(ret, m, n) ← run data turns m n;
                '(closes, m) ← cleanup ts 0 (length args) m;
                m ← free ts m;
                Ret (mkResult ret n closes, m)
            end
        end
  end.
End targets.
End client.

(** ** What is sent *)

Definition text : chars := lorem LOREM_IPSUM_LEN.
Definition long_text : chars := concat (replicate IOVEC_N text).

(** The datagrams that one call of [m_send] is to send. *)
Definition planned (data : run_data_t) (addrs : list addrinfo) : list (chars * chars) :=
  match r_syscall data with
  | SENDTO => (fun a => (ai_addr a, text)) <$> addrs
  | SENDMSG => (fun a => (ai_addr a, long_text)) <$> addrs
  | SENDMMSG => (fun a => (ai_addr a, long_text)) <$> (addrs ≫= replicate (Z.to_nat (r_msgs_per_target data)))
  end.

(** The array of targets, in memory that the code does not own. *)
Definition targets_at (h : gmap Z block) (ts : target_array_t) (addrs : list addrinfo) : Prop :=
  exists l ps, ptr_ ts = Some l /\ h !! l = Some (Targets ps) /\ len ts = Z.of_nat (length addrs) /\
    Forall2 (fun p a => exists k, p = Some k /\ h !! k = Some (Info a)) ps addrs.

Definition full_iov : list iovec := replicate IOVEC_N (mkIovec true LOREM_IPSUM_LEN).
(** A header that is ready to be sent, and what any header owns. *)
Definition ready (a : addrinfo) (v : mmsghdr) (own : list (Z * block)) : Prop :=
  exists l, v = mkMsghdr (Some (ai_addr a)) (ai_addrlen a) (Some l) IOVEC_N /\ own = [(l, Iovecs full_iov)].
Inductive owns_hdr (v : mmsghdr) : list (Z * block) -> Prop :=
| owns_nothing : msg_iov v = None -> owns_hdr v []
| owns_iov l b : msg_iov v = Some l -> owns_hdr v [(l, b)].

Section sending.
Context `{Allocator block} (answer : nat -> option Z).
Implicit Types (m : mem block) (n : net) (own rest : list (Z * block)) (h : gmap Z block).

(** Sending in order up to the first failure. *)
Fixpoint send_all (l : list (chars * chars)) n : option Z * net :=
  match l with
  | [] => (None, n)
  | (a, d) :: l =>
      match transmit answer a d n with
      | (Some e, n) => (Some e, n)
      | (None, n) => send_all l n
      end
  end.

Lemma send_all_prefix l : forall n failed n', send_all l n = (failed, n') ->
  exists sent unsent, l = sent ++ unsent /\ wire n' = wire n ++ sent /\
    match failed with None => unsent = [] | Some e => exists k, answer k = Some e end.
Proof.
  induction l as [|[a d] l IH]; intros n failed n'; cbn [send_all].
  { intros [= <- <-]. exists [], []. split_and!; [done|by rewrite app_nil_r|done]. }
  unfold transmit. destruct (answer (attempts n)) as [e|] eqn:Ea.
  - intros [= <- <-]. exists [], ((a, d) :: l). rewrite app_nil_r. split_and!; [done..|]. by exists (attempts n).
  - intros (sent & unsent & -> & Hw & Hf)%IH. exists ((a, d) :: sent), unsent. split; [done|]. split; [|done].
    rewrite Hw. cbn [wire]. by rewrite <- app_assoc.
Qed.

Lemma target_read h ts addrs own m i a : targets_at h ts addrs -> addrs !! i = Some a -> extends h own m ->
  exists p, target_at (ptr_ ts) i m = Ret p /\ info_at p m = Ret a.
Proof.
  intros (l & ps & -> & Hl & _ & Hf) Hi He. destruct (Forall2_lookup_r _ _ _ _ _ Hf Hi) as (p & Hp & k & -> & Hk). exists (Some k).
  unfold target_at, info_at, read. rewrite (extends_base _ _ _ _ _ He Hl), (extends_base _ _ _ _ _ He Hk). cbn [mbind outcome_bind]. by rewrite Hp.
Qed.

(** *** [sendto] *)

Lemma sendto_loop_sends h ts addrs own m : targets_at h ts addrs -> extends h own m ->
  forall k i n, length addrs = (i + k)%nat -> Z.of_nat (length addrs) <= INT_MAX ->
  let '(failed, n') := send_all ((fun a => (ai_addr a, text)) <$> drop i addrs) n in
  sendto_loop answer (ptr_ ts) i k m n = Ret (default 0 failed, n').
Proof.
  intros Ht He. induction k as [|k IH]; intros i n Hl Hint; cbn [sendto_loop].
  - by rewrite drop_ge by lia.
  - assert (is_Some (addrs !! i)) as [a Ha] by (apply lookup_lt_is_Some_2; lia).
    destruct (target_read _ _ _ _ _ _ _ Ht Ha He) as (p & -> & Ei). cbn [mbind outcome_bind]. rewrite Ei, (drop_S _ _ _ Ha). cbn [mbind outcome_bind fmap list_fmap send_all].
    change (lorem LOREM_IPSUM_LEN) with text. destruct (transmit answer (ai_addr a) text n) as [[e|] n1]; [done|].
    rewrite inc_index_ok by lia. cbn [mbind outcome_bind]. apply IH; lia.
Qed.

(** *** Buffers *)

Lemma fill_iovec_owned l h own k : forall full m,
  extends h ((l, Iovecs (replicate full (mkIovec true LOREM_IPSUM_LEN) ++ replicate k iovec_zero)) :: own) m ->
  exists m', fill_iovec (Some l) full k m = Ret m' /\ extends h ((l, Iovecs (replicate (full + k) (mkIovec true LOREM_IPSUM_LEN))) :: own) m'.
Proof.
  induction k as [|k IH]; intros full m He; cbn [fill_iovec].
  { rewrite Nat.add_0_r. rewrite app_nil_r in He. by exists m. }
  set (v := mkIovec true LOREM_IPSUM_LEN) in *.
  destruct (extends_update h own l _ (Iovecs (replicate (S full) v ++ replicate k iovec_zero))
    (fun b => match b with Iovecs l => _ ← get (l !! full); Ret (Iovecs (<[full := v]> l)) | _ => Crash end) m He) as (m1 & E & He1).
  { cbn beta iota. cbn [replicate]. rewrite list_lookup_middle by by rewrite length_replicate. cbn [get mbind outcome_bind].
    pose proof (insert_at_length (replicate full v) (replicate k iovec_zero) iovec_zero v) as Hu. rewrite length_replicate in Hu. rewrite Hu.
    by rewrite cons_middle, app_assoc, <- replicate_cons_app. }
  unfold set_iov. rewrite E. cbn [mbind outcome_bind]. destruct (IH (S full) m1 He1) as (m' & -> & He'). exists m'. by rewrite Nat.add_succ_r.
Qed.

Lemma iovec_filled h own m : extends h own m ->
  exists p m', iovec_new m = Ret (p, m') /\
    match p with None => extends h own m' /\ out_of_memory block | Some l => extends h ((l, Iovecs full_iov) :: own) m' end.
Proof.
  intros He. unfold iovec_new. destruct (extends_malloc _ _ (Iovecs (replicate IOVEC_N iovec_zero)) _ He) as (p & m1 & -> & He1).
  destruct p as [l|]; [|by exists None, m1]. destruct (fill_iovec_owned l h own IOVEC_N 0 m1 He1) as (m2 & -> & He2). by exists (Some l), m2.
Qed.

Lemma gather_full k : gather (replicate k (mkIovec true LOREM_IPSUM_LEN)) = Ret (concat (replicate k text)).
Proof. induction k as [|k IH]; [done|]. cbn [replicate gather foldr concat]. fold (gather (replicate k (mkIovec true LOREM_IPSUM_LEN))). by rewrite IH. Qed.

Lemma sendmsg_full h own l a m n : extends h ((l, Iovecs full_iov) :: own) m ->
  sendmsg answer (mkMsghdr (Some (ai_addr a)) (ai_addrlen a) (Some l) IOVEC_N) m n = Ret (transmit answer (ai_addr a) long_text n).
Proof.
  intros He. unfold sendmsg. cbn [msg_iov msg_name msg_iovlen]. rewrite (extends_read _ _ _ _ _ He). cbn [mbind outcome_bind get].
  unfold full_iov. rewrite take_ge by by rewrite length_replicate. by rewrite gather_full.
Qed.
(** *** [sendmsg] *)

(** The outcome of an attempt to send a list of datagrams. *)
Definition sends (plan : list (chars * chars)) n (ret : Z) n' : Prop :=
  exists sent unsent, plan = sent ++ unsent /\ wire n' = wire n ++ sent /\
    (ret = 0 /\ unsent = [] \/ ret = ENOMEM /\ out_of_memory block \/ exists k, answer k = Some ret).

Lemma sends_nil n : sends [] n 0 n.
Proof. exists [], []. split; [done|]. split; [by rewrite app_nil_r|]. by left. Qed.

Lemma sends_cons a d plan n n1 ret n' :
  transmit answer a d n = (None, n1) -> sends plan n1 ret n' -> sends ((a, d) :: plan) n ret n'.
Proof.
  unfold transmit. destruct (answer (attempts n)); [done|]. intros [= <-] (sent & unsent & -> & Hw & Hr). exists ((a, d) :: sent), unsent.
  split; [done|]. split; [|done]. rewrite Hw. cbn [wire]. by rewrite <- app_assoc.
Qed.

Lemma sends_stop plan n ret n' : wire n' = wire n -> ret = ENOMEM /\ out_of_memory block \/ (exists k, answer k = Some ret) -> sends plan n ret n'.
Proof. intros Hw Hr. exists [], plan. rewrite Hw, app_nil_r. split; [done|]. split; [done|]. by right. Qed.

Lemma transmit_failed a d n e n1 : transmit answer a d n = (Some e, n1) -> answer (attempts n) = Some e /\ wire n1 = wire n.
Proof. unfold transmit. destruct (answer (attempts n)); [|done]. by intros [= -> <-]. Qed.

Lemma sendmsg_loop_sends h ts addrs : targets_at h ts addrs -> (forall k e, answer k = Some e -> 0 < e) ->
  forall k i own m n, extends h own m -> length addrs = (i + k)%nat -> Z.of_nat (length addrs) <= INT_MAX ->
  exists ret m' n', sendmsg_loop answer (ptr_ ts) i k m n = Ret (ret, m', n') /\ extends h own m' /\
    sends ((fun a => (ai_addr a, long_text)) <$> drop i addrs) n ret n'.
Proof.
  intros Ht Hpos. induction k as [|k IH]; intros i own m n He Hl Hint; cbn [sendmsg_loop].
  { rewrite drop_ge by lia. exists 0, m, n. split; [done|]. split; [done|]. apply sends_nil. }
  assert (is_Some (addrs !! i)) as [a Ha] by (apply lookup_lt_is_Some_2; lia).
  destruct (target_read _ _ _ _ _ _ _ Ht Ha He) as (p & -> & Ei). cbn [mbind outcome_bind]. rewrite Ei, (drop_S _ _ _ Ha). cbn [mbind outcome_bind].
  destruct (iovec_filled _ _ _ He) as (iov & m1 & -> & Hiov). cbn [mbind outcome_bind]. destruct iov as [l|].
  2: { destruct Hiov. exists ENOMEM, m1, n. split; [done|]. split; [done|]. apply sends_stop; [done|by left]. }
  rewrite (sendmsg_full _ _ _ _ _ _ Hiov). cbn [mbind outcome_bind]. destruct (transmit answer (ai_addr a) long_text n) as [failed n1] eqn:Et.
  unfold iovec_free. destruct (extends_free _ _ _ _ _ Hiov) as (m2 & -> & He2). cbn [mbind outcome_bind]. destruct failed as [e|].
  - apply transmit_failed in Et as [Ee Hw]. pose proof (Hpos _ _ Ee). destruct (Z.eqb_spec e 0); [lia|]. cbn [negb].
    exists e, m2, n1. split; [done|]. split; [done|]. apply sends_stop; [done|]. right. by eexists.
  - rewrite inc_index_ok by lia. cbn [mbind outcome_bind]. destruct (IH (S i) own m2 n1 He2) as (ret & m' & n' & -> & He' & Hs); [lia..|]. exists ret, m', n'. split; [done|]. split; [done|].
    cbn [fmap list_fmap]. by eapply sends_cons.
Qed.

(** *** [sendmmsg] *)

Lemma header_at l hs own i v h m :
  extends h ((l, Mmsghdrs hs) :: own) m -> hs !! i = Some v -> hdr_at (Some l) i m = Ret v.
Proof. intros He Hi. unfold hdr_at. rewrite (extends_read _ _ _ _ _ He). cbn. by rewrite Hi. Qed.

Lemma header_set l hs own i v h m :
  extends h ((l, Mmsghdrs hs) :: own) m -> (i < length hs)%nat ->
  exists m', set_hdr (Some l) i v m = Ret m' /\ extends h ((l, Mmsghdrs (<[i := v]> hs)) :: own) m'.
Proof.
  intros He Hi. eapply extends_update; [done|]. apply lookup_lt_is_Some_2 in Hi as [x Hx]. cbn. by rewrite Hx.
Qed.

Lemma headers_freed l hs h own k : forall i owns m,
  Forall2 owns_hdr (drop i hs) owns -> length hs = (i + k)%nat -> Z.of_nat (length hs) <= INT_MAX ->
  extends h ((l, Mmsghdrs hs) :: concat owns ++ own) m ->
  exists m', free_headers (Some l) i k m = Ret m' /\ extends h ((l, Mmsghdrs hs) :: own) m'.
Proof.
  induction k as [|k IH]; intros i owns m Hf Hl Hint He; cbn [free_headers].
  { rewrite drop_ge in Hf by lia. inversion Hf; subst. by exists m. }
  assert (is_Some (hs !! i)) as [v Hv] by (apply lookup_lt_is_Some_2; lia).
  rewrite (header_at _ _ _ _ _ _ _ He Hv). cbn [mbind outcome_bind].
  rewrite (drop_S _ _ _ Hv) in Hf. inversion Hf as [|? o ? owns' Ho Hr]; subst. cbn [concat] in He.
  assert (exists m1, iovec_free (msg_iov v) m = Ret m1 /\ extends h ((l, Mmsghdrs hs) :: concat owns' ++ own) m1) as (m1 & -> & He1).
  { destruct Ho as [Hn|l' b Hs]; [rewrite Hn; by exists m|]. rewrite Hs. eapply extends_free, extends_perm, He. solve_Permutation. }
  cbn [mbind outcome_bind]. rewrite inc_index_ok by lia. cbn [mbind outcome_bind]. apply (IH (S i) owns'); [done|lia|lia|done].
Qed.

Lemma ready_owns a v o : ready a v o -> owns_hdr v o.
Proof. intros (l & -> & ->). by constructor. Qed.

Lemma ready_all_own addrs hs owns : Forall3 ready addrs hs owns -> Forall2 owns_hdr hs owns.
Proof. induction 1; constructor; [by eapply ready_owns|done]. Qed.

(** One header: the loop body. *)
Lemma new_messages_owned lm server i msgs h own tail : forall k j done owns addrs m,
  Forall3 ready addrs done owns -> Z.of_nat (length done) = j + i * msgs -> Z.of_nat (length done + k + tail) <= 2 ^ 32 -> j + Z.of_nat k <= INT_MAX ->
  extends h ((lm, Mmsghdrs (done ++ replicate (k + tail) mmsghdr_zero)) :: concat owns ++ own) m ->
  exists ok m' hs owns', new_messages (Some lm) server i j msgs k m = Ret (ok, m') /\
    extends h ((lm, Mmsghdrs hs) :: concat owns' ++ own) m' /\ length hs = (length done + k + tail)%nat /\
    (if ok then exists done', hs = done' ++ replicate tail mmsghdr_zero /\ Forall3 ready (addrs ++ replicate k server) done' owns'
     else Forall2 owns_hdr hs owns' /\ out_of_memory block).
Proof.
  induction k as [|k IH]; intros j done owns addrs m Hr Hj Hmax Hint He; cbn [new_messages].
  { exists true, m, (done ++ replicate tail mmsghdr_zero), owns. split; [done|]. split; [done|]. split; [rewrite length_app, length_replicate; lia|].
    exists done. split; [done|]. by rewrite app_nil_r. }
  replace (Z.to_nat (u32 (j + i * msgs))) with (length done).
  2: { rewrite <- Hj. rewrite wrap_id; [lia|]. unfold in_range. lia. }
  cbn [Nat.add replicate] in He. rewrite (header_at _ _ _ _ mmsghdr_zero _ _ He) by by rewrite list_lookup_middle. cbn [mbind outcome_bind].
  destruct (iovec_filled _ _ _ He) as (iov & m1 & -> & Hiov). cbn [mbind outcome_bind].
  set (o := match iov with Some l => [(l, Iovecs full_iov)] | None => [] end).
  assert (extends h ((lm, Mmsghdrs (done ++ mmsghdr_zero :: replicate (k + tail) mmsghdr_zero)) :: concat (owns ++ [o]) ++ own) m1) as He1.
  { rewrite concat_app. cbn [concat]. destruct iov; [eapply extends_perm, Hiov; solve_Permutation|rewrite !app_nil_r; by destruct Hiov]. }
  destruct (header_set _ _ _ (length done) (mkMsghdr (msg_name mmsghdr_zero) (msg_namelen mmsghdr_zero) iov (msg_iovlen mmsghdr_zero)) _ _ He1) as (m2 & -> & He2).
  { rewrite length_app. cbn. lia. }
  rewrite insert_at_length in He2. cbn [mbind outcome_bind]. destruct iov as [l|].
  - destruct (header_set _ _ _ (length done) (mkMsghdr (Some (ai_addr server)) (ai_addrlen server) (Some l) IOVEC_N) _ _ He2) as (m3 & -> & He3).
    { rewrite length_app. cbn. lia. }
    rewrite insert_at_length, cons_middle, app_assoc in He3. cbn [mbind outcome_bind]. rewrite inc_ok by lia. cbn [mbind outcome_bind].
    destruct (IH (j + 1) (done ++ [mkMsghdr (Some (ai_addr server)) (ai_addrlen server) (Some l) IOVEC_N]) (owns ++ [o]) (addrs ++ [server]) m3) as (ok & m' & hs & owns' & -> & He4 & Hlen & Hok).
    + apply Forall3_app; [done|]. constructor; [by exists l|constructor].
    + rewrite length_app. cbn. lia.
    + rewrite length_app. cbn. lia.
    + lia.
    + done.
    + rewrite length_app in Hlen. cbn in Hlen. exists ok, m', hs, owns'. split; [done|]. split; [done|]. split; [lia|].
      destruct ok; [|done]. by rewrite <- app_assoc in Hok.
  - exists false, m2. eexists (done ++ _ :: replicate (k + tail) mmsghdr_zero), ((owns ++ [o]) ++ replicate (k + tail) []).
    split; [done|]. split; [rewrite concat_app, concat_nils, app_nil_r; exact He2|].
    split; [rewrite length_app; cbn; rewrite length_replicate; lia|]. split; [|by destruct Hiov]. rewrite cons_middle, app_assoc.
    apply Forall2_app; [apply Forall2_app; [by eapply ready_all_own|]|].
    + constructor; [by constructor|done].
    + apply Forall2_replicate. by constructor.
Qed.

Lemma new_targets_owned lm ts addrs h own msgs : targets_at h ts addrs -> 0 <= msgs ->
  forall k i done owns m,
  length addrs = (i + k)%nat -> Z.of_nat (length addrs) <= INT_MAX -> Z.of_nat (length addrs) * msgs <= INT_MAX ->
  Forall3 ready (take i addrs ≫= replicate (Z.to_nat msgs)) done owns -> Z.of_nat (length done) = Z.of_nat i * msgs ->
  extends h ((lm, Mmsghdrs (done ++ replicate (k * Z.to_nat msgs) mmsghdr_zero)) :: concat owns ++ own) m ->
  exists ok m' hs owns', new_targets (Some lm) (ptr_ ts) (Z.of_nat i) msgs k m = Ret (ok, m') /\
    extends h ((lm, Mmsghdrs hs) :: concat owns' ++ own) m' /\ length hs = (length addrs * Z.to_nat msgs)%nat /\
    (if ok then Forall3 ready (addrs ≫= replicate (Z.to_nat msgs)) hs owns' else Forall2 owns_hdr hs owns' /\ out_of_memory block).
Proof.
  intros Ht Hmsgs. induction k as [|k IH]; intros i done owns m Hl Hint Hmax Hr Hd He; cbn [new_targets].
  { rewrite take_ge in Hr by lia. cbn [Nat.mul replicate] in He. rewrite app_nil_r in He. exists true, m, done, owns. split_and!; [done..| |done]. nia. }
  assert (is_Some (addrs !! i)) as [a Ha] by (apply lookup_lt_is_Some_2; lia). rewrite Nat2Z.id.
  destruct (target_read _ _ _ _ _ _ _ Ht Ha He) as (p & -> & Ei). cbn [mbind outcome_bind]. rewrite Ei. cbn [mbind outcome_bind].
  cbn [Nat.mul] in He.
  destruct (new_messages_owned lm a (Z.of_nat i) msgs h own (k * Z.to_nat msgs) (Z.to_nat msgs) 0 done owns _ m Hr) as (ok & m1 & hs & owns1 & -> & He1 & Hlen & Hok); [lia|unfold INT_MAX in *; nia|nia|done|].
  cbn [mbind outcome_bind]. destruct ok.
  - destruct Hok as (done' & -> & Hr'). rewrite inc_ok by lia. cbn [mbind outcome_bind]. destruct (IH (S i) done' owns1 m1) as (ok & m2 & hs2 & owns2 & E & He2 & Hlen2 & Hok2); [lia|done|done| | |done|].
    + rewrite (take_S_r _ _ _ Ha), bind_app. cbn [mbind list_bind]. by rewrite app_nil_r.
    + rewrite length_app, length_replicate in Hlen. nia.
    + replace (Z.of_nat i + 1) with (Z.of_nat (S i)) by lia. by exists ok, m2, hs2, owns2.
  - exists false, m1, hs, owns1. split; [done|]. split; [done|]. split; [nia|done].
Qed.

Lemma messages_freed lm hs owns ts addrs msgs own h m :
  targets_at h ts addrs -> 0 <= msgs -> Z.of_nat (length addrs) * msgs < 2 ^ 31 ->
  length hs = (length addrs * Z.to_nat msgs)%nat -> Forall2 owns_hdr hs owns -> extends h ((lm, Mmsghdrs hs) :: concat owns ++ own) m ->
  exists m', mmsghdr_free (Some lm) (len ts) msgs m = Ret m' /\ extends h own m'.
Proof.
  intros (_ & _ & _ & _ & Hlen & _) Hm Hmax Hl Hf He. unfold mmsghdr_free. rewrite Hlen.
  destruct (headers_freed lm hs h own (Z.to_nat (u32 (Z.of_nat (length addrs) * msgs))) 0 owns m) as (m1 & -> & He1); [done| |unfold INT_MAX; nia|done|].
  { rewrite wrap_id; [lia|]. unfold in_range. lia. }
  cbn [mbind outcome_bind]. eapply extends_free, He1.
Qed.

Lemma messages_new ts addrs msgs own h m :
  targets_at h ts addrs -> 0 <= msgs -> Z.of_nat (length addrs) < 2 ^ 31 -> Z.of_nat (length addrs) * msgs < 2 ^ 31 -> extends h own m ->
  exists p m', mmsghdr_new ts msgs m = Ret (p, m') /\
    match p with
    | None => extends h own m' /\ out_of_memory block
    | Some lm => exists hs owns, length hs = (length addrs * Z.to_nat msgs)%nat /\
        Forall3 ready (addrs ≫= replicate (Z.to_nat msgs)) hs owns /\ extends h ((lm, Mmsghdrs hs) :: concat owns ++ own) m'
    end.
Proof.
  intros Ht Hm Hint Hmax He. unfold mmsghdr_new.
  assert (len ts = Z.of_nat (length addrs)) as -> by by destruct Ht as (? & ? & ? & ? & ? & ?).
  rewrite wrap_id by (unfold in_range; lia).
  destruct (extends_malloc _ _ (Mmsghdrs (replicate (Z.to_nat (Z.of_nat (length addrs) * msgs)) mmsghdr_zero)) _ He) as (p & m1 & -> & He1).
  destruct p as [lm|]; [|by exists None, m1].
  destruct (new_targets_owned lm ts addrs h own msgs Ht Hm (length addrs) 0 [] [] m1) as (ok & m2 & hs & owns & E & He2 & Hlen & Hok); [done|unfold INT_MAX; lia|unfold INT_MAX; lia|constructor|done| |].
  { replace (Z.to_nat (Z.of_nat (length addrs) * msgs)) with (length addrs * Z.to_nat msgs)%nat in He1 by lia. done. }
  rewrite Nat2Z.id. change (Z.of_nat 0) with 0 in E. rewrite E. cbn [mbind outcome_bind]. destruct ok.
  - exists (Some lm), m2. split; [done|]. by exists hs, owns.
  - destruct Hok as [Hok Hoom]. pose proof (messages_freed lm hs owns ts addrs msgs own h m2 Ht Hm Hmax Hlen Hok He2) as (m3 & E3 & He3).
    assert (len ts = Z.of_nat (length addrs)) as Hl by by destruct Ht as (? & ? & ? & ? & ? & ?). rewrite Hl in E3.
    rewrite E3. cbn [mbind outcome_bind]. by exists None, m3.
Qed.

Lemma sendmmsg_sends lm hs h m : forall vlen i addrs owns own n,
  extends h ((lm, Mmsghdrs hs) :: concat owns ++ own) m -> Forall3 ready addrs (drop i hs) owns -> (vlen <= length addrs)%nat ->
  exists failed n' sent unsent, sendmmsg answer (Some lm) i vlen m n = Ret (failed, n') /\
    (fun a => (ai_addr a, long_text)) <$> take vlen addrs = sent ++ unsent /\ wire n' = wire n ++ sent /\
    match failed with
    | Some e => i = 0%nat /\ sent = [] /\ exists k, answer k = Some e
    | None => unsent = [] \/ sent <> [] \/ i <> 0%nat
    end.
Proof.
  induction vlen as [|vlen IH]; intros i addrs owns own n He Hr Hv; cbn [sendmmsg].
  { exists None, n, [], []. split; [done|]. split; [done|]. split; [by rewrite app_nil_r|]. by left. }
  destruct addrs as [|a addrs]; [cbn in Hv; lia|]. destruct (drop i hs) as [|v hs1] eqn:Eh; [inversion Hr|].
  assert (hs !! i = Some v) as Hi by (rewrite <- (Nat.add_0_r i), <- lookup_drop, Eh; done).
  inversion Hr as [|? ? o ? ? owns1 Ho Hr1]; subst.
  rewrite (header_at _ _ _ _ _ _ _ He Hi). cbn [mbind outcome_bind concat] in *. destruct Ho as (l & -> & ->).
  rewrite (sendmsg_full h ((lm, Mmsghdrs hs) :: concat owns1 ++ own)).
  2: { eapply extends_perm, He. solve_Permutation. }
  cbn [mbind outcome_bind take fmap list_fmap]. destruct (transmit answer (ai_addr a) long_text n) as [failed n1] eqn:Et. destruct failed as [e|].
  { apply transmit_failed in Et as [Ee Hw]. eexists _, n1, [], _. split; [done|]. split; [done|]. split; [by rewrite Hw, app_nil_r|].
    destruct (Nat.eqb_spec i 0); [split_and!; [done..|by eexists]|]. right. by right. }
  rewrite (drop_S _ _ _ Hi) in Eh. injection Eh as <-.
  destruct (IH (S i) addrs owns1 ((l, Iovecs full_iov) :: own) n1) as (failed & n' & sent & unsent & -> & Hp & Hw & Hf); [|done|cbn in Hv; lia|].
  { eapply extends_perm, He. solve_Permutation. }
  exists failed, n', ((ai_addr a, long_text) :: sent), unsent. split; [done|]. split; [by rewrite Hp|]. split.
  - rewrite Hw. unfold transmit in Et. destruct (answer (attempts n)); [done|]. injection Et as <-. cbn [wire]. by rewrite <- app_assoc.
  - destruct failed as [e|]; [by destruct Hf|]. right. by left.
Qed.

(** A call of [m_send], whatever fails: the memory is as before, and a part of
    the plan was sent. *)
Lemma m_send_total data addrs m n :
  targets_at (blocks m) (targets data) addrs -> (forall k e, answer k = Some e -> 0 < e) -> 0 <= r_msgs_per_target data ->
  Z.of_nat (length addrs) < 2 ^ 31 -> (r_syscall data = SENDMMSG -> Z.of_nat (length addrs) * r_msgs_per_target data < 2 ^ 31) ->
  exists ret m' n' sent unsent, m_send answer data m n = Ret (ret, m', n') /\ blocks m' = blocks m /\
    planned data addrs = sent ++ unsent /\ wire n' = wire n ++ sent /\
    (ret = 0 /\ (unsent = [] \/ r_syscall data = SENDMMSG /\ sent <> []) \/
     ret = ENOMEM /\ out_of_memory block \/ (exists k, answer k = Some ret)).
Proof.
  intros Ht Hpos Hm Hint Hmax. assert (extends (blocks m) [] m) as He by by apply extends_nil.
  assert (len (targets data) = Z.of_nat (length addrs)) as Hlen by by destruct Ht as (? & ? & ? & ? & ? & ?).
  unfold m_send, planned. destruct (r_syscall data).
  - pose proof (sendto_loop_sends (blocks m) (targets data) addrs [] m Ht He (length addrs) 0 n eq_refl ltac:(unfold INT_MAX; lia)) as Hs. rewrite drop_0 in Hs.
    destruct (send_all _ n) as [failed n'] eqn:Es. unfold send_sendto. rewrite Hlen, Nat2Z.id, Hs. cbn [mbind outcome_bind].
    destruct (send_all_prefix _ _ _ _ Es) as (sent & unsent & -> & Hw & Hf). exists (default 0 failed), m, n', sent, unsent.
    split_and!; [done..|]. destruct failed as [e|]; cbn [default id]; [by right; right|left]. split; [done|by left].
  - destruct (sendmsg_loop_sends (blocks m) (targets data) addrs Ht Hpos (length addrs) 0 [] m n He eq_refl ltac:(unfold INT_MAX; lia)) as (ret & m' & n' & E & He' & sent & unsent & Hp & Hw & Hr).
    rewrite drop_0 in Hp. unfold send_sendmsg. rewrite Hlen, Nat2Z.id, E. exists ret, m', n', sent, unsent. split_and!; [done|by apply extends_nil|done|done|].
    destruct Hr as [[-> ->]|[?| ?]]; [left; split; [done|by left]|by right; left|by right; right].
  - unfold send_sendmmsg. destruct (messages_new (targets data) addrs (r_msgs_per_target data) [] (blocks m) m Ht Hm Hint (Hmax eq_refl) He) as (p & m1 & -> & Hnew).
    cbn [mbind outcome_bind]. destruct p as [lm|].
    2: { destruct Hnew. exists ENOMEM, m1, n, [], ((fun a => (ai_addr a, long_text)) <$> (addrs ≫= replicate (Z.to_nat (r_msgs_per_target data)))).
         split_and!; [done|by apply extends_nil|done|by rewrite app_nil_r|]. by right; left. }
    destruct Hnew as (hs & owns & Hl & Hr & He1). set (all := addrs ≫= replicate (Z.to_nat (r_msgs_per_target data))) in *.
    assert (length all = length hs) as Hall by by eapply Forall3_length_lm.
    set (vlen := Nat.min (Z.to_nat (u32 (len (targets data) * r_msgs_per_target data))) UIO_MAXIOV).
    assert (vlen = Nat.min (length all) UIO_MAXIOV) as Hv.
    { unfold vlen. rewrite Hlen, wrap_id by (specialize (Hmax eq_refl); unfold in_range; lia). f_equal. lia. }
    destruct (sendmmsg_sends lm hs (blocks m) m1 vlen 0 all owns [] n He1) as (failed & n' & sent & unsent & -> & Hp & Hw & Hf); [by rewrite drop_0|lia|].
    cbn [mbind outcome_bind].
    destruct (messages_freed lm hs owns (targets data) addrs (r_msgs_per_target data) [] (blocks m) m1) as (m2 & -> & He2); [done|done|by apply Hmax|done|by eapply ready_all_own|done|].
    cbn [mbind outcome_bind]. exists (default 0 failed), m2, n', sent, (unsent ++ ((fun a => (ai_addr a, long_text)) <$> drop vlen all)).
    split; [done|]. split; [by apply extends_nil|]. split; [by rewrite app_assoc, <- Hp, <- fmap_app, take_drop|]. split; [done|].
    destruct failed as [e|]; cbn [default id]; [by right; right; destruct Hf as (_ & _ & ?)|left]. split; [done|].
    destruct Hf as [->|[Hs|]]; [|by right|done]. rewrite app_nil_r in Hp. destruct (decide (length all <= UIO_MAXIOV)%nat) as [Hle|Hgt].
    + left. by rewrite drop_ge by lia.
    + right. split; [done|]. intros ->. apply (f_equal length) in Hp. rewrite length_fmap, length_take in Hp. cbn in Hp. unfold UIO_MAXIOV in *. lia.
Qed.
End sending.

(** ** Theorems *)

Section theorems.
Context `{Allocator block} (answer : nat -> option Z).
Implicit Types (m : mem block) (n : net).

(** C32: A call of [m_send] with fewer than 2^31 targets in memory returns, whichever
    allocations and system calls fail, when the number of messages of [sendmmsg] for all
    targets together is below 2^31, so that no counter overflows: it never leaves an
    array and has freed exactly what it allocated.  A prefix of the planned
    datagrams was sent: per target the text, with [sendmsg] sixteen times in one
    datagram, with [sendmmsg] as many such datagrams as asked for.  It returns 0 when
    all were sent; [sendmmsg] also when only some of them were.  Otherwise it returns
    the error number, that of a lack of memory only if there is one. *)
Theorem m_send_exact data addrs m n :
  targets_at (blocks m) (targets data) addrs -> (forall k e, answer k = Some e -> 0 < e) -> 0 <= r_msgs_per_target data ->
  Z.of_nat (length addrs) < 2 ^ 31 -> (r_syscall data = SENDMMSG -> Z.of_nat (length addrs) * r_msgs_per_target data < 2 ^ 31) ->
  exists ret m' n' sent unsent, m_send answer data m n = Ret (ret, m', n') /\ blocks m' = blocks m /\
    planned data addrs = sent ++ unsent /\ wire n' = wire n ++ sent /\
    (ret = 0 /\ (unsent = [] \/ r_syscall data = SENDMMSG /\ sent <> []) \/
     ret = ENOMEM /\ out_of_memory block \/ (exists k, answer k = Some ret)).
Proof. by apply m_send_total. Qed.

(** The loop over the messages of a target, in two parts. *)
Lemma new_messages_app mmh server i msgs k1 k2 : forall j m,
  new_messages mmh server i j msgs (k1 + k2) m =
  '(ok, m) ← new_messages mmh server i j msgs k1 m; if ok : bool then new_messages mmh server i (j + Z.of_nat k1) msgs k2 m else Ret (false, m).
Proof.
  induction k1 as [|k1 IH]; intros j m; [cbn [Nat.add new_messages mbind outcome_bind]; by rewrite Z.add_0_r|].
  cbn [Nat.add new_messages]. set (at_ := Z.to_nat _). destruct (hdr_at mmh at_ m) as [mh| |]; [|done..]. cbn [mbind outcome_bind].
  destruct (iovec_new m) as [[iov m1]| |]; [|done..]. cbn [mbind outcome_bind]. destruct (set_hdr _ _ _ m1) as [m2| |]; [|done..]. cbn [mbind outcome_bind].
  destruct iov as [l|]; [|done]. destruct (set_hdr _ _ _ m2) as [m3| |]; [|done..]. cbn [mbind outcome_bind].
  unfold inc. destruct (j <? INT_MAX); [|done]. cbn [mbind outcome_bind]. rewrite IH. by replace (j + 1 + Z.of_nat k1) with (j + Z.of_nat (S k1)) by lia.
Qed.

(** With memory enough, 2^31 or more messages to one target overflow the [int] that
    counts them, which is undefined. *)
Theorem message_counter_overflow data a m n : ~ out_of_memory block ->
  targets_at (blocks m) (targets data) [a] -> r_syscall data = SENDMMSG -> 2 ^ 31 <= r_msgs_per_target data < 2 ^ 32 ->
  m_send answer data m n = Crash.
Proof.
  intros Hmem Ht Hs Hmsgs. assert (extends (blocks m) [] m) as He by by apply extends_nil.
  assert (len (targets data) = 1) as Hlen by by destruct Ht as (? & ? & ? & ? & ? & ?).
  unfold m_send, send_sendmmsg, mmsghdr_new. rewrite Hs, Hlen, Z.mul_1_l, wrap_id by (unfold in_range; lia). set (msgs := r_msgs_per_target data) in *.
  destruct (extends_malloc _ _ (Mmsghdrs (replicate (Z.to_nat msgs) mmsghdr_zero)) _ He) as (p & m1 & -> & He1). destruct p as [lm|]; [|by destruct He1].
  change (Z.to_nat 1) with 1%nat. cbn [new_targets].
  destruct (target_read _ _ _ _ _ 0%nat a Ht eq_refl He1) as (p & E & Ei). change (Z.to_nat 0) with 0%nat. rewrite E. cbn [mbind outcome_bind]. rewrite Ei. cbn [mbind outcome_bind].
  assert (exists k1 k2, k1 = Z.to_nat INT_MAX /\ Z.to_nat msgs = (k1 + S k2)%nat) as (k1 & k2 & Hk1 & Hk2).
  { exists (Z.to_nat INT_MAX), (Z.to_nat (msgs - INT_MAX - 1)). split; [done|]. unfold INT_MAX. lia. }
  rewrite Hk2 in He1 |- *. rewrite new_messages_app.
  destruct (new_messages_owned lm a 0 msgs (blocks m) [] (S k2) k1 0 [] [] [] m1) as (ok & m2 & hs & owns & -> & He2 & Hl & Hok);
    [constructor|done|cbn [length]; lia|unfold INT_MAX in *; lia|done|].
  cbn [mbind outcome_bind]. destruct ok; [|by destruct Hok]. destruct Hok as (done' & -> & _).
  rewrite length_app, length_replicate in Hl. cbn [length Nat.add] in Hl. cbn [new_messages]. rewrite Z.mul_0_l, Z.add_0_r, Z.add_0_l.
  rewrite wrap_id, Nat2Z.id by (unfold in_range, INT_MAX in *; lia).
  assert (k1 = length done') as Hd by lia. rewrite Hd. cbn [replicate] in He2. rewrite (header_at _ _ _ _ mmsghdr_zero _ _ He2) by by rewrite list_lookup_middle.
  cbn [mbind outcome_bind]. destruct (iovec_filled _ _ _ He2) as (iov & m3 & -> & Hiov). cbn [mbind outcome_bind]. destruct iov as [l|]; [|by destruct Hiov].
  eapply (extends_perm _ _ ((lm, Mmsghdrs (done' ++ mmsghdr_zero :: replicate k2 mmsghdr_zero)) :: (l, Iovecs full_iov) :: concat owns ++ [])) in Hiov; [|solve_Permutation].
  destruct (header_set _ _ _ (length done') (mkMsghdr (msg_name mmsghdr_zero) (msg_namelen mmsghdr_zero) (Some l) (msg_iovlen mmsghdr_zero)) _ _ Hiov) as (m4 & -> & He4);
    [rewrite length_app; cbn; lia|]. cbn [mbind outcome_bind].
  destruct (header_set _ _ _ (length done') (mkMsghdr (Some (ai_addr a)) (ai_addrlen a) (Some l) IOVEC_N) _ _ He4) as (m5 & -> & _);
    [rewrite length_insert, length_app; cbn; lia|]. cbn [mbind outcome_bind].
  unfold inc. rewrite (proj2 (Z.ltb_ge (Z.of_nat (length done')) INT_MAX)); [reflexivity|]. unfold INT_MAX in *. lia.
Qed.

Lemma run_total data addrs : (forall k e, answer k = Some e -> 0 < e) -> 0 <= r_msgs_per_target data ->
  Z.of_nat (length addrs) < 2 ^ 31 -> (r_syscall data = SENDMMSG -> Z.of_nat (length addrs) * r_msgs_per_target data < 2 ^ 31) ->
  forall turns m n, targets_at (blocks m) (targets data) addrs ->
  exists ret m' n', run answer data turns m n = Ret (ret, m', n') /\ blocks m' = blocks m.
Proof.
  intros Hpos Hm Hint Hmax. induction turns as [|turns IH]; intros m n Ht; cbn [run]; [by eexists _, _, _|].
  destruct (m_send_total answer data addrs m n Ht Hpos Hm Hint Hmax) as (ret & m1 & n1 & _ & _ & -> & Hb & _). cbn [mbind outcome_bind].
  destruct (ret =? 0); cbn [negb]; [|by eexists _, _, _]. destruct (IH m1 n1) as (r & m2 & n2 & -> & Hb2); [by rewrite Hb|].
  eexists _, _, _. split; [done|]. by rewrite Hb2.
Qed.

(** The entries of the array of targets and the results of [getaddrinfo]. *)
Definition is_info (p : ptr) (o : Z * block) : Prop := exists a, p = Some o.1 /\ o.2 = Info a.

Section program.
Context (getaddrinfo : Z -> chars -> chars -> Z + addrinfo).

Lemma fill_targets_owned l h family args : forall done infos m,
  Forall2 is_info done infos -> Z.of_nat (length done + length args) <= INT_MAX ->
  extends h ((l, Targets (done ++ replicate (length args) None)) :: infos) m ->
  exists ok m' ps infos', fill_targets getaddrinfo (Some l) (length done) family args m = Ret (ok, m') /\
    extends h ((l, Targets ps) :: infos') m' /\ (ok = true -> length ps = (length done + length args)%nat /\ Forall2 is_info ps infos').
Proof.
  induction args as [|arg args IH]; intros done infos m Hf Hint He; cbn [fill_targets length replicate] in *.
  { rewrite app_nil_r in He. exists true, m, done, infos. split; [done|]. split; [done|]. intros _. split; [lia|done]. }
  destruct (split_target family arg) as [[ip port]|]; [|by eexists false, m, _, _].
  unfold lookup_target. destruct (getaddrinfo family ip port) as [e|a]; [by eexists false, m, _, _|].
  destruct (extends_malloc _ _ (Info a) _ He) as (p & m1 & -> & He1). destruct p as [p|].
  2: { destruct He1. by eexists false, m1, _, _. }
  destruct (extends_update h ((p, Info a) :: infos) l (Targets (done ++ None :: replicate (length args) None)) (Targets (done ++ Some p :: replicate (length args) None))
    (fun b => match b with Targets l => _ ← get (l !! length done); Ret (Targets (<[length done := Some p]> l)) | _ => Crash end) m1) as (m2 & E & He2).
  { eapply extends_perm, He1. solve_Permutation. }
  { cbn beta iota. rewrite list_lookup_middle by done. cbn [get mbind outcome_bind]. by rewrite insert_at_length. }
  unfold set_target. rewrite E. cbn [mbind outcome_bind]. rewrite inc_index_ok by lia. cbn [mbind outcome_bind]. rewrite cons_middle, app_assoc in He2.
  destruct (IH (done ++ [Some p]) (infos ++ [(p, Info a)]) m2) as (ok & m' & ps & infos' & E' & He' & Hok).
  { apply Forall2_app; [done|]. constructor; [by exists a|done]. }
  { rewrite length_app. cbn. lia. }
  { eapply extends_perm, He2. solve_Permutation. }
  rewrite length_app, Nat.add_1_r in E'. exists ok, m', ps, infos'. split; [done|]. split; [done|].
  intros Ho. destruct (Hok Ho) as [Hl Hi]. split; [|done]. rewrite length_app in Hl. cbn in Hl. lia.
Qed.

Lemma cleanup_owned l ps h : forall k i infos m,
  Forall2 is_info (drop i ps) infos -> length ps = (i + k)%nat -> Z.of_nat (length ps) <= INT_MAX -> extends h ((l, Targets ps) :: infos) m ->
  exists m', cleanup (Some l) i k m = Ret (k, m') /\ extends h [(l, Targets ps)] m'.
Proof.
  induction k as [|k IH]; intros i infos m Hf Hl Hint He; cbn [cleanup].
  { rewrite drop_ge in Hf by lia. inversion Hf; subst. by exists m. }
  assert (is_Some (ps !! i)) as [p Hp] by (apply lookup_lt_is_Some_2; lia). unfold target_at. rewrite (extends_read _ _ _ _ _ He).
  cbn [mbind outcome_bind]. rewrite Hp, (drop_S _ _ _ Hp) in *. cbn [get mbind outcome_bind].
  inversion Hf as [|? [k' b] ? infos' (a & -> & Hb) Hr]; subst. cbn in Hb. subst. cbn [fst].
  destruct (extends_free h ((l, Targets ps) :: infos') k' (Info a) m) as (m1 & -> & He1).
  { eapply extends_perm, He. solve_Permutation. }
  cbn [mbind outcome_bind]. rewrite inc_index_ok by lia. cbn [mbind outcome_bind].
  destruct (IH (S i) infos' m1 Hr) as (m2 & -> & He2); [lia|lia|done|]. by exists m2.
Qed.

Lemma infos_targets h l ps infos m : Forall2 is_info ps infos -> extends h ((l, Targets ps) :: infos) m ->
  exists addrs, length addrs = length ps /\ targets_at (blocks m) (mkTargets (Some l) (Z.of_nat (length ps))) addrs.
Proof.
  intros Hf He. pose proof (extends_lookup _ _ _ _ _ He) as Hl.
  assert (forall o, o ∈ infos -> blocks m !! o.1 = Some o.2) as Hin.
  { intros [k b] Ho. apply list_elem_of_split in Ho as (i1 & i2 & ->). eapply (extends_lookup h ((l, Targets ps) :: i1 ++ i2)), extends_perm, He. solve_Permutation. }
  assert (exists addrs, Forall2 (fun p a => exists k, p = Some k /\ blocks m !! k = Some (Info a)) ps addrs) as (addrs & Ha).
  { clear He Hl. induction Hf as [|p [k b] ps infos (a & -> & Hb) _ IH]; [by exists []|]. cbn in Hb. subst b.
    destruct IH as (addrs & Ha); [intros o Ho; apply Hin; by right|]. exists (a :: addrs). constructor; [|done]. exists k. split; [done|].
    apply (Hin (k, Info a)). by left. }
  exists addrs. pose proof (Forall2_length _ _ _ Ha) as Hlen. split; [done|]. exists l, ps. cbn. by rewrite Hlen.
Qed.

(** The program returns for every command line and whatever fails.  Once it has a
    socket it ends with the memory it started with; it closes the socket once per
    target. *)
Theorem main_returns socket opts args turns m n :
  (forall k e, answer k = Some e -> 0 < e) -> Z.of_nat (length args) < 2 ^ 31 ->
  (forall c, read_options opts config_default = inr c ->
     0 <= msgs_per_target c /\ (syscall c = SENDMMSG -> Z.of_nat (length args) * msgs_per_target c < 2 ^ 31)) ->
  exists r m', main answer getaddrinfo socket opts args turns m n = Ret (r, m') /\
    (closes r = 0%nat \/ closes r = length args /\ blocks m' = blocks m).
Proof.
  intros Hpos Hargs Hopts. unfold main. destruct (read_options opts config_default) as [e|c]; [eexists _, _; split; [done|by left]|].
  destruct (Hopts c eq_refl) as [Hm Hmax]. destruct (Z.of_nat (length args) <=? 0); [eexists _, _; split; [done|by left]|].
  assert (extends (blocks m) [] m) as He by by apply extends_nil. unfold get_targets.
  destruct (extends_malloc _ _ (Targets (replicate (length args) None)) _ He) as (p & m1 & -> & He1). destruct p as [l|].
  2: { cbn [mbind outcome_bind]. eexists _, _. split; [done|by left]. }
  destruct (fill_targets_owned l (blocks m) (ai_family c) args [] [] m1) as (ok & m2 & ps & infos & E & He2 & Hok); [done|unfold INT_MAX; cbn [length]; lia|done|].
  cbn [length] in E. rewrite E. cbn [mbind outcome_bind]. destruct ok.
  2: { destruct (extends_free _ _ _ _ _ He2) as (m3 & -> & _). cbn [mbind outcome_bind]. eexists _, _. split; [done|by left]. }
  destruct (Hok eq_refl) as [Hl Hi]. cbn [mbind outcome_bind]. destruct (socket (ai_family c)) as [fd|]; [|eexists _, _; split; [done|by left]].
  destruct (infos_targets _ _ _ _ _ Hi He2) as (addrs & Hla & Ht). cbn [length Nat.add] in Hl. rewrite Hl in Ht.
  edestruct (run_total (mkRun (syscall c) (mkTargets (Some l) (Z.of_nat (length args))) fd (period c) (msgs_per_target c)) addrs Hpos Hm) as (ret & m3 & n3 & -> & Hb); [lia| |done|].
  { intros Hs. rewrite Hla, Hl. by apply Hmax. }
  cbn [mbind outcome_bind]. assert (extends (blocks m) ((l, Targets ps) :: infos) m3) as He3.
  { destruct He2 as (H1 & H2 & H3). split; [done|]. split; [done|]. by rewrite Hb. }
  destruct (cleanup_owned l ps (blocks m) (length args) 0 infos m3) as (m4 & -> & He4); [done|done|unfold INT_MAX; lia|done|]. cbn [mbind outcome_bind].
  destruct (extends_free _ _ _ _ _ He4) as (m5 & -> & He5). cbn [mbind outcome_bind]. eexists _, m5. split; [done|]. right. split; [done|]. by apply extends_nil.
Qed.
End program.
End theorems.

(** ** The form of a target *)

Lemma rfind_last c (s t : chars) : c ∉ t -> rfind [c] (s ++ c :: t) = Some (length s).
Proof.
  intros Ht. unfold rfind. assert (forall pos u, c ∉ u -> rfind_from [c] u pos = None) as Hnone.
  { intros pos u. revert pos. induction u as [|d u IH]; intros pos Hu; [done|]. cbn [rfind_from starts_with].
    apply not_elem_of_cons in Hu as [Hd Hu]. rewrite IH by done. destruct (Ascii.eqb_spec c d) as [->|]; [done|].
    unfold ch_eqb. by destruct (Ascii.eqb_spec c d). }
  assert (forall pos, rfind_from [c] (s ++ c :: t) pos = Some (pos + length s)%nat) as ->; [|done].
  induction s as [|d s IH]; intros pos; cbn [app rfind_from length].
  - rewrite (Hnone _ t Ht). cbn [starts_with]. unfold ch_eqb. rewrite Ascii.eqb_refl. f_equal. lia.
  - rewrite IH. f_equal. lia.
Qed.

(** An argument is an address and a port behind the last colon, or behind a closing
    bracket and a colon for IPv6. *)
Theorem split_target_forms ip port :
  (":"%char ∉ port -> split_target AF_INET (ip ++ ":"%char :: port) = Some (ip, port)) /\
  ("]"%char ∉ port -> split_target AF_INET6 ("["%char :: ip ++ "]"%char :: ":"%char :: port) = Some (ip, port)).
Proof.
  split; intros Hp; unfold split_target.
  - change (AF_INET =? AF_INET6) with false. rewrite rfind_last by done. rewrite take_app_length, Nat.add_1_r. f_equal. f_equal.
    by rewrite drop_app_ge, Nat.sub_succ_l, Nat.sub_diag by lia.
  - change (AF_INET6 =? AF_INET6) with true. change ("["%char :: ip ++ "]"%char :: ":"%char :: port) with (("["%char :: ip) ++ "]"%char :: ":"%char :: port).
    rewrite rfind_last by (apply not_elem_of_cons; done). rewrite bool_decide_true by done. rewrite bool_decide_true.
    2: { rewrite lookup_app_r by lia. by replace (S (length ("["%char :: ip)) - length ("["%char :: ip))%nat with 1%nat by lia. }
    cbn [negb orb]. rewrite take_app_length, drop_app_ge by lia. f_equal. f_equal.
    by replace (length ("["%char :: ip) + 2 - length ("["%char :: ip))%nat with 2%nat by lia.
Qed.

(** ** Witnesses and counterexamples *)

Definition wit_info (c : ascii) : addrinfo := mkAddrinfo [c] 16.
Definition wit_mem : mem block :=
  mkMem (<[1 := Targets [Some 2; Some 3]]> (<[2 := Info (wit_info "a")]> {[3 := Info (wit_info "b")]})) 0.
Definition wit_data (s : send_method_t) (msgs : Z) : run_data_t := mkRun s (mkTargets (Some 1) 2) 7 2 msgs.

Lemma m_send_exact_witness :
  exists ret m' n' sent unsent,
    m_send (H := wit_alloc (fun n => (n =? 5)%nat)) (fun k => if (k =? 9)%nat then Some 105 else None) (wit_data SENDMMSG 3) wit_mem (mkNet [] 0) = Ret (ret, m', n') /\
    blocks m' = blocks wit_mem /\
    planned (wit_data SENDMMSG 3) [wit_info "a"; wit_info "b"] = sent ++ unsent /\ wire n' = [] ++ sent /\
    (ret = 0 /\ (unsent = [] \/ r_syscall (wit_data SENDMMSG 3) = SENDMMSG /\ sent <> []) \/
     ret = ENOMEM /\ @out_of_memory block (wit_alloc (fun n => (n =? 5)%nat)) \/
     (exists k, (if (k =? 9)%nat then Some 105 else None) = Some ret)).
Proof.
  apply (m_send_exact (H := wit_alloc (fun n => (n =? 5)%nat)) (fun k => if (k =? 9)%nat then Some 105 else None)
    (wit_data SENDMMSG 3) [wit_info "a"; wit_info "b"] wit_mem (mkNet [] 0)).
  - exists 1, [Some 2; Some 3]. split; [reflexivity|]. split; [reflexivity|]. split; [reflexivity|].
    constructor; [by exists 2|]. constructor; [by exists 3|constructor].
  - intros k e. destruct (k =? 9)%nat; [intros [= <-]; lia|discriminate].
  - cbn. lia.
  - cbn. lia.
  - intros _. cbn. lia.
Defined.

(** Two targets with 2^31 messages each: the size of the array wraps around to 0,
    and the first message is written behind it. *)
Theorem message_count_overflow :
  m_send (H := wit_alloc (fun _ => false)) (fun _ => None) (wit_data SENDMMSG (2 ^ 31)) wit_mem (mkNet [] 0) = Crash.
Proof.
  unfold m_send, send_sendmmsg, mmsghdr_new. cbn [r_syscall wit_data targets len r_msgs_per_target].
  change (u32 (2 * 2 ^ 31)) with 0. change (Z.to_nat 0) with 0%nat. change (Z.to_nat 2) with 2%nat.
  cbn [replicate new_targets]. destruct (Z.to_nat (2 ^ 31)) as [|k] eqn:E; [lia|]. cbn [new_messages].
  vm_compute. reflexivity.
Qed.

(** An address that is not found: the addresses found before stay allocated. *)
Theorem get_targets_leaks :
  exists m', get_targets (H := wit_alloc (fun _ => false))
    (fun _ ip _ => match ip with [] => inl 1 | _ => inr (mkAddrinfo ip 16) end) [["a"%char]; []] AF_INET (mkMem ∅ 0) = Ret (None, m') /\ blocks m' <> ∅.
Proof. eexists. split; [vm_compute; reflexivity|]. vm_compute. discriminate. Qed.
