(* ===== verification/Nats.v ===== *)
(** * The signal clients over NATS

    NatsSignalServiceClient.cpp, the third implementation of the interface of
    [SignalClient], and the small client library of collector-nats.  The C client of
    NATS and the serialization of protobuf messages are parameters: the answers of
    the library are given per call. *)

From S2P Require Import Prelude CStrings Utility Signals SignalClient ProcessSignals.

(** ** The library *)

(** The n-th call of the library: a new connection, or none; whether a publication
    was taken; whether the connection is closed. *)
Class NatsLib := {
  nats_connect : nat -> list Z -> chars -> option Z;
  nats_publish_ok : nat -> bool;
  nats_is_closed : nat -> bool;
  nats_connect_fresh n live url k : nats_connect n live url = Some k -> k ∉ live
}.

(** A connection as the clients hold it: [live_] are the connections that were made
    and not destroyed, [wire_] the messages that the library took, by subject. *)
Record NatsConn := mkNatsConn {
  url_ : chars; cluster_id_ : chars; conn_ : option Z; connected_ : bool;
  live_ : list Z; calls_ : nat; wire_ : list (chars * chars)
}.

Section nats.
Context `{nats : NatsLib}.
Implicit Types c : NatsConn.

Definition NatsConn_make (url cluster_id : chars) : NatsConn := mkNatsConn url cluster_id None false [] 0 [].

Definition Connect c : bool * NatsConn :=
  match nats_connect (calls_ c) (live_ c) (url_ c) with
  | None => (false, mkNatsConn (url_ c) (cluster_id_ c) (conn_ c) (connected_ c) (live_ c) (S (calls_ c)) (wire_ c))
  | Some k => (true, mkNatsConn (url_ c) (cluster_id_ c) (Some k) true (k :: live_ c) (S (calls_ c)) (wire_ c))
  end.

(** Destroying a connection that does not exist is undefined. *)
Definition Disconnect c : outcome NatsConn :=
  match conn_ c with
  | Some k =>
      if bool_decide (k ∈ live_ c)
      then Ret (mkNatsConn (url_ c) (cluster_id_ c) None false (List.filter (fun j => negb (j =? k)) (live_ c)) (S (calls_ c)) (wire_ c))
      else Crash
  | None => Ret (mkNatsConn (url_ c) (cluster_id_ c) None false (live_ c) (calls_ c) (wire_ c))
  end.

Definition BuildSubject c (event_type : chars) : chars := chars_of "acs." ++ cluster_id_ c ++ chars_of "." ++ event_type.

(** [natsConnection_Publish] and what follows it: a null connection is refused and
    counts as closed. *)
Definition publish c (subject data : chars) : outcome (bool * NatsConn) :=
  let closed := mkNatsConn (url_ c) (cluster_id_ c) (conn_ c) false (live_ c) (S (calls_ c)) (wire_ c) in
  match conn_ c with
  | None => Ret (false, closed)
  | Some k =>
      if negb (bool_decide (k ∈ live_ c)) then Crash
      else if nats_publish_ok (calls_ c)
      then Ret (true, mkNatsConn (url_ c) (cluster_id_ c) (conn_ c) (connected_ c) (live_ c) (S (calls_ c)) (wire_ c ++ [(subject, data)]))
      else Ret (false, if nats_is_closed (calls_ c) then closed
                       else mkNatsConn (url_ c) (cluster_id_ c) (conn_ c) (connected_ c) (live_ c) (S (calls_ c)) (wire_ c))
  end.

(** ** The client library (collector-nats) *)

Definition NatsClient_make : chars -> chars -> NatsConn := NatsConn_make.
Definition NatsClient_Start c : bool * NatsConn := if connected_ c then (true, c) else Connect c.
Definition NatsClient_Stop c : outcome NatsConn := Disconnect c.
Definition IsConnected c : bool := connected_ c.
Definition Publish c (subject data : chars) : outcome (bool * NatsConn) :=
  if negb (connected_ c) then Ret (false, c) else publish c subject data.
Definition PublishProcessEvent c (data : chars) : outcome (bool * NatsConn) :=
  Publish c (BuildSubject c (chars_of "process-events")) data.
Definition PublishNetworkEvent c (data : chars) : outcome (bool * NatsConn) :=
  Publish c (BuildSubject c (chars_of "network-events")) data.

(** ** The signal client *)

Record ProcessEvent := mkProcessEvent {
  pe_cluster_id : chars; pe_timestamp_ns : option Z; pe_container_id : chars; pe_id : chars; pe_name : chars;
  pe_exec_file_path : chars; pe_args : chars; pe_pid : Z; pe_uid : Z; pe_gid : Z; pe_lineage : list LineageInfo
}.

(** A process signal as protobuf carries it, where the time may be absent; and a message,
    which may hold no signal, or one that is not a process signal ([None]). *)
Record WireSignal := mkWireSignal { ws_signal : ProcessSignal; ws_has_time : bool }.
Definition NatsMessage : Type := option WireSignal.

Definition ConvertToProcessEvent (ws : WireSignal) (cluster_id : chars) : ProcessEvent :=
  let signal := ws_signal ws in
  mkProcessEvent cluster_id (if ws_has_time ws then Some (ps_time_ns signal) else None) (ps_container_id signal) (ps_id signal) (ps_name signal)
    (ps_exec_file_path signal) (ps_args signal) (ps_pid signal) (ps_uid signal) (ps_gid signal) (ps_lineage_info signal).

(** [SerializeToString], which may fail. *)
Context (serialize : ProcessEvent -> option chars).

(** [pushed_] are the signals that went out. *)
Record NatsSignalServiceClient := mkNatsClient { nc_ : NatsConn; pushed_ : list WireSignal }.
Definition NatsSignalServiceClient_make (url cluster_id : chars) : NatsSignalServiceClient :=
  mkNatsClient (NatsConn_make url cluster_id) [].

Definition Nats_Start (c : NatsSignalServiceClient) : NatsSignalServiceClient :=
  if connected_ (nc_ c) then c else mkNatsClient (Connect (nc_ c)).2 (pushed_ c).
Definition Nats_Stop (c : NatsSignalServiceClient) : outcome NatsSignalServiceClient :=
  nc ← Disconnect (nc_ c); Ret (mkNatsClient nc (pushed_ c)).

Definition Nats_PushSignals (msg : NatsMessage) (c : NatsSignalServiceClient)
    : outcome (NatsSignalServiceClient * SignalResult.t) :=
  if negb (connected_ (nc_ c)) then Ret (c, SignalResult.ERROR)
  else
    match msg with
    | Some signal =>
        match serialize (ConvertToProcessEvent signal (cluster_id_ (nc_ c))) with
        | None => Ret (c, SignalResult.ERROR)
        | Some serialized =>
            '(ok, nc) ← publish (nc_ c) (BuildSubject (nc_ c) (chars_of "process-events")) serialized;
            if ok : bool then Ret (mkNatsClient nc (pushed_ c ++ [signal]), SignalResult.PROCESSED)
            else Ret (mkNatsClient nc (pushed_ c), SignalResult.ERROR)
        end
    | None => Ret (c, SignalResult.PROCESSED)
    end.

(** The formatter of process signals always sets the time. *)
#[global] Instance nats_client : ISignalServiceClient SignalStreamMessage NatsSignalServiceClient := {
  Start := Nats_Start; Stop := Nats_Stop; PushSignals msg := Nats_PushSignals (Some (mkWireSignal msg true))
}.

(** ** A session: any sequence of calls *)

Inductive NatsOp := OpStart | OpStop | OpPush (msg : NatsMessage).

Fixpoint session (ops : list NatsOp) (c : NatsSignalServiceClient) : outcome (list (NatsMessage * SignalResult.t) * NatsSignalServiceClient) :=
  match ops with
  | [] => Ret ([], c)
  | OpStart :: ops => session ops (Nats_Start c)
  | OpStop :: ops => c ← Nats_Stop c; session ops c
  | OpPush msg :: ops =>
      '(c, r) ← Nats_PushSignals msg c;
      '(rs, c) ← session ops c;
      Ret ((msg, r) :: rs, c)
  end.
End nats.

(** ** Laws *)

#[global] Instance signal_result_eq_dec : EqDecision SignalResult.t.
Proof. solve_decision. Defined.

Section laws.
Context `{nats : NatsLib} (serialize : ProcessEvent -> option chars).
Implicit Types (c : NatsConn) (k : NatsSignalServiceClient).

Lemma Nats_push_cases msg k k' r : Nats_PushSignals serialize msg k = Ret (k', r) ->
  (r = SignalResult.PROCESSED /\ pushed_ k' = pushed_ k ++ option_list msg) \/ (r = SignalResult.ERROR /\ pushed_ k' = pushed_ k).
Proof.
  unfold Nats_PushSignals. destruct (connected_ (nc_ k)); cbn [negb]; [|by intros [= <- <-]; right].
  destruct msg as [signal|]; [|intros [= <- <-]; left; by rewrite app_nil_r].
  destruct (serialize _); [|by intros [= <- <-]; right]. intros H. inv_bind H. destruct b; injection H as <- <-; [by left|by right].
Qed.

#[global] Instance nats_client_spec : @SignalServiceClientSpec SignalStreamMessage _ (nats_client serialize).
Proof.
  refine {| sent k := ws_signal <$> pushed_ k |}; intros m c c' r Hp; apply Nats_push_cases in Hp as [[-> E]|[-> E]]; rewrite ?E, ?fmap_app; auto.
Defined.

(** What holds between any two calls. *)
Definition conn_ok c : Prop :=
  NoDup (live_ c) /\ (forall j, conn_ c = Some j -> j ∈ live_ c) /\ (connected_ c = true -> is_Some (conn_ c)).

Lemma conn_ok_make url cluster : conn_ok (NatsConn_make url cluster).
Proof. split; [constructor|]. by split. Qed.

Lemma Connect_ok c : conn_ok c -> conn_ok (Connect c).2.
Proof.
  intros (Hn & Hc & Hd). unfold Connect. destruct (nats_connect _ _ _) as [j|] eqn:E; cbn [snd]; [|by split].
  apply nats_connect_fresh in E. split; [by constructor|]. split; [intros i [= <-]; by left|by intros _; eexists].
Qed.

Lemma Disconnect_ok c : conn_ok c ->
  exists c', Disconnect c = Ret c' /\ conn_ok c' /\ conn_ c' = None /\ connected_ c' = false /\
    url_ c' = url_ c /\ cluster_id_ c' = cluster_id_ c /\ wire_ c' = wire_ c /\
    forall j, j ∈ live_ c' <-> j ∈ live_ c /\ conn_ c <> Some j.
Proof.
  intros (Hn & Hc & Hd). unfold Disconnect. destruct (conn_ c) as [k|] eqn:E.
  - rewrite bool_decide_true by by apply Hc. eexists. split; [done|]. split; [|split_and!; [done..|]].
    + split; [|by split]. cbn. apply NoDup_ListNoDup, List.NoDup_filter, NoDup_ListNoDup, Hn.
    + intros j. cbn. rewrite !list_elem_of_In, List.filter_In, negb_true_iff, Z.eqb_neq. split; intros [H1 H2]; split; try done; congruence.
  - eexists. split; [done|]. split; [by split|]. split_and!; try done. intros j. cbn. split; [by intros|by intros []].
Qed.

Lemma publish_ok c subject data : conn_ok c -> connected_ c = true ->
  exists ok c', publish c subject data = Ret (ok, c') /\ conn_ok c' /\ conn_ c' = conn_ c /\ live_ c' = live_ c /\ cluster_id_ c' = cluster_id_ c /\
    wire_ c' = if ok then wire_ c ++ [(subject, data)] else wire_ c.
Proof.
  intros (Hn & Hc & Hd) Hcon. unfold publish. destruct (Hd Hcon) as [k Hk]. rewrite Hk in *. rewrite bool_decide_true by by apply Hc. cbn [negb].
  destruct (nats_publish_ok (calls_ c)); [|destruct (nats_is_closed (calls_ c))].
  all: eexists _, _; (split; [done|]); (split; [split_and!; cbn; rewrite ?Hk; try done|split_and!; done]).
Qed.

(** The message that goes out for a signal. *)
Definition wire_of (cluster : chars) (msg : WireSignal) : chars * chars :=
  (chars_of "acs." ++ cluster ++ chars_of ".process-events", default [] (serialize (ConvertToProcessEvent msg cluster))).

Definition session_ok (cluster : chars) k : Prop :=
  conn_ok (nc_ k) /\ cluster_id_ (nc_ k) = cluster /\ wire_ (nc_ k) = wire_of cluster <$> pushed_ k.

Lemma push_ok cluster msg k : session_ok cluster k ->
  exists k' r, Nats_PushSignals serialize msg k = Ret (k', r) /\ session_ok cluster k' /\
    pushed_ k' = (if decide (r = SignalResult.PROCESSED) then pushed_ k ++ option_list msg else pushed_ k) /\
    (r = SignalResult.PROCESSED \/ r = SignalResult.ERROR).
Proof.
  intros (Hc & Hid & Hw). unfold Nats_PushSignals. destruct (connected_ (nc_ k)) eqn:Econ; cbn [negb]; [|eexists k, _; split_and!; [done|done|done|by right]].
  destruct msg as [msg|]; [|eexists k, _; split_and!; [done|done|by rewrite app_nil_r|by left]].
  destruct (serialize _) as [data|] eqn:Es; [|eexists k, _; split_and!; [done|done|done|by right]].
  destruct (publish_ok (nc_ k) (BuildSubject (nc_ k) (chars_of "process-events")) data Hc Econ) as (ok & c' & -> & Hc' & _ & _ & Hid' & Hw').
  cbn [mbind outcome_bind]. destruct ok.
  - eexists _, _. split; [done|]. split; [|split; [by rewrite decide_True by done|by left]]. split; [done|]. split; [by rewrite <- Hid|].
    cbn [pushed_ nc_]. rewrite Hw', Hw, fmap_app. f_equal. cbn. unfold wire_of. rewrite Hid in Es. rewrite Es. cbn [default id]. unfold BuildSubject. by rewrite Hid.
  - eexists _, _. split; [done|]. split; [|split; [done|by right]]. split; [done|]. split; [by rewrite <- Hid|]. cbn. by rewrite Hw'.
Qed.

(** The signals of the messages that were reported as processed. *)
Definition processed (rs : list (NatsMessage * SignalResult.t)) : list WireSignal :=
  omap (fun r => if decide (r.2 = SignalResult.PROCESSED) then r.1 else None) rs.

Lemma session_total cluster ops : forall k, session_ok cluster k ->
  exists rs k', session serialize ops k = Ret (rs, k') /\ session_ok cluster k' /\
    pushed_ k' = pushed_ k ++ processed rs /\
    (forall m r, (m, r) ∈ rs -> r = SignalResult.PROCESSED \/ r = SignalResult.ERROR).
Proof.
  induction ops as [|[| |msg] ops IH]; intros k Hk; cbn [session].
  - exists [], k. split_and!; try done; [by rewrite app_nil_r|]. by intros m r ?%elem_of_nil.
  - assert (pushed_ (Nats_Start k) = pushed_ k) as <- by (unfold Nats_Start; by destruct (connected_ (nc_ k))).
    apply IH. unfold Nats_Start. destruct (connected_ (nc_ k)); [done|]. destruct Hk as (Hc & Hid & Hw).
    split; [by apply Connect_ok|]. unfold Connect. by destruct (nats_connect _ _ _).
  - destruct Hk as (Hc & Hid & Hw). unfold Nats_Stop. destruct (Disconnect_ok _ Hc) as (c' & -> & Hc' & _ & _ & _ & Hid' & Hw' & _).
    cbn [mbind outcome_bind]. destruct (IH (mkNatsClient c' (pushed_ k))) as (rs & k' & ? & ? & ? & ?); [|by exists rs, k'].
    split; [done|]. cbn. by rewrite Hid', Hw'.
  - destruct (push_ok cluster msg k Hk) as (k1 & r & -> & Hk1 & Hp & Hr). cbn [mbind outcome_bind].
    destruct (IH k1 Hk1) as (rs & k' & -> & Hk' & Hp' & Hrs). cbn [mbind outcome_bind]. eexists _, k'. split; [done|]. split; [done|]. split.
    + rewrite Hp', Hp. unfold processed. cbn [omap list_omap fst snd]. destruct (decide (r = SignalResult.PROCESSED)); [|done].
      destruct msg; cbn [option_list]; [by rewrite <- app_assoc|by rewrite app_nil_r].
    + intros m r' [[= -> ->]|Hin]%elem_of_cons; [done|by eapply Hrs].
Qed.

(** C13: over any sequence of starts, stops and pushes that are made one after the other,
    whatever the library answers, the client never uses a connection that was destroyed;
    the library holds exactly the process signals whose push returned PROCESSED, each
    once, in order, converted and serialized, under the subject of the cluster; a
    message without a process signal puts nothing there, whatever its push returned;
    a push returns nothing but PROCESSED and ERROR; and after a stop there is no
    connection. *)
Theorem nats_session url cluster ops :
  exists rs k', session serialize ops (NatsSignalServiceClient_make url cluster) = Ret (rs, k') /\
    wire_ (nc_ k') = wire_of cluster <$> processed rs /\
    (forall m r, (m, r) ∈ rs -> r = SignalResult.PROCESSED \/ r = SignalResult.ERROR) /\
    conn_ok (nc_ k') /\
    exists k'', Nats_Stop k' = Ret k'' /\ conn_ (nc_ k'') = None /\ connected_ (nc_ k'') = false.
Proof.
  destruct (session_total cluster ops (NatsSignalServiceClient_make url cluster)) as (rs & k' & E & (Hc & _ & Hw) & Hp & Hr).
  { split; [apply conn_ok_make|done]. }
  exists rs, k'. split; [done|]. split; [by rewrite Hw, Hp|]. split; [done|]. split; [done|].
  unfold Nats_Stop. destruct (Disconnect_ok _ Hc) as (c' & -> & _ & H1 & H2 & _). by eexists.
Qed.

(** Once the library has closed the connection, no push goes out until somebody
    calls [Start] again, and then the old connection is never destroyed. *)
Theorem nats_no_reconnect k msg :
  connected_ (nc_ k) = false -> Nats_PushSignals serialize msg k = Ret (k, SignalResult.ERROR).
Proof. intros H. unfold Nats_PushSignals. by rewrite H. Qed.

Theorem nats_restart_leaks k j i :
  connected_ (nc_ k) = false -> conn_ (nc_ k) = Some j -> j ∈ live_ (nc_ k) ->
  nats_connect (calls_ (nc_ k)) (live_ (nc_ k)) (url_ (nc_ k)) = Some i -> conn_ok (nc_ k) ->
  exists k', Nats_Stop (Nats_Start k) = Ret k' /\ conn_ (nc_ k') = None /\ j ∈ live_ (nc_ k').
Proof.
  intros Hcon Hj Hin Hi Hok. unfold Nats_Start. rewrite Hcon. pose proof (Connect_ok _ Hok) as Hok'. pose proof (nats_connect_fresh _ _ _ _ Hi) as Hf.
  unfold Connect in *. rewrite Hi in *. cbn [snd] in *. unfold Nats_Stop. cbn [nc_].
  destruct (Disconnect_ok _ Hok') as (c' & -> & _ & H1 & _ & _ & _ & _ & Hl). cbn [mbind outcome_bind].
  eexists. split; [done|]. split; [done|]. cbn [nc_]. apply Hl. cbn. split; [by right|]. intros [= ->]. done.
Qed.

(** [PushSignals] does not take the lock that [Stop] holds: a push that has found the
    client connected and has loaded the connection publishes on a destroyed one when a
    stop of another thread comes in between. *)
Theorem push_races_with_stop c j subject data c' : conn_ok c -> conn_ c = Some j -> Disconnect c = Ret c' ->
  publish (mkNatsConn (url_ c') (cluster_id_ c') (Some j) (connected_ c') (live_ c') (calls_ c') (wire_ c')) subject data = Crash.
Proof.
  intros Hok Hj E. destruct (Disconnect_ok c Hok) as (c1 & E' & _ & _ & _ & _ & _ & _ & Hl). rewrite E in E'. injection E' as <-.
  unfold publish. cbn [conn_ live_]. rewrite bool_decide_false; [done|]. rewrite Hl. by intros [_ []].
Qed.

(** The client library keeps the same invariant: a publication that returns true
    is on the wire under its subject, and any other changes nothing there. *)
Theorem NatsClient_Publish_exact c subject data : conn_ok c ->
  exists ok c', Publish c subject data = Ret (ok, c') /\ conn_ok c' /\ live_ c' = live_ c /\
    (ok = true -> IsConnected c = true) /\ wire_ c' = if ok then wire_ c ++ [(subject, data)] else wire_ c.
Proof.
  intros Hc. unfold Publish, IsConnected. destruct (connected_ c) eqn:E; cbn [negb]; [|by eexists false, c].
  destruct (publish_ok c subject data Hc E) as (ok & c' & -> & H1 & _ & H2 & _ & H3). by exists ok, c'.
Qed.
End laws.

(** ** Witness: a library that loses the connection at its fourth call *)

Definition wit_nats : NatsLib.
Proof.
  refine {| nats_connect n live _ := Some (1 + foldr Z.max 0 live); nats_publish_ok n := negb (n =? 3)%nat; nats_is_closed n := (n =? 3)%nat |}.
  intros n live url k [= <-] Hin. assert (forall x, x ∈ live -> x <= foldr Z.max 0 live) as Hle; [|apply Hle in Hin; lia].
  intros x Hx. clear Hin. induction Hx; cbn [foldr]; lia.
Defined.
Definition wit_signal (pid : Z) : NatsMessage := Some (mkWireSignal (mkProcessSignal [] [] [] [] pid 0 0 0 [] false []) true).
Definition wit_serialize (e : ProcessEvent) : option chars := Some [chr (pe_pid e)].
Definition wit_ops : list NatsOp := [OpPush (wit_signal 1); OpStart; OpPush (wit_signal 2); OpPush None; OpPush (wit_signal 3); OpPush (wit_signal 4); OpPush (wit_signal 5)].

Lemma nats_session_witness :
  (exists k, session (nats := wit_nats) wit_serialize wit_ops (NatsSignalServiceClient_make (chars_of "nats://b") (chars_of "c1")) =
     Ret ([(wit_signal 1, SignalResult.ERROR); (wit_signal 2, SignalResult.PROCESSED); (None, SignalResult.PROCESSED); (wit_signal 3, SignalResult.PROCESSED);
           (wit_signal 4, SignalResult.ERROR); (wit_signal 5, SignalResult.ERROR)], k)) /\
  exists rs k', session (nats := wit_nats) wit_serialize wit_ops (NatsSignalServiceClient_make (chars_of "nats://b") (chars_of "c1")) = Ret (rs, k') /\
    wire_ (nc_ k') = wire_of wit_serialize (chars_of "c1") <$> processed rs /\
    (forall m r, (m, r) ∈ rs -> r = SignalResult.PROCESSED \/ r = SignalResult.ERROR) /\
    conn_ok (nc_ k') /\
    exists k'', Nats_Stop k' = Ret k'' /\ conn_ (nc_ k'') = None /\ connected_ (nc_ k'') = false.
Proof.
  split; [eexists; vm_compute; reflexivity|].
  exact (nats_session (nats := wit_nats) wit_serialize (chars_of "nats://b") (chars_of "c1") wit_ops).
Defined.
