(* ===== verification/Logging.v ===== *)
(** * Log statements (Logging.h, Logging.cpp)

    A log statement has a header of its own, made when it is first reached; what it
    prints goes to the console, and a fatal one ends the process.  Throttled
    statements count what they suppress.  The clock and the text of a date are inputs;
    levels and their names are those of [CollectorConfig]. *)

From stdpp Require Import pretty.
From S2P Require Import Prelude CStrings Utility CollectorConfig.

Definition LevelPaddingWidth : nat := 7.

(** The console, the termination log of the pod, and the exit code once the process
    has ended. *)
Record Console := mkConsole {
  g_level : LogLevel.t; g_log_prefix : chars; cerr : chars;
  termination_open : bool; termination : option chars; exited : option Z
}.

Definition SetLogLevel (level : LogLevel.t) (c : Console) : Console :=
  mkConsole level (g_log_prefix c) (cerr c) (termination_open c) (termination c) (exited c).
Definition SetGlobalLogPrefix (prefix : chars) (c : Console) : Console :=
  mkConsole (g_level c) prefix (cerr c) (termination_open c) (termination c) (exited c).
Definition print (text : chars) (c : Console) : Console :=
  mkConsole (g_level c) (g_log_prefix c) (cerr c ++ text) (termination_open c) (termination c) (exited c).

Definition WriteTerminationLog (message : chars) (c : Console) : Console :=
  if termination_open c
  then mkConsole (g_level c) (g_log_prefix c) (cerr c) (termination_open c) (Some message) (exited c)
  else c.
Definition exit (code : Z) (c : Console) : Console :=
  mkConsole (g_level c) (g_log_prefix c) (cerr c) (termination_open c) (termination c) (Some code).

Definition GetLogLevelShortName (level : LogLevel.t) : ascii :=
  match level with
  | LogLevel.TRACE => "T" | LogLevel.DEBUG => "D" | LogLevel.INFO => "I" | LogLevel.WARNING => "W"
  | LogLevel.ERROR => "E" | LogLevel.FATAL => "F" | _ => "U"
  end%char.

(** ** Headers *)

Record LogHeader := mkLogHeader { file_ : chars; line_ : Z; level_ : LogLevel.t }.

(** The last component of the path, the path itself if that is empty. *)
Definition LogHeader_make (file : chars) (line : Z) (level : LogLevel.t) : LogHeader :=
  let name := match rfind (chars_of "/") file with Some pos => drop (pos + 1) file | None => file end in
  mkLogHeader (if is_empty name then file else name) line level.

Definition pad (width : nat) (s : chars) : chars := s ++ replicate (width - length s) " "%char.

(** [date] is what [put_time] makes of the current time. *)
Definition PrintPrefix (date : chars) (h : LogHeader) (c : Console) : Console :=
  print (g_log_prefix c ++ chars_of "[" ++ pad LevelPaddingWidth (GetLogLevelName (level_ h)) ++ chars_of " " ++ date ++ chars_of "] ") c.
Definition PrintFile (h : LogHeader) (c : Console) : Console :=
  if CheckLogLevel (g_level c) LogLevel.DEBUG
  then print (chars_of "(" ++ file_ h ++ chars_of ":" ++ chars_of (pretty (line_ h)) ++ chars_of ") ") c
  else c.
Definition PrintHeader (date : chars) (h : LogHeader) (c : Console) : Console := PrintFile h (PrintPrefix date h c).

(** Times are in nanoseconds. *)
Record ThrottledLogHeader := mkThrottled { base : LogHeader; last_log_ : Z; interval_ : Z; count_ : Z }.
Definition ThrottledLogHeader_make (file : chars) (line : Z) (level : LogLevel.t) (interval : Z) : ThrottledLogHeader :=
  mkThrottled (LogHeader_make file line level) 0 interval 0.

Definition Throttled_PrintHeader (date : chars) (h : ThrottledLogHeader) (c : Console) : ThrottledLogHeader * Console :=
  let c := PrintPrefix date (base h) c in
  let c := print (chars_of "[Throttled " ++ chars_of (pretty (count_ h)) ++ chars_of " messages] ") c in
  (mkThrottled (base h) (last_log_ h) (interval_ h) 0, PrintFile (base h) c).

(** [now] and [now'] are the two readings of the clock. *)
Definition Suppress (now now' : Z) (h : ThrottledLogHeader) : bool * ThrottledLogHeader :=
  let elapsed := now - last_log_ h in
  let count := u64 (count_ h + 1) in
  if elapsed <? interval_ h then (true, mkThrottled (base h) (last_log_ h) (interval_ h) count)
  else (false, mkThrottled (base h) now' (interval_ h) count).

(** ** Statements *)

(** The destructor of the message, behind the header. *)
Definition finish_message (level : LogLevel.t) (buf : chars) (c : Console) : Console :=
  let c := print (buf ++ ["010"%char]) c in
  if bool_decide (level = LogLevel.FATAL) then exit 1 (WriteTerminationLog buf c) else c.

(** [<<] of a vector of texts. *)
Definition append_all (args : list chars) : chars := concat (map (fun arg => arg ++ ["010"%char]) args).

Definition LogMessage (date : chars) (h : LogHeader) (buf : chars) (c : Console) : Console :=
  finish_message (level_ h) buf (PrintHeader date h c).

Definition CLOG_IF (cond : bool) (date : chars) (h : LogHeader) (buf : chars) (c : Console) : Console :=
  if CheckLogLevel (g_level c) (level_ h) && cond then LogMessage date h buf c else c.
Definition CLOG : chars -> LogHeader -> chars -> Console -> Console := CLOG_IF true.

Definition CLOG_THROTTLED_IF (cond : bool) (now now' : Z) (date : chars) (h : ThrottledLogHeader) (buf : chars) (c : Console)
    : ThrottledLogHeader * Console :=
  if CheckLogLevel (g_level c) (level_ (base h)) && cond then
    let '(suppressed, h) := Suppress now now' h in
    if suppressed then (h, c)
    else let '(h, c) := Throttled_PrintHeader date h c in (h, finish_message (level_ (base h)) buf c)
  else (h, c).

(** The callback of the inspector: its header is made by the first message that is
    printed. *)
Definition InspectorLogCallback (date : chars) (msg : chars) (severity : LogLevel.t) (header : option LogHeader) (c : Console)
    : option LogHeader * Console :=
  let collector_severity :=
    if bool_decide (severity = LogLevel.DEBUG) && starts_with (chars_of "libbpf:") msg then LogLevel.TRACE else severity in
  if negb (CheckLogLevel (g_level c) collector_severity) then (header, c)
  else
    let h := default (LogHeader_make (chars_of "Logging.cpp") 117 collector_severity) header in
    (Some h, LogMessage date h msg c).

(** ** Lemmas *)

(** A throttled statement over the readings of the clock at its calls: when it
    printed, and the number it printed. *)
Fixpoint throttle (calls : list (Z * Z)) (h : ThrottledLogHeader) : list (Z * Z) * ThrottledLogHeader :=
  match calls with
  | [] => ([], h)
  | (now, now') :: calls =>
      let '(suppressed, h) := Suppress now now' h in
      if suppressed then throttle calls h
      else
        let '(prints, h') := throttle calls (mkThrottled (base h) (last_log_ h) (interval_ h) 0) in
        ((now, count_ h) :: prints, h')
  end.

(** The clock does not go back. *)
Fixpoint ordered (t : Z) (calls : list (Z * Z)) : Prop :=
  match calls with
  | [] => True
  | (now, now') :: calls => t <= now /\ now <= now' /\ ordered now' calls
  end.

(** Consecutive prints are at least [d] apart, the first one from [t]. *)
Fixpoint spaced (d t : Z) (prints : list (Z * Z)) : Prop :=
  match prints with
  | [] => True
  | (now, _) :: prints => t + d <= now /\ spaced d now prints
  end.

Lemma spaced_weaken d t t' prints : t' <= t -> spaced d t prints -> spaced d t' prints.
Proof. destruct prints as [|[now n] prints]; [done|]. cbn. intros ? []. split; [lia|done]. Qed.

Definition total (prints : list (Z * Z)) : Z := foldr Z.add 0 (snd <$> prints).

Lemma throttle_inv calls : forall h,
  0 <= count_ h -> count_ h + Z.of_nat (length calls) < 2 ^ 64 -> (exists t, ordered t calls) ->
  let '(prints, h') := throttle calls h in
  total prints + count_ h' = count_ h + Z.of_nat (length calls) /\ spaced (interval_ h) (last_log_ h) prints.
Proof.
  induction calls as [|[now now'] calls IH]; intros h H0 Hmax [t Ht]; cbn [throttle].
  { split; [cbn; lia|done]. }
  cbn [length] in Hmax. destruct Ht as (Ht & Hn & Ho). unfold Suppress.
  assert (u64 (count_ h + 1) = count_ h + 1) as -> by (apply wrap_id; split; lia).
  destruct (Z.ltb_spec (now - last_log_ h) (interval_ h)) as [Hlt|Hge].
  - specialize (IH (mkThrottled (base h) (last_log_ h) (interval_ h) (count_ h + 1))). cbn [count_ last_log_ interval_ base] in IH.
    destruct (throttle calls _) as [prints h']. destruct IH as [H1 H2]; [lia|lia|by eexists|]. split; [cbn [length]; lia|done].
  - specialize (IH (mkThrottled (base h) now' (interval_ h) 0)). cbn [count_ last_log_ interval_ base] in IH |- *.
    destruct (throttle calls _) as [prints h']. destruct IH as [H1 H2]; [lia|lia|by eexists|]. split.
    + unfold total in *. cbn [fmap list_fmap foldr snd length]. lia.
    + cbn [spaced]. split; [lia|]. by eapply spaced_weaken, H2.
Qed.

(** A throttled statement loses no message and does not flood the log: the numbers
    it has printed and the number it holds add up to its calls, and two prints, like
    the first print and the start of the clock, are at least the interval apart.  If
    it prints nothing, every call came within the interval. *)
Theorem throttle_accounts file line level interval calls :
  (exists t, ordered t calls) -> Z.of_nat (length calls) < 2 ^ 64 ->
  let '(prints, h') := throttle calls (ThrottledLogHeader_make file line level interval) in
  total prints + count_ h' = Z.of_nat (length calls) /\ spaced interval 0 prints /\
  (prints = [] -> forall now now', (now, now') ∈ calls -> now < interval).
Proof.
  intros Ho Hmax. pose proof (throttle_inv calls (ThrottledLogHeader_make file line level interval)) as H. cbn [count_ ThrottledLogHeader_make] in H.
  destruct (throttle calls _) as [prints h'] eqn:E. destruct H as [H1 H2]; [lia|lia|done|]. split; [done|]. split; [done|].
  intros ->. assert (forall h, throttle calls h = ([], h') -> forall now now', (now, now') ∈ calls -> now < last_log_ h + interval_ h) as Hq.
  { clear. induction calls as [|[n n'] calls IH]; intros h E now now' Hin; [by apply elem_of_nil in Hin|]. cbn [throttle] in E. unfold Suppress in E.
    destruct (Z.ltb_spec (n - last_log_ h) (interval_ h)); [|by destruct (throttle calls _)].
    apply elem_of_cons in Hin as [[= -> ->]|Hin]; [lia|]. by apply (IH _ E now now' Hin). }
  intros now now' Hin. apply (Hq _ E) in Hin. cbn in Hin. lia.
Qed.

(** The counts that [throttle] speaks of are what the statement prints. *)
Lemma throttle_prints now now' date h buf c :
  CheckLogLevel (g_level c) (level_ (base h)) = true -> level_ (base h) <> LogLevel.FATAL ->
  let '(suppressed, h1) := Suppress now now' h in
  CLOG_THROTTLED_IF true now now' date h buf c =
    if suppressed then (h1, c)
    else (mkThrottled (base h1) (last_log_ h1) (interval_ h1) 0,
          print (buf ++ ["010"%char]) (PrintFile (base h) (print (chars_of "[Throttled " ++ chars_of (pretty (count_ h1)) ++ chars_of " messages] ") (PrintPrefix date (base h) c)))).
Proof.
  intros Hc Hf. unfold CLOG_THROTTLED_IF. rewrite Hc. cbn [andb]. unfold Suppress.
  destruct (_ <? _); [done|]. cbn [Throttled_PrintHeader base]. unfold finish_message. cbn [base]. by rewrite bool_decide_false.
Qed.

(** A fatal statement ends the process with code 1 at every level, with the
    message in the termination log if there is one. *)
Theorem fatal_exits date file line buf c :
  let c' := CLOG date (LogHeader_make file line LogLevel.FATAL) buf c in
  exited c' = Some 1 /\ (termination_open c = true -> termination c' = Some buf).
Proof.
  unfold CLOG, CLOG_IF. cbn [LogHeader_make level_].
  assert (CheckLogLevel (g_level c) LogLevel.FATAL = true) as -> by (unfold CheckLogLevel; destruct (g_level c); reflexivity). cbn [andb].
  unfold LogMessage, finish_message. cbn [level_]. rewrite bool_decide_true by done. split; [done|]. intros Ht.
  unfold PrintHeader, PrintFile, PrintPrefix, WriteTerminationLog. cbn [print termination_open g_level]. destruct (CheckLogLevel (g_level c) LogLevel.DEBUG); cbn; by rewrite Ht.
Qed.

(** The callback of the inspector keeps the level of its first message: a fatal
    message behind a message of another level is printed under that level and does
    not end the process. *)
Theorem inspector_level_sticks date msg msg' c :
  CheckLogLevel (g_level c) LogLevel.INFO = true -> exited c = None ->
  let '(h, c1) := InspectorLogCallback date msg LogLevel.INFO None c in
  let '(h', c2) := InspectorLogCallback date msg' LogLevel.FATAL h c1 in
  level_ <$> h' = Some LogLevel.INFO /\ exited c2 = None.
Proof.
  intros Hc He. unfold InspectorLogCallback. rewrite bool_decide_false by done. cbn [andb]. rewrite Hc. cbn [negb default id].
  assert (forall h c, CheckLogLevel (g_level (LogMessage date h msg c)) LogLevel.FATAL = true) as Hf.
  { intros h c0. unfold CheckLogLevel. destruct (g_level (LogMessage date h msg c0)); reflexivity. }
  rewrite bool_decide_false by done. cbn [andb]. rewrite Hf. cbn [negb default id fmap option_fmap option_map]. split; [done|].
  assert (forall m h c, level_ h = LogLevel.INFO -> exited (LogMessage date h m c) = exited c) as Hx.
  { intros m h c0 Hl. unfold LogMessage, finish_message. rewrite Hl, bool_decide_false by done. unfold PrintHeader, PrintFile, PrintPrefix. cbn [print exited g_level].
    by destruct (CheckLogLevel (g_level c0) LogLevel.DEBUG). }
  by rewrite !Hx.
Qed.

(** ** Witness *)

Lemma throttle_accounts_witness :
  throttle [(3, 4); (11, 12); (15, 15); (16, 16); (40, 41); (42, 42)] (ThrottledLogHeader_make (chars_of "a.cpp") 7 LogLevel.ERROR 10) =
    ([(11, 2); (40, 3)], mkThrottled (LogHeader_make (chars_of "a.cpp") 7 LogLevel.ERROR) 41 10 1) /\
  let '(prints, h') := throttle [(3, 4); (11, 12); (15, 15); (16, 16); (40, 41); (42, 42)] (ThrottledLogHeader_make (chars_of "a.cpp") 7 LogLevel.ERROR 10) in
  total prints + count_ h' = Z.of_nat 6 /\ spaced 10 0 prints /\
  (prints = [] -> forall now now', (now, now') ∈ [(3, 4); (11, 12); (15, 15); (16, 16); (40, 41); (42, 42)] -> now < 10).
Proof.
  split; [reflexivity|].
  apply (throttle_accounts (chars_of "a.cpp") 7 LogLevel.ERROR 10 [(3, 4); (11, 12); (15, 15); (16, 16); (40, 41); (42, 42)]).
  - exists 0. cbn. lia.
  - cbn. lia.
Defined.
