(* ===== verification/Threads.v ===== *)
(** * Threads that can be stopped (StoppableThread.h, StoppableThread.cpp)

    The object between its methods, and the pause of its thread as a machine that is
    interleaved with [Stop].  The results of [pipe] and [close], and whether the
    function of the thread returns once it is told to stop, are inputs. *)

From S2P Require Import Prelude.
From stdpp Require Import relations.

(** ** The object *)

(** [thread_] is whether the pointer is set; [stop_pipe_] whether the reading and the
    writing end are open, [None] as long as [pipe] never succeeded. *)
Record StoppableThread := mkThread { thread_ : bool; should_stop_ : bool; stop_pipe_ : option (bool * bool) }.
Definition StoppableThread_make : StoppableThread := mkThread false false None.

Definition running (t : StoppableThread) : bool := thread_ t.
Definition should_stop (t : StoppableThread) : bool := should_stop_ t.

Definition prepareStart (pipe_ok : bool) (t : StoppableThread) : bool * StoppableThread :=
  if running t then (false, t)
  else
    let t := mkThread (thread_ t) false (stop_pipe_ t) in
    if pipe_ok then (true, mkThread (thread_ t) (should_stop_ t) (Some (true, true))) else (false, t).
Definition doStart (t : StoppableThread) : bool * StoppableThread := (true, mkThread true (should_stop_ t) (stop_pipe_ t)).
Definition Start (pipe_ok : bool) (t : StoppableThread) : bool * StoppableThread :=
  let '(ok, t) := prepareStart pipe_ok t in if ok then doStart t else (false, t).

(** What [close] of the writing end returns, attempt by attempt. *)
Inductive CloseResult := CLOSED | INTERRUPTED | FAILED.
#[global] Instance CloseResult_eq_dec : EqDecision CloseResult.
Proof. solve_decision. Defined.

(** The loop around it: another attempt after an interruption only. *)
Fixpoint close_loop (rs : list CloseResult) : bool :=
  match rs with
  | [] | CLOSED :: _ => true
  | INTERRUPTED :: rs => close_loop rs
  | FAILED :: _ => false
  end.

(** [returns] is whether the function of the thread comes to an end. *)
Definition Stop (rs : list CloseResult) (reading : CloseResult) (returns : bool) (t : StoppableThread) : outcome StoppableThread :=
  let t := mkThread (thread_ t) true (stop_pipe_ t) in
  match stop_pipe_ t with
  | None => Crash
  | Some (r, w) =>
      let w := w && negb (close_loop rs) in
      if negb (thread_ t) then Crash
      else if negb returns then Blocked
      else Ret (mkThread false (should_stop_ t) (Some (r && negb (bool_decide (reading = CLOSED)), w)))
  end.

(** The result of a pause that ends now. *)
Definition PauseUntil (t : StoppableThread) : bool := negb (should_stop t).

(** A thread runs only with a pipe. *)
Definition thread_ok (t : StoppableThread) : Prop := thread_ t = true -> stop_pipe_ t = Some (true, true).

Lemma Start_ok pipe_ok t : thread_ok t -> thread_ok (Start pipe_ok t).2 /\
  (Start pipe_ok t).1 = negb (thread_ t) && pipe_ok /\ ((Start pipe_ok t).1 = true -> thread_ (Start pipe_ok t).2 = true /\ should_stop_ (Start pipe_ok t).2 = false).
Proof. unfold Start, prepareStart, running. intros H. destruct (thread_ t) eqn:E; [done|]. destruct pipe_ok; [done|]. by cbn. Qed.

(** A thread that was started can be stopped and started again; stopping one that was
    not started, or whose start failed, is undefined. *)
Theorem Stop_after_Start pipe_ok rs reading t : thread_ t = false ->
  let '(ok, t1) := Start pipe_ok t in
  if ok then
    exists t2, Stop rs reading true t1 = Ret t2 /\ thread_ t2 = false /\ (Start true t2).1 = true /\
      (close_loop rs = true -> reading = CLOSED -> stop_pipe_ t2 = Some (false, false))
  else Stop rs reading true t1 = Crash.
Proof.
  intros Ht. unfold Start, prepareStart, running. rewrite Ht. destruct pipe_ok; cbn.
  - eexists. split; [done|]. split; [done|]. split; [done|]. intros -> ->. by rewrite bool_decide_true.
  - unfold Stop. cbn. by destruct (stop_pipe_ t) as [[]|].
Qed.

(** ** A pause and [Stop] *)

Inductive PausePc := P_TEST | P_GOING | P_WAIT | P_DONE (result : bool).
(** What [Stop] has done: nothing, set the flag, and notified as well. *)
Inductive StopPc := S_IDLE | S_FLAG | S_NOTIFIED.
Record Pause := mkPause { flag : bool; pause_pc : PausePc; stop_pc : StopPc }.

(** [wait_until] tests the condition under the mutex and then waits; [Stop] does not
    take the mutex. *)
Inductive pause_step : Pause -> Pause -> Prop :=
| step_test s f : pause_step (mkPause f P_TEST s) (mkPause f (if f then P_DONE false else P_GOING) s)
| step_wait f s : pause_step (mkPause f P_GOING s) (mkPause f P_WAIT s)
| step_timeout f s : pause_step (mkPause f P_WAIT s) (mkPause f (P_DONE (negb f)) s)
| step_flag f p : pause_step (mkPause f p S_IDLE) (mkPause true p S_FLAG)
| step_notify f p : pause_step (mkPause f p S_FLAG) (mkPause f (match p with P_WAIT => P_TEST | p => p end) S_NOTIFIED).

Definition pause_start : Pause := mkPause false P_TEST S_IDLE.

Definition pause_inv (k : Pause) : Prop :=
  (flag k = true <-> stop_pc k <> S_IDLE) /\ (pause_pc k = P_DONE false -> flag k = true).

Lemma pause_inv_reachable k : rtc pause_step pause_start k -> pause_inv k.
Proof.
  assert (forall k k', pause_step k k' -> pause_inv k -> pause_inv k') as Hstep.
  { intros k1 k2 H [H1 H2]. destruct H; cbn in *; split; cbn; try done.
    - intros Hd. by destruct f.
    - by intros [= ->%negb_false_iff].
    - split; [intros Hf; destruct H1 as [H1 _]; by specialize (H1 Hf)|]. intros _. by apply H1.
    - intros Hd. apply H2. by destruct p. }
  intros H. assert (pause_inv pause_start) as H0 by (split; [split; [done|by intros []]|done]). revert H0. induction H; eauto.
Qed.

(** A pause ends with false only after [Stop] has set the flag; with the flag set,
    it ends with false whatever comes next, at the latest when its time is over; but
    the notification itself can be lost. *)
Theorem pause_stops k : rtc pause_step pause_start k ->
  (pause_pc k = P_DONE false -> flag k = true) /\
  (flag k = true -> (forall b, pause_pc k <> P_DONE b) -> exists k', rtc pause_step k k' /\ pause_pc k' = P_DONE false).
Proof.
  intros [H1 H2]%pause_inv_reachable. split; [done|]. intros Hf Hd. destruct k as [f p s]. cbn in *. subst f.
  destruct p as [| | |b]; [| | |by destruct (Hd b)].
  - eexists. split; [by eapply rtc_once, step_test|done].
  - eexists. split; [eapply rtc_l; [apply step_wait|by eapply rtc_once, step_timeout]|done].
  - eexists. split; [by eapply rtc_once, step_timeout|done].
Qed.

Theorem pause_notification_lost : rtc pause_step pause_start (mkPause true P_WAIT S_NOTIFIED).
Proof.
  eapply rtc_l; [exact (step_test S_IDLE false)|]. eapply rtc_l; [exact (step_flag false P_GOING)|].
  eapply rtc_l; [exact (step_notify true P_GOING)|]. eapply rtc_once, step_wait.
Qed.

Lemma pause_stops_witness :
  rtc pause_step pause_start (mkPause true P_WAIT S_FLAG) /\
  exists k', rtc pause_step (mkPause true P_WAIT S_FLAG) k' /\ pause_pc k' = P_DONE false.
Proof.
  assert (rtc pause_step pause_start (mkPause true P_WAIT S_FLAG)) as H.
  { eapply rtc_l; [exact (step_test S_IDLE false)|]. eapply rtc_l; [exact (step_wait false S_IDLE)|]. eapply rtc_once. exact (step_flag false P_WAIT). }
  split; [exact H|]. apply (pause_stops _ H); [reflexivity|discriminate].
Defined.
