(* ===== verification/Setup.v ===== *)
(** * Setting up the inspector (KernelDriver.h, Diagnostics.h, system-inspector/Service.cpp)

    What the constructor of the service asks of libsinsp, the choice of the signal client,
    the list of system calls that the driver traces, and the diagnostics of start-up.
    The constants and tables of libscap and libsinsp are parameters. *)

From Stdlib Require String.
From stdpp Require Import gmap.
From S2P Require Import Prelude HostOrder NetAddress Connection CStrings Utility Host Floats NetParse Signals CollectorConfig.

(** ** Settings of the inspector *)

(** The container engines of libsinsp, as bits of a mask, or the engine of the collector. *)
Inductive ContainerEngines := EngineMask (mask : Z) | OwnEngine.

Record InspectorSettings := mkSettings {
  snaplen : Z; min_log_severity : LogLevel.t; import_users : bool; thread_timeout_s : Z; auto_threads_purging_interval_s : Z;
  max_thread_table_size : Z; track_connection_status : bool; container_engines : ContainerEngines; container_labels_max_len : option Z; filter : chars
}.

(** Which client the process signals go to. *)
Inductive SignalClientKind := NatsClientKind (url cluster_id : chars) | GrpcClientKind | StdoutClientKind.

Section setup.
Variables CT_CRI CT_CRIO CT_CONTAINERD CT_DOCKER CT_PODMAN : Z.

Definition engine_mask (c : CollectorConfig) : Z :=
  let mask := (1 <<. CT_CRI) |. (1 <<. CT_CRIO) |. (1 <<. CT_CONTAINERD) in
  let mask := if use_docker_ce_ c then mask |. (1 <<. CT_DOCKER) else mask in
  if use_podman_ce_ c then mask |. (1 <<. CT_PODMAN) else mask.

Definition Service_settings (level : LogLevel.t) (c : CollectorConfig) : InspectorSettings :=
  mkSettings 0 level (import_users_ c) 30 60 (sinsp_thread_cache_size_ c) (collect_connection_status_ c)
    (if enable_runtime_config_ c then EngineMask (engine_mask c) else OwnEngine)
    (if enable_runtime_config_ c then Some 255 else None) (chars_of "container.id != 'host'").

(** [have_nats] is whether the program is built with NATS. *)
Definition signal_client (have_nats grpc_channel : bool) (c : CollectorConfig) : SignalClientKind :=
  let rest := if grpc_channel then GrpcClientKind else StdoutClientKind in
  if have_nats then
    match nats_url_ c with
    | Some url => if is_empty url then rest else NatsClientKind url (cluster_id_ c)
    | None => rest
    end
  else rest.

(** ** The driver *)

(** [g_syscall_table[i].ppm_sc], and the codes of two tracepoints. *)
Variable syscall_sc : Z -> option Z.
Variables PPM_SC_SCHED_PROCESS_EXIT PPM_SC_SCHED_SWITCH : Z.

(** The events of a name; an unknown event or entry throws or is undefined. *)
Fixpoint add_events (e : EventNames) (ids : list Z) (ppm_sc : gset Z) : outcome (gset Z) :=
  match ids with
  | [] => Ret ppm_sc
  | event_id :: ids =>
      match GetEventSyscallID e event_id with
      | None => Crash
      | Some syscall_id =>
          if syscall_id =? 0 then add_events e ids ppm_sc
          else match syscall_sc syscall_id with None => Crash | Some sc => add_events e ids ({[sc]} ∪ ppm_sc) end
      end
  end.
Fixpoint add_syscalls (e : EventNames) (syscalls : list string) (ppm_sc : gset Z) : outcome (gset Z) :=
  match syscalls with
  | [] => Ret ppm_sc
  | syscall_str :: rest =>
      match GetEventIDs e syscall_str with
      | None => Crash
      | Some ids => ppm_sc ← add_events e ids ppm_sc; add_syscalls e rest ppm_sc
      end
  end.
Definition GetSyscallList (e : EventNames) (syscalls : list string) : outcome (gset Z) :=
  ppm_sc ← add_syscalls e syscalls ∅;
  Ret ({[PPM_SC_SCHED_SWITCH]} ∪ ({[PPM_SC_SCHED_PROCESS_EXIT]} ∪ ppm_sc)).

(** What [open_modern_bpf] is called with. *)
Record OpenArgs := mkOpenArgs { driver_buffer_bytes_dim : Z; cpus_for_each_buffer : Z; online_only : bool; ppm_sc_of_interest : gset Z }.

(** [opens] is whether the driver can be opened; otherwise an exception passes through. *)
Definition KernelDriver_Setup (ub : float -> Z) (opens : OpenArgs -> bool) (e : EventNames) (c : CollectorConfig) : outcome bool :=
  ppm_sc ← GetSyscallList e (map String.string_of_list_ascii (syscalls_ c));
  if opens (mkOpenArgs (GetSinspBufferSize ub c) (sinsp_cpu_per_buffer_ c) true ppm_sc) then Ret true else Crash.

Definition Service_InitKernel (ub : float -> Z) (opens : OpenArgs -> bool) (e : EventNames) (c : CollectorConfig) : outcome bool :=
  ok ← KernelDriver_Setup ub opens e c;
  if negb ok then Ret false else Ret true.
End setup.

(** ** Diagnostics *)

Record StartupDiagnostics := mkDiagnostics { connectedToSensor_ : bool; driverDiagnostics_ : list chars }.
Definition StartupDiagnostics_make : StartupDiagnostics := mkDiagnostics false [].

Definition ConnectedToSensor (d : StartupDiagnostics) : StartupDiagnostics := mkDiagnostics true (driverDiagnostics_ d).
Definition add_line (line : chars) (d : StartupDiagnostics) : StartupDiagnostics := mkDiagnostics (connectedToSensor_ d) (driverDiagnostics_ d ++ [line]).
Definition DriverUnavailable (candidate : chars) : StartupDiagnostics -> StartupDiagnostics := add_line (chars_of "   " ++ candidate ++ chars_of " (unavailable)").
Definition DriverAvailable (candidate : chars) : StartupDiagnostics -> StartupDiagnostics := add_line (chars_of "   " ++ candidate ++ chars_of " (available)").
Definition DriverSuccess (candidate : chars) : StartupDiagnostics -> StartupDiagnostics := add_line (chars_of " Driver loaded into kernel: " ++ candidate).

(** [Log]: the lines. *)
Definition Diagnostics_Log (d : StartupDiagnostics) : list chars * StartupDiagnostics :=
  ([[]; chars_of "== Collector Startup Diagnostics: =="; chars_of " Connected to Sensor?       " ++ chars_of (if connectedToSensor_ d then "true" else "false");
    chars_of " Kernel driver candidates:"] ++ driverDiagnostics_ d ++ [chars_of "===================================="; []],
   mkDiagnostics (connectedToSensor_ d) []).

(** [CollectorService::InitKernel] around [init], the one of the inspector. *)
Definition CollectorService_InitKernel (cm_name : chars) (init : outcome bool) (d : StartupDiagnostics) : outcome (bool * StartupDiagnostics) :=
  let d := DriverAvailable cm_name d in
  ok ← init;
  if ok : bool then Ret (true, DriverSuccess cm_name d) else Ret (false, d).

(** ** Theorems *)

Section theorems.
Variable syscall_sc : Z -> option Z.
Variables PPM_SC_SCHED_PROCESS_EXIT PPM_SC_SCHED_SWITCH : Z.
Implicit Types e : EventNames.

(** The system call of an event, unless it is number 0. *)
Definition traced e (event_id sc : Z) : Prop := exists syscall_id, GetEventSyscallID e event_id = Some syscall_id /\ syscall_id <> 0 /\ syscall_sc syscall_id = Some sc.

Lemma add_events_exact e ids : forall acc s, add_events syscall_sc e ids acc = Ret s -> forall sc, sc ∈ s <-> sc ∈ acc \/ exists id, id ∈ ids /\ traced e id sc.
Proof.
  induction ids as [|id ids IH]; intros acc s E sc; cbn [add_events] in E; [injection E as <-; set_solver|].
  destruct (GetEventSyscallID e id) as [syscall_id|] eqn:Eid; [|done]. destruct (Z.eqb_spec syscall_id 0) as [->|Hne].
  - rewrite (IH _ _ E sc). split; [intros [?|(i & ? & ?)]; [by left|right; exists i; set_solver]|]. intros [?|(i & Hi & Ht)]; [by left|right].
    apply elem_of_cons in Hi as [->|Hi]; [|by exists i]. destruct Ht as (k & Ek & Hk & _). congruence.
  - destruct (syscall_sc syscall_id) as [sc'|] eqn:Es; [|done]. rewrite (IH _ _ E sc). split.
    + intros [[->%elem_of_singleton|?]%elem_of_union|(i & ? & ?)]; [right; exists id; split; [set_solver|by exists syscall_id]|by left|right; exists i; set_solver].
    + intros [?|(i & Hi & Ht)]; [left; set_solver|]. apply elem_of_cons in Hi as [->|Hi]; [left|right; by exists i].
      destruct Ht as (k & Ek & Hk & Hs). rewrite Eid in Ek. injection Ek as <-. rewrite Es in Hs. injection Hs as <-. set_solver.
Qed.

Lemma add_syscalls_exact e names : forall acc s, add_syscalls syscall_sc e names acc = Ret s ->
  forall sc, sc ∈ s <-> sc ∈ acc \/ exists name ids id, name ∈ names /\ GetEventIDs e name = Some ids /\ id ∈ ids /\ traced e id sc.
Proof.
  induction names as [|name names IH]; intros acc s E sc; cbn [add_syscalls] in E; [injection E as <-; set_solver|].
  destruct (GetEventIDs e name) as [ids|] eqn:Eids; [|done]. inv_bind E. rewrite (IH _ _ E sc), (add_events_exact _ _ _ _ E0 sc). split.
  - intros [[?|(id & ? & ?)]|(n & is1 & id & ? & ? & ?)]; [by left|right; exists name, ids, id; set_solver|right; exists n, is1, id; set_solver].
  - intros [?|(n & is1 & id & Hn & Hi & Ht)]; [by left; left|]. apply elem_of_cons in Hn as [->|Hn]; [left; right|right; by exists n, is1, id].
    rewrite Eids in Hi. injection Hi as <-. by exists id.
Qed.

(** The driver traces exactly the system calls of the events that the configured names
    stand for, with the exit of processes and the switches of the scheduler; a name that
    libscap does not know ends start-up with an exception, and the system call of number
    0 is left out. *)
Theorem GetSyscallList_exact e names s :
  GetSyscallList syscall_sc PPM_SC_SCHED_PROCESS_EXIT PPM_SC_SCHED_SWITCH e names = Ret s ->
  (forall sc, sc ∈ s <-> sc = PPM_SC_SCHED_PROCESS_EXIT \/ sc = PPM_SC_SCHED_SWITCH \/
     exists name ids id, name ∈ names /\ GetEventIDs e name = Some ids /\ id ∈ ids /\ traced e id sc) /\
  forall name, name ∈ names -> is_Some (GetEventIDs e name).
Proof.
  unfold GetSyscallList. intros E. inv_bind E. injection E as <-. split.
  - intros sc. rewrite !elem_of_union, !elem_of_singleton, (add_syscalls_exact _ _ _ _ E0 sc). set_solver.
  - revert E0. generalize (∅ : gset Z). induction names as [|n names IH]; intros acc E name Hn; [by apply elem_of_nil in Hn|]. cbn [add_syscalls] in E.
    destruct (GetEventIDs e n) as [ids|] eqn:Eids; [|done]. inv_bind E. apply elem_of_cons in Hn as [->|Hn]; [by rewrite Eids|]. by eapply IH.
Qed.

(** The setup of the kernel never reports a failure: it succeeds or throws, and then the
    driver that was announced as available is not announced as loaded. *)
Theorem InitKernel_never_false ub opens e c cm_name d :
  match CollectorService_InitKernel cm_name (Service_InitKernel syscall_sc PPM_SC_SCHED_PROCESS_EXIT PPM_SC_SCHED_SWITCH ub opens e c) d with
  | Ret (ok, d') => ok = true /\ driverDiagnostics_ d' = driverDiagnostics_ d ++ [chars_of "   " ++ cm_name ++ chars_of " (available)"; chars_of " Driver loaded into kernel: " ++ cm_name]
  | Blocked => False
  | Crash => True
  end.
Proof.
  assert (forall syscalls acc, add_syscalls syscall_sc e syscalls acc <> Blocked) as Hs.
  { assert (forall ids acc, add_events syscall_sc e ids acc <> Blocked) as Hev.
    { induction ids as [|id ids IH]; intros acc; cbn [add_events]; [done|]. destruct (GetEventSyscallID e id) as [k|]; [|done]. destruct (k =? 0); [done|]. by destruct (syscall_sc k). }
    induction syscalls as [|n l IH]; intros acc; cbn [add_syscalls]; [done|]. destruct (GetEventIDs e n) as [ids|]; [|done]. specialize (Hev ids acc).
    destruct (add_events syscall_sc e ids acc); [apply IH|done..]. }
  unfold CollectorService_InitKernel, Service_InitKernel, KernelDriver_Setup, GetSyscallList. specialize (Hs (map String.string_of_list_ascii (syscalls_ c)) ∅).
  destruct (add_syscalls _ _ _ _); cbn [mbind outcome_bind]; [|done..]. destruct (opens _); cbn [mbind outcome_bind negb]; [|done]. split; [done|].
  cbn [driverDiagnostics_ DriverSuccess DriverAvailable add_line]. by rewrite <-app_assoc.
Qed.
End theorems.

(** ** Witness *)

Definition wit_setup_names : EventNames :=
  default (mkEventNames [] [] []) (EventNames_make ["read"; "read"; "execve"; "execve"]%string [(0, 1); (2, 3)] Z.even).
Definition wit_list : gset Z :=
  match GetSyscallList (fun i => Some (100 + i)) 7 8 wit_setup_names ["execve"; "read"]%string with Ret s => s | _ => ∅ end.

Lemma GetSyscallList_exact_witness : 101 ∈ wit_list /\ 100 ∉ wit_list /\
  forall sc, sc ∈ wit_list <-> sc = 7 \/ sc = 8 \/ exists name ids id, name ∈ ["execve"; "read"]%string /\
    GetEventIDs wit_setup_names name = Some ids /\ id ∈ ids /\ traced (fun i => Some (100 + i)) wit_setup_names id sc.
Proof.
  split; [apply (bool_decide_unpack _); vm_compute; reflexivity|]. split; [apply (bool_decide_unpack _); vm_compute; reflexivity|].
  apply (GetSyscallList_exact (fun i => Some (100 + i)) 7 8 wit_setup_names ["execve"; "read"]%string wit_list). vm_compute. reflexivity.
Defined.
