(* ===== verification/CollectorService.v ===== *)
(** * The service and the program (CollectorService.cpp, collector.cpp)

    The composition of the components: what start-up makes of the command line, the
    environment and the configuration file; the service with its tracker, handlers,
    endpoints and threads; its run and its end.  The channel to the sensor is its
    answers to the attempts to connect; the threads' pipes and ends are inputs as in
    [Threads], the ticks of the inspector as in [Inspector]. *)

From stdpp Require Import gmap.
From S2P Require Import Prelude HostOrder UMap NetAddress Connection ConnStatus Delta ExternalIPs ConnTracker CStrings Utility Host Floats NetParse OptList OptParse OptRef OptStore CollectorConfig CollectorArgs.
From S2P Require Import Signals SignalClient ProcessSignals Inspector ConfigYaml Inotify ConfigLoader Threads Setup.

(** ** Connecting *)

Definition MAX_GRPC_CONNECTION_POLLS : Z := 30.

(** The polls of [attemptGRPCConnection]: [waits i] is whether the i-th wait finds the
    channel connected, and whether it is shut down; the closure counts down. *)
Fixpoint poll_checks (waits : nat -> bool * bool) (i : nat) (fuel : nat) (polls : Z) : list ChannelPoll :=
  match fuel with
  | O => []
  | S fuel =>
      mkChannelPoll (polls =? 0) (waits i).1 (waits i).2 :: poll_checks waits (S i) fuel (polls - 1)
  end.
Definition attemptGRPCConnection (waits : nat -> bool * bool) : outcome bool :=
  WaitForChannelReady (poll_checks waits 0 (S (Z.to_nat MAX_GRPC_CONNECTION_POLLS)) MAX_GRPC_CONNECTION_POLLS).

(** The credentials of the channel. *)
Inductive Credentials := Insecure | Tls (c : TlsConfig).
Definition createChannel (config : CollectorConfig) : Credentials :=
  match tls_config_ config with
  | Some tls => if TlsConfig_IsValid tls then Tls tls else Insecure
  | None => Insecure
  end.

(** The limits of [RLIMIT_CORE]; [None] is no limit. *)
Definition setCoreDumpLimit (enableCoreDump : bool) : option Z * option Z :=
  if enableCoreDump then (None, None) else (Some 0, Some 0).

(** ** Start-up *)

(** The process ends with a code, or with an exception that nothing catches. *)
Inductive Ending := Exit (code : Z) | Terminated.
(** [CLOG(FATAL)] *)
Definition fatal {A} : Ending + A := inl (Exit 1).

Section startup.
Context `{ho : HostOrder} `{json : JsonLib} {V : Type}.
Variable place : Stats -> Z * Z.
Variable getenv : chars -> option chars.
Variable env : HostEnv.
Variable s390x : bool.
Variables cpu_default size_default : Z.
Variable getaddrinfo : chars -> Z * option (list Z).
Variable uninit : list Z.
Variable ub : float -> Z.
(** The parameters of the loader, and the file system when it looks. *)
Variable node_as : CppType.t -> Node -> chars + V.
Variable node_string : Node -> chars + chars.
Variables enum_value int_value : Z -> V.
Variable descriptor : Descriptor.
Variables file file_printed : chars.
Variable fs : Fs.

(** The getters of the generated message: what a field reads as, given its value if it has
    been set. *)
Variable enabled_of : option V -> ExternalIpsEnabled.
Variable direction_of : option V -> ExternalIpsDirection.
Variable int_of : option V -> Z.

Definition message_at (name : string) (m : Message V) : Message V :=
  match get_value (chars_of name) m with Some (VMessage fields) => fields | _ => [] end.
Definition scalar_at (name : string) (m : Message V) : option V :=
  match get_value (chars_of name) m with Some (VScalar v) => Some v | _ => None end.

(** What the program reads of the runtime configuration. *)
Definition runtime_of (m : Message V) : RuntimeConfig :=
  let networking := message_at "networking" m in
  let external_ips := message_at "external_ips" networking in
  mkRuntimeConfig (enabled_of (scalar_at "enabled" external_ips)) (direction_of (scalar_at "direction" external_ips))
    (int_of (scalar_at "max_connections_per_minute" networking)).

(** What the service is made of. *)
Record Startup := mkStartup { st_config : CollectorConfig; st_channel : option Credentials; st_core : option Z * option Z }.

(** The loader of start-up is a temporary object over the configuration, which has no
    runtime configuration yet; [i] is its inotify instance. *)
Definition main_start (waits : nat -> bool * bool) (argc : Z) (argv : argvec) (h : HostInfo) (level : LogLevel.t) (i : Inotify)
    : outcome (Ending + Startup) :=
  '(go, exitCode, args) ← Args_parse place argc argv CollectorArgs_make;
  if negb go then Ret fatal
  else
    match InitCollectorConfig getenv env s390x cpu_default size_default getaddrinfo uninit ub (Some args) h level with
    | inl Fatal => Ret fatal
    | inl _ => Ret (inl Terminated)
    | inr (config, _, _) =>
        '(loaded, l) ← LoadConfiguration node_as node_string enum_value int_value descriptor file file_printed fs None (mkConfigLoader i None);
        match loaded with
        | LoadResult.PARSE_ERROR => Ret fatal
        | _ =>
            let config := set_runtime_config (runtime_of <$> ConfigLoader.runtime_config_ l) config in
            let core := setCoreDumpLimit (enable_core_dump_ config) in
            match grpc_server_ config with
            | Some _ =>
                let sensor_connection := createChannel config in
                (* a channel that is shut down is a fatal message as well *)
                match attemptGRPCConnection waits with
                | Ret true => Ret (inr (mkStartup config (Some sensor_connection) core))
                | Ret false | Crash => Ret fatal
                | Blocked => Blocked
                end
            | None => Ret (inr (mkStartup config None core))
            end
        end
    end.
End startup.

(** ** The service *)

(** The HTTP endpoints, in the order they are added. *)
Inductive CivetEndpoint := GET_STATUS | LOG_LEVEL | PROFILER | CONTAINER_INFO | NETWORK_STATUS (tracking : bool) | CONFIG_INSPECTOR.

(** What happens to the pipe and the function of a thread. *)
Record ThreadEnv := mkThreadEnv { pipe_ok : bool; closes : list CloseResult; reading_close : CloseResult; returns : bool }.
Definition thread_stop (e : ThreadEnv) : StoppableThread -> outcome StoppableThread := Threads.Stop (closes e) (reading_close e) (returns e).

Section service.
Context {H : Type} `{HH : SignalHandler H} `{HS : Sinsp} `{ho : HostOrder}.

(** [tracking_] is whether [conn_tracker_] is set; the tracker itself is in [world_]. *)
Record CollectorService := mkCollectorService {
  system_inspector_ : Service H; world_ : SWorld; tracking_ : bool; civet_endpoints_ : list CivetEndpoint;
  net_status_notifier_ : option StoppableThread; exporter_ : StoppableThread; config_loader_ : StoppableThread
}.

Definition CollectorService_make (network : NetworkSignalHandler -> H) (e : EventNames) (PPM_EVENT_MAX : nat) (grpc_channel : bool)
    (config : CollectorConfig) (si : Service H) (w : SWorld) : outcome CollectorService :=
  let tracking := negb grpc_channel || negb (disable_network_flows_ config) in
  '(si, w) ←
    if tracking then
      let t := ConnectionTracker_default in
      let t := UpdateIgnoredL4ProtoPortPairs t (ignored_l4proto_port_pairs_ config) in
      let t := UpdateIgnoredNetworks t (ignored_networks_ config) in
      let t := UpdateNonAggregatedNetworks t (non_aggregated_networks_ config) in
      let n := SetCollectConnectionStatus (CollectorConfig.collect_connection_status_ config) NetworkSignalHandler_make in
      let n := SetTrackSendRecv (CollectorConfig.track_send_recv_ config) n in
      si ← AddSignalHandler e PPM_EVENT_MAX (network n) si;
      Ret (si, mkSWorld t (pworld w) (steady_ w))
    else Ret (si, w);
  Ret (mkCollectorService si w tracking
    ([GET_STATUS; LOG_LEVEL; PROFILER] ++
     if enable_introspection_ config then [CONTAINER_INFO; NETWORK_STATUS tracking; CONFIG_INSPECTOR] else [])
    (if tracking then Some StoppableThread_make else None) StoppableThread_make StoppableThread_make).

(** The three threads' environments. *)
Record Envs := mkEnvs { env_loader : ThreadEnv; env_notifier : ThreadEnv; env_exporter : ThreadEnv }.

(** One call of [Run] per element: it returns when the control value changes. *)
Fixpoint run_all (is_rhel76 : bool) (runs : list (list Tick)) (si : Service H) (w : SWorld) : outcome (Service H * SWorld) :=
  match runs with
  | [] => Ret (si, w)
  | ticks :: runs => '(_, si, w) ← Run is_rhel76 ticks si w; run_all is_rhel76 runs si w
  end.

Definition RunForever (envs : Envs) (is_rhel76 : bool) (runs : list (list Tick)) (s : CollectorService) : outcome CollectorService :=
  let loader := (Threads.Start (pipe_ok (env_loader envs)) (config_loader_ s)).2 in
  let notifier := (fun n => (Threads.Start (pipe_ok (env_notifier envs)) n).2) <$> net_status_notifier_ s in
  let '(started, exporter) := Threads.Start (pipe_ok (env_exporter envs)) (exporter_ s) in
  if negb started then Crash
  else
    si ← Service_Start (system_inspector_ s);
    '(si, w) ← run_all is_rhel76 runs si (world_ s);
    Ret (mkCollectorService si w (tracking_ s) (civet_endpoints_ s) notifier exporter loader).

(** The destructor: the threads first, the inspector last. *)
Definition CollectorService_destroy (envs : Envs) (alive : Z -> bool) (s : CollectorService) : outcome CollectorService :=
  loader ← thread_stop (env_loader envs) (config_loader_ s);
  notifier ← match net_status_notifier_ s with
             | Some n => n ← thread_stop (env_notifier envs) n; Ret (Some n)
             | None => Ret None
             end;
  exporter ← thread_stop (env_exporter envs) (exporter_ s);
  '(_, si) ← CleanUp alive (system_inspector_ s);
  Ret (mkCollectorService si (world_ s) (tracking_ s) (civet_endpoints_ s) notifier exporter loader).

(** [RunService]: the service is destroyed when the function is left; [init] is the set-up
    of the kernel by the inspector. *)
Definition RunService (cm_name : chars) (init : outcome bool) (d : StartupDiagnostics) (envs : Envs) (is_rhel76 : bool) (runs : list (list Tick))
    (alive : Z -> bool) (s : CollectorService) : outcome (Ending + CollectorService) :=
  '(initialized, d) ← CollectorService_InitKernel cm_name init d;
  if negb initialized then Ret fatal
  else
    s ← RunForever envs is_rhel76 runs s;
    s ← CollectorService_destroy envs alive s;
    Ret (inr s).
End service.
Arguments CollectorService : clear implicits.

(** ** Theorems *)

Lemma polls_cases waits n : forall i,
  let r := WaitForChannelReady (poll_checks waits i (S n) (Z.of_nat n)) in
  (r = Ret false /\ forall j, (i <= j < i + n)%nat -> waits j = (false, false)) \/
  (exists j, (i <= j < i + n)%nat /\ (forall j', (i <= j' < j)%nat -> waits j' = (false, false)) /\
     ((waits j).1 = true /\ r = Ret true \/ waits j = (false, true) /\ r = Crash)).
Proof.
  induction n as [|n IH]; intros i r; subst r.
  { left. split; [done|]. intros j Hj. lia. }
  replace (Z.of_nat (S n)) with (Z.of_nat n + 1) by lia. cbn [poll_checks WaitForChannelReady interrupted connected channel_shutdown].
  destruct (Z.eqb_spec (Z.of_nat n + 1) 0); [lia|]. destruct (waits i) as [c s] eqn:E. cbn [fst snd].
  destruct c; [right; exists i; rewrite E; split; [lia|]; split; [intros; lia|by left]|].
  destruct s; [right; exists i; rewrite E; split; [lia|]; split; [intros; lia|by right]|].
  replace (Z.of_nat n + 1 - 1) with (Z.of_nat n) by lia. destruct (IH (S i)) as [[Hr Hw]|(j & Hj & Hw & Hr)].
  - left. split; [exact Hr|]. intros j Hj. destruct (decide (j = i)) as [->|]; [done|]. apply Hw. lia.
  - right. exists j. split; [lia|]. split; [|exact Hr]. intros j' Hj'. destruct (decide (j' = i)) as [->|]; [done|]. apply Hw. lia.
Qed.

(** The attempt to connect succeeds if one of the first thirty waits finds the channel
    connected, and it fails if none does; a channel that is shut down before is
    fatal. *)
Theorem attemptGRPCConnection_exact waits :
  (attemptGRPCConnection waits = Ret false /\ forall j, (j < 30)%nat -> waits j = (false, false)) \/
  (exists j, (j < 30)%nat /\ (forall j', (j' < j)%nat -> waits j' = (false, false)) /\
     ((waits j).1 = true /\ attemptGRPCConnection waits = Ret true \/ waits j = (false, true) /\ attemptGRPCConnection waits = Crash)).
Proof.
  destruct (polls_cases waits 30 0) as [[Hr Hw]|(j & Hj & Hw & Hr)]; [left|right; exists j].
  - split; [exact Hr|]. intros j Hj. apply Hw. lia.
  - split; [lia|]. split; [intros j' Hj'; apply Hw; lia|exact Hr].
Qed.

(** One of the first thirty waits finds the channel connected, and the channel was not
    shut down before. *)
Definition connects (waits : nat -> bool * bool) : Prop :=
  exists j, (j < 30)%nat /\ (waits j).1 = true /\ forall j', (j' < j)%nat -> waits j' = (false, false).

Lemma attempt_connects waits : attemptGRPCConnection waits <> Blocked /\ (attemptGRPCConnection waits = Ret true <-> connects waits).
Proof.
  destruct (attemptGRPCConnection_exact waits) as [[-> Hw]|(j & Hj & Hw & [[Hc ->]|[Hc ->]])]; (split; [done|]).
  - split; [done|]. intros (j & Hj & Hc & _). by rewrite (Hw j Hj) in Hc.
  - split; [|done]. intros _. by exists j.
  - split; [done|]. intros (j' & Hj' & Hc' & Hw'). destruct (Nat.lt_trichotomy j' j) as [Hlt|[->|Hlt]].
    + by rewrite (Hw j' Hlt) in Hc'.
    + by rewrite Hc in Hc'.
    + by rewrite (Hw' j Hlt) in Hc.
Qed.

Section startup_theorems.
Context `{ho : HostOrder} `{json : JsonLib} {V : Type}.

(** A runtime configuration changes nothing else. *)
Lemma set_runtime_config_keeps r c :
  grpc_server_ (set_runtime_config r c) = grpc_server_ c /\ tls_config_ (set_runtime_config r c) = tls_config_ c /\
  CollectorConfig.runtime_config_ (set_runtime_config r c) = r.
Proof. by destruct c. Qed.

Lemma createChannel_tls config tls : createChannel config = Tls tls <-> tls_config_ config = Some tls /\ TlsConfig_IsValid tls = true.
Proof.
  unfold createChannel. destruct (tls_config_ config) as [tls'|]; [|split; [done|by intros [[=] _]]]. destruct (TlsConfig_IsValid tls') eqn:Ev.
  - split; [intros [= <-]; by split|by intros [[= ->] _]].
  - split; [done|]. intros [[= ->] Hv]. by rewrite Hv in Ev.
Qed.

(** C23: start-up ends in one of four ways.  It goes on to the service: the arguments were
    accepted, the configuration is the well-formed one made of them and of the
    environment, with the runtime configuration of the file, or none if there is no
    file, and there is a channel exactly when a server is configured, which was
    connected in one of the first thirty waits; the channel carries the TLS credentials
    exactly when they are complete.  Or the process exits, always with code 1: for
    arguments that are refused ([--help] as well), a fatal message about the host or the
    options, a file that does not parse, or a server that was not connected.  Or an
    exception that nothing catches, thrown while the configuration is made, ends the
    process; or the process dies where the parser of the file does. *)
Theorem main_start_exact place program E getenv env s390x cpu_default size_default getaddrinfo uninit ub
    node_as node_string enum_value int_value descriptor file file_printed fs enabled_of direction_of int_of waits h level i :
  in_range 32 cpu_default -> in_range 32 size_default ->
  stack_ok place -> whole_strings E -> Z.of_nat (length (options_of E)) < 0x7fffffff ->
  let parsed := Args_parse place (Z.of_nat (S (length E))) (command_line program E) CollectorArgs_make in
  let init args := InitCollectorConfig getenv env s390x cpu_default size_default getaddrinfo uninit ub (Some args) h level in
  let load := LoadConfiguration (V := V) node_as node_string enum_value int_value descriptor file file_printed fs None (mkConfigLoader i None) in
  match main_start place getenv env s390x cpu_default size_default getaddrinfo uninit ub node_as node_string enum_value int_value descriptor file file_printed fs
      enabled_of direction_of int_of waits (Z.of_nat (S (length E))) (command_line program E) h level i with
  | Ret (inr st) =>
      exists args config h' level' loaded l,
        parsed = Ret (true, 0, args) /\ init args = inr (config, h', level') /\ config_wf config /\ load = Ret (loaded, l) /\
        (if fs_exists fs file then loaded = LoadResult.SUCCESS /\ is_Some (ConfigLoader.runtime_config_ l)
         else loaded = LoadResult.FILE_NOT_FOUND /\ ConfigLoader.runtime_config_ l = None) /\
        st_config st = set_runtime_config (runtime_of enabled_of direction_of int_of <$> ConfigLoader.runtime_config_ l) config /\
        (is_Some (st_channel st) <-> is_Some (grpc_server_ config)) /\ (is_Some (st_channel st) -> connects waits) /\
        (forall tls, st_channel st = Some (Tls tls) <-> is_Some (st_channel st) /\ tls_config_ config = Some tls /\ TlsConfig_IsValid tls = true)
  | Ret (inl (Exit code)) =>
      code = 1 /\
      ((exists code' args, parsed = Ret (false, code', args)) \/
       (exists args, parsed = Ret (true, 0, args) /\
          (init args = inl Fatal \/ (exists l, load = Ret (LoadResult.PARSE_ERROR, l)) \/
           (exists config h' level', init args = inr (config, h', level') /\ is_Some (grpc_server_ config) /\ ~ connects waits))))
  | Ret (inl Terminated) => exists args e, parsed = Ret (true, 0, args) /\ init args = inl e /\ e <> Fatal
  | Crash => load = Crash
  | Blocked => load = Blocked
  end.
Proof.
  intros Hcpu Hsize Hp Hw Hl parsed init load. unfold main_start. fold parsed load.
  assert (parsed = Ret (parse_result (options_of E) CollectorArgs_make)) as Hargs by by apply Args_parse_run.
  destruct (parse_result (options_of E) CollectorArgs_make) as [[go code] args] eqn:Ep. rewrite Hargs. cbn [mbind outcome_bind].
  destruct go; cbn [negb]; [|split; [done|]; left; by eexists _, _].
  assert (code = 0) as ->.
  { clear -Ep. unfold parse_result in Ep. repeat case_hyp Ep; by injection Ep. }
  change (InitCollectorConfig getenv env s390x cpu_default size_default getaddrinfo uninit ub (Some args) h level) with (init args).
  destruct (init args) as [e|[[config h'] level']] eqn:Ei.
  { destruct e; try (by exists args; eexists); []. split; [done|]. right. exists args. by split; [|left]. }
  pose proof (accepted_config_wf _ _ _ _ _ _ _ _ _ _ _ _ _ _ _ _ _ Hcpu Hsize Hp Hw Hl Hargs Ei) as Hwf.
  destruct load as [[loaded l]| |] eqn:El; cbn [mbind outcome_bind]; [|done..].
  assert (Hld : if fs_exists fs file then loaded = LoadResult.SUCCESS /\ is_Some (ConfigLoader.runtime_config_ l) \/ loaded = LoadResult.PARSE_ERROR
    else loaded = LoadResult.FILE_NOT_FOUND /\ ConfigLoader.runtime_config_ l = None).
  { subst load. unfold LoadConfiguration in El. destruct (fs_exists fs file); cbn [negb] in El; [|by injection El as <- <-].
    inv_bind El. destruct l0; injection El as <- <-; [left|by right]. split; [done|]. by eexists. }
  assert (loaded = LoadResult.PARSE_ERROR \/ loaded <> LoadResult.PARSE_ERROR) as [->|Hne] by (destruct loaded; solve [by left | by right]).
  { split; [done|]. right. exists args. split; [done|]. right. left. by eexists. }
  set (config' := set_runtime_config _ config). destruct (set_runtime_config_keeps (runtime_of enabled_of direction_of int_of <$> ConfigLoader.runtime_config_ l) config) as (Hg & Ht & _).
  fold config' in Hg, Ht. set (started := match grpc_server_ config' with Some _ => _ | None => _ end).
  assert (Hgo : match loaded with LoadResult.PARSE_ERROR => Ret fatal | _ => started end = started) by by destruct loaded.
  rewrite Hgo. subst started. clear Hgo. rewrite Hg. destruct (attempt_connects waits) as [Hb Hc].
  assert (forall ch, (is_Some ch <-> is_Some (grpc_server_ config)) -> (is_Some ch -> connects waits /\ ch = Some (createChannel config')) ->
    exists args' config0 h0 level0 loaded0 l0, Ret (true, 0, args) = Ret (true, 0, args') /\ init args' = inr (config0, h0, level0) /\ config_wf config0 /\ Ret (loaded, l) = Ret (loaded0, l0) /\
      (if fs_exists fs file then loaded0 = LoadResult.SUCCESS /\ is_Some (ConfigLoader.runtime_config_ l0) else loaded0 = LoadResult.FILE_NOT_FOUND /\ ConfigLoader.runtime_config_ l0 = None) /\
      config' = set_runtime_config (runtime_of enabled_of direction_of int_of <$> ConfigLoader.runtime_config_ l0) config0 /\ (is_Some ch <-> is_Some (grpc_server_ config0)) /\ (is_Some ch -> connects waits) /\
      (forall tls, ch = Some (Tls tls) <-> is_Some ch /\ tls_config_ config0 = Some tls /\ TlsConfig_IsValid tls = true)) as Hok.
  { intros ch Hch Hcon. exists args, config, h', level', loaded, l. split_and!; try done.
    - destruct (fs_exists fs file); [|done]. by destruct Hld.
    - intros Hs. by apply Hcon.
    - intros tls. rewrite <-Ht, <-createChannel_tls. split.
      + intros Hs. destruct Hcon as [_ Hcon]; [by rewrite Hs|]. split; [by rewrite Hs|]. congruence.
      + intros [Hs Hcr]. destruct (Hcon Hs) as [_ ->]. by rewrite Hcr. }
  destruct (grpc_server_ config) as [server|] eqn:Eg.
  - destruct (attemptGRPCConnection waits) as [[|]| |] eqn:Ea; [|try done..].
    2, 3: split; [done|]; right; exists args; split; [done|]; right; right; eexists _, _, _; (split; [done|]); (split; [by rewrite Eg|]); by intros ?%Hc.
    cbn [st_config st_channel]. apply Hok; [done|]. intros _. split; [by apply Hc|done].
  - cbn [st_config st_channel]. apply Hok; [done|]. by intros [].
Qed.
End startup_theorems.

Section lifecycle.
Context {H : Type} `{HH : SignalHandler H} `{HS : Sinsp} `{ho : HostOrder}.

(** How stopping a started thread ends: without a pipe it was not started and a null
    pointer is read, and a function that does not return is waited for. *)
Definition stopping (e : ThreadEnv) : outcome unit :=
  if negb (pipe_ok e) then Crash else if negb (returns e) then Blocked else Ret tt.

(** The order of the destructor: loader, notifier if there is one, exporter, handlers. *)
Definition ending (envs : Envs) (tracking : bool) (handlers : list (SignalHandlerEntry H)) : outcome unit :=
  _ ← stopping (env_loader envs);
  _ ← if tracking then stopping (env_notifier envs) else Ret tt;
  _ ← stopping (env_exporter envs);
  _ ← stop_all handlers;
  Ret tt.

Lemma stop_started e :
  match stopping e with
  | Ret _ => exists t, thread_stop e (Threads.Start (pipe_ok e) StoppableThread_make).2 = Ret t /\ thread_ t = false
  | Crash => thread_stop e (Threads.Start (pipe_ok e) StoppableThread_make).2 = Crash
  | Blocked => thread_stop e (Threads.Start (pipe_ok e) StoppableThread_make).2 = Blocked
  end.
Proof. unfold stopping, thread_stop. destruct (pipe_ok e), (returns e) eqn:Er; cbn; rewrite ?Er; cbn; try done. by eexists. Qed.

Lemma CollectorService_make_fresh network e PPM_EVENT_MAX grpc config (si : Service H) w s :
  CollectorService_make network e PPM_EVENT_MAX grpc config si w = Ret s ->
  config_loader_ s = StoppableThread_make /\ exporter_ s = StoppableThread_make /\
  net_status_notifier_ s = (if tracking_ s then Some StoppableThread_make else None) /\
  tracking_ s = negb grpc || negb (disable_network_flows_ config) /\ inspector_ (system_inspector_ s) = inspector_ si /\
  (NETWORK_STATUS (tracking_ s) ∈ civet_endpoints_ s <-> enable_introspection_ config = true).
Proof.
  unfold CollectorService_make. intros E. inv_bind E. injection E as <-. cbn. split_and!; try done.
  - destruct (negb grpc || negb (disable_network_flows_ config)); [|by injection E0 as <- <-].
    inv_bind E0. injection E0 as <- <-. unfold AddSignalHandler in E. inv_bind E. by injection E as <-.
  - destruct (enable_introspection_ config); [split; [done|intros _; set_solver]|]. split; [|done]. cbn. intros Hin. repeat (apply elem_of_cons in Hin as [Hin|Hin]; [done|]). by apply elem_of_nil in Hin.
Qed.

Lemma GetNext_inspector is_rhel76 n (s : Service H) : inspector_ (Inspector.GetNext is_rhel76 n s).2 = inspector_ s.
Proof. unfold Inspector.GetNext. destruct (next_event n); [|done]. by repeat case_match. Qed.

Lemma run_tick_inspector is_rhel76 t (st st' : RunState) : run_tick is_rhel76 t st = Ret st' -> inspector_ st'.1.2 = inspector_ st.1.2.
Proof.
  destruct st as [[calls s] w]. unfold run_tick, ServePendingProcessRequests. intros E.
  pose proof (GetNext_inspector is_rhel76 (tick_next t) (set_requests [] s)) as Hn. destruct (Inspector.GetNext _ _ _) as [[evt|] s']; cbn in *.
  - inv_bind E. by injection E as <-.
  - by injection E as <-.
Qed.

Lemma run_loop_inspector is_rhel76 ticks : forall st st' : RunState, run_loop is_rhel76 ticks st = Ret st' -> inspector_ st'.1.2 = inspector_ st.1.2.
Proof.
  induction ticks as [|t ticks IH]; intros st st' E; cbn [run_loop] in E; [by injection E as <-|]. inv_bind E.
  rewrite (IH _ _ E). by eapply run_tick_inspector.
Qed.

Lemma run_all_inspector is_rhel76 runs : forall (si : Service H) w si' w',
  run_all is_rhel76 runs si w = Ret (si', w') -> inspector_ si' = inspector_ si.
Proof.
  induction runs as [|ticks runs IH]; intros si w si' w' E; cbn [run_all] in E; [by injection E as <- <-|]. inv_bind E. destruct p as [calls si1].
  rewrite (IH _ _ _ _ E). unfold Run in E0. destruct (negb _); [done|]. by apply run_loop_inspector in E0.
Qed.

(** A service that has ended: no thread, no handler, no request. *)
Definition ended (s : CollectorService H) : Prop :=
  thread_ (config_loader_ s) = false /\ thread_ (exporter_ s) = false /\ (forall n, net_status_notifier_ s = Some n -> thread_ n = false) /\
  inspector_ (system_inspector_ s) = false /\ signal_handlers_ (system_inspector_ s) = [] /\ pending_process_requests_ (system_inspector_ s) = [].

(** C24: Destroying a service after any run that returns ends exactly as its parts do, one
    after the other: if each of its threads got its pipe and comes to an end when told to
    (loader, notifier if there is one, exporter), and every handler can be stopped, the
    destructor returns, every thread has been stopped, no handler and no request is left
    and the inspector is closed; the notifier exists exactly when connections are tracked.
    Otherwise the first part that fails decides: a thread without a pipe is a null
    pointer that the destructor dereferences, though the run went on without it; for a
    thread whose function does not return, or a handler that does not, it waits forever. *)
Theorem service_lifecycle network e PPM_EVENT_MAX grpc config (si : Service H) w s envs is_rhel76 runs alive s' :
  CollectorService_make network e PPM_EVENT_MAX grpc config si w = Ret s -> inspector_ si = true ->
  RunForever envs is_rhel76 runs s = Ret s' ->
  let tracking := negb grpc || negb (disable_network_flows_ config) in
  match ending envs tracking (signal_handlers_ (system_inspector_ s')) with
  | Ret _ => exists s'', CollectorService_destroy envs alive s' = Ret s'' /\ ended s'' /\
      tracking_ s'' = tracking /\ (is_Some (net_status_notifier_ s'') <-> tracking = true)
  | Crash => CollectorService_destroy envs alive s' = Crash
  | Blocked => CollectorService_destroy envs alive s' = Blocked
  end.
Proof.
  intros Hm Hi Hr tracking. apply CollectorService_make_fresh in Hm as (Hl & He & Hn & Ht & Hsi & _).
  unfold RunForever in Hr. rewrite Hl, He, Hn in Hr. fold tracking in Ht. rewrite Ht in Hr.
  destruct (Threads.Start (pipe_ok (env_exporter envs)) StoppableThread_make) as [started exporter] eqn:Ee.
  destruct started; cbn [negb] in Hr; [|done]. unfold Service_Start in Hr. rewrite Hsi, Hi in Hr. cbn [negb mbind outcome_bind] in Hr. inv_bind Hr.
  injection Hr as <-. apply run_all_inspector in E. cbn in E.
  unfold CollectorService_destroy, ending. cbn [config_loader_ net_status_notifier_ exporter_ system_inspector_ world_ tracking_ civet_endpoints_].
  pose proof (stop_started (env_loader envs)) as H1. pose proof (stop_started (env_notifier envs)) as H2. pose proof (stop_started (env_exporter envs)) as H3.
  rewrite Ee in H3. cbn [snd] in H3.
  destruct (stopping (env_loader envs)); cbn [mbind outcome_bind]; [|by rewrite H1..]. destruct H1 as (t1 & -> & H1). cbn [mbind outcome_bind].
  assert (forall n, (forall t, n = Some t -> thread_ t = false) -> (is_Some n <-> tracking = true) ->
    match (_ ← stopping (env_exporter envs); _ ← stop_all (signal_handlers_ s0); Ret tt) with
    | Ret _ => exists s'', (exporter ← thread_stop (env_exporter envs) exporter; '(_, si) ← CleanUp alive s0; Ret (mkCollectorService si s1 tracking (civet_endpoints_ s) n exporter t1)) = Ret s'' /\
        ended s'' /\ tracking_ s'' = tracking /\ (is_Some (net_status_notifier_ s'') <-> tracking = true)
    | Crash => (exporter ← thread_stop (env_exporter envs) exporter; '(_, si) ← CleanUp alive s0; Ret (mkCollectorService si s1 tracking (civet_endpoints_ s) n exporter t1)) = Crash
    | Blocked => (exporter ← thread_stop (env_exporter envs) exporter; '(_, si) ← CleanUp alive s0; Ret (mkCollectorService si s1 tracking (civet_endpoints_ s) n exporter t1)) = Blocked
    end) as Hrest.
  { intros n Hn1 Hn2. destruct (stopping (env_exporter envs)); cbn [mbind outcome_bind]; [|by rewrite H3..]. destruct H3 as (t3 & -> & H3). cbn [mbind outcome_bind].
    unfold CleanUp. rewrite E. cbn [negb]. destruct (stop_all (signal_handlers_ s0)); cbn [mbind outcome_bind]; [|done..].
    eexists. split; [reflexivity|]. unfold ended. cbn. by split_and!. }
  destruct tracking; cbn [fmap option_fmap option_map mbind outcome_bind].
  - destruct (stopping (env_notifier envs)); cbn [mbind outcome_bind]; [|by rewrite H2..]. destruct H2 as (t2 & -> & H2). cbn [mbind outcome_bind].
    apply Hrest; [by intros t [= <-]|]. split; [done|by eexists].
  - apply Hrest; [done|]. split; [by intros []|done].
Qed.
End lifecycle.

(** ** Witnesses *)

Definition wit_main (getenv : chars -> option chars) := main_start (ho := true) (json := wit_json) wit_place getenv wit_env false 1 (8 * 1024 * 1024) (fun _ => (1, None)) []
  (fun _ => 0) wit_as wit_string id id wit_config wit_file wit_file wit_fs (fun v => if default 0 v =? 1 then ENABLED else DISABLED) (fun _ => DIR_UNSPECIFIED) (default 0)
  (fun i => (bool_decide (i = 2%nat), false)) 4 (command_line None wit_args)
  HostInfo_default LogLevel.INFO (Inotify_make 3).

(** The file sets the limit; and a period that is no number. *)
Lemma main_start_exact_witness :
  (match wit_main wit_getenv with
   | Ret (inr st) => st_channel st = Some Insecure /\ connects (fun i => (bool_decide (i = 2%nat), false)) /\ MaxConnectionsPerMinute (st_config st) = 4
   | _ => False
   end) /\
  wit_main (fun name => if chars_eqb name (chars_of "ROX_AFTERGLOW_PERIOD") then Some (chars_of "abc") else None) = Ret (inl Terminated).
Proof.
  split; [|vm_compute; reflexivity].
  pose proof (main_start_exact (ho := true) (json := wit_json) wit_place None wit_args wit_getenv wit_env false 1 (8 * 1024 * 1024) (fun _ => (1, None)) []
    (fun _ => 0) wit_as wit_string id id wit_config wit_file wit_file wit_fs (fun v => if default 0 v =? 1 then ENABLED else DISABLED) (fun _ => DIR_UNSPECIFIED) (default 0)
    (fun i => (bool_decide (i = 2%nat), false)) HostInfo_default LogLevel.INFO (Inotify_make 3)
    ltac:(by split) ltac:(by split) wit_place_ok wit_args_whole ltac:(reflexivity)) as Hex.
  change (match wit_main wit_getenv with
    | Ret (inr st) => st_channel st = Some Insecure /\ connects (fun i => (bool_decide (i = 2%nat), false)) /\ MaxConnectionsPerMinute (st_config st) = 4
    | _ => False end).
  fold (wit_main wit_getenv) in Hex.
  assert (match wit_main wit_getenv with Ret (inr st) => st_channel st = Some Insecure /\ MaxConnectionsPerMinute (st_config st) = 4 | _ => False end) as Hr
    by (vm_compute; split; reflexivity).
  change (Z.of_nat (S (length wit_args))) with 4 in Hex. fold (wit_main wit_getenv) in Hex.
  destruct (wit_main wit_getenv) as [[|st]| |]; [done| |done..]. destruct Hr as [Hs Hm]. split; [exact Hs|]. split; [|exact Hm].
  destruct Hex as (? & ? & ? & ? & ? & ? & _ & _ & _ & _ & _ & _ & _ & Hex & _). apply Hex. by rewrite Hs.
Defined.

Definition wit_thread : ThreadEnv := mkThreadEnv true [INTERRUPTED; CLOSED] CLOSED true.
Definition wit_envs : Envs := mkEnvs wit_thread wit_thread wit_thread.
Definition wit_names : EventNames :=
  default (mkEventNames [] [] []) (EventNames_make (wit_events ++ ["accept4"; "accept4"; "getsockopt"; "getsockopt"]) [] Z.even).
Definition wit_get {A} (d : A) (r : outcome A) : A := match r with Ret a => a | _ => d end.
Definition wit_none : CollectorService WitHandler := mkCollectorService wit_service (wit_sworld 0) false [] None StoppableThread_make StoppableThread_make.
Abbreviation wit_make := (@CollectorService_make WitHandler wit_handlers true NetworkHandler wit_names 16 true wit_collector_config wit_service (wit_sworld 0)).
Definition wit_made := wit_get wit_none wit_make.
Abbreviation wit_forever := (@RunForever WitHandler wit_handlers wit_sinsp wit_envs false [[wit_tick; wit_tick]; [wit_tick]] wit_made).
Definition wit_ran := wit_get wit_none wit_forever.
Lemma wit_made_eq : wit_make = Ret wit_made.
Proof. vm_compute. reflexivity. Qed.
Lemma wit_ran_eq : wit_forever = Ret wit_ran.
Proof. vm_compute. reflexivity. Qed.
Lemma wit_service_open : inspector_ wit_service = true.
Proof. vm_compute. reflexivity. Qed.

(** The run goes on without the loader's pipe. *)
Definition wit_no_pipe : Envs := mkEnvs (mkThreadEnv false [] CLOSED true) wit_thread wit_thread.
Abbreviation wit_forever' := (@RunForever WitHandler wit_handlers wit_sinsp wit_no_pipe false [[wit_tick]] wit_made).
Definition wit_ran' := wit_get wit_none wit_forever'.
Lemma wit_ran_eq' : wit_forever' = Ret wit_ran'.
Proof. vm_compute. reflexivity. Qed.

Abbreviation wit_ending envs ran := (@ending _ wit_handlers envs (negb true || negb (disable_network_flows_ wit_collector_config)) (signal_handlers_ (system_inspector_ ran))).
Lemma wit_ending_eq : wit_ending wit_envs wit_ran = Ret tt /\ wit_ending wit_no_pipe wit_ran' = Crash.
Proof. vm_compute. split; reflexivity. Qed.

Lemma service_lifecycle_witness :
  (exists s, @CollectorService_destroy WitHandler wit_handlers wit_envs (fun _ => true) wit_ran = Ret s /\ ended s /\ tracking_ s = true) /\
  @CollectorService_destroy WitHandler wit_handlers wit_no_pipe (fun _ => true) wit_ran' = Crash.
Proof.
  destruct wit_ending_eq as [E1 E2]. split.
  - pose proof (service_lifecycle (HH := wit_handlers) (HS := wit_sinsp) (ho := true) NetworkHandler wit_names 16 true wit_collector_config wit_service (wit_sworld 0)
      wit_made wit_envs false [[wit_tick; wit_tick]; [wit_tick]] (fun _ => true) wit_ran wit_made_eq wit_service_open wit_ran_eq) as Hs.
    cbv zeta in Hs. rewrite E1 in Hs. destruct Hs as (s & E & Hend & Ht & _). exists s. split; [exact E|]. split; [exact Hend|]. rewrite Ht. reflexivity.
  - pose proof (service_lifecycle (HH := wit_handlers) (HS := wit_sinsp) (ho := true) NetworkHandler wit_names 16 true wit_collector_config wit_service (wit_sworld 0)
      wit_made wit_no_pipe false [[wit_tick]] (fun _ => true) wit_ran' wit_made_eq wit_service_open wit_ran_eq') as Hs.
    cbv zeta in Hs. rewrite E2 in Hs. exact Hs.
Defined.
