(* ===== verification/NotifierRun.v ===== *)
(** * The thread of the notifier (NetworkStatusNotifier.cpp, NetworkConnectionInfoServiceComm.cpp)

    The loop around [RunSingle]: connect, report over one stream until it breaks, wait
    and connect again.  The communication object with its client context, the writers
    behind the interface [IDuplexClientWriter] of DuplexGRPC.h, the loop as a run over
    sessions, and its interleaving with [Stop], which another thread calls. *)

From stdpp Require Import relations.
From S2P Require Import Prelude HostOrder UMap NetAddress Connection ConnStatus Delta CollectorStats ExternalIPs ConnTracker Notifier CStrings Utility SignalClient.

(** ** Communication *)

(** [channel_] is whether there is a channel.  Contexts are numbered as they are made;
    [context_] is the one that the pointer owns, [cancelled_] are those on which
    [TryCancel] was called. *)
Record Comm := mkComm { channel_ : bool; context_ : option nat; contexts_ : nat; cancelled_ : list nat }.
Definition NetworkConnectionInfoServiceComm_make (channel : bool) : Comm := mkComm channel None 0 [].

Definition kHostnameMetadataKey : chars := chars_of "rox-collector-hostname".
Definition kCapsMetadataKey : chars := chars_of "rox-collector-capabilities".
Definition kSupportedCaps : chars := chars_of "public-ips,network-graph-external-srcs".

(** The metadata of a new context. *)
Definition CreateClientContext (hostname : chars) : list (chars * chars) :=
  [(kHostnameMetadataKey, hostname); (kCapsMetadataKey, kSupportedCaps)].

(** The old context is destroyed. *)
Definition ResetClientContext (c : Comm) : Comm := mkComm (channel_ c) (Some (contexts_ c)) (S (contexts_ c)) (cancelled_ c).

Definition WaitForConnectionReady (polls : list ChannelPoll) (c : Comm) : outcome bool :=
  if negb (channel_ c) then Ret true else WaitForChannelReady polls.

Definition TryCancel (c : Comm) : Comm :=
  match context_ c with
  | Some i => mkComm (channel_ c) (context_ c) (contexts_ c) (i :: cancelled_ c)
  | None => c
  end.

(** A stream on a context, or the writer that prints. *)
Inductive Stream := OnContext (i : nat) | OnStdout.

Definition PushNetworkConnectionInfoOpenStream (c : Comm) : Stream * Comm :=
  let c := match context_ c with None => ResetClientContext c | Some _ => c end in
  (if channel_ c then match context_ c with Some i => OnContext i | None => OnStdout end else OnStdout, c).

(** ** Writers *)

(** What [RunSingle] asks of its writer: the result of [WaitUntilStarted], of [Sleep] and
    of [Write], and whether [Finish] has the status OK. *)
Class DuplexWriter (W : Type) := {
  writer_WaitUntilStarted : W -> bool * W;
  writer_Sleep : W -> bool * W;
  writer_Write : InfoMessage -> W -> bool * W;
  writer_Finish : W -> bool * W
}.

(** [StdoutDuplexClientWriter]: the messages that were printed. *)
Record StdoutWriter := mkStdoutWriter { printed_ : list InfoMessage }.
Definition Stdout_Write (m : InfoMessage) (w : StdoutWriter) : bool * StdoutWriter := (true, mkStdoutWriter (printed_ w ++ [m])).
Definition Stdout_Sleep (w : StdoutWriter) : bool * StdoutWriter := (true, w).
Definition Stdout_WaitUntilStarted (w : StdoutWriter) : bool * StdoutWriter := (true, w).
Definition Stdout_Finish (w : StdoutWriter) : bool * StdoutWriter := (true, w).
#[global] Instance stdout_writer : DuplexWriter StdoutWriter := {
  writer_WaitUntilStarted := Stdout_WaitUntilStarted;
  writer_Sleep := Stdout_Sleep;
  writer_Write := Stdout_Write;
  writer_Finish := Stdout_Finish
}.

(** A stream whose peer answers as listed: one answer per [Sleep] and per [Write]; behind
    the list the stream is broken. *)
Record RemoteWriter := mkRemoteWriter { answers_ : list bool; sent_ : list InfoMessage }.
Definition next_answer (w : RemoteWriter) : bool * RemoteWriter :=
  match answers_ w with
  | [] => (false, w)
  | a :: rest => (a, mkRemoteWriter rest (sent_ w))
  end.
#[global] Instance remote_writer : DuplexWriter RemoteWriter := {
  writer_WaitUntilStarted := next_answer;
  writer_Sleep := next_answer;
  writer_Write m w := let '(ok, w) := next_answer w in (ok, if ok then mkRemoteWriter (answers_ w) (sent_ w ++ [m]) else w);
  writer_Finish w := (false, w)
}.

Section single.
Context `{ho : HostOrder} `{cs : CharSign} {W : Type} `{DW : DuplexWriter W}.

(** The iteration with the result of the write. *)
Definition with_write (ok : bool) (tick : Tick) : Tick :=
  mkTick (tick_scrape tick) (tick_ts tick) (tick_time tick) (tick_now tick) (tick_external tick) ok.

(** One iteration of the loop and whether another follows; [None] when [Sleep] ends it. *)
Definition single_iteration (cfg : NotifierConfig) (tick : Tick) (st : RunState) (w : W) : option (RunState * W * bool) :=
  let '(go, w) := writer_Sleep w in
  if negb go then None
  else
    let '(st', msg, _) := RunSingle_step cfg st tick in
    match msg with
    | None => Some (st', w, true)
    | Some m => let '(ok, w) := writer_Write m w in Some (st', w, ok)
    end.

(** [RunSingle] with its writer, over the events in the order in which they happen;
    [inl] is the state of a loop that is still running when they are over. *)
Fixpoint RunSingle_on (cfg : NotifierConfig) (events : list RunEvent) (st : RunState) (w : W) : (RunState * W) + (RunState * W) :=
  match events with
  | [] => inl (st, w)
  | EvTick tick :: rest =>
      match single_iteration cfg tick st w with
      | None => inr (st, (writer_Sleep w).2)
      | Some (st', w', true) => RunSingle_on cfg rest st' w'
      | Some (st', w', false) => inr (st', w')
      end
  | EvControl msg :: rest => RunSingle_on cfg rest (set_tracker (OnRecvControlMessage (rs_tracker st) msg) st) w
  | EvConnection conn ts added :: rest => RunSingle_on cfg rest (set_tracker (UpdateConnection (rs_tracker st) conn ts added) st) w
  end.

(** *** The loop over the streams *)

(** What a turn of [Run] meets: whether the pause was left to be stopped, the connections
    that other threads report to the tracker before the stream starts, the polls of the
    channel, the writer that the stream is, the clock and the setting when [RunSingle]
    starts, the events, and whether the thread should stop afterwards. *)
Record Turn := mkTurn {
  turn_stopped : bool; turn_meanwhile : list (Connection * Z * bool); turn_polls : list ChannelPoll; turn_writer : W; turn_now : Z; turn_external : ExternalIPsConfig;
  turn_events : list RunEvent; turn_should_stop : bool
}.

(** The tracker with what the other threads told it. *)
Definition turn_tracker (turn : Turn) (t : ConnectionTracker) : ConnectionTracker :=
  fold_left (fun t '(conn, ts, added) => UpdateConnection t conn ts added) (turn_meanwhile turn) t.

(** A stream that was opened: the state in which its loop ended. *)
Record StreamEnd := mkStreamEnd { end_stream : Stream; end_state : RunState; end_writer : W }.

(** [Run]: the streams that were opened, in order.  The loop of a stream that is still
    running when its events are over does not come back, [Blocked]. *)
Fixpoint Notifier_Run (cfg : NotifierConfig) (turns : list Turn) (c : Comm) (t : ConnectionTracker) : outcome (list StreamEnd * Comm * ConnectionTracker) :=
  match turns with
  | [] => Blocked
  | turn :: rest =>
      if turn_stopped turn then Ret ([], c, t)
      else
        let t := turn_tracker turn t in
        let c := ResetClientContext c in
        ready ← WaitForConnectionReady (turn_polls turn) c;
        if negb ready then Ret ([], c, t)
        else
          let '(stream, c) := PushNetworkConnectionInfoOpenStream c in
          let w := (writer_WaitUntilStarted (turn_writer turn)).2 in
          match RunSingle_on cfg (turn_events turn) (RunSingle_start t (turn_now turn) (turn_external turn)) w with
          | inl _ => Blocked
          | inr (st, w) =>
              let ended := mkStreamEnd stream st w in
              if turn_should_stop turn then Ret ([ended], c, rs_tracker st)
              else
                let ended := mkStreamEnd stream st (writer_Finish w).2 in
                '(streams, c, t) ← Notifier_Run cfg rest c (rs_tracker st);
                Ret (ended :: streams, c, t)
          end
  end.
End single.
Arguments Turn : clear implicits.
Arguments StreamEnd : clear implicits.

(** ** The thread and [Stop] *)

(** Where [Run] is: in the pause, before [ResetClientContext], in [WaitForConnectionReady],
    before the stream is opened, in [RunSingle], behind it, in [Finish]; left; or the
    process has ended. *)
Inductive RunPc := R_PAUSE | R_RESET | R_WAIT | R_OPEN | R_SINGLE | R_AFTER | R_FINISH | R_DONE | R_FATAL.
(** What [Stop] has done: nothing, cancelled, told the thread, joined it. *)
Inductive StopPc := S_IDLE | S_CANCELLED | S_TOLD | S_JOINED.

Record Conf := mkConf { comm_ : Comm; stream_ : option Stream; run_pc : RunPc; stop_pc : StopPc; should_stop_ : bool }.
Definition conf_start (channel : bool) : Conf := mkConf (NetworkConnectionInfoServiceComm_make channel) None R_PAUSE S_IDLE false.

(** A step of the program, or one that needs the server. *)
Inductive Who := Program | Server.

Inductive step : Who -> Conf -> Conf -> Prop :=
| step_go c s p : step Program (mkConf c s R_PAUSE p false) (mkConf c s R_RESET p false)
| step_pause_stop c s p : step Program (mkConf c s R_PAUSE p true) (mkConf c s R_DONE p true)
| step_reset c s p f : step Program (mkConf c s R_RESET p f) (mkConf (ResetClientContext c) s R_WAIT p f)
| step_no_channel c s p f : channel_ c = false -> step Program (mkConf c s R_WAIT p f) (mkConf c s R_OPEN p f)
| step_interrupted c s p : channel_ c = true -> step Program (mkConf c s R_WAIT p true) (mkConf c s R_DONE p true)
| step_connected c s p f : channel_ c = true -> step Server (mkConf c s R_WAIT p f) (mkConf c s R_OPEN p f)
| step_shut_down c s p f : channel_ c = true -> step Server (mkConf c s R_WAIT p f) (mkConf c s R_FATAL p f)
| step_open c s p f : step Program (mkConf c s R_OPEN p f)
    (mkConf (PushNetworkConnectionInfoOpenStream c).2 (Some (PushNetworkConnectionInfoOpenStream c).1) R_SINGLE p f)
| step_cancelled c i p f : i ∈ cancelled_ c -> step Program (mkConf c (Some (OnContext i)) R_SINGLE p f) (mkConf c (Some (OnContext i)) R_AFTER p f)
| step_broken c i p f : step Server (mkConf c (Some (OnContext i)) R_SINGLE p f) (mkConf c (Some (OnContext i)) R_AFTER p f)
| step_after_stop c s p : step Program (mkConf c s R_AFTER p true) (mkConf c None R_DONE p true)
| step_after_go c s p : step Program (mkConf c s R_AFTER p false) (mkConf c s R_FINISH p false)
| step_finish c s p f : step Program (mkConf c s R_FINISH p f) (mkConf c None R_PAUSE p f)
| step_cancel c s r f : step Program (mkConf c s r S_IDLE f) (mkConf (TryCancel c) s r S_CANCELLED f)
| step_tell c s r f : step Program (mkConf c s r S_CANCELLED f) (mkConf c s r S_TOLD true)
| step_join c s f : step Program (mkConf c s R_DONE S_TOLD f) (mkConf c s R_DONE S_JOINED f).

Definition any_step (k k' : Conf) : Prop := exists who, step who k k'.

(** ** One stream *)

Section single_theorems.
Context `{ho : HostOrder} `{cs : CharSign}.

(** The same iteration, but for the result of its write. *)
Definition same_event (e e' : RunEvent) : Prop :=
  match e, e' with
  | EvTick a, EvTick b => exists ok, b = with_write ok a
  | _, _ => e = e'
  end.

(** The write has no influence on the state. *)
Lemma step_with_write cfg st tick ok :
  RunSingle_step cfg st (with_write ok tick) =
  ((RunSingle_step cfg st tick).1, match (RunSingle_step cfg st tick).1.2 with None => true | Some _ => ok end).
Proof.
  unfold RunSingle_step. change (UpdateAllConnsAndEndpoints cfg (rs_tracker st) (with_write ok tick)) with (UpdateAllConnsAndEndpoints cfg (rs_tracker st) tick).
  destruct (UpdateAllConnsAndEndpoints _ _ _) as [t updated]. destruct updated; cbn [negb]; [|done].
  change (RunSingle_deltas cfg st t (with_write ok tick)) with (RunSingle_deltas cfg st t tick). destruct (RunSingle_deltas cfg st t tick) as [[st2 cd] ed].
  change (tick_now (with_write ok tick)) with (tick_now tick). by destruct (CreateInfoMessage _ _ _ _ _) as [[m|] stats].
Qed.

Lemma orderly_ran cfg ran left events : forall st, Forall2 same_event ran events -> orderly cfg st (ran ++ left) -> orderly cfg st events.
Proof.
  intros st H. revert st. induction H as [|e e' ran events He _ IH]; intros st Ho; [done|].
  destruct e as [tick|msg|conn ts added], e' as [tick'|msg'|conn' ts' added']; try done; cbn [same_event] in He.
  - destruct He as [ok ->]. destruct Ho as (H1 & H2 & H3). cbn [orderly]. rewrite step_with_write. split; [exact H1|]. split; [exact H2|]. by apply IH.
  - injection He as <-. by apply IH.
  - injection He as <- <- <-. by apply IH.
Qed.

(** The loop with its writer is the loop of [Notifier] on the events that it came to, up
    to the results of the writes. *)
Definition ran_as (cfg : NotifierConfig) (st : RunState) (events : list RunEvent) (st' : RunState) (ran left events' : list RunEvent) : Prop :=
  events = ran ++ left /\ Forall2 same_event ran events' /\ (RunSingle cfg st events').1 = st'.

Lemma RunSingle_on_refines {W} `{DW : DuplexWriter W} cfg events : forall st (w : W) r,
  (RunSingle_on cfg events st w = inl r \/ RunSingle_on cfg events st w = inr r) ->
  exists ran left events', ran_as cfg st events r.1 ran left events'.
Proof.
  induction events as [|e events IH]; intros st w r Hr; cbn [RunSingle_on] in Hr.
  { exists [], [], []. destruct Hr as [[= <-]|[=]]. done. }
  destruct e as [tick|msg|conn ts added].
  - unfold single_iteration in Hr. destruct (writer_Sleep w) as [go w1]. destruct go; cbn [negb] in Hr.
    2:{ exists [], (EvTick tick :: events), []. destruct Hr as [[=]|[= <-]]. done. }
    destruct (RunSingle_step cfg st tick) as [[st1 msg] ok0] eqn:E.
    assert (forall w2 ok, (match msg with None => true | Some _ => ok end = true -> RunSingle_on cfg events st1 w2 = inl r \/ RunSingle_on cfg events st1 w2 = inr r) ->
      (match msg with None => true | Some _ => ok end = false -> r.1 = st1) -> exists ran left events', ran_as cfg st (EvTick tick :: events) r.1 ran left events') as Hgo.
    { intros w2 ok Hyes Hno. pose proof (step_with_write cfg st tick ok) as Hw. rewrite E in Hw. cbn [fst snd] in Hw. destruct (match msg with None => true | Some _ => ok end) eqn:Eg.
      - destruct (IH st1 w2 r (Hyes eq_refl)) as (ran & left & events' & -> & Hs & He). exists (EvTick tick :: ran), left, (EvTick (with_write ok tick) :: events'). split; [done|]. split.
        + constructor; [by exists ok|done].
        + cbn [RunSingle]. rewrite Hw. by destruct (RunSingle cfg st1 events').
      - exists [EvTick tick], events, [EvTick (with_write ok tick)]. split; [done|]. split; [repeat constructor; by exists ok|]. cbn [RunSingle]. rewrite Hw. by rewrite Hno. }
    destruct msg as [m|].
    + destruct (writer_Write m w1) as [ok w2] eqn:Em. apply (Hgo w2 ok); [intros ->; exact Hr|intros ->]. by destruct Hr as [[=]|[= <-]].
    + apply (Hgo w1 true); [intros _; exact Hr|done].
  - destruct (IH _ _ _ Hr) as (ran & left & events' & -> & Hs & He). exists (EvControl msg :: ran), left, (EvControl msg :: events'). by repeat (split || constructor).
  - destruct (IH _ _ _ Hr) as (ran & left & events' & -> & Hs & He). exists (EvConnection conn ts added :: ran), left, (EvConnection conn ts added :: events'). by repeat (split || constructor).
Qed.

(** With the writer that prints, [RunSingle] never returns, whatever happens: its [Sleep]
    does not sleep and its writes do not fail. *)
Theorem stdout_never_returns cfg events st w : exists r, RunSingle_on (W := StdoutWriter) cfg events st w = inl r.
Proof.
  revert st w. induction events as [|[tick|msg|conn ts added] events IH]; intros st w; cbn [RunSingle_on]; [by eexists| |apply IH..].
  unfold single_iteration. cbn [stdout_writer writer_Sleep negb]. destruct (RunSingle_step cfg st tick) as [[st1 [m|]] ok]; apply IH.
Qed.

(** *** The streams of a run *)

(** What a stream reported in its turn, where the tracker is [t] when the stream starts:
    of the turn's events the loop came to [ran] and left the others; its state is the one
    that these lead to from an empty record; and if the turn's events are orderly, the
    receiver of the deltas has open what that record has open. *)
Definition stream_in_step (cfg : NotifierConfig) {W} (turn : Turn W) (t : ConnectionTracker) (e : StreamEnd W) : Prop :=
  let start := RunSingle_start t (turn_now turn) (turn_external turn) in
  exists ran left events, ran_as cfg start (turn_events turn) (end_state e) ran left events /\
    (orderly cfg start (turn_events turn) -> forall k, receiver_view cfg start (fun _ => false) events k =
      match umap_find conn_keq k (rs_old_conn (end_state e)) with
      | Some s => status_open cfg (rs_time_at_last_scrape (end_state e)) s
      | None => false
      end).

(** The streams belong to the first turns, one each, and each starts with the tracker that
    the one before it left, with what the other threads told it meanwhile. *)
Fixpoint streams_of (cfg : NotifierConfig) {W} (turns : list (Turn W)) (t : ConnectionTracker) (streams : list (StreamEnd W)) (t' : ConnectionTracker) : Prop :=
  match streams, turns with
  | [], [] => t' = t
  | [], turn :: _ => t' = t \/ t' = turn_tracker turn t
  | e :: streams, turn :: turns => stream_in_step cfg turn (turn_tracker turn t) e /\ streams_of cfg turns (rs_tracker (end_state e)) streams t'
  | _ :: _, [] => False
  end.

Lemma single_in_step cfg {W} `{DW : DuplexWriter W} (turn : Turn W) t (w : W) r stream (w' : W) :
  RunSingle_on cfg (turn_events turn) (RunSingle_start t (turn_now turn) (turn_external turn)) w = inr r -> stream_in_step cfg turn t (mkStreamEnd stream r.1 w').
Proof.
  intros E. destruct (RunSingle_on_refines cfg _ _ w r (or_intror E)) as (ran & left & events & H1 & H2 & H3). exists ran, left, events.
  split; [done|]. cbn [end_state]. rewrite H1. intros Ho k. rewrite <-H3.
  assert (run_inv cfg (RunSingle_start t (turn_now turn) (turn_external turn)) (fun _ => false)) as Hinv by done.
  apply (run_view_inv cfg events _ _ Hinv). by eapply orderly_ran.
Qed.


(** Without a channel the run ends before its first stream or never. *)
Theorem stdout_run_blocks cfg turns c t streams c' t' : channel_ c = false ->
  Notifier_Run (W := StdoutWriter) cfg turns c t = Ret (streams, c', t') -> streams = [] /\ exists turn rest, turns = turn :: rest /\ turn_stopped turn = true.
Proof.
  intros Hc E. destruct turns as [|turn turns]; cbn [Notifier_Run] in E; [done|]. destruct (turn_stopped turn) eqn:Es; [injection E as <- _ _; split; [done|by eexists _, _]|].
  unfold WaitForConnectionReady in E. cbn [ResetClientContext channel_] in E. rewrite Hc in E. cbn [negb mbind outcome_bind] in E.
  destruct (PushNetworkConnectionInfoOpenStream _) as [stream c1]. edestruct (stdout_never_returns cfg (turn_events turn)) as [r Hr]. by rewrite Hr in E.
Qed.
End single_theorems.

(** ** [Stop] *)

(** A stream that is open uses the context that the pointer owns, so that no context is
    destroyed under a stream; the printing writer is used without a channel only; a
    thread that was joined has left, and the flag is what [Stop] made it. *)
Definition conf_inv (channel : bool) (k : Conf) : Prop :=
  channel_ (comm_ k) = channel /\ (should_stop_ k = true <-> stop_pc k = S_TOLD \/ stop_pc k = S_JOINED) /\
  (stop_pc k = S_JOINED -> run_pc k = R_DONE) /\
  match run_pc k with
  | R_PAUSE | R_RESET | R_DONE => stream_ k = None
  | R_WAIT | R_OPEN => stream_ k = None /\ is_Some (context_ (comm_ k))
  | R_FATAL => channel = true
  | R_SINGLE | R_AFTER | R_FINISH =>
      if channel then exists i, context_ (comm_ k) = Some i /\ stream_ k = Some (OnContext i)
      else run_pc k = R_SINGLE /\ stream_ k = Some OnStdout
  end.

Lemma TryCancel_same c : channel_ (TryCancel c) = channel_ c /\ context_ (TryCancel c) = context_ c.
Proof. unfold TryCancel. by destruct (context_ c) eqn:E. Qed.

Lemma conf_inv_step channel who k k' : step who k k' -> conf_inv channel k -> conf_inv channel k'.
Proof.
  intros H (Hc & Hf & Hj & Hr). destruct H; cbn in *; unfold conf_inv; cbn; rewrite ?(proj1 (TryCancel_same c)), ?(proj2 (TryCancel_same c)).
  all: split; [|split; [|split]]; try done; try (intros ->; by specialize (Hj eq_refl)); try intuition (try discriminate; eauto; congruence).
  - destruct Hr as [_ [i ->]]. done.
  - destruct Hr as [_ [i Hi]]. rewrite !Hi, Hc. destruct channel; [by exists i|done].
  - destruct channel; [done|by destruct Hr].
  - destruct channel; [done|by destruct Hr].
  - destruct channel; [done|by destruct Hr].
Qed.

Lemma conf_inv_reachable channel k : rtc any_step (conf_start channel) k -> conf_inv channel k.
Proof.
  intros H. assert (conf_inv channel (conf_start channel)) as H0 by (split; [done|]; split; [split; [done|by intros [?|?]]|]; done).
  revert H0. induction H as [|k1 k2 k3 [who Hs] _ IH]; [done|]. intros H0. by eapply IH, conf_inv_step.
Qed.

(** What the program does without the server. *)
Definition alone : Conf -> Conf -> Prop := rtc (step Program).

(** The cancellation reached the stream: what [RunSingle] works on, or will, is a
    cancelled context. *)
Definition cancel_arrived (k : Conf) : Prop :=
  (run_pc k = R_OPEN \/ run_pc k = R_SINGLE) -> exists i, context_ (comm_ k) = Some i /\ i ∈ cancelled_ (comm_ k).

Lemma join_after_stop c s : alone (mkConf c s R_AFTER S_TOLD true) (mkConf c None R_DONE S_JOINED true).
Proof. eapply rtc_l; [apply step_after_stop|]. apply rtc_once, step_join. Qed.

(** C7: In every interleaving of the notifier's thread with a call of [Stop], an open stream
    works on the context that the object owns, so that no context is destroyed under
    its stream, and when [Stop] returns the thread has left and its stream is gone.
    Once [Stop] has told the thread, it returns without help of the server if the
    cancellation reached the stream, wherever the thread is. *)
Theorem notifier_stops k : rtc any_step (conf_start true) k ->
  (forall i, stream_ k = Some (OnContext i) -> run_pc k <> R_FATAL -> context_ (comm_ k) = Some i) /\
  (stop_pc k = S_JOINED -> run_pc k = R_DONE /\ stream_ k = None) /\
  (stop_pc k = S_TOLD -> run_pc k <> R_FATAL -> cancel_arrived k -> exists k', alone k k' /\ stop_pc k' = S_JOINED).
Proof.
  intros H%conf_inv_reachable. destruct k as [c s r p f]. destruct H as (Hc & Hf & Hj & Hr). cbn in *. split_and!.
  - intros i -> Hfat. destruct r; try done; try (by destruct Hr); by destruct Hr as (j & Hj1 & [= ->]).
  - intros Hp. specialize (Hj Hp). by subst r.
  - intros -> Hfat Har. assert (f = true) as -> by (apply Hf; by left). unfold cancel_arrived in Har. cbn in Har. destruct r; try done.
    + eexists. split; [eapply rtc_l; [apply step_pause_stop|apply rtc_once, step_join]|done].
    + eexists. split; [eapply rtc_l; [apply step_reset|]; eapply rtc_l; [by apply step_interrupted|apply rtc_once, step_join]|done].
    + eexists. split; [eapply rtc_l; [by apply step_interrupted|apply rtc_once, step_join]|done].
    + destruct Har as (i & Hi & Hin); [by left|]. eexists (mkConf _ _ _ S_JOINED _). split; [|reflexivity]. eapply rtc_l; [apply step_open|].
      unfold PushNetworkConnectionInfoOpenStream. rewrite !Hi, Hc, ?Hi. cbn [fst snd]. eapply rtc_l; [by apply step_cancelled|apply join_after_stop].
    + destruct Har as (i & Hi & Hin); [by right|]. destruct Hr as (j & Hj1 & ->). rewrite Hi in Hj1. injection Hj1 as <-.
      eexists. split; [eapply rtc_l; [by apply step_cancelled|apply join_after_stop]|done].
    + eexists. split; [apply join_after_stop|done].
    + eexists. split; [eapply rtc_l; [apply step_finish|]; eapply rtc_l; [apply step_pause_stop|apply rtc_once, step_join]|done].
    + eexists. split; [apply rtc_once, step_join|done].
Qed.

(** The cancellation can be lost: if it comes while the thread is between two streams, the
    thread makes a context that nobody cancels, and [Stop] waits for the server to end
    the stream. *)
Theorem cancellation_lost : exists k, rtc any_step (conf_start true) k /\ stop_pc k = S_TOLD /\ run_pc k = R_SINGLE /\
  (forall k', step Program k k' -> False).
Proof.
  exists (mkConf (mkComm true (Some 0%nat) 1 []) (Some (OnContext 0)) R_SINGLE S_TOLD true). split_and!; [|done..|].
  - eapply rtc_l; [exists Program; apply step_go|]. eapply rtc_l; [exists Program; apply step_cancel|]. eapply rtc_l; [exists Program; apply step_reset|].
    eapply rtc_l; [exists Server; by apply step_connected|]. eapply rtc_l; [exists Program; apply step_open|]. apply rtc_once. exists Program. apply step_tell.
  - intros k' Hk. inversion Hk; subst. set_solver.
Qed.

(** Without a channel, a thread that has opened its stream is never joined. *)
Theorem stdout_never_joined k k' : rtc any_step (conf_start false) k -> run_pc k = R_SINGLE -> rtc any_step k k' ->
  run_pc k' = R_SINGLE /\ stop_pc k' <> S_JOINED.
Proof.
  intros H Hr Hk. assert (forall k, conf_inv false k -> run_pc k = R_SINGLE -> forall k', any_step k k' -> run_pc k' = R_SINGLE) as Hstep.
  { intros k1 (_ & _ & _ & H1) Hpc k2 [who Hs]. rewrite Hpc in H1. destruct H1 as [_ H1]. destruct Hs; cbn in *; try done; by destruct s. }
  apply conf_inv_reachable in H. assert (conf_inv false k' /\ run_pc k' = R_SINGLE) as [(_ & _ & Hj & _) Hpc].
  { induction Hk as [|k1 k2 k3 Hs _ IH]; [done|]. apply IH; [destruct Hs as [who Hs]; by eapply conf_inv_step|by eapply Hstep]. }
  split; [done|]. intros Hp. specialize (Hj Hp). by rewrite Hpc in Hj.
Qed.

(** ** Witnesses *)

Lemma notifier_stops_witness : exists k, rtc any_step (conf_start true) k /\ run_pc k = R_SINGLE /\ exists k', alone k k' /\ stop_pc k' = S_JOINED.
Proof.
  exists (mkConf (mkComm true (Some 0%nat) 1 [0%nat]) (Some (OnContext 0)) R_SINGLE S_TOLD true).
  assert (rtc any_step (conf_start true) (mkConf (mkComm true (Some 0%nat) 1 [0%nat]) (Some (OnContext 0)) R_SINGLE S_TOLD true)) as H.
  { eapply rtc_l; [exists Program; apply step_go|]. eapply rtc_l; [exists Program; apply step_reset|].
    eapply rtc_l; [exists Server; by apply step_connected|]. eapply rtc_l; [exists Program; apply step_open|].
    eapply rtc_l; [exists Program; apply step_cancel|]. apply rtc_once. exists Program. apply step_tell. }
  split; [exact H|]. split; [reflexivity|]. apply (notifier_stops _ H); [reflexivity|discriminate|]. intros _. exists 0%nat. split; [reflexivity|by apply elem_of_cons; left].
Defined.

Definition wit_turns : list (Turn RemoteWriter) :=
  [mkTurn false [] [mkChannelPoll false true false] (mkRemoteWriter [true; true; true; true] []) 5 (mkExternalIPs NONE) wit_events false;
   mkTurn false [(wit_conn', 30, true)] [mkChannelPoll false false false; mkChannelPoll false true false] (mkRemoteWriter [true; true; false] []) 40 (mkExternalIPs NONE)
     [EvTick (mkTick (Some ([wit_conn], [])) 50 50 51 (mkExternalIPs NONE) true)] true].
Abbreviation wit_run := (Notifier_Run (ho := true) (cs := true) wit_cfg wit_turns (NetworkConnectionInfoServiceComm_make true) ConnectionTracker_default).
Definition wit_ended : list (StreamEnd RemoteWriter) * Comm * ConnectionTracker :=
  match wit_run with Ret r => r | _ => ([], NetworkConnectionInfoServiceComm_make true, ConnectionTracker_default) end.
Lemma wit_run_eq : wit_run = Ret (wit_ended.1.1, wit_ended.1.2, wit_ended.2).
Proof. vm_compute. reflexivity. Qed.
Lemma wit_ended_sent : (length ∘ sent_ ∘ end_writer) <$> wit_ended.1.1 = [1; 0]%nat.
Proof. vm_compute. reflexivity. Qed.

