(* ===== verification/StatsExport.v ===== *)
(** * Statistics for Prometheus (CollectorStatsExporter.cpp, CollectorConnectionStats.h)

    The gauges of the exporter's thread and what a turn of its loop stores in them;
    [GetStats] of the inspector; and the summaries of connections, which the notifier
    reports ([ReportConnectionStats] of NetworkStatusNotifier.cpp).  A registry is a map
    from a family and labels to the value of a gauge: adding labels that a family has
    returns the gauge that is there. *)

From stdpp Require Import gmap strings.
From S2P Require Import Prelude HostOrder UMap NetAddress Connection ConnStatus CollectorStats RateLimit ExternalIPs ConnTracker CStrings Utility Signals Floats ProcessSignals Inspector Notifier.

(** ** Floating point that only the statistics use *)

Definition fneg (x : float) : float := match x with Fin m e => Fin (- m) e | Inf s => Inf (negb s) | NaN => NaN end.
Definition fadd (fmt : Format) (x y : float) : float :=
  match x, y with
  | Fin m1 e1, Fin m2 e2 => of_ratio fmt (m1 * up e1 * down e2 + m2 * up e2 * down e1) (down e1 * down e2)
  | NaN, _ | _, NaN => NaN
  | Inf s, Inf s' => if Bool.eqb s s' then Inf s else NaN
  | Inf s, _ | _, Inf s => Inf s
  end.
Definition fsub (fmt : Format) (x y : float) : float := fadd fmt x (fneg y).

(** The root of [m * 2 ^ e]: of [m] scaled to [2 * prec] further bits and an even exponent
    [2 * j], with a last digit that says whether the root is exact. *)
Definition fsqrt (fmt : Format) (x : float) : float :=
  match x with
  | Fin m e =>
      if m <? 0 then NaN
      else
        let j := (e - 2 * prec fmt) / 2 in
        let scaled := m * 2 ^ (e - 2 * j) in
        let s := Z.sqrt scaled in
        let sticky := if s * s =? scaled then 0 else 1 in
        of_ratio fmt ((2 * s + sticky) * up (j - 1)) (down (j - 1))
  | Inf false => Inf false
  | _ => NaN
  end.

(** ** Gauges *)

Abbreviation Key := (string * list (string * string))%type.
Abbreviation Registry := (gmap Key float).

(** [family.Add(labels)] *)
Definition Gauge_Add (k : Key) (r : Registry) : Registry := match r !! k with Some _ => r | None => <[k := Fin 0 0]> r end.
Definition Gauge_Set (r : Registry) (kv : Key * float) : Registry := <[kv.1 := kv.2]> r.
Definition Gauge_Set_all (kvs : list (Key * float)) (r : Registry) : Registry := fold_left Gauge_Set kvs r.

(** An integer as the double that [Set] takes. *)
Definition gauge_value (z : Z) : float := of_Z binary64 z.

Definition timer_types : list Timer.t :=
  [Timer.net_scrape_read; Timer.net_scrape_update; Timer.net_fetch_state; Timer.net_create_message; Timer.net_write_message; Timer.process_info_wait].
Definition timer_type_to_name (t : Timer.t) : string :=
  match t with
  | Timer.net_scrape_read => "net_scrape_read" | Timer.net_scrape_update => "net_scrape_update" | Timer.net_fetch_state => "net_fetch_state"
  | Timer.net_create_message => "net_create_message" | Timer.net_write_message => "net_write_message" | Timer.process_info_wait => "process_info_wait"
  end.

Definition counter_types : list Counter.t :=
  [Counter.net_conn_updates; Counter.net_conn_deltas; Counter.net_conn_inactive; Counter.net_conn_rate_limited; Counter.net_cep_updates;
   Counter.net_cep_deltas; Counter.net_cep_inactive; Counter.net_known_ip_networks; Counter.net_known_public_ips; Counter.process_lineage_counts;
   Counter.process_lineage_total; Counter.process_lineage_sqr_total; Counter.process_lineage_string_total; Counter.process_info_hit;
   Counter.process_info_miss; Counter.rate_limit_flushing_counts; Counter.procfs_could_not_open_fd_dir; Counter.procfs_could_not_open_proc_dir;
   Counter.procfs_could_not_open_pid_dir; Counter.procfs_could_not_get_network_namespace; Counter.procfs_could_not_get_socket_inodes;
   Counter.procfs_could_not_read_exe; Counter.procfs_could_not_read_cmdline; Counter.procfs_zombie_process; Counter.event_timestamp_distant_past;
   Counter.event_timestamp_future].
Definition counter_type_to_name (c : Counter.t) : string :=
  match c with
  | Counter.net_conn_updates => "net_conn_updates" | Counter.net_conn_deltas => "net_conn_deltas" | Counter.net_conn_inactive => "net_conn_inactive"
  | Counter.net_conn_rate_limited => "net_conn_rate_limited" | Counter.net_cep_updates => "net_cep_updates" | Counter.net_cep_deltas => "net_cep_deltas"
  | Counter.net_cep_inactive => "net_cep_inactive" | Counter.net_known_ip_networks => "net_known_ip_networks"
  | Counter.net_known_public_ips => "net_known_public_ips" | Counter.process_lineage_counts => "process_lineage_counts"
  | Counter.process_lineage_total => "process_lineage_total" | Counter.process_lineage_sqr_total => "process_lineage_sqr_total"
  | Counter.process_lineage_string_total => "process_lineage_string_total" | Counter.process_info_hit => "process_info_hit"
  | Counter.process_info_miss => "process_info_miss" | Counter.rate_limit_flushing_counts => "rate_limit_flushing_counts"
  | Counter.procfs_could_not_open_fd_dir => "procfs_could_not_open_fd_dir" | Counter.procfs_could_not_open_proc_dir => "procfs_could_not_open_proc_dir"
  | Counter.procfs_could_not_open_pid_dir => "procfs_could_not_open_pid_dir"
  | Counter.procfs_could_not_get_network_namespace => "procfs_could_not_get_network_namespace"
  | Counter.procfs_could_not_get_socket_inodes => "procfs_could_not_get_socket_inodes" | Counter.procfs_could_not_read_exe => "procfs_could_not_read_exe"
  | Counter.procfs_could_not_read_cmdline => "procfs_could_not_read_cmdline" | Counter.procfs_zombie_process => "procfs_zombie_process"
  | Counter.event_timestamp_distant_past => "event_timestamp_distant_past" | Counter.event_timestamp_future => "event_timestamp_future"
  end.

Definition events_key (type : string) : Key := ("rox_collector_events", [("type", type)]).
Definition timers_key (type : string) : Key := ("rox_collector_timers", [("type", type)]).
Definition counters_key (type : string) : Key := ("rox_collector_counters", [("type", type)]).
Definition lineage_key (type : string) : Key := ("rox_collector_process_lineage_info", [("type", type)]).

(** *** [CollectorTimerGauge] *)

Definition CollectorTimerGauge_keys (timer_name : string) : list Key :=
  [timers_key (timer_name +:+ "_events"); timers_key (timer_name +:+ "_times_us_total"); timers_key (timer_name +:+ "_times_us_avg")].
Definition CollectorTimerGauge_Update (timer_name : string) (count total_us : Z) : list (Key * float) :=
  [(timers_key (timer_name +:+ "_events"), gauge_value count); (timers_key (timer_name +:+ "_times_us_total"), gauge_value total_us);
   (timers_key (timer_name +:+ "_times_us_avg"), gauge_value (if count =? 0 then 0 else Z.quot total_us count))].

(** ** Statistics of the inspector *)

(** [Stats]; the counters by event type are those of [Inspector], the process counters
    those of [ProcessSignals]. *)
Record Stats := mkStats {
  nEvents : Z; nDrops : Z; nDropsBuffer : Z; nPreemptions : Z; nThreadCacheSize : Z; nDropsThreadCache : Z; nGRPCSendFailures : Z;
  by_type : EventStats; processes : ProcStats
}.
(** What libscap and libsinsp count. *)
Record ScapStats := mkScapStats { n_evts : Z; n_drops : Z; n_drops_buffer : Z; n_preemptions : Z }.

(** [drops_full_threadtable] is absent when libsinsp keeps no statistics. *)
Definition GetStats {H} (kernel : ScapStats) (drops_full_threadtable : option Z) (thread_count : Z) (p : ProcStats) (s : Service H) : option Stats :=
  if negb (running_flag_ s) || negb (inspector_ s) then None
  else
    Some (mkStats (n_evts kernel) (n_drops kernel) (n_drops_buffer kernel) (n_preemptions kernel) thread_count
            (default 0 drops_full_threadtable) 0 (userspace_stats_ s) p).

(** ** The thread of the exporter *)

(** The gauges of one event type. *)
Record TypedGauges := mkTyped { userspace : Key; parse_micros_total : Key; process_micros_total : Key; parse_micros_avg : Key; process_micros_avg : Key }.
(** A map of labels, sorted as [std::map] sorts it. *)
Definition typed_gauges (event_name event_dir : string) : TypedGauges :=
  let step s := [("event_dir", event_dir); ("event_type", event_name); ("step", s)] in
  mkTyped ("rox_collector_events_typed", [("event_dir", event_dir); ("event_type", event_name); ("quantity", "userspace")])
    ("rox_collector_event_times_us_total", step "parse") ("rox_collector_event_times_us_total", step "process")
    ("rox_collector_event_times_us_avg", step "parse") ("rox_collector_event_times_us_avg", step "process").

Section exporter.
Variable PPME_IS_ENTER : Z -> bool.
(** The names of the event types, and the active system calls. *)
Variable event_names : list string.
Variable syscalls : list string.

Definition typed_of (i : nat) (event_name : string) : option TypedGauges :=
  if existsb (String.eqb event_name) syscalls then Some (typed_gauges event_name (if PPME_IS_ENTER (Z.of_nat i) then ">" else "<")) else None.
(** The array of the loop over the event types. *)
Definition typed : list (option TypedGauges) := imap typed_of event_names.

Definition event_types : list string :=
  ["kernel"; "drops"; "threadCacheDrops"; "ringbufferDrops"; "preemptions"; "grpcSendFailures"; "threadCacheSize"; "processSent"; "processSendFailures";
   "processResolutionFailuresByEvt"; "processResolutionFailuresByTinfo"; "processRateLimitCount"].
Definition typed_keys (g : TypedGauges) : list Key :=
  [userspace g; parse_micros_total g; process_micros_total g; parse_micros_avg g; process_micros_avg g].

(** The gauges that the thread adds before its loop. *)
Definition exporter_keys (detailed : bool) : list Key :=
  map events_key event_types ++ flat_map (fun t => CollectorTimerGauge_keys (timer_type_to_name t)) timer_types ++
  map (fun c => counters_key (counter_type_to_name c)) counter_types ++ map lineage_key ["lineage_count"; "lineage_avg"; "std_dev"; "lineage_avg_string_len"] ++
  (if detailed then events_key "userspace" :: flat_map (fun g => match g with Some g => typed_keys g | None => [] end) typed else []).
Definition exporter_start (detailed : bool) (r : Registry) : Registry := fold_left (fun r k => Gauge_Add k r) (exporter_keys detailed) r.

(** What an event type sets; there is nothing for [process_micros_avg]. *)
Definition typed_updates (s : EventStats) (i : nat) (g : option TypedGauges) : list (Key * float) :=
  let at_type l := default 0 (l !! i) in
  match g with
  | None => []
  | Some g =>
      let count := at_type (nUserspaceEvents s) in
      [(userspace g, gauge_value count); (parse_micros_total g, gauge_value (at_type (event_parse_micros s)));
       (process_micros_total g, gauge_value (at_type (event_process_micros s)));
       (parse_micros_avg g, gauge_value (if count =? 0 then 0 else at_type (event_parse_micros s) / count))]
  end.

Definition detailed_updates (s : EventStats) : list (Key * float) :=
  concat (imap (typed_updates s) typed) ++
  [(events_key "userspace", gauge_value (fold_left (fun n i => u64 (n + default 0 (nUserspaceEvents s !! i))) (seq 0 (length event_names)) 0))].

(** The averages of the lineages, in single precision. *)
Definition lineage_ratio (total count : Z) : float :=
  if count =? 0 then Fin 0 0 else fdiv binary32 (of_Z binary32 total) (of_Z binary32 count).
Definition lineage_std_dev (count total sqr_total : Z) : float :=
  let avg := lineage_ratio total count in
  fsqrt binary32 (fsub binary32 (lineage_ratio sqr_total count) (fmul binary32 avg avg)).
Definition lineage_updates (m : CollectorStats) : list (Key * float) :=
  let count := GetCounter Counter.process_lineage_counts m in
  let total := GetCounter Counter.process_lineage_total m in
  let sqr_total := GetCounter Counter.process_lineage_sqr_total m in
  let string_total := GetCounter Counter.process_lineage_string_total m in
  [(lineage_key "lineage_count", gauge_value count); (lineage_key "lineage_avg", lineage_ratio total count);
   (lineage_key "std_dev", lineage_std_dev count total sqr_total); (lineage_key "lineage_avg_string_len", lineage_ratio string_total count)].

(** What a turn of the loop sets, in order. *)
Definition exporter_updates (detailed : bool) (s : Stats) (m : CollectorStats) : list (Key * float) :=
  [(events_key "kernel", gauge_value (nEvents s)); (events_key "drops", gauge_value (nDrops s));
   (events_key "threadCacheDrops", gauge_value (nDropsThreadCache s)); (events_key "ringbufferDrops", gauge_value (nDropsBuffer s));
   (events_key "preemptions", gauge_value (nPreemptions s)); (events_key "threadCacheSize", gauge_value (nThreadCacheSize s))] ++
  (if detailed then detailed_updates (by_type s) else []) ++
  [(events_key "grpcSendFailures", gauge_value (nGRPCSendFailures s)); (events_key "processSent", gauge_value (nProcessSent (processes s)));
   (events_key "processSendFailures", gauge_value (nProcessSendFailures (processes s)));
   (events_key "processResolutionFailuresByEvt", gauge_value (nProcessResolutionFailuresByEvt (processes s)));
   (events_key "processResolutionFailuresByTinfo", gauge_value (nProcessResolutionFailuresByTinfo (processes s)));
   (events_key "processRateLimitCount", gauge_value (nProcessRateLimitCount (processes s)))] ++
  flat_map (fun t => CollectorTimerGauge_Update (timer_type_to_name t) (GetTimerCount t m) (GetTimerDurationMicros t m)) timer_types ++
  map (fun c => (counters_key (counter_type_to_name c), gauge_value (GetCounter c m))) counter_types ++ lineage_updates m.

Definition exporter_turn (detailed : bool) (r : Registry) (turn : option Stats * CollectorStats) : Registry :=
  match turn.1 with
  | None => r
  | Some s => Gauge_Set_all (exporter_updates detailed s turn.2) r
  end.

(** [run]: a turn for every pause that was not stopped. *)
Definition exporter_run (detailed : bool) (turns : list (option Stats * CollectorStats)) (r : Registry) : Registry :=
  fold_left (exporter_turn detailed) turns (exporter_start detailed r).
End exporter.

(** ** Summaries of connections *)

(** A summary is what was observed, oldest first; its quantiles are the library's. *)
Record CollectorConnectionStats := mkSummaries {
  inbound_private_summary_ : list float; inbound_public_summary_ : list float;
  outbound_private_summary_ : list float; outbound_public_summary_ : list float
}.
Definition CollectorConnectionStats_make : CollectorConnectionStats := mkSummaries [] [] [] [].
(** The quantiles that all four are made with. *)
Definition MakeQuantiles (quantiles : list float) (error : float) : list (float * float) := map (fun q => (q, error)) quantiles.

Definition Observe (inbound_private inbound_public outbound_private outbound_public : float) (s : CollectorConnectionStats) : CollectorConnectionStats :=
  mkSummaries (inbound_private_summary_ s ++ [inbound_private]) (inbound_public_summary_ s ++ [inbound_public])
    (outbound_private_summary_ s ++ [outbound_private]) (outbound_public_summary_ s ++ [outbound_public]).

(** The reporters of the notifier, absent unless connection statistics are enabled, with
    the counters and the time, in nanoseconds, of the last report. *)
Record Reporters := mkReporters {
  connections_total_reporter_ : option CollectorConnectionStats; connections_rate_reporter_ : option CollectorConnectionStats;
  connections_last_report_time_ : Z; connections_rate_counter_last_ : option ConnStats
}.
Definition Reporters_make (EnableConnectionStats : bool) : Reporters :=
  if EnableConnectionStats then mkReporters (Some CollectorConnectionStats_make) (Some CollectorConnectionStats_make) 0 None
  else mkReporters None None 0 None.

(** [((float)now - last) / delta_t] *)
Definition connection_rate (now last delta_t : Z) : float :=
  fdiv binary32 (fsub binary32 (of_Z binary32 now) (of_Z binary32 last)) (of_Z binary32 delta_t).

Section report.

Context `{ho : HostOrder}.

Definition observe_rates (now last : ConnStats) (delta_t : Z) : CollectorConnectionStats -> CollectorConnectionStats :=
  Observe (connection_rate (private_ (inbound now)) (private_ (inbound last)) delta_t) (connection_rate (public_ (inbound now)) (public_ (inbound last)) delta_t)
    (connection_rate (private_ (outbound now)) (private_ (outbound last)) delta_t) (connection_rate (public_ (outbound now)) (public_ (outbound last)) delta_t).

Definition ReportConnectionStats (now : Z) (t : ConnectionTracker) (r : Reporters) : Reporters :=
  let total :=
    let stats := GetConnectionStats_StoredConnections t in
    Observe (gauge_value (private_ (inbound stats))) (gauge_value (public_ (inbound stats)))
      (gauge_value (private_ (outbound stats))) (gauge_value (public_ (outbound stats))) <$> connections_total_reporter_ r in
  match connections_rate_reporter_ r with
  | None => mkReporters total None (connections_last_report_time_ r) (connections_rate_counter_last_ r)
  | Some rates =>
      let stats := GetConnectionStats_NewConnectionCounters t in
      let delta_t := Z.quot (now - connections_last_report_time_ r) 1000000000 in
      let rates :=
        match connections_rate_counter_last_ r with
        | Some last => if 0 <? delta_t then observe_rates stats last delta_t rates else rates
        | None => rates
        end in
      mkReporters total (Some rates) now (Some stats)
  end.

(** [RunSingle] with the statistics that its iterations report behind a successful scrape;
    every event comes with the reading of the steady clock. *)
Context `{cs : CharSign}.

Definition report_tick (cfg : NotifierConfig) (st : RunState) (tick : Tick) (now : Z) (r : Reporters) : Reporters :=
  let '(t, updated) := UpdateAllConnsAndEndpoints cfg (rs_tracker st) tick in
  if updated then ReportConnectionStats now t r else r.

Fixpoint RunSingle_reports (cfg : NotifierConfig) (st : RunState) (events : list (RunEvent * Z)) (r : Reporters)
    : RunState * list InfoMessage * Reporters :=
  match events with
  | [] => (st, [], r)
  | (EvTick tick, now) :: rest =>
      let r := report_tick cfg st tick now r in
      let '(st', msg, go) := RunSingle_step cfg st tick in
      if go then let '(st'', msgs, r) := RunSingle_reports cfg st' rest r in (st'', option_list msg ++ msgs, r)
      else (st', option_list msg, r)
  | (EvControl msg, _) :: rest => RunSingle_reports cfg (set_tracker (OnRecvControlMessage (rs_tracker st) msg) st) rest r
  | (EvConnection conn ts added, _) :: rest => RunSingle_reports cfg (set_tracker (UpdateConnection (rs_tracker st) conn ts added) st) rest r
  end.
End report.

(** ** The registry *)

Definition last_set (k : Key) (kvs : list (Key * float)) : option float :=
  fold_left (fun v kv => if bool_decide (kv.1 = k) then Some kv.2 else v) kvs None.

Lemma last_set_from k kvs : forall v, fold_left (fun v kv => if bool_decide (kv.1 = k) then Some kv.2 else v) kvs v = match last_set k kvs with Some x => Some x | None => v end.
Proof.
  unfold last_set. induction kvs as [|kv kvs IH]; intros v; [done|]. cbn [fold_left]. rewrite IH, (IH (if bool_decide _ then _ else None)).
  destruct (fold_left _ kvs None); [done|]. by case_bool_decide.
Qed.

Lemma last_set_app k kvs kvs' : last_set k (kvs ++ kvs') = match last_set k kvs' with Some x => Some x | None => last_set k kvs end.
Proof. unfold last_set at 1. rewrite fold_left_app. apply last_set_from. Qed.

Lemma last_set_none k kvs : k ∉ kvs.*1 -> last_set k kvs = None.
Proof.
  induction kvs as [|kv kvs IH]; [done|]. intros Hk. change (kv :: kvs) with ([kv] ++ kvs). rewrite last_set_app, IH by set_solver.
  unfold last_set. cbn. rewrite bool_decide_false; [done|]. set_solver.
Qed.

Lemma last_set_unique k v kvs : NoDup kvs.*1 -> (k, v) ∈ kvs -> last_set k kvs = Some v.
Proof.
  induction kvs as [|kv kvs IH]; [by intros _ ?%elem_of_nil|]. rewrite fmap_cons. intros [Hn Hd]%NoDup_cons Hin. change (kv :: kvs) with ([kv] ++ kvs). rewrite last_set_app.
  apply elem_of_cons in Hin as [<-|Hin]; [|by rewrite (IH Hd Hin)]. rewrite last_set_none by done. unfold last_set. cbn. by rewrite bool_decide_true.
Qed.

Lemma Gauge_Set_all_lookup kvs k : forall r, Gauge_Set_all kvs r !! k = match last_set k kvs with Some v => Some v | None => r !! k end.
Proof.
  unfold Gauge_Set_all. induction kvs as [|kv kvs IH]; intros r; [done|]. cbn [fold_left]. rewrite IH. change (kv :: kvs) with ([kv] ++ kvs).
  rewrite last_set_app. destruct (last_set k kvs); [done|]. unfold last_set, Gauge_Set. cbn. case_bool_decide as E; [by rewrite <-E, lookup_insert_eq|by rewrite lookup_insert_ne].
Qed.

(** ** A turn of the exporter *)

Section exporter_theorems.
Variable PPME_IS_ENTER : Z -> bool.
Variables event_names syscalls : list string.
Implicit Types (s : Stats) (m : CollectorStats) (r : Registry).

(** The updates that do not depend on the event types. *)
Definition fixed_updates s m : list (Key * float) := exporter_updates PPME_IS_ENTER [] [] false s m.
Definition fixed_keys : list Key := Eval vm_compute in
  (fixed_updates (mkStats 0 0 0 0 0 0 0 (mkEventStats [] [] [] []) (mkProcStats 0 0 0 0 0)) Stats_Reset).*1.

Lemma fixed_updates_keys s m : (fixed_updates s m).*1 = fixed_keys.
Proof. reflexivity. Qed.
Lemma fixed_keys_NoDup : NoDup fixed_keys.
Proof. apply (bool_decide_unpack _). vm_compute. reflexivity. Qed.

Definition typed_families : list string := ["rox_collector_events_typed"; "rox_collector_event_times_us_total"; "rox_collector_event_times_us_avg"].

Lemma typed_gauges_of i g : typed PPME_IS_ENTER event_names syscalls !! i = Some (Some g) -> exists name dir, g = typed_gauges name dir.
Proof.
  unfold typed. rewrite list_lookup_imap. destruct (event_names !! i) as [name|]; [|done]. cbn. unfold typed_of.
  destruct (existsb _ _); [|done]. intros [= <-]. by eexists _, _.
Qed.

Lemma typed_updates_keys st i g k : typed PPME_IS_ENTER event_names syscalls !! i = Some g -> k ∈ (typed_updates st i g).*1 -> k.1 ∈ typed_families.
Proof.
  intros Hg Hk. destruct g as [g|]; [|by apply elem_of_nil in Hk]. apply typed_gauges_of in Hg as (name & dir & ->).
  cbn in Hk. rewrite !elem_of_cons, elem_of_nil in Hk. unfold typed_families. destruct_or!; subst; try done; cbn; rewrite !elem_of_cons; tauto.
Qed.

Lemma elem_of_concat {A} (x : A) ls : x ∈ concat ls -> exists l, x ∈ l /\ l ∈ ls.
Proof. induction ls as [|l ls IH]; cbn; [by intros ?%elem_of_nil|]. rewrite elem_of_app. intros [Hx|(l' & Hx & Hl)%IH]; [exists l|exists l']; set_solver. Qed.

Lemma detailed_keys st k : k ∈ (detailed_updates PPME_IS_ENTER event_names syscalls st).*1 -> k.1 ∈ typed_families \/ k = events_key "userspace".
Proof.
  unfold detailed_updates. rewrite fmap_app, elem_of_app. intros [Hk|Hk]; [left|right; by apply list_elem_of_singleton in Hk].
  apply list_elem_of_fmap in Hk as (kv & -> & Hk). apply elem_of_concat in Hk as (l & Hkv & Hl).
  apply elem_of_lookup_imap_1 in Hl as (i & g & -> & Hg). eapply typed_updates_keys; [exact Hg|]. by apply list_elem_of_fmap_2.
Qed.

(** Updates between updates of other gauges do not matter. *)
Lemma last_set_between k kvs1 kvs2 kvs3 : k ∉ kvs2.*1 -> last_set k (kvs1 ++ kvs2 ++ kvs3) = last_set k (kvs1 ++ kvs3).
Proof. intros Hk. rewrite !last_set_app, (last_set_none k kvs2 Hk). by destruct (last_set k kvs3). Qed.

Lemma exporter_updates_split detailed s m : exists kvs1 kvs3, fixed_updates s m = kvs1 ++ kvs3 /\
  exporter_updates PPME_IS_ENTER event_names syscalls detailed s m = kvs1 ++ (if detailed then detailed_updates PPME_IS_ENTER event_names syscalls (by_type s) else []) ++ kvs3.
Proof. unfold fixed_updates, exporter_updates. eexists _, _. split; [|reflexivity]. reflexivity. Qed.

Lemma fixed_family k : k ∈ fixed_keys -> k.1 ∉ typed_families /\ k <> events_key "userspace".
Proof.
  assert (forallb (fun k => bool_decide (k.1 ∉ typed_families /\ k <> events_key "userspace")) fixed_keys = true) as Hf by (vm_compute; reflexivity).
  rewrite forallb_forall in Hf. intros Hk%list_elem_of_In. by apply Hf, bool_decide_eq_true in Hk.
Qed.

Lemma fixed_in_place detailed s m k v : (k, v) ∈ fixed_updates s m ->
  last_set k (exporter_updates PPME_IS_ENTER event_names syscalls detailed s m) = Some v.
Proof.
  intros Hin. destruct (exporter_updates_split detailed s m) as (kvs1 & kvs3 & Hf & ->). rewrite last_set_between, <-Hf.
  - apply last_set_unique; [rewrite fixed_updates_keys; apply fixed_keys_NoDup|done].
  - assert (k ∈ fixed_keys) as Hk by (rewrite <-(fixed_updates_keys s m); by apply (list_elem_of_fmap_2 fst _ (k, v))).
    apply fixed_family in Hk as [H1 H2]. destruct detailed; [|by intros ?%elem_of_nil]. by intros [?|?]%detailed_keys.
Qed.

(** The last event type of its name and direction. *)
Definition last_of_gauge (i : nat) (g : TypedGauges) : Prop :=
  typed PPME_IS_ENTER event_names syscalls !! i = Some (Some g) /\
  forall j g', (i < j)%nat -> typed PPME_IS_ENTER event_names syscalls !! j = Some (Some g') -> g' <> g.

Lemma typed_updates_other st j g g' k : typed PPME_IS_ENTER event_names syscalls !! j = Some g' -> k ∈ typed_keys g ->
  (exists name dir, g = typed_gauges name dir) -> g' <> Some g -> k ∉ (typed_updates st j g').*1.
Proof.
  intros Hj Hk (name & dir & ->) Hne Hin. destruct g' as [g'|]; [|by apply elem_of_nil in Hin]. apply typed_gauges_of in Hj as (name' & dir' & ->).
  apply Hne. f_equal. unfold typed_keys in Hk. cbn in Hk, Hin. rewrite !elem_of_cons, elem_of_nil in Hk. rewrite !elem_of_cons, elem_of_nil in Hin.
  destruct_or!; subst; try done; by injection Hin as -> ->.
Qed.

Lemma typed_in_place st i g k v : last_of_gauge i g -> (k, v) ∈ typed_updates st i (Some g) -> k ∈ typed_keys g ->
  last_set k (detailed_updates PPME_IS_ENTER event_names syscalls st) = Some v.
Proof.
  intros [Hi Hl] Hin Hk. destruct (typed_gauges_of i g Hi) as (name & dir & Hg). unfold detailed_updates. rewrite last_set_app, last_set_none.
  2:{ intros Hu%list_elem_of_singleton. cbn in Hu. subst g. unfold typed_keys in Hk. cbn in Hk. rewrite !elem_of_cons, elem_of_nil in Hk. destruct_or!; subst; done. }
  set (ty := typed PPME_IS_ENTER event_names syscalls) in *. rewrite <-(take_drop_middle ty i (Some g) Hi), imap_app, concat_app, last_set_app.
  cbn [imap concat]. rewrite last_set_app, last_set_none.
  - rewrite length_take_le by (apply lookup_lt_Some in Hi; lia). rewrite Nat.add_0_r. rewrite (last_set_unique k v); [done| |exact Hin].
    subst g. cbn. repeat (apply NoDup_cons; split; [rewrite ?elem_of_cons, elem_of_nil; naive_solver|]). by apply NoDup_nil.
  - intros Hk'. apply list_elem_of_fmap in Hk' as (kv & Hkv & Hk'). apply elem_of_concat in Hk' as (l & Hkv' & Hl').
    apply elem_of_lookup_imap_1 in Hl' as (j & g' & -> & Hj). cbn [Nat.add] in *. rewrite lookup_drop in Hj.
    rewrite length_take_le in Hkv' by (apply lookup_lt_Some in Hi; lia). replace (i + S j)%nat with (S i + j)%nat in Hkv' by lia.
    unfold compose in Hkv'. cbn in Hkv'. rewrite ?Nat.add_succ_r in Hkv'.
    eapply (typed_updates_other st (S i + j) g g' k); [exact Hj|done|by eexists _, _| |rewrite Hkv; apply list_elem_of_fmap_2; exact Hkv'].
    intros ->. eapply (Hl (S i + j)%nat g); [lia|exact Hj|done].
Qed.

(** What the gauges of the events show. *)
Definition events_table s : list (string * Z) :=
  [("kernel", nEvents s); ("drops", nDrops s); ("threadCacheDrops", nDropsThreadCache s); ("ringbufferDrops", nDropsBuffer s);
   ("preemptions", nPreemptions s); ("threadCacheSize", nThreadCacheSize s); ("grpcSendFailures", nGRPCSendFailures s);
   ("processSent", nProcessSent (processes s)); ("processSendFailures", nProcessSendFailures (processes s));
   ("processResolutionFailuresByEvt", nProcessResolutionFailuresByEvt (processes s));
   ("processResolutionFailuresByTinfo", nProcessResolutionFailuresByTinfo (processes s)); ("processRateLimitCount", nProcessRateLimitCount (processes s))].

Lemma events_table_fixed s m t z : (t, z) ∈ events_table s -> (events_key t, gauge_value z) ∈ fixed_updates s m.
Proof.
  intros Hin. unfold fixed_updates, exporter_updates. cbn [app]. unfold events_table in Hin.
  repeat (apply elem_of_cons in Hin as [Hin|Hin]; [injection Hin as -> ->; repeat (apply elem_of_cons; first [left; reflexivity|right])|]).
  by apply elem_of_nil in Hin.
Qed.

Lemma counters_fixed s m c : (counters_key (counter_type_to_name c), gauge_value (GetCounter c m)) ∈ fixed_updates s m.
Proof.
  unfold fixed_updates, exporter_updates. rewrite !elem_of_app. do 4 right. left. apply (list_elem_of_fmap_2 (fun c => (counters_key (counter_type_to_name c), gauge_value (GetCounter c m)))).
  apply list_elem_of_In. destruct c; cbn; tauto.
Qed.

Lemma timers_fixed s m t kv : kv ∈ CollectorTimerGauge_Update (timer_type_to_name t) (GetTimerCount t m) (GetTimerDurationMicros t m) -> kv ∈ fixed_updates s m.
Proof.
  intros Hin. unfold fixed_updates, exporter_updates. rewrite !elem_of_app. do 3 right. left. apply list_elem_of_In, in_flat_map. exists t.
  split; [destruct t; cbn; tauto|by apply list_elem_of_In].
Qed.

Lemma lineage_fixed s m kv : kv ∈ lineage_updates m -> kv ∈ fixed_updates s m.
Proof. intros Hin. unfold fixed_updates, exporter_updates. rewrite !elem_of_app. by do 5 right. Qed.

Lemma userspace_total (l : list Z) (is_ : list nat) : forall n, fold_left (fun n i => u64 (n + default 0 (l !! i))) is_ (u64 n) = u64 (n + foldr Z.add 0 (map (fun i => default 0 (l !! i)) is_)).
Proof.
  induction is_ as [|i is_ IH]; intros n; cbn [fold_left map foldr]; [by rewrite Z.add_0_r|].
  assert (u64 (u64 n + default 0 (l !! i)) = u64 (n + default 0 (l !! i))) as -> by apply Zplus_mod_idemp_l. rewrite IH. f_equal. lia.
Qed.

(** C26: What the gauges show after a turn of the exporter, as doubles: the counters of the
    inspector and of the process signals; every timer with its count, its total and its
    average, zero without a count; every counter; the number of lineages, the averages
    of their lengths and of the lengths of their strings (zero without a lineage) and
    the deviation of the lengths, computed in single precision, where the deviation is
    not a number if rounding makes its square negative.  With detailed metrics also the
    number of events of all types, modulo 2^64, and, for every pair of a name and a
    direction that has gauges, the counts, times and average time of parsing of the last
    event type of that pair: types of the same name and direction share their gauges.
    Nothing ever sets the average time of processing.  When the inspector has no
    statistics, nothing changes. *)
Theorem exporter_turn_exact detailed r s m :
  let turn := exporter_turn PPME_IS_ENTER event_names syscalls detailed r in
  let r' := turn (Some s, m) in
  turn (None, m) = r /\
  (forall t z, (t, z) ∈ events_table s -> r' !! events_key t = Some (gauge_value z)) /\
  (forall c, r' !! counters_key (counter_type_to_name c) = Some (gauge_value (GetCounter c m))) /\
  (forall t, let name := timer_type_to_name t in
     r' !! timers_key (name +:+ "_events") = Some (gauge_value (GetTimerCount t m)) /\
     r' !! timers_key (name +:+ "_times_us_total") = Some (gauge_value (GetTimerDurationMicros t m)) /\
     r' !! timers_key (name +:+ "_times_us_avg") =
       Some (gauge_value (if GetTimerCount t m =? 0 then 0 else Z.quot (GetTimerDurationMicros t m) (GetTimerCount t m)))) /\
  (let count := GetCounter Counter.process_lineage_counts m in
   r' !! lineage_key "lineage_count" = Some (gauge_value count) /\
   r' !! lineage_key "lineage_avg" = Some (lineage_ratio (GetCounter Counter.process_lineage_total m) count) /\
   r' !! lineage_key "std_dev" =
     Some (lineage_std_dev count (GetCounter Counter.process_lineage_total m) (GetCounter Counter.process_lineage_sqr_total m)) /\
   r' !! lineage_key "lineage_avg_string_len" = Some (lineage_ratio (GetCounter Counter.process_lineage_string_total m) count)) /\
  (detailed = true -> r' !! events_key "userspace" = Some (gauge_value
     (u64 (foldr Z.add 0 (map (fun i => default 0 (nUserspaceEvents (by_type s) !! i)) (seq 0 (length event_names))))))) /\
  (detailed = true -> forall i g, last_of_gauge i g ->
     let at_type l := default 0 (l !! i) in
     let count := at_type (nUserspaceEvents (by_type s)) in
     r' !! userspace g = Some (gauge_value count) /\
     r' !! parse_micros_total g = Some (gauge_value (at_type (event_parse_micros (by_type s)))) /\
     r' !! process_micros_total g = Some (gauge_value (at_type (event_process_micros (by_type s)))) /\
     r' !! parse_micros_avg g = Some (gauge_value (if count =? 0 then 0 else at_type (event_parse_micros (by_type s)) / count)) /\
     r' !! process_micros_avg g = r !! process_micros_avg g).
Proof.
  intros turn r'. subst turn r'. unfold exporter_turn. cbn [fst snd]. split; [done|].
  assert (forall k v, (k, v) ∈ fixed_updates s m -> Gauge_Set_all (exporter_updates PPME_IS_ENTER event_names syscalls detailed s m) r !! k = Some v) as Hfix.
  { intros k v Hin. rewrite Gauge_Set_all_lookup. by rewrite (fixed_in_place detailed s m k v Hin). }
  split; [intros t z Hin; by apply Hfix, events_table_fixed|]. split; [intros c; apply Hfix, counters_fixed|].
  split; [intros t; split_and!; apply Hfix, (timers_fixed s m t); unfold CollectorTimerGauge_Update; repeat (apply elem_of_cons; first [left; reflexivity|right])|].
  split; [cbv zeta; split_and!; apply Hfix, lineage_fixed; unfold lineage_updates; repeat (apply elem_of_cons; first [left; reflexivity|right])|].
  split.
  { intros ->. rewrite Gauge_Set_all_lookup. destruct (exporter_updates_split true s m) as (kvs1 & kvs3 & Hf & ->).
    assert (events_key "userspace" ∉ (fixed_updates s m).*1) as Hn by (rewrite fixed_updates_keys; by intros [_ ?]%fixed_family). rewrite Hf, fmap_app, not_elem_of_app in Hn.
    rewrite !last_set_app, (last_set_none _ kvs3) by apply Hn. unfold detailed_updates. rewrite last_set_app. unfold last_set at 1. cbn [fold_left fst snd].
    rewrite bool_decide_true by done. do 2 f_equal. apply (userspace_total _ _ 0). }
  intros -> i g Hg. pose proof Hg as [Hi _]. apply typed_gauges_of in Hi as (name & dir & Heq).
  assert (forall k, k.1 ∈ typed_families -> last_set k (exporter_updates PPME_IS_ENTER event_names syscalls true s m) =
    last_set k (detailed_updates PPME_IS_ENTER event_names syscalls (by_type s))) as Htyped.
  { intros k Hk. destruct (exporter_updates_split true s m) as (kvs1 & kvs3 & Hf & ->).
    assert (k ∉ (fixed_updates s m).*1) as Hn by (rewrite fixed_updates_keys; by intros [? _]%fixed_family). rewrite Hf, fmap_app, not_elem_of_app in Hn.
    rewrite !last_set_app, (last_set_none k kvs1), (last_set_none k kvs3) by apply Hn. by destruct (last_set k _). }
  assert (forall k v, (k, v) ∈ typed_updates (by_type s) i (Some g) -> k ∈ typed_keys g -> k.1 ∈ typed_families ->
    Gauge_Set_all (exporter_updates PPME_IS_ENTER event_names syscalls true s m) r !! k = Some v) as Hset.
  { intros k v Hin Hk Hfam. rewrite Gauge_Set_all_lookup, Htyped by done. by rewrite (typed_in_place _ i g k v Hg Hin Hk). }
  split_and!; [apply Hset; subst g; cbn; repeat (apply elem_of_cons; first [left; reflexivity|right])..|].
  rewrite Gauge_Set_all_lookup, Htyped by (subst g; cbn; do 2 (apply elem_of_cons; right); apply elem_of_cons; by left). rewrite last_set_none; [done|].
  intros Hk. apply list_elem_of_fmap in Hk as (kv & Hkv & Hin). unfold detailed_updates in Hin. apply elem_of_app in Hin as [Hin|Hin].
  - apply elem_of_concat in Hin as (l & Hin & Hl). apply elem_of_lookup_imap_1 in Hl as (j & g' & -> & Hj). destruct g' as [g'|]; [|by apply elem_of_nil in Hin].
    apply typed_gauges_of in Hj as (name' & dir' & ->). subst g. cbn in Hin, Hkv. rewrite !elem_of_cons, elem_of_nil in Hin. destruct_or!; subst kv; done.
  - apply list_elem_of_singleton in Hin as ->. by subst g.
Qed.
End exporter_theorems.

(** ** Averages and rates *)

(** The counters after lineages of the given lengths, as [CountLineage] adds them up. *)
Definition lineage_sums (lengths : list Z) : Z * Z * Z :=
  (Z.of_nat (length lengths), foldr Z.add 0 lengths, foldr Z.add 0 (map (fun n => n * n) lengths)).

Lemma foldr_add_replicate n z : foldr Z.add 0 (replicate n z) = Z.of_nat n * z.
Proof. induction n as [|n IH]; [done|]. rewrite replicate_S. cbn [foldr]. rewrite IH. lia. Qed.

Lemma lineage_sums_one_more n : lineage_sums (9 :: replicate n 8) = (Z.of_nat n + 1, 8 * Z.of_nat n + 9, 64 * Z.of_nat n + 81).
Proof.
  unfold lineage_sums. cbn [length foldr map]. change (map (fun n => n * n)) with (fmap (M := list) (fun n => n * n)).
  rewrite length_replicate, fmap_replicate, !foldr_add_replicate. f_equal; [f_equal|]; lia.
Qed.

(** The deviation can be shown as not a number: the rounded square of the rounded average
    can exceed the rounded average of the squares.  Every lineage here has eight
    processes but one, which has nine. *)
Theorem lineage_std_dev_nan : exists lengths, (forall n, n ∈ lengths -> 0 <= n <= 10) /\
  let '(count, total, sqr_total) := lineage_sums lengths in lineage_std_dev count total sqr_total = NaN.
Proof.
  assert (exists n, Z.of_nat n = 399999) as [n Hn] by (exists (Z.to_nat 399999); apply Z2Nat.id; lia).
  exists (9 :: replicate n 8). split; [intros k [->|[-> _]%elem_of_replicate]%elem_of_cons; lia|].
  rewrite lineage_sums_one_more, Hn. vm_compute. reflexivity.
Qed.

Lemma small_exact z : 0 < z < 2 ^ 24 -> is_ratio (of_Z binary32 z) z 1.
Proof. intros Hz. by apply of_Z_exact, representable_small. Qed.

(** Without that, an average of small counters is the quotient, rounded once. *)
Lemma small_quotient a b : 0 < a < 2 ^ 24 -> 0 < b < 2 ^ 24 -> fdiv binary32 (of_Z binary32 a) (of_Z binary32 b) = of_ratio binary32 a b.
Proof.
  intros Ha Hb. rewrite (fdiv_ratio binary32 _ _ a b 1 1) by first [lia | by apply small_exact]. by rewrite Z.mul_1_r, Z.mul_1_l.
Qed.

Lemma small_difference a b : 0 < b < a -> a < 2 ^ 24 -> fsub binary32 (of_Z binary32 a) (of_Z binary32 b) = of_Z binary32 (a - b).
Proof.
  intros Hb Ha. destruct (small_exact a ltac:(lia)) as (m1 & e1 & -> & Hm1 & E1).
  destruct (small_exact b ltac:(lia)) as (m2 & e2 & -> & Hm2 & E2).
  unfold fsub. cbn [fneg fadd]. pose proof (down_pos e1). pose proof (down_pos e2).
  assert (m1 * up e1 * down e2 + - m2 * up e2 * down e1 = (a - b) * (down e1 * down e2)) as ->.
  { transitivity ((m1 * up e1 * 1) * down e2 - (m2 * up e2 * 1) * down e1); [ring|]. rewrite E1, E2. ring. }
  unfold of_Z. apply of_ratio_eq; nia.
Qed.

(** A rate of small counters is the quotient of new connections and seconds, rounded
    once. *)
Lemma connection_rate_exact now last delta_t : 0 < last < now -> now < 2 ^ 24 -> 0 < delta_t < 2 ^ 24 ->
  connection_rate now last delta_t = of_ratio binary32 (now - last) delta_t.
Proof. intros Hl Hn Hd. unfold connection_rate. rewrite small_difference by lia. by apply small_quotient; [lia|]. Qed.

Section report_theorems.
Context `{ho : HostOrder}.

(** Reports, oldest first. *)
Definition reports (l : list (Z * ConnectionTracker)) (r : Reporters) : Reporters := fold_left (fun r x => ReportConnectionStats x.1 x.2 r) l r.

(** The rates of a series of reports: one for every report that comes a second or more after
    the one before it, over the counters of these two. *)
Fixpoint rates_of (now : Z) (last : ConnStats) (l : list (Z * ConnectionTracker)) : list (ConnStats * ConnStats * Z) :=
  match l with
  | [] => []
  | (now', t) :: rest =>
      let stats := GetConnectionStats_NewConnectionCounters t in
      let delta_t := Z.quot (now' - now) 1000000000 in
      (if 0 <? delta_t then [(stats, last, delta_t)] else []) ++ rates_of now' stats rest
  end.
Definition observe_all (rates : list (ConnStats * ConnStats * Z)) (s : CollectorConnectionStats) : CollectorConnectionStats :=
  fold_left (fun s r => observe_rates r.1.1 r.1.2 r.2 s) rates s.

Lemma reports_rates l : forall r rates last, connections_rate_reporter_ r = Some rates -> connections_rate_counter_last_ r = Some last ->
  connections_rate_reporter_ (reports l r) = Some (observe_all (rates_of (connections_last_report_time_ r) last l) rates).
Proof.
  induction l as [|[now t] l IH]; intros r rates last Hr Hl; [done|]. unfold reports. cbn [fold_left fst snd rates_of]. unfold ReportConnectionStats at 2. rewrite Hr, Hl.
  fold (reports l). erewrite IH; [|reflexivity|reflexivity]. cbn [connections_last_report_time_]. f_equal. unfold observe_all. rewrite fold_left_app. f_equal.
  by destruct (0 <? _).
Qed.

Definition sums (l : list (Z * ConnectionTracker)) (r : Reporters) : nat := length (default [] (inbound_private_summary_ <$> connections_total_reporter_ (reports l r))).

(** Enabled connection statistics: the totals get one observation per report; the first
    report gives no rate, and every later one gives a rate exactly if it comes at least a
    second after the one before, over the counters of these two reports.  Connections
    counted between two reports that are closer than a second are in no rate. *)
Lemma ReportConnectionStats_rates now t l :
  let r := reports ((now, t) :: l) (Reporters_make true) in
  connections_rate_reporter_ r =
    Some (observe_all (rates_of now (GetConnectionStats_NewConnectionCounters t) l) CollectorConnectionStats_make) /\
  sums ((now, t) :: l) (Reporters_make true) = S (length l).
Proof.
  split; [apply (reports_rates l (ReportConnectionStats now t (Reporters_make true))); reflexivity|].
  unfold sums. assert (forall l r s, connections_total_reporter_ r = Some s ->
    exists s', connections_total_reporter_ (reports l r) = Some s' /\ length (inbound_private_summary_ s') = (length (inbound_private_summary_ s) + length l)%nat) as Hl.
  { clear. induction l as [|[now t] l IH]; intros r s Hs; [exists s; split; [done|cbn; lia]|]. unfold reports. cbn [fold_left fst snd]. fold (reports l).
    edestruct (IH (ReportConnectionStats now t r)) as (s' & E & Hlen).
    { unfold ReportConnectionStats. rewrite Hs. destruct (connections_rate_reporter_ r); reflexivity. }
    exists s'. split; [exact E|]. rewrite Hlen. cbn. rewrite length_app. cbn. lia. }
  destruct (Hl ((now, t) :: l) (Reporters_make true) CollectorConnectionStats_make eq_refl) as (s' & -> & E). cbn [fmap option_fmap option_map default id]. by rewrite E.
Qed.

(** The trackers that the iterations of a run report, with the times of the reports. *)
Context `{cs : CharSign}.
Fixpoint scraped (cfg : NotifierConfig) (st : RunState) (events : list (RunEvent * Z)) : list (Z * ConnectionTracker) :=
  match events with
  | [] => []
  | (EvTick tick, now) :: rest =>
      let '(t, updated) := UpdateAllConnsAndEndpoints cfg (rs_tracker st) tick in
      let '(st', _, go) := RunSingle_step cfg st tick in
      (if updated then [(now, t)] else []) ++ (if go then scraped cfg st' rest else [])
  | (EvControl msg, _) :: rest => scraped cfg (set_tracker (OnRecvControlMessage (rs_tracker st) msg) st) rest
  | (EvConnection conn ts added, _) :: rest => scraped cfg (set_tracker (UpdateConnection (rs_tracker st) conn ts added) st) rest
  end.

Lemma RunSingle_reports_run cfg events : forall st r,
  RunSingle_reports cfg st events r = (RunSingle cfg st events.*1, reports (scraped cfg st events) r).
Proof.
  induction events as [|[[tick|msg|conn ts added] now] events IH]; intros st r; [done| |apply IH|apply IH].
  cbn [RunSingle_reports RunSingle scraped fmap list_fmap fst]. unfold report_tick.
  destruct (UpdateAllConnsAndEndpoints _ _ tick) as [t updated], (RunSingle_step cfg st tick) as [[st' msg] go].
  destruct go; [rewrite IH; destruct (RunSingle cfg st' events.*1)|]; destruct updated; reflexivity.
Qed.

Lemma reports_off l : reports l (Reporters_make false) = Reporters_make false.
Proof. induction l as [|[now t] l IH]; [done|exact IH]. Qed.

(** The statistics of connections over a run of the reporting loop, with control
    messages and connection events of other threads in between.  They leave the run as it
    is.  Disabled, nothing is reported.  Enabled, the totals get one observation for every
    iteration whose scrape succeeds; the first gives no rate, and every later one gives a
    rate exactly if it comes a second or more after the one before, over the counters of
    these two: connections counted between two reports that are closer are in no rate. *)
Theorem RunSingle_reporting cfg st events :
  let reported := scraped cfg st events in
  let run on := RunSingle_reports cfg st events (Reporters_make on) in
  (forall on, (run on).1 = RunSingle cfg st events.*1) /\
  (run false).2 = Reporters_make false /\
  connections_rate_reporter_ (run true).2 =
    Some (match reported with
          | [] => CollectorConnectionStats_make
          | (now, t) :: l => observe_all (rates_of now (GetConnectionStats_NewConnectionCounters t) l) CollectorConnectionStats_make
          end) /\
  length (default [] (inbound_private_summary_ <$> connections_total_reporter_ (run true).2)) = length reported.
Proof.
  intros reported run. subst run. cbn beta. split; [intros on; by rewrite RunSingle_reports_run|].
  rewrite !RunSingle_reports_run. cbn [snd]. fold reported. split; [apply reports_off|].
  destruct reported as [|[now t] l]; [done|]. apply (ReportConnectionStats_rates now t l).
Qed.
End report_theorems.
