(* ===== verification/Profile.v ===== *)
(** * The profiler endpoint (ProfilerHandler.cpp, Profiler.h)

    The handler for CPU and heap profiles over gperftools.  What the library keeps is a
    record; what its calls give (whether the CPU profiler starts, the data of a profile)
    and whether a file can be removed are inputs of a request.  The connection takes
    what is written to it. *)

From S2P Require Import Prelude CStrings Utility Http.

Definition kCPUProfileFilename : chars := chars_of "/var/profiles/cpu_profile".
Definition kBaseRoute : chars := chars_of "/profile".
Definition kCPURoute : chars := kBaseRoute ++ chars_of "/cpu".
Definition kHeapRoute : chars := kBaseRoute ++ chars_of "/heap".

(** [heap_profile_] is the string behind the pointer, without its terminator. *)
Record ProfilerHandler := mkProfilerHandler { heap_profile_ : option chars; heap_profile_length_ : Z; cpu_profile_length_ : Z }.
(** [make_unique] zeroes the members. *)
Definition ProfilerHandler_make : ProfilerHandler := mkProfilerHandler None 0 0.

(** The library: whether each profiler runs, and the file of the CPU profile. *)
Record Profiler := mkProfiler { cpu_enabled : bool; heap_enabled : bool; cpu_file : option chars }.
Definition Profiler_start : Profiler := mkProfiler false false None.

(** What a request meets; [heap_dump] is null when the library cannot allocate it. *)
Record ProfEnv := mkProfEnv { cpu_starts : bool; cpu_data : chars; heap_dump : option chars; remove_ok : bool }.

(** *** Profiler.h, compiled with profiling *)

(** The file is made anew. *)
Definition StartCPUProfiler (env : ProfEnv) (p : Profiler) : bool * Profiler :=
  if cpu_starts env then (true, mkProfiler true (heap_enabled p) (Some [])) else (false, p).
(** Data for a file that was removed meanwhile is lost. *)
Definition StopCPUProfiler (env : ProfEnv) (p : Profiler) : Profiler :=
  mkProfiler false (heap_enabled p) ((fun _ => cpu_data env) <$> cpu_file p).
Definition StartHeapProfiler (p : Profiler) : Profiler := mkProfiler (cpu_enabled p) true (cpu_file p).
Definition StopHeapProfiler (p : Profiler) : Profiler := if negb (heap_enabled p) then p else mkProfiler (cpu_enabled p) false (cpu_file p).
Definition AllocAndGetHeapProfile (env : ProfEnv) (p : Profiler) : option chars := if negb (heap_enabled p) then None else heap_dump env.

(** ** Replies *)

Inductive Reply := Empty | Bytes (body : chars) | NoFile | Document (doc : JValue) | Error (r : Response).
Definition ServerError (err : string) : Reply := Error (Http.ServerError err).
Definition ClientError (err : string) : Reply := Error (Http.ClientError err).

Definition SendCPUProfile (h : ProfilerHandler) (p : Profiler) : Reply :=
  if cpu_profile_length_ h =? 0 then Empty else match cpu_file p with Some data => Bytes data | None => NoFile end.

(** Reading from null, or behind the string, is undefined. *)
Definition SendHeapProfile (h : ProfilerHandler) : outcome Reply :=
  if heap_profile_length_ h =? 0 then Ret Empty
  else
    match heap_profile_ h with
    | None => Crash
    | Some data =>
        if Z.of_nat (length data) + 1 <? heap_profile_length_ h then Crash else Ret (Bytes (take (Z.to_nat (heap_profile_length_ h)) data))
    end.

Definition profile_state (enabled : bool) (profile_length : Z) : JValue :=
  JString (chars_of (if enabled then "on" else if 0 <? profile_length then "off" else "empty")).
Definition SendStatus (supported : bool) (h : ProfilerHandler) (p : Profiler) : Reply :=
  Document (JObject [(chars_of "supports_cpu", JBool supported); (chars_of "supports_heap", JBool supported);
    (chars_of "cpu", profile_state (cpu_enabled p) (cpu_profile_length_ h)); (chars_of "heap", profile_state (heap_enabled p) (heap_profile_length_ h))]).

(** ** Requests *)

Definition HandleCPURoute (env : ProfEnv) (post_data : chars) (h : ProfilerHandler) (p : Profiler) : Reply * ProfilerHandler * Profiler :=
  if chars_eqb post_data (chars_of "on") then
    if negb (cpu_enabled p) then
      let '(started, p) := StartCPUProfiler env p in
      if negb started then (ServerError "failed starting cpu profiler", h, p) else (Empty, h, p)
    else (Empty, h, p)
  else if chars_eqb post_data (chars_of "off") then
    if cpu_enabled p then
      let p := StopCPUProfiler env p in
      match cpu_file p with
      | Some data => (Empty, mkProfilerHandler (heap_profile_ h) (heap_profile_length_ h) (Z.of_nat (length data)), p)
      | None => (Empty, h, p)
      end
    else (Empty, h, p)
  else if chars_eqb post_data (chars_of "empty") then
    if negb (cpu_profile_length_ h =? 0) then
      let h := mkProfilerHandler (heap_profile_ h) (heap_profile_length_ h) 0 in
      match cpu_file p with
      | Some _ => if remove_ok env then (Empty, h, mkProfiler (cpu_enabled p) (heap_enabled p) None) else (ServerError "failure while deleting cpu profile", h, p)
      | None => (ServerError "failure while deleting cpu profile", h, p)
      end
    else (Empty, h, p)
  else (ClientError "invalid post data", h, p).

Definition HandleHeapRoute (env : ProfEnv) (post_data : chars) (h : ProfilerHandler) (p : Profiler) : Reply * ProfilerHandler * Profiler :=
  if chars_eqb post_data (chars_of "on") then
    if negb (heap_enabled p) then (Empty, h, StartHeapProfiler p) else (Empty, h, p)
  else if chars_eqb post_data (chars_of "off") then
    if heap_enabled p then
      let dump := AllocAndGetHeapProfile env p in
      let h := mkProfilerHandler dump (heap_profile_length_ h) (cpu_profile_length_ h) in
      match dump with
      | None => (ServerError "failed get heap profile", h, p)
      | Some data => (Empty, mkProfilerHandler dump (Z.of_nat (length data)) (cpu_profile_length_ h), StopHeapProfiler p)
      end
    else (Empty, h, p)
  else if chars_eqb post_data (chars_of "empty") then
    if negb (heap_profile_length_ h =? 0) then (Empty, mkProfilerHandler None 0 (cpu_profile_length_ h), p) else (Empty, h, p)
  else (ClientError "invalid post data", h, p).

Definition handlePost (supported : bool) (env : ProfEnv) (uri : option chars) (post_data : chars) (h : ProfilerHandler) (p : Profiler)
    : Reply * ProfilerHandler * Profiler :=
  if negb supported then (ServerError "not supported", h, p)
  else
    match uri with
    | None => (ServerError "unable to read request", h, p)
    | Some uri =>
        if chars_eqb uri kCPURoute then HandleCPURoute env post_data h p
        else if chars_eqb uri kHeapRoute then HandleHeapRoute env post_data h p
        else (ClientError "unknown route", h, p)
    end.

Definition handleGet (supported : bool) (uri : option chars) (h : ProfilerHandler) (p : Profiler) : outcome Reply :=
  match uri with
  | None => Ret (ServerError "unable to read request")
  | Some uri =>
      if chars_eqb uri kBaseRoute then Ret (SendStatus supported h p)
      else if chars_eqb uri kHeapRoute then SendHeapProfile h
      else if chars_eqb uri kCPURoute then Ret (SendCPUProfile h p)
      else Ret (ClientError "unknown route")
  end.

(** ** Sessions *)

Inductive Request := Get (uri : option chars) | Post (env : ProfEnv) (uri : option chars) (post_data : chars).
Fixpoint serve (supported : bool) (rs : list Request) (h : ProfilerHandler) (p : Profiler) : outcome (list Reply * ProfilerHandler * Profiler) :=
  match rs with
  | [] => Ret ([], h, p)
  | Get uri :: rs => reply ← handleGet supported uri h p; '(replies, h, p) ← serve supported rs h p; Ret (reply :: replies, h, p)
  | Post env uri data :: rs =>
      let '(reply, h, p) := handlePost supported env uri data h p in
      '(replies, h, p) ← serve supported rs h p; Ret (reply :: replies, h, p)
  end.

(** What the documentation of the routes describes for the heap: a profiler that is on or
    off, and the latest profile, if it was not cleared. *)
Record Spec := mkSpec { on : bool; latest : option chars }.
Definition spec_post (dump : option chars) (post_data : chars) (s : Spec) : Spec :=
  if chars_eqb post_data (chars_of "on") then mkSpec true (latest s)
  else if chars_eqb post_data (chars_of "off") then if on s then mkSpec false dump else s
  else if chars_eqb post_data (chars_of "empty") then mkSpec (on s) None
  else s.
Definition spec_request (r : Request) (s : Spec) : Spec :=
  match r with
  | Post env (Some uri) data => if chars_eqb uri kHeapRoute then spec_post (heap_dump env) data s else s
  | _ => s
  end.
(** An empty profile is shown like none. *)
Definition spec_reply (s : Spec) : Reply := match latest s with Some (c :: data) => Bytes (c :: data) | _ => Empty end.
Fixpoint spec_replies (rs : list Request) (s : Spec) : list Reply :=
  match rs with
  | [] => []
  | r :: rs =>
      match r with
      | Get (Some uri) => if chars_eqb uri kHeapRoute then [spec_reply s] else []
      | _ => []
      end ++ spec_replies rs (spec_request r s)
  end.

(** The replies to the requests for the heap profile. *)
Fixpoint heap_replies (rs : list Request) (replies : list Reply) : list Reply :=
  match rs, replies with
  | Get (Some uri) :: rs, reply :: replies => (if chars_eqb uri kHeapRoute then [reply] else []) ++ heap_replies rs replies
  | _ :: rs, _ :: replies => heap_replies rs replies
  | _, _ => []
  end.

Definition represents (h : ProfilerHandler) (p : Profiler) (s : Spec) : Prop :=
  heap_enabled p = on s /\ heap_profile_length_ h = Z.of_nat (length (default [] (heap_profile_ h))) /\
  default [] (heap_profile_ h) = default [] (latest s).

(** Every dump succeeds. *)
Definition dumps_ok (rs : list Request) : Prop := forall env uri data, Post env uri data ∈ rs -> is_Some (heap_dump env).

Lemma routes_differ : chars_eqb kHeapRoute kBaseRoute = false /\ chars_eqb kHeapRoute kCPURoute = false.
Proof. by split. Qed.

Lemma SendHeapProfile_represents h p s : represents h p s -> SendHeapProfile h = Ret (spec_reply s).
Proof.
  intros (_ & Hl & Hd). unfold SendHeapProfile, spec_reply. rewrite Hl. destruct (heap_profile_ h) as [data|]; cbn [default id] in *.
  - destruct data as [|c data]; [cbn; by destruct (latest s) as [[]|]|]. destruct (latest s) as [d|]; cbn [default id] in Hd; [subst d|done].
    rewrite (proj2 (Z.eqb_neq _ _)) by (cbn; lia). rewrite (proj2 (Z.ltb_ge _ _)) by lia. by rewrite Nat2Z.id, take_ge.
  - cbn. by destruct (latest s) as [[]|].
Qed.

Lemma HandleCPURoute_heap env data h p : let '(_, h', p') := HandleCPURoute env data h p in
  heap_profile_ h' = heap_profile_ h /\ heap_profile_length_ h' = heap_profile_length_ h /\ heap_enabled p' = heap_enabled p.
Proof.
  unfold HandleCPURoute, StartCPUProfiler, StopCPUProfiler.
  repeat (case_match; simplify_eq; try done).
Qed.

Lemma handlePost_represents env uri data h p s : represents h p s -> is_Some (heap_dump env) ->
  let '(_, h', p') := handlePost true env uri data h p in represents h' p' (spec_request (Post env uri data) s).
Proof.
  intros (H1 & H2 & H3) [dump Hdump]. unfold handlePost. cbn [negb spec_request]. destruct uri as [uri|]; [|done].
  destruct (chars_eqb uri kCPURoute) eqn:Ec.
  { apply bool_decide_eq_true in Ec as ->. change (chars_eqb kCPURoute kHeapRoute) with false. cbv iota.
    pose proof (HandleCPURoute_heap env data h p) as Hc. destruct (HandleCPURoute env data h p) as [[? h'] p']. destruct Hc as (E1 & E2 & E3).
    unfold represents. by rewrite E1, E2, E3. }
  destruct (chars_eqb uri kHeapRoute); [|done]. unfold HandleHeapRoute, spec_post, AllocAndGetHeapProfile, StopHeapProfiler, StartHeapProfiler.
  destruct (chars_eqb data (chars_of "on")); [destruct (heap_enabled p) eqn:Ep; cbn; unfold represents; cbn; by rewrite ?Ep|].
  destruct (chars_eqb data (chars_of "off")).
  { rewrite <-H1. destruct (heap_enabled p) eqn:Ep; [|unfold represents; by rewrite Ep]. cbn [negb]. rewrite Hdump. by unfold represents. }
  destruct (chars_eqb data (chars_of "empty")); [|done].
  destruct (Z.eqb_spec (heap_profile_length_ h) 0) as [E|E]; cbn [negb]; unfold represents; cbn; [|done].
  split; [done|]. rewrite E in *. destruct (heap_profile_ h) as [[|c l]|]; cbn in *; [done|lia|done].
Qed.

(** C27: Over any session of requests in which the library can make its dumps, a request for
    the heap profile is answered with the latest profile, or with nothing if it was
    cleared or is empty, and no request reads memory that is not there, whatever else
    the session does. *)
Theorem heap_profile_session rs : dumps_ok rs ->
  exists replies h p, serve true rs ProfilerHandler_make Profiler_start = Ret (replies, h, p) /\
    heap_replies rs replies = spec_replies rs (mkSpec false None) /\ length replies = length rs.
Proof.
  intros Hok. assert (forall h p s, represents h p s -> exists replies h' p', serve true rs h p = Ret (replies, h', p') /\
    heap_replies rs replies = spec_replies rs s /\ length replies = length rs) as Hrun; [|by apply Hrun].
  induction rs as [|r rs IH]; intros h p s Hr; [by exists [], h, p|].
  assert (dumps_ok rs) as Hok' by (intros env uri data Hin; apply (Hok env uri data); by apply elem_of_cons; right). specialize (IH Hok').
  destruct r as [uri|env uri data]; cbn [serve].
  - assert (exists reply, handleGet true uri h p = Ret reply /\ (forall u, uri = Some u -> chars_eqb u kHeapRoute = true -> reply = spec_reply s)) as (reply & -> & Hreply).
    { unfold handleGet. destruct uri as [uri|]; [|by eexists]. destruct (chars_eqb uri kHeapRoute) eqn:Eh.
      - apply bool_decide_eq_true in Eh as ->. rewrite (proj1 routes_differ), (SendHeapProfile_represents h p s Hr). by eexists.
      - destruct (chars_eqb uri kBaseRoute); [eexists; split; [done|by intros ? [= <-] ?; congruence]|].
        destruct (chars_eqb uri kCPURoute); eexists; (split; [done|by intros ? [= <-] ?; congruence]). }
    cbn [mbind outcome_bind]. destruct (IH h p s Hr) as (replies & h' & p' & -> & Hrep & Hlen). cbn [mbind outcome_bind].
    eexists _, h', p'. split; [done|]. cbn [heap_replies spec_replies spec_request length]. rewrite Hlen. split; [|done].
    destruct uri as [uri|]; [|done]. rewrite Hrep. f_equal. destruct (chars_eqb uri kHeapRoute) eqn:Eh; [|done]. by rewrite (Hreply uri).
  - pose proof (handlePost_represents env uri data h p s Hr) as Hp. specialize (Hp (Hok env uri data ltac:(by apply elem_of_cons; left))).
    destruct (handlePost true env uri data h p) as [[reply h1] p1]. destruct (IH h1 p1 _ Hp) as (replies & h' & p' & -> & Hrep & Hlen). cbn [mbind outcome_bind].
    eexists _, h', p'. split; [done|]. cbn [heap_replies spec_replies length]. by rewrite Hlen.
Qed.

(** A dump that fails while a profile is stored drops the profile but not its length: the
    next request for it reads from null. *)
Theorem failed_dump_crashes c data : let ok d := mkProfEnv true [] d true in
  serve true [Post (ok None) (Some kHeapRoute) (chars_of "on"); Post (ok (Some (c :: data))) (Some kHeapRoute) (chars_of "off");
    Post (ok None) (Some kHeapRoute) (chars_of "on"); Post (ok None) (Some kHeapRoute) (chars_of "off"); Get (Some kHeapRoute)]
    ProfilerHandler_make Profiler_start = Crash.
Proof.
  cbv zeta. cbn [serve]. unfold handlePost. cbn [negb]. rewrite (proj2 routes_differ). change (chars_eqb kHeapRoute kHeapRoute) with true. cbv iota.
  reflexivity.
Qed.

(** Clearing an old CPU profile while a new one is taken removes the file of the new one:
    switched off, the profiler leaves nothing. *)
Theorem cpu_profile_lost c data new : let env d := mkProfEnv true d None true in
  exists replies h p, serve true [Post (env []) (Some kCPURoute) (chars_of "on"); Post (env (c :: data)) (Some kCPURoute) (chars_of "off");
    Post (env []) (Some kCPURoute) (chars_of "on"); Post (env []) (Some kCPURoute) (chars_of "empty"); Post (env new) (Some kCPURoute) (chars_of "off");
    Get (Some kCPURoute)] ProfilerHandler_make Profiler_start = Ret (replies, h, p) /\ last replies = Some Empty.
Proof. cbv zeta. eexists _, _, _. split; reflexivity. Qed.

(** ** Witness *)

Lemma heap_profile_session_witness :
  let env := mkProfEnv true [] (Some (chars_of "dump")) true in
  let rs := [Post env (Some kHeapRoute) (chars_of "on"); Post env (Some kHeapRoute) (chars_of "off"); Get (Some kHeapRoute)] in
  exists replies h p, serve true rs ProfilerHandler_make Profiler_start = Ret (replies, h, p) /\ heap_replies rs replies = [Bytes (chars_of "dump")].
Proof.
  cbv zeta. destruct (heap_profile_session [Post (mkProfEnv true [] (Some (chars_of "dump")) true) (Some kHeapRoute) (chars_of "on");
    Post (mkProfEnv true [] (Some (chars_of "dump")) true) (Some kHeapRoute) (chars_of "off"); Get (Some kHeapRoute)]) as (replies & h & p & E & Hr & _).
  - intros env uri data Hin. repeat (apply elem_of_cons in Hin as [Hin|Hin]; [try discriminate Hin; injection Hin as -> _ _; by eexists|]). by apply elem_of_nil in Hin.
  - exists replies, h, p. split; [exact E|]. rewrite Hr. reflexivity.
Defined.
