(* ===== verification/Resources.v ===== *)
(** * Handles of files and memory for messages (FileSystem.h, ProtoAllocator.h)

    The RAII wrapper of operating-system resources: handles live in a store, so that an
    assignment from a handle to itself is one too; the resources that are open are part
    of the world.  Reading of compressed files over the results of zlib, and the
    allocators of protobuf messages. *)

From stdpp Require Import gmap.
From S2P Require Import Prelude CStrings.

(** ** [ResourceWrapper] *)

(** [open_] are the open resources, [raw_] those that a [release] handed out. *)
Record Sys := mkSys { handles_ : gmap nat Z; open_ : gset Z; raw_ : gset Z }.

Section wrapper.
(** [Derived::Invalid()], and whether the operating system reports the closing of a
    resource as successful. *)
Variable Invalid : Z.
Variable close_ok : Z -> bool.

Definition set_handle (h : nat) (r : Z) (s : Sys) : Sys := mkSys (<[h := r]> (handles_ s)) (open_ s) (raw_ s).

(** [Derived::Close]: closing what is not open, which may be someone else's by then, is a
    fault.  A resource is gone also when closing reports an error. *)
Definition Close (r : Z) (s : Sys) : outcome (bool * Sys) :=
  if bool_decide (r ∈ open_ s) then Ret (close_ok r, mkSys (handles_ s) (open_ s ∖ {[r]}) (raw_ s)) else Crash.

Definition valid (r : Z) : bool := negb (r =? Invalid).

Definition ResourceWrapper_make (h : nat) (s : Sys) : Sys := set_handle h Invalid s.
(** From a resource that the program holds. *)
Definition ResourceWrapper_of (h : nat) (r : Z) (s : Sys) : Sys := mkSys (<[h := r]> (handles_ s)) (open_ s) (raw_ s ∖ {[r]}).

Definition release (h : nat) (s : Sys) : outcome (Z * Sys) :=
  match handles_ s !! h with
  | None => Crash
  | Some r => Ret (r, mkSys (<[h := Invalid]> (handles_ s)) (open_ s) (if valid r then {[r]} ∪ raw_ s else raw_ s))
  end.

Definition close (h : nat) (s : Sys) : outcome (bool * Sys) :=
  match handles_ s !! h with
  | None => Crash
  | Some r =>
      if r =? Invalid then Ret (true, s)
      else '(success, s) ← Close r s; Ret (success, set_handle h Invalid s)
  end.

(** The destructor. *)
Definition destroy (h : nat) (s : Sys) : outcome Sys :=
  '(_, s) ← close h s; Ret (mkSys (delete h (handles_ s)) (open_ s) (raw_ s)).

Definition assign (h : nat) (r : Z) (s : Sys) : outcome Sys :=
  '(_, s) ← close h s; Ret (ResourceWrapper_of h r s).

Definition move_assign (h other : nat) (s : Sys) : outcome Sys :=
  '(_, s) ← close h s;
  match handles_ s !! other with
  | None => Crash
  | Some r => Ret (set_handle other Invalid (set_handle h r s))
  end.

(** The move constructors of the handles. *)
Definition move_make (h other : nat) (s : Sys) : outcome Sys := '(r, s) ← release other s; Ret (ResourceWrapper_of h r s).

(** *** Programs with handles *)

(** A system call opens a resource; the rest are the operations above. *)
Inductive HandleOp :=
  | OpOpen (r : Z) | OpMake (h : nat) | OpOf (h : nat) (r : Z) | OpMoveMake (h other : nat) | OpRelease (h : nat) | OpClose (h : nat)
  | OpAssign (h : nat) (r : Z) | OpMoveAssign (h other : nat) | OpDestroy (h : nat).

Definition handle_op (o : HandleOp) (s : Sys) : outcome Sys :=
  match o with
  | OpOpen r => Ret (mkSys (handles_ s) ({[r]} ∪ open_ s) ({[r]} ∪ raw_ s))
  | OpMake h => Ret (ResourceWrapper_make h s)
  | OpOf h r => Ret (ResourceWrapper_of h r s)
  | OpMoveMake h other => move_make h other s
  | OpRelease h => '(_, s) ← release h s; Ret s
  | OpClose h => '(_, s) ← close h s; Ret s
  | OpAssign h r => assign h r s
  | OpMoveAssign h other => move_assign h other s
  | OpDestroy h => destroy h s
  end.

(** What the compiler and the system guarantee: objects exist while they are used and are
    made once, a system call returns a resource that is not open, and the program hands
    out only what it holds; an invalid value may be handed out at any time. *)
Definition may (o : HandleOp) (s : Sys) : Prop :=
  let held r := r = Invalid \/ r ∈ raw_ s in
  match o with
  | OpOpen r => r <> Invalid /\ r ∉ open_ s
  | OpMake h => handles_ s !! h = None
  | OpOf h r => handles_ s !! h = None /\ held r
  | OpMoveMake h other => handles_ s !! h = None /\ is_Some (handles_ s !! other)
  | OpRelease h | OpClose h | OpDestroy h => is_Some (handles_ s !! h)
  | OpAssign h r => is_Some (handles_ s !! h) /\ held r
  | OpMoveAssign h other => is_Some (handles_ s !! h) /\ is_Some (handles_ s !! other)
  end.

Inductive handle_run : Sys -> Sys -> Prop :=
| run_nil s : handle_run s s
| run_op o s s' s'' : may o s -> handle_op o s = Ret s' -> handle_run s' s'' -> handle_run s s''.
End wrapper.

(** *** The handles of the program *)

Definition FD_Invalid : Z := -1.
Definition Pointer_Invalid : Z := 0.

(** [FileHandle(FDHandle&&)], [DirHandle(FDHandle&&)] and [GZFileHandle(FDHandle&&)]: the
    descriptor is released, and belongs to the object that [fdopen] and the like make of
    it, if they succeed.  The result is the new object's resource. *)
Definition handle_of_fd (opened : option Z) (fd : nat) (s : Sys) : outcome (Z * Sys) :=
  '(r, s) ← release FD_Invalid fd s;
  match opened with
  | Some p => Ret (p, mkSys (handles_ s) (open_ s) (raw_ s ∖ {[r]}))
  | None => Ret (Pointer_Invalid, s)
  end.

Definition DirHandle_openat (dir : Z) (result : Z) : Z := if negb (valid Pointer_Invalid dir) then -1 else result.
Definition DirHandle_read {D} (dir : Z) (next : option D) : option D := if negb (valid Pointer_Invalid dir) then None else next.

(** ** Compressed files *)

(** What can be decompressed, at which byte the data is damaged, if it is, whether the
    file ends in the middle of a stream; the position, and the end-of-file mark. *)
Record GzFile := mkGz { gz_data : chars; gz_damaged : option nat; gz_truncated : bool; gz_pos : nat; gz_eof : bool }.

Definition BUFFER_SIZE : nat := Z.to_nat 8192.

(** [gzread]: the bytes, fewer than asked for at the end only, which is marked; or an error
    when the damage is reached. *)
Definition gzread (f : GzFile) : option chars * GzFile :=
  let stop := match gz_damaged f with Some d => d | None => length (gz_data f) end in
  let chunk := take BUFFER_SIZE (drop (gz_pos f) (take stop (gz_data f))) in
  if bool_decide (length chunk = BUFFER_SIZE) then (Some chunk, mkGz (gz_data f) (gz_damaged f) (gz_truncated f) (gz_pos f + BUFFER_SIZE) (gz_eof f))
  else
    match gz_damaged f with
    | Some _ => (None, f)
    | None => (Some chunk, mkGz (gz_data f) (gz_damaged f) (gz_truncated f) (gz_pos f + length chunk) true)
    end.

(** [Decompress] with its output; [None] while the loop is running. *)
Fixpoint Decompress (fuel : nat) (f : GzFile) (output : chars) : option (bool * chars * GzFile) :=
  match fuel with
  | O => None
  | S fuel =>
      match gzread f with
      | (None, f) => Some (false, output, f)
      | (Some [], f) => Some (gz_eof f, output, f)
      | (Some buf, f) =>
          let output := output ++ buf in
          if bool_decide (length buf = BUFFER_SIZE) then Decompress fuel f output else Some (gz_eof f, output, f)
      end
  end.

(** [DecompressFile]; the result of [gzclose], in the destructor, is not looked at. *)
Definition gzclose (f : GzFile) : bool := negb (gz_truncated f).
Definition DecompressFile (fuel : nat) (input : option GzFile) (output_open : bool) : option (bool * chars) :=
  match input with
  | None => Some (false, [])
  | Some f => if negb output_open then Some (false, []) else '(ok, output, _) ← Decompress fuel f []; Some (ok, output)
  end.

(** ** Allocators of messages *)

Definition kDefaultPoolSize : Z := 524288.
(** The pool and what the arena has handed out since it was reset. *)
Record ArenaProtoAllocator := mkArena { pool_size_ : Z; bytes_used_ : Z }.
Definition ArenaProtoAllocator_make (pool_size : Z) : ArenaProtoAllocator := mkArena pool_size 0.
Definition Arena_Allocate (size : Z) (a : ArenaProtoAllocator) : ArenaProtoAllocator := mkArena (pool_size_ a) (u64 (bytes_used_ a + size)).
Definition Arena_Reset (a : ArenaProtoAllocator) : ArenaProtoAllocator :=
  let bytes_used := bytes_used_ a in
  mkArena (if pool_size_ a <? bytes_used then u64 ((bytes_used / kDefaultPoolSize + 1) * kDefaultPoolSize) else pool_size_ a) 0.

(** Without arenas: one root message, which every call clears and returns again. *)
Record HeapProtoAllocator {M : Type} := mkHeapAlloc { message_ : M }.
Arguments HeapProtoAllocator : clear implicits.
Arguments mkHeapAlloc {M}.
Definition Heap_AllocateRoot {M} (cleared : M) (a : HeapProtoAllocator M) : HeapProtoAllocator M := mkHeapAlloc cleared.

(** ** Ownership *)

Section ownership.
Variable Invalid : Z.
Variable close_ok : Z -> bool.
Implicit Types s : Sys.

(** Every open resource belongs to one handle or to the program, and to nothing else. *)
Record sys_ok s : Prop := mkSysOk {
  ok_handle h r : handles_ s !! h = Some r -> r <> Invalid -> r ∈ open_ s /\ r ∉ raw_ s;
  ok_unique h h' r : handles_ s !! h = Some r -> handles_ s !! h' = Some r -> r <> Invalid -> h = h';
  ok_raw r : r ∈ raw_ s -> r ∈ open_ s;
  ok_invalid : Invalid ∉ open_ s;
  ok_owned r : r ∈ open_ s -> r ∈ raw_ s \/ exists h, handles_ s !! h = Some r
}.

Lemma close_spec h r s : sys_ok s -> handles_ s !! h = Some r ->
  exists b s', close Invalid close_ok h s = Ret (b, s') /\ sys_ok s' /\ handles_ s' = <[h := Invalid]> (handles_ s) /\ raw_ s' = raw_ s.
Proof.
  intros H Hh. unfold close. rewrite Hh. destruct (Z.eqb_spec r Invalid) as [->|Hr].
  { exists true, s. by rewrite insert_id. }
  destruct (ok_handle s H h r Hh Hr) as [Ho Hraw]. unfold Close. rewrite bool_decide_true by done. cbn [mbind outcome_bind].
  eexists _, _. split; [done|]. split; [|done]. destruct H as [H1 H2 H3 H4 H5]. split; cbn.
  - intros h' r' Hh' Hr'. apply lookup_insert_Some in Hh' as [[<- <-]|[Hne Hh']]; [done|]. destruct (H1 h' r' Hh' Hr') as [Ho' Hraw'].
    split; [|done]. apply elem_of_difference. split; [done|]. intros ->%elem_of_singleton. apply Hne. by apply (H2 h h' r).
  - intros h1 h2 r' E1 E2 Hr'. apply lookup_insert_Some in E1 as [[<- <-]|[_ E1]]; [done|]. apply lookup_insert_Some in E2 as [[<- <-]|[_ E2]]; [done|]. by eapply H2.
  - intros r' Hr'. apply elem_of_difference. split; [by apply H3|]. by intros ->%elem_of_singleton.
  - set_solver.
  - intros r' [Hin Hne]%elem_of_difference. destruct (H5 r' Hin) as [?|[h' Hh']]; [by left|right]. exists h'. rewrite lookup_insert_ne; [done|].
    intros ->. rewrite Hh in Hh'. injection Hh' as ->. set_solver.
Qed.

Lemma of_spec h r s : sys_ok s -> (handles_ s !! h = None \/ handles_ s !! h = Some Invalid) -> (r = Invalid \/ r ∈ raw_ s) -> sys_ok (ResourceWrapper_of h r s).
Proof.
  intros [H1 H2 H3 H4 H5] Hh Hr. split; cbn.
  - intros h' r' E Hr'. apply lookup_insert_Some in E as [[<- <-]|[Hne E]].
    + destruct Hr as [->|Hr]; [done|]. split; [by apply H3|set_solver].
    + destruct (H1 h' r' E Hr'). split; [done|set_solver].
  - intros h1 h2 r' E1 E2 Hr'. apply lookup_insert_Some in E1 as [[<- <-]|[Hne1 E1]]; apply lookup_insert_Some in E2 as [[<- E2]|[Hne2 E2]]; [done| | |by eapply H2].
    + destruct Hr as [->|Hr]; [done|]. by destruct (H1 h2 r E2 Hr').
    + subst r'. destruct Hr as [->|Hr]; [done|]. by destruct (H1 h1 r E1 Hr').
  - set_solver.
  - done.
  - intros r' Hin. destruct (decide (r' = r)) as [->|Hne]; [right; exists h; by rewrite lookup_insert_eq|].
    destruct (H5 r' Hin) as [?|[h' Hh']]; [left; set_solver|right]. exists h'. rewrite lookup_insert_ne; [done|]. intros ->.
    destruct Hh as [Hh|Hh]; rewrite Hh in Hh'; [done|]. injection Hh' as <-. done.
Qed.

Lemma release_spec h r s : sys_ok s -> handles_ s !! h = Some r ->
  exists s', release Invalid h s = Ret (r, s') /\ sys_ok s' /\ handles_ s' = <[h := Invalid]> (handles_ s) /\ (r = Invalid \/ r ∈ raw_ s').
Proof.
  intros [H1 H2 H3 H4 H5] Hh. unfold release, valid. rewrite Hh. eexists. split; [done|]. cbn [handles_ raw_]. destruct (Z.eqb_spec r Invalid) as [->|Hr]; cbn [negb].
  { rewrite insert_id by done. split; [|by split; [|left]]. by split. }
  split; [|split; [done|right; set_solver]]. destruct (H1 h r Hh Hr) as [Ho Hraw]. split; cbn.
  - intros h' r' E Hr'. apply lookup_insert_Some in E as [[<- <-]|[Hne E]]; [done|]. destruct (H1 h' r' E Hr'). split; [done|].
    intros [->%elem_of_singleton|?]%elem_of_union; [|done]. apply Hne. by apply (H2 h h' r).
  - intros h1 h2 r' E1 E2 Hr'. apply lookup_insert_Some in E1 as [[<- <-]|[_ E1]]; [done|]. apply lookup_insert_Some in E2 as [[<- <-]|[_ E2]]; [done|]. by eapply H2.
  - intros r' [->%elem_of_singleton|?]%elem_of_union; [done|by apply H3].
  - done.
  - intros r' Hin. destruct (decide (r' = r)) as [->|Hne]; [left; set_solver|]. destruct (H5 r' Hin) as [?|[h' Hh']]; [left; set_solver|right].
    exists h'. rewrite lookup_insert_ne; [done|]. intros ->. congruence.
Qed.

(** What a handle holds moves to another one that holds nothing. *)
Lemma move_spec h other r s : sys_ok s -> handles_ s !! h = Some Invalid -> handles_ s !! other = Some r ->
  sys_ok (set_handle other Invalid (set_handle h r s)).
Proof.
  intros H Hh Hr. destruct (decide (h = other)) as [<-|Hne].
  { rewrite Hh in Hr. injection Hr as <-. unfold set_handle. cbn. by rewrite insert_insert_eq, insert_id; destruct s. }
  destruct (release_spec other r s H Hr) as (s' & E & Hok & Hhs & Hheld). unfold release in E. rewrite Hr in E. injection E as <-. cbn [handles_ raw_] in *.
  pose proof (of_spec h r _ Hok) as Hof. cbn [handles_ raw_] in Hof. rewrite lookup_insert_ne in Hof by done.
  specialize (Hof (or_intror Hh) Hheld). revert Hof. unfold ResourceWrapper_of, set_handle, valid. cbn [handles_ open_ raw_]. rewrite insert_insert_ne by done.
  destruct (Z.eqb_spec r Invalid) as [->|Hri]; cbn [negb].
  - replace (raw_ s ∖ {[Invalid]}) with (raw_ s); [done|]. destruct H as [_ _ H3 H4 _]. apply set_eq. set_solver.
  - replace (({[r]} ∪ raw_ s) ∖ {[r]}) with (raw_ s); [done|]. destruct H as [H1 _ _ _ _]. destruct (H1 other r Hr Hri). apply set_eq. set_solver.
Qed.

Lemma handle_op_ok o s : sys_ok s -> may Invalid o s -> exists s', handle_op Invalid close_ok o s = Ret s' /\ sys_ok s'.
Proof.
  intros H Hm. destruct o as [r|h|h r|h other|h|h|h r|h other|h]; cbn [handle_op may] in *.
  - eexists. split; [done|]. destruct H as [H1 H2 H3 H4 H5], Hm as [Hm1 Hm2]. split; cbn.
    + intros h' r' E Hr'. destruct (H1 h' r' E Hr'). split; set_solver.
    + apply H2.
    + set_solver.
    + set_solver.
    + intros r' [->%elem_of_singleton|Hin]%elem_of_union; [left; set_solver|]. destruct (H5 r' Hin) as [?|?]; [left; set_solver|by right].
  - eexists. split; [done|]. assert (ResourceWrapper_make Invalid h s = ResourceWrapper_of h Invalid s) as ->; [|apply of_spec; auto].
    unfold ResourceWrapper_make, set_handle, ResourceWrapper_of. f_equal. destruct H. apply set_eq. set_solver.
  - destruct Hm as [Hm1 Hm2]. eexists. split; [done|]. by apply of_spec; [|left|].
  - destruct Hm as [Hm [r Hr]]. destruct (release_spec other r s H Hr) as (s' & E & Hok & Hhs & Hheld). unfold move_make. rewrite E. cbn [mbind outcome_bind].
    eexists. split; [done|]. apply of_spec; [done| |done]. left. rewrite Hhs, lookup_insert_ne; [done|congruence].
  - destruct Hm as [r Hr]. destruct (release_spec h r s H Hr) as (s' & E & Hok & _). rewrite E. by exists s'.
  - destruct Hm as [r Hr]. destruct (close_spec h r s H Hr) as (b & s' & E & Hok & _). rewrite E. by exists s'.
  - destruct Hm as [[r' Hr] Hheld]. destruct (close_spec h r' s H Hr) as (b & s' & E & Hok & Hhs & Hraw). unfold assign. rewrite E. cbn [mbind outcome_bind].
    eexists. split; [done|]. apply of_spec; [done| |by rewrite Hraw]. right. by rewrite Hhs, lookup_insert_eq.
  - destruct Hm as [[r Hr] [r' Hr']]. destruct (close_spec h r s H Hr) as (b & s' & E & Hok & Hhs & _). unfold move_assign. rewrite E. cbn [mbind outcome_bind].
    assert (is_Some (handles_ s' !! other)) as [r1 Hr1] by (rewrite Hhs; destruct (decide (h = other)) as [<-|]; [rewrite lookup_insert_eq; by eexists|rewrite lookup_insert_ne by done; by eexists]).
    rewrite Hr1. eexists. split; [done|]. apply move_spec; [done|by rewrite Hhs, lookup_insert_eq|done].
  - destruct Hm as [r Hr]. destruct (close_spec h r s H Hr) as (b & s' & E & [H1 H2 H3 H4 H5] & Hhs & _). unfold destroy. rewrite E. cbn [mbind outcome_bind].
    eexists. split; [done|]. split; cbn; [..|done|done|].
    + intros h' r' E' Hr'. apply lookup_delete_Some in E' as [_ E']. by apply (H1 h').
    + intros h1 h2 r' E1 E2 Hr'. apply lookup_delete_Some in E1 as [_ E1]. apply lookup_delete_Some in E2 as [_ E2]. by apply (H2 h1 h2 r').
    + intros r' Hin. destruct (H5 r' Hin) as [?|[h' Hh']]; [by left|right]. exists h'. apply lookup_delete_Some. split; [|done].
      intros <-. rewrite Hhs, lookup_insert_eq in Hh'. injection Hh' as <-. done.
Qed.

Lemma handle_run_ok s s' : handle_run Invalid close_ok s s' -> sys_ok s -> sys_ok s'.
Proof.
  induction 1 as [|o s s1 s2 Hm E _ IH]; [done|]. intros H. apply IH. destruct (handle_op_ok o s H Hm) as (s1' & E' & Hok). rewrite E in E'. by injection E' as <-.
Qed.

(** C25: However a program uses its handles, moving them, assigning them also to themselves,
    and releasing them, no operation ever closes a resource that is not open, so that
    nothing is closed twice; a resource that is open belongs to exactly one handle or was
    released to the program; and when all handles are gone, only what was released, and
    what the program never gave to a handle, is still open. *)
Theorem handles_own s : handle_run Invalid close_ok (mkSys ∅ ∅ ∅) s ->
  (forall o, may Invalid o s -> exists s', handle_op Invalid close_ok o s = Ret s') /\
  (forall r, r ∈ open_ s <-> r ∈ raw_ s \/ exists h, handles_ s !! h = Some r /\ r <> Invalid) /\
  (forall h h' r, handles_ s !! h = Some r -> handles_ s !! h' = Some r -> r <> Invalid -> h = h' /\ r ∉ raw_ s) /\
  (handles_ s = ∅ -> open_ s = raw_ s).
Proof.
  intros H%handle_run_ok; [|split; cbn; set_solver]. split_and!.
  - intros o Hm. destruct (handle_op_ok o s H Hm) as (s' & E & _). by exists s'.
  - intros r. destruct H as [H1 _ H3 H4 H5]. split.
    + intros Hin. destruct (H5 r Hin) as [?|[h Hh]]; [by left|right]. exists h. split; [done|]. by intros ->.
    + intros [?|(h & Hh & Hr)]; [by apply H3|by apply (H1 h)].
  - intros h h' r Hh Hh' Hr. destruct H as [H1 H2 _ _ _]. split; [by apply (H2 h h' r)|by apply (H1 h)].
  - intros He. destruct H as [_ _ H3 _ H5]. apply set_eq. intros r. split; [|by apply H3]. intros Hin. destruct (H5 r Hin) as [?|[h Hh]]; [done|].
    by rewrite He in Hh.
Qed.
End ownership.

(** A descriptor of which no stream can be made is lost: it is open, and neither the handle
    nor the stream has it. *)
Theorem fdopen_failure_leaks fd r s : sys_ok FD_Invalid s -> handles_ s !! fd = Some r -> r <> FD_Invalid ->
  exists s', handle_of_fd None fd s = Ret (Pointer_Invalid, s') /\ r ∈ open_ s' /\ forall h, handles_ s' !! h <> Some r.
Proof.
  intros H Hh Hr. destruct (release_spec FD_Invalid (fun _ => true) fd r s H Hh) as (s' & E & Hok & Hhs & [?|Hraw]); [done|]. unfold handle_of_fd. rewrite E. cbn [mbind outcome_bind].
  exists s'. split; [done|]. split; [by apply (ok_raw _ _ Hok)|]. intros h Hh'. by destruct (ok_handle _ _ Hok h r Hh' Hr).
Qed.

(** ** Decompression *)

Definition fresh_gz (data : chars) (damaged : option nat) (truncated : bool) : GzFile := mkGz data damaged truncated 0 false.

Lemma BUFFER_SIZE_pos : (2 < BUFFER_SIZE)%nat.
Proof. unfold BUFFER_SIZE. lia. Qed.
#[local] Opaque BUFFER_SIZE.

(** A read before the byte [stop] behind which there is nothing, or damage. *)
Lemma gzread_chunk f stop : stop = match gz_damaged f with Some d => d | None => length (gz_data f) end -> (stop <= length (gz_data f))%nat -> (gz_pos f <= stop)%nat ->
  if (stop - gz_pos f <? BUFFER_SIZE)%nat then
    (gzread f).1 = (match gz_damaged f with Some _ => None | None => Some (drop (gz_pos f) (gz_data f)) end) /\
    (gz_damaged f = None -> gz_eof (gzread f).2 = true /\ (length (drop (gz_pos f) (gz_data f)) < BUFFER_SIZE)%nat)
  else exists c chunk, c :: chunk = take BUFFER_SIZE (drop (gz_pos f) (gz_data f)) /\ length (c :: chunk) = BUFFER_SIZE /\
    gzread f = (Some (c :: chunk), mkGz (gz_data f) (gz_damaged f) (gz_truncated f) (gz_pos f + BUFFER_SIZE) (gz_eof f)).
Proof.
  intros Hs Hle Hpos. pose proof BUFFER_SIZE_pos as Hb. unfold gzread. rewrite <-Hs. rewrite skipn_firstn_comm. fold (take (A := ascii)).
  set (rest := drop (gz_pos f) (gz_data f)). assert (length rest = length (gz_data f) - gz_pos f)%nat as Hlr by apply length_drop.
  rewrite take_take. destruct (Nat.ltb_spec (stop - gz_pos f) BUFFER_SIZE) as [Hlt|Hge].
  - rewrite Nat.min_r by lia. rewrite bool_decide_false by (rewrite length_take; lia). destruct (gz_damaged f); [done|]. subst stop. rewrite take_ge by lia. cbn. split; [done|]. intros _. split; [done|lia].
  - rewrite Nat.min_l by lia. rewrite bool_decide_true by (rewrite length_take; lia). destruct (take BUFFER_SIZE rest) as [|c chunk] eqn:E; [apply (f_equal length) in E; rewrite length_take in E; cbn in E; lia|].
    exists c, chunk. split; [done|]. split; [rewrite <-E, length_take; lia|done].
Qed.

Lemma Decompress_whole truncated data : forall fuel pos output, (length data - pos < fuel * BUFFER_SIZE)%nat -> (pos <= length data)%nat ->
  exists f, Decompress fuel (mkGz data None truncated pos false) output = Some (true, output ++ drop pos data, f).
Proof.
  induction fuel as [|fuel IH]; intros pos output Hf Hp; [lia|]. cbn [Decompress].
  pose proof (gzread_chunk (mkGz data None truncated pos false) (length data) eq_refl (le_n _) Hp) as H. cbn [gz_data gz_damaged gz_pos gz_truncated gz_eof] in H.
  destruct (Nat.ltb_spec (length data - pos) BUFFER_SIZE) as [Hlt|Hge].
  - destruct H as [H1 H2]. destruct (gzread _) as [r f]. cbn [fst snd] in *. subst r. destruct (H2 eq_refl) as [He Hl]. rewrite He. exists f.
    destruct (drop pos data) as [|c l] eqn:E; [by rewrite app_nil_r|]. by rewrite bool_decide_false by lia.
  - destruct H as (c & chunk & E & Hlen & ->). rewrite bool_decide_true by done. edestruct (IH (pos + BUFFER_SIZE)%nat) as [f Hf']; [lia|lia|].
    exists f. rewrite Hf'. do 3 f_equal. by rewrite <-app_assoc, E, <-drop_drop, take_drop.
Qed.

Lemma Decompress_damaged truncated data d : (d <= length data)%nat -> forall fuel pos output, (d - pos < fuel * BUFFER_SIZE)%nat -> (pos <= d)%nat ->
  exists n f, Decompress fuel (mkGz data (Some d) truncated pos false) output = Some (false, output ++ take n (drop pos data), f) /\ (pos + n <= d)%nat.
Proof.
  intros Hd. induction fuel as [|fuel IH]; intros pos output Hf Hp; [lia|]. cbn [Decompress].
  pose proof (gzread_chunk (mkGz data (Some d) truncated pos false) d eq_refl Hd Hp) as H. cbn [gz_data gz_damaged gz_pos gz_truncated gz_eof] in H.
  destruct (Nat.ltb_spec (d - pos) BUFFER_SIZE) as [Hlt|Hge].
  - destruct H as [H1 _]. destruct (gzread _) as [r f]. cbn [fst] in *. subst r. exists 0%nat, f. rewrite take_0, app_nil_r. split; [done|lia].
  - destruct H as (c & chunk & E & Hlen & ->). rewrite bool_decide_true by done. edestruct (IH (pos + BUFFER_SIZE)%nat) as (n & f & Hf' & Hn); [lia|lia|].
    exists (BUFFER_SIZE + n)%nat, f. rewrite Hf'. split; [|lia]. do 3 f_equal. rewrite <-app_assoc, E, <-drop_drop. f_equal.
    rewrite <-(take_drop BUFFER_SIZE (drop pos data)) at 3. rewrite take_app_ge by (rewrite length_take; lia). f_equal. f_equal. rewrite length_take, length_drop. lia.
Qed.

(** Decompression of a file returns, with the whole contents and success if the data is
    sound, whether or not its length is a multiple of the buffer's; with failure and a
    part from the start if it is damaged.  A file that ends in the middle of a stream
    counts as sound, because the result of closing it is not looked at. *)
Theorem Decompress_exact data damaged truncated fuel :
  (length data < fuel * BUFFER_SIZE)%nat -> match damaged with Some d => (d <= length data)%nat | None => True end ->
  exists output, DecompressFile fuel (Some (fresh_gz data damaged truncated)) true = Some (bool_decide (damaged = None), output) /\
    output `prefix_of` data /\ (damaged = None -> output = data).
Proof.
  intros Hf Hd. unfold DecompressFile, fresh_gz. cbn [negb]. destruct damaged as [d|].
  - destruct (Decompress_damaged truncated data d Hd fuel 0 []) as (n & f & -> & Hn); [lia|lia|]. cbn [mbind option_bind]. eexists. split; [by rewrite bool_decide_false|].
    cbn [app]. rewrite drop_0. split; [apply prefix_take|done].
  - destruct (Decompress_whole truncated data fuel 0 []) as [f ->]; [lia|lia|]. cbn [mbind option_bind]. eexists. split; [by rewrite bool_decide_true|]. by rewrite drop_0.
Qed.

(** ** The arena *)

(** A reset never shrinks the pool, and the pool holds what was used before it: a next
    message of the same size needs no further memory, and no further growth. *)
Theorem Arena_Reset_fits a used : 0 <= pool_size_ a -> 0 <= used -> used + kDefaultPoolSize < 2 ^ 64 ->
  let a1 := Arena_Reset (Arena_Allocate used (mkArena (pool_size_ a) 0)) in
  pool_size_ a <= pool_size_ a1 /\ used <= pool_size_ a1 /\ bytes_used_ a1 = 0 /\ Arena_Reset (Arena_Allocate used a1) = a1.
Proof.
  intros Hp Hu Hmax. unfold Arena_Reset, Arena_Allocate. cbn [pool_size_ bytes_used_]. unfold kDefaultPoolSize, wrap in *.
  rewrite !(Z.mod_small (0 + used)) by lia. destruct (Z.ltb_spec (pool_size_ a) (0 + used)) as [Hlt|Hge].
  - rewrite Z.mod_small by (pose proof (Z.mul_div_le (0 + used) 524288); pose proof (Z.div_pos (0 + used) 524288); lia).
    pose proof (Z.mul_succ_div_gt (0 + used) 524288 ltac:(lia)). cbn [pool_size_ bytes_used_]. rewrite ?(Z.mod_small (0 + used)) by lia.
    rewrite (proj2 (Z.ltb_ge _ _)) by lia. split_and!; lia || done.
  - cbn [pool_size_ bytes_used_]. rewrite ?(Z.mod_small (0 + used)) by lia. rewrite (proj2 (Z.ltb_ge _ _)) by lia. split_and!; lia || done.
Qed.

(** ** Witnesses *)

Definition wit_sys : Sys := mkSys {[1%nat := 7]} {[7]} ∅.
Lemma wit_handle_run : handle_run FD_Invalid (fun _ => true) (mkSys ∅ ∅ ∅) wit_sys.
Proof.
  eapply (run_op _ _ (OpOpen 7)); [split; [done|set_solver]|reflexivity|]. eapply (run_op _ _ (OpOf 0 7)); [split; [done|right; set_solver]|reflexivity|].
  eapply (run_op _ _ (OpMake 1)); [done|reflexivity|]. eapply (run_op _ _ (OpMoveAssign 1 0)); [split; by eexists|vm_compute; reflexivity|].
  eapply (run_op _ _ (OpMoveAssign 0 0)); [split; by eexists|vm_compute; reflexivity|]. eapply (run_op _ _ (OpDestroy 0)); [by eexists|vm_compute; reflexivity|].
  apply run_nil.
Qed.

Lemma handles_own_witness : (forall r, r ∈ open_ wit_sys <-> r ∈ raw_ wit_sys \/ exists h, handles_ wit_sys !! h = Some r /\ r <> FD_Invalid) /\ handles_ wit_sys !! 1%nat = Some 7.
Proof.
  destruct (handles_own FD_Invalid (fun _ => true) wit_sys wit_handle_run) as (_ & H & _). split; [exact H|reflexivity].
Defined.

Lemma Decompress_exact_witness :
  exists output, DecompressFile 1 (Some (fresh_gz ["a"; "b"]%char None false)) true = Some (true, output) /\ output = ["a"; "b"]%char.
Proof.
  destruct (Decompress_exact ["a"; "b"]%char None false 1) as (output & E & _ & H); [pose proof BUFFER_SIZE_pos; cbn; lia|done|].
  exists output. split; [exact E|]. by apply H.
Defined.
