(* ===== verification/Abort.v ===== *)
(** * The handler of fatal signals (AbortHandler.cpp)

    The stack trace on standard error, written from one buffer.  The stack, the symbols of
    its addresses and the descriptions of signals are inputs; [snprintf] is taken not to
    fail. *)

From stdpp Require Import pretty.
From S2P Require Import Prelude CStrings Utility.

Definition NUL : ascii := "000"%char.
Definition newline : ascii := "010"%char.

(** ** Printing *)

(** The digits of [%p], the last first. *)
Fixpoint hex_digits (fuel : nat) (n : Z) : chars :=
  match fuel with
  | O => []
  | S fuel =>
      let d := n mod 16 in
      ascii_of_nat (Z.to_nat (if d <? 10 then 48 + d else 87 + d)) :: (if n <? 16 then [] else hex_digits fuel (n / 16))
  end.
(** [%p] of a 64-bit address, and [%zd]. *)
Definition print_p (addr : Z) : chars := if addr =? 0 then chars_of "(nil)" else chars_of "0x" ++ rev (hex_digits 16 addr).
Definition print_zd (n : Z) : chars := chars_of (pretty (s64 n)).

(** The buffer [char message_buffer[256]]. *)
Definition message_buffer_size : Z := 256.

(** [snprintf] into the buffer: the length of the whole text; as much of it as fits, ended
    by a NUL, is stored. *)
Definition snprintf (text : chars) (buffer : chars) : Z * chars :=
  let stored := take (Z.to_nat message_buffer_size - 1) text in
  (Z.of_nat (length text), stored ++ NUL :: drop (length stored + 1) buffer).

(** [write] of bytes of the buffer: more than it has is undefined. *)
Definition write_stderr (buffer : chars) (n : Z) : outcome chars :=
  if Z.of_nat (length buffer) <? n then Crash else Ret (take (Z.to_nat n) buffer).

Definition WriteBuffer (buffer : chars) (num_bytes buffer_size : Z) : outcome (chars * chars) :=
  if buffer_size <? num_bytes then
    if Z.of_nat (length buffer) <? buffer_size then Crash
    else
      let buffer := <[Z.to_nat (buffer_size - 1) := newline]> buffer in
      out ← write_stderr buffer buffer_size; Ret (out, buffer)
  else out ← write_stderr buffer num_bytes; Ret (out, buffer).

(** ** The handler *)

(** [dladdr]: the file of the object, the nearest symbol and its address, if any, and the
    demangled name. *)
Record DlInfo := mkDlInfo { dli_fname : chars; dli_sname : option chars; dli_saddr : Z; demangled : option chars }.
Record Frame := mkFrame { address : Z; symbol : option DlInfo }.

Definition frame_text (f : Frame) : chars :=
  match symbol f with
  | Some info =>
      let shift_from_symbol := address f - dli_saddr info in
      dli_fname info ++ chars_of " " ++
      match demangled info with Some name => name | None => default (chars_of "(null)") (dli_sname info) end ++ chars_of " " ++
      print_p (address f) ++ chars_of " + " ++ print_zd (if dli_saddr info =? 0 then 0 else shift_from_symbol) ++ [newline]
  | None => print_p (address f) ++ [newline]
  end.

Definition max_frames : nat := 32.
(** [backtrace] into an array of [max_frames]. *)
Definition backtrace (stack : list Frame) : list Frame := take max_frames stack.

Definition write_text (text : chars) (buffer : chars) : outcome (chars * chars) :=
  let '(num_bytes, buffer) := snprintf text buffer in WriteBuffer buffer num_bytes message_buffer_size.

Fixpoint write_frames (frames : list Frame) (buffer : chars) : outcome (chars * chars) :=
  match frames with
  | [] => Ret ([], buffer)
  | f :: frames => '(out, buffer) ← write_text (frame_text f) buffer; '(rest, buffer) ← write_frames frames buffer; Ret (out ++ rest, buffer)
  end.

Definition signal_text (strsignal : Z -> chars) (signum : Z) : chars :=
  chars_of "Caught signal " ++ chars_of (pretty signum) ++ chars_of " (" ++ chars_of (SignalName signum) ++ chars_of "): " ++ strsignal signum ++ [newline].

(** What is written, and the signal that ends the process; [buffer] is what the memory of
    the buffer held. *)
Definition AbortHandler (strsignal : Z -> chars) (stack : list Frame) (buffer : chars) (signum : Z) : outcome (chars * Z) :=
  let frames := backtrace stack in
  '(trace, buffer) ← write_frames frames buffer;
  let note := if bool_decide (length frames = max_frames) then chars_of "[truncated]" ++ [newline; NUL] else [] in
  '(message, _) ← write_text (signal_text strsignal signum) buffer;
  Ret (trace ++ note ++ message, signum).

(** ** Theorems *)

(** A line as it is written. *)
Definition clipped (text : chars) : chars :=
  if (length text <=? 255)%nat then text else take 255 text ++ [if (length text =? 256)%nat then NUL else newline].

Lemma write_text_clipped text buffer : length buffer = 256%nat ->
  exists buffer', write_text text buffer = Ret (clipped text, buffer') /\ length buffer' = 256%nat.
Proof.
  intros Hb. unfold write_text, snprintf, WriteBuffer, write_stderr, message_buffer_size, clipped. change (Z.to_nat 256 - 1)%nat with 255%nat. change (Z.to_nat (256 - 1)) with 255%nat.
  set (stored := take 255 text). assert (length stored = Nat.min 255 (length text)) as Hs by apply length_take.
  assert (length (stored ++ NUL :: drop (length stored + 1) buffer) = 256%nat) as Hl by (rewrite length_app; cbn [length]; rewrite length_drop; lia).
  rewrite Hl. change (Z.of_nat 256) with 256. destruct (Z.ltb_spec 256 (Z.of_nat (length text))) as [Hgt|Hle].
  - rewrite Z.ltb_irrefl. rewrite length_insert, Hl. change (Z.of_nat 256 <? 256) with false. cbn [mbind outcome_bind]. eexists. split; [|by rewrite length_insert].
    rewrite (proj2 (Nat.leb_gt _ _)) by lia. rewrite (proj2 (Nat.eqb_neq _ _)) by lia. do 2 f_equal. rewrite insert_app_r_alt by lia.
    replace (255 - length stored)%nat with 0%nat by lia. cbn [insert list_insert]. change (Z.to_nat 256) with 256%nat. rewrite drop_ge by lia. rewrite take_ge; [done|]. rewrite length_app. cbn. lia.
  - cbn [mbind outcome_bind]. eexists. split; [|exact Hl]. rewrite Nat2Z.id. do 2 f_equal.
    destruct (Nat.leb_spec (length text) 255) as [Hlt|Hge].
    + assert (stored = text) as -> by (apply take_ge; lia). by rewrite take_app_length.
    + assert (length text = 256%nat) as -> by lia. cbn [Nat.eqb]. rewrite drop_ge by lia. rewrite take_ge; [done|]. rewrite length_app. cbn. lia.
Qed.

Lemma write_frames_clipped frames : forall buffer, length buffer = 256%nat ->
  exists buffer', write_frames frames buffer = Ret (concat (map (clipped ∘ frame_text) frames), buffer') /\ length buffer' = 256%nat.
Proof.
  induction frames as [|f frames IH]; intros buffer Hb; cbn [write_frames map concat]; [by exists buffer|].
  destruct (write_text_clipped (frame_text f) buffer Hb) as (b1 & -> & Hb1). cbn [mbind outcome_bind]. destruct (IH b1 Hb1) as (b2 & -> & Hb2). cbn [mbind outcome_bind]. by exists b2.
Qed.

(** The handler of fatal signals stays inside its buffer, whatever the stack and the
    names of its symbols, and whatever the buffer held: it writes a line per frame, of
    the first thirty-two, a note if the stack fills the array, and the line of the
    signal, each cut to 256 bytes; then the process ends by the signal itself. *)
Theorem AbortHandler_exact strsignal stack buffer signum : length buffer = 256%nat ->
  AbortHandler strsignal stack buffer signum =
    Ret (concat (map (clipped ∘ frame_text) (take 32 stack)) ++
         (if (32 <=? length stack)%nat then chars_of "[truncated]" ++ [newline; NUL] else []) ++ clipped (signal_text strsignal signum), signum) /\
  forall text, (length (clipped text) <= 256)%nat /\ ((length text <= 255)%nat -> clipped text = text).
Proof.
  intros Hb. split.
  - unfold AbortHandler. destruct (write_frames_clipped (backtrace stack) buffer Hb) as (b1 & -> & Hb1). cbn [mbind outcome_bind].
    destruct (write_text_clipped (signal_text strsignal signum) b1 Hb1) as (b2 & -> & Hb2). cbn [mbind outcome_bind]. unfold backtrace, max_frames. do 3 f_equal.
    rewrite length_take. destruct (Nat.leb_spec 32 (length stack)); [by rewrite bool_decide_true by lia|by rewrite bool_decide_false by lia].
  - intros text. unfold clipped. destruct (Nat.leb_spec (length text) 255) as [H|H]; [split; [lia|done]|]. rewrite length_app, length_take. cbn [length]. split; [lia|intros; exfalso; lia].
Qed.

(** A line of exactly 256 bytes ends in a NUL instead of its newline: it is cut but not
    taken for cut. *)
Theorem exact_fit_loses_newline text : length text = 256%nat -> last (clipped text) = Some NUL.
Proof. intros H. unfold clipped. rewrite H. cbn [Nat.leb Nat.eqb]. by rewrite last_snoc. Qed.

(** ** Witness *)

Lemma AbortHandler_exact_witness :
  AbortHandler (fun _ => chars_of "Aborted") [mkFrame 4096 None] (replicate 256 NUL) 6 =
    Ret (chars_of "0x1000" ++ [newline] ++ chars_of "Caught signal 6 (SIGABRT): Aborted" ++ [newline], 6).
Proof.
  destruct (AbortHandler_exact (fun _ => chars_of "Aborted") [mkFrame 4096 None] (replicate 256 NUL) 6) as [-> _]; reflexivity.
Defined.
