(* ===== verification/SelfCheckProgram.v ===== *)
(** * The program of the self checks (self-checks.cpp)

    A child that listens on a port and a parent that connects to it, so that the inspector
    has events to see.  The answers of the system calls are inputs. *)

From S2P Require Import Prelude.

Definition g_connection_retries : nat := 5.

(** *** The child *)

(** What [socket], [bind], [listen] and [accept] return, and whether a connection comes
    before the time-out. *)
Record ListenEnv := mkListenEnv { listener : Z; bind_result : Z; listen_result : Z; connection_comes : bool; accept_result : Z }.

(** [select(nfds, &sockets, ...)] on a set with one socket: only descriptors below [nfds]
    are looked at. *)
Definition select_one (nfds fd : Z) (ready : bool) : Z := if (fd <? nfds) && ready then 1 else 0.

(** The result, and the descriptors that are closed. *)
Definition startListeningPort (env : ListenEnv) : bool * list Z :=
  let err connection result := (result, [connection; listener env]) in
  if listener env <? 0 then err (-1) false
  else if bind_result env <? 0 then err (-1) false
  else if listen_result env <? 0 then err (-1) false
  else if select_one 1 (listener env) (connection_comes env) <=? 0 then err (-1) false
  else if accept_result env <? 0 then err (accept_result env) false
  else err (accept_result env) true.

(** *** The parent *)

Inductive ConnectResult := CONNECTED | REFUSED | OTHER_ERROR.

(** The loop: the attempts that are left and their results; [None] is the jump to the
    end. *)
Fixpoint connect_loop (retries : nat) (attempts : nat -> ConnectResult) (i : nat) : option nat :=
  match retries with
  | O => Some i
  | S retries =>
      match attempts i with
      | OTHER_ERROR => None
      | CONNECTED => Some (S i)
      | REFUSED => connect_loop retries attempts (S i)
      end
  end.

Definition connectToPort (socket_result : Z) (attempts : nat -> ConnectResult) : bool :=
  if socket_result <? 0 then false
  else match connect_loop g_connection_retries attempts 0 with None => false | Some _ => true end.

(** *** [main] *)

(** The process after [fork]: the child, the parent with the status of the child, or none. *)
Inductive Fork := Child | Parent (status : Z) | NoFork.
(** [stoi] of the argument, which throws without a number, and [errno] at the end. *)
Definition main (argc : Z) (port : option Z) (fork : Fork) (env : ListenEnv) (socket_result : Z) (attempts : nat -> ConnectResult) (errno : Z) : outcome Z :=
  if negb (argc =? 2) then Ret 22
  else
    match port with
    | None => Crash
    | Some _ =>
        match fork with
        | Child => Ret (if negb (startListeningPort env).1 then errno else 0)
        | NoFork => Ret errno
        | Parent status => Ret (if negb (connectToPort socket_result attempts) then errno else status)
        end
    end.

(** ** Theorems *)

(** The child never sees the connection it waits for unless its socket has the number 0:
    [select] is asked about no other descriptor. *)
Theorem listener_not_watched env : 0 < listener env -> startListeningPort env = (false, [-1; listener env]).
Proof.
  intros H. unfold startListeningPort, select_one. rewrite (proj2 (Z.ltb_ge (listener env) 0)), (proj2 (Z.ltb_ge (listener env) 1)) by lia. cbn [andb].
  destruct (bind_result env <? 0), (listen_result env <? 0); done.
Qed.

(** The parent reports success after five refusals, although it is not connected. *)
Theorem refused_counts_as_connected socket_result attempts : 0 <= socket_result ->
  connectToPort socket_result attempts = true <-> forall i, (i < 5)%nat -> attempts i = OTHER_ERROR -> exists j, (j < i)%nat /\ attempts j = CONNECTED.
Proof.
  intros H. unfold connectToPort. rewrite (proj2 (Z.ltb_ge _ _)) by lia.
  assert (forall retries i, match connect_loop retries attempts i with None => false | Some _ => true end = true <->
    forall k, (i <= k < i + retries)%nat -> attempts k = OTHER_ERROR -> exists j, (i <= j < k)%nat /\ attempts j = CONNECTED) as Hl.
  { induction retries as [|retries IH]; intros i; cbn [connect_loop]; [split; [intros _ k Hk; lia|done]|]. destruct (attempts i) eqn:Ei.
    - split; [|done]. intros _ k Hk Ek. assert (i <> k) by congruence. exists i. split; [lia|done].
    - rewrite IH. split.
      + intros Hk k Hik Ek. assert (i <> k) by congruence. destruct (Hk k ltac:(lia) Ek) as (j & Hj & Ej). exists j. split; [lia|done].
      + intros Hk k Hik Ek. destruct (Hk k ltac:(lia) Ek) as (j & Hj & Ej). exists j. split; [|done]. assert (i <> j) by congruence. lia.
    - split; [done|]. intros Hk. destruct (Hk i ltac:(lia) Ei) as (j & Hj & _). lia. }
  rewrite Hl. unfold g_connection_retries. split.
  - intros Hk i Hi Ei. destruct (Hk i ltac:(lia) Ei) as (j & Hj & Ej). exists j. split; [lia|done].
  - intros Hk k Hik Ek. destruct (Hk k ltac:(lia) Ek) as (j & Hj & Ej). exists j. split; [lia|done].
Qed.
