(* ===== verification/Print.v ===== *)
(** * Printing of networks and connections (NetworkConnection.h, NetworkConnection.cpp, Process.cpp, connscrape.cpp)

    The stream operators of the value types, and the tool that scrapes /proc once and prints
    what it finds.  [inet_ntop] is a parameter: the text of an address in network byte
    order, or nothing when it fails.  The text of a process in an endpoint is a parameter
    of that operator; [Process_print] is the one of the objects of the store. *)

From stdpp Require Import pretty.
From S2P Require Import Prelude HostOrder UMap NetAddress Connection CollectorStats CStrings Utility Procfs ProcessSignals ProcessStore Host Floats NetParse CollectorConfig.

Definition number (z : Z) : chars := chars_of (pretty (Z.to_N z)).
Definition endl : chars := ["010"%char].

(** [static_cast<uint8_t>] is a character for the stream. *)
Definition L4Proto_print (proto : L4Proto.t) : chars :=
  match proto with
  | L4Proto.TCP => chars_of "tcp"
  | L4Proto.UDP => chars_of "udp"
  | L4Proto.ICMP => chars_of "icmp"
  | L4Proto.UNKNOWN => chars_of "unknown(" ++ [chr (L4Proto.to_Z proto)] ++ chars_of ")"
  end.

Definition Process_print (p : Process) : chars :=
  chars_of "ContainerID: " ++ container_id p ++ chars_of " Exe: " ++ exe p ++ chars_of " ExePath: " ++
  exe_path p ++ chars_of " Args: " ++ args p ++ chars_of " PID: " ++ number (pid_ p).

Section print.
Context `{ho : HostOrder}.
Variable inet_ntop : Z -> list Z -> option chars.
Variable print_process : IProcess -> chars.

(** An address that is not IPv4 is printed as an IPv6 address. *)
Definition Address_print (addr : Address) : chars :=
  let ipv4 := match family_ addr with Family.IPV4 => true | _ => false end in
  let af := if ipv4 then AF_INET else AF_INET6 in
  match inet_ntop af (take (if ipv4 then 4 else 16) (data_bytes addr)) with
  | None => chars_of "<invalid address>"
  | Some addr_str => addr_str
  end.

Definition IPNet_print (net : IPNet) : chars := Address_print (address_ net) ++ chars_of "/" ++ number (bits_ net).

Definition is_ipv6 (f : Family.t) : bool := match f with Family.IPV6 => true | _ => false end.

Definition Endpoint_print (ep : Endpoint) : chars :=
  let net := network_ ep in
  let text := if bits_ net =? 8 * length_ (address_ net) then Address_print (address_ net) else IPNet_print net in
  (if is_ipv6 (IPNet_family net) then chars_of "[" ++ text ++ chars_of "]" else text) ++ chars_of ":" ++ number (port_ ep).

Definition ContainerEndpoint_print (cep : ContainerEndpoint) : chars :=
  match cep_originator_ cep with
  | Some p => chars_of (cep_container_ cep) ++ chars_of ": " ++ Endpoint_print (cep_endpoint_ cep) ++ chars_of ": " ++ print_process p
  | None => chars_of (cep_container_ cep) ++ chars_of ": " ++ Endpoint_print (cep_endpoint_ cep)
  end.

Definition Connection_print (conn : Connection) : chars :=
  chars_of (container_ conn) ++ chars_of ": " ++ Endpoint_print (local_ conn) ++
  chars_of (if is_server conn then " <- " else " -> ") ++ Endpoint_print (remote_ conn) ++ chars_of " [" ++ L4Proto_print (l4proto conn) ++
  (if is_ipv6 (family_ (Endpoint_address (local_ conn))) then chars_of "6" else []) ++ chars_of "]".

(** ** connscrape *)

(** Exit code, standard output and standard error; [line_init] is what the line buffer of
    the scraper holds at first. *)
Definition main (getenv : chars -> option chars) (proc : chars -> option (list ProcEntry)) (line_init : chars) (argv : list chars) (stats : CollectorStats)
    : Res (Z * chars * chars) :=
  let proc_dir := match argv with _ :: dir :: _ => dir | _ => chars_of "/proc" end in
  let! scrape_endpoints := value getenv (EnvVar_make "SCRAPE_ENDPOINTS" (Some true)) in
  match (ReadContainerConnections line_init None (proc proc_dir) scrape_endpoints stats).1 with
  | None => ret (1, [], chars_of "Failed to scrape :(" ++ endl)
  | Some (conns, endpoints) =>
      ret (0,
        (if scrape_endpoints : bool then chars_of "Connections:" ++ endl else []) ++
        concat (map (fun conn => chars_of " " ++ Connection_print conn ++ endl) conns) ++
        (if scrape_endpoints then endl ++ chars_of "Endpoints:" ++ endl ++ concat (map (fun ep => chars_of " " ++ ContainerEndpoint_print ep ++ endl) endpoints)
         else []), [])
  end.
End print.

(** ** Theorems *)

Section theorems.
Context `{ho : HostOrder}.
Variable inet_ntop : Z -> list Z -> option chars.
Variable getaddrinfo : chars -> Z * option (list Z).
Variable uninit : list Z.

(** The number behind the slash is read back: there are 129 of them. *)
Lemma stol_prefix b : 0 <= b <= 128 -> stol (number b) = inr b.
Proof.
  intros Hb. assert (forallb (fun n => match stol (number (Z.of_nat n)) with inr v => v =? Z.of_nat n | inl _ => false end) (seq 0 129) = true) as H by (by vm_compute).
  rewrite forallb_forall in H. specialize (H (Z.to_nat b) ltac:(apply in_seq; lia)). rewrite Z2Nat.id in H by lia.
  destruct (stol (number b)) as [|v]; [done|]. f_equal. lia.
Qed.

(** The text of [a], as the two functions of the C library agree on it. *)
Definition text_agrees (a : Address) : Prop :=
  ~ In "/"%char (Address_print inet_ntop a) /\ exists rest, getaddrinfo (Address_print inet_ntop a) = (0, Some (sockaddr_of a rest)).

(** C10: A network that is printed can be read back, in either byte order: parsing its text
    gives a network with the same address, mask and length of the prefix, and equal to it
    for the code's equality.  Only its flag may differ: the parser sets it exactly for a
    prefix that is not empty. *)
Theorem IPNet_print_parse net : ipnet_wf net -> addr_padded (address_ net) -> IPNet_family net <> Family.UNKNOWN -> text_agrees (address_ net) ->
  exists net', IPNet_parse getaddrinfo uninit (IPNet_print inet_ntop net) = Some net' /\
    address_ net' = address_ net /\ mask_ net' = mask_ net /\ bits_ net' = bits_ net /\ is_addr_ net' = negb (bits_ net =? 0) /\ IPNet_eq net net' = true.
Proof.
  intros Hwf Hp Hf (Hno & rest & Hg). pose proof (ipnet_wf_bits_128 net Hwf) as Hb. pose proof (ipnet_wf_bits net Hwf) as Hmax.
  destruct Hwf as (Ha & _ & E). pose proof (f_equal mask_ E) as Emask. unfold IPNet_make in Emask. cbn [mask_] in Emask. unfold IPNet_family in *.
  rewrite (proj2 (Z.ltb_ge _ _)) in Emask by lia.
  unfold IPNet_print, IPNet_parse. change (chars_of "/" ++ number (bits_ net)) with ("/"%char :: number (bits_ net)).
  rewrite split_prefix_slash, stol_prefix, (Address_parse_sockaddr getaddrinfo uninit _ (address_ net) rest) by done.
  assert (u32 (bits_ net) = bits_ net) as -> by (apply Z.mod_small; lia).
  eexists. split; [reflexivity|]. unfold IPNet_make, IPNet_eq. cbn [address_ mask_ bits_ is_addr_]. rewrite (proj2 (Z.ltb_ge _ _)) by lia.
  rewrite <- Emask. do 4 (split; [done|]). rewrite Z.eqb_refl. cbn [negb]. destruct (is_addr_ net); [by apply Address_eq_eq|by apply words_eq_eq].
Qed.

(** A connection over an unknown protocol has the character 0 in its text. *)
Theorem unknown_prints_nul : In NUL (L4Proto_print L4Proto.UNKNOWN).
Proof. by vm_compute; tauto. Qed.
End theorems.

(** ** Witness *)

Definition wit_quad (octets : list Z) : chars :=
  match octets with [a; b; c; d] => number a ++ chars_of "." ++ number b ++ chars_of "." ++ number c ++ chars_of "." ++ number d | _ => [] end.
Definition wit_ntop (af : Z) (bytes : list Z) : option chars := if af =? AF_INET then Some (wit_quad bytes) else None.
Definition wit_printed : IPNet := IPNet_make (ho := true) (wit_net_address (ho := true)) 24 false.

Lemma IPNet_print_parse_witness :
  IPNet_print (ho := true) wit_ntop wit_printed = chars_of "10.1.2.3/24" /\
  exists net', IPNet_parse (ho := true) wit_getaddrinfo [] (IPNet_print (ho := true) wit_ntop wit_printed) = Some net' /\
    address_ net' = address_ wit_printed /\ mask_ net' = mask_ wit_printed /\ bits_ net' = bits_ wit_printed /\
    is_addr_ net' = negb (bits_ wit_printed =? 0) /\ IPNet_eq wit_printed net' = true.
Proof.
  split; [by vm_compute|]. apply (IPNet_print_parse (ho := true) wit_ntop wit_getaddrinfo [] wit_printed).
  - split; [|split; [done|by vm_compute]]. unfold addr_wf. repeat constructor; by vm_compute.
  - by vm_compute.
  - done.
  - split; [vm_compute; intuition congruence|]. by exists (replicate 8 0).
Defined.
