(* ===== verification/Extractor.v ===== *)
(** * Fields of events and containers of threads (EventExtractor.h, EventExtractor.cpp, ContainerEngine.h, ContainerMetadata.cpp)

    The extractor holds one filter check of libsinsp for each field that is read by name;
    [Init] makes them and [ClearWrappers] drops them.  The checks are parameters: the check
    of a field name, ready for use, and the bytes that it extracts from an event. *)

From stdpp Require Import list sets.
From S2P Require Import Prelude HostOrder CStrings Utility.

(** The fields in the order of their declaration, which is the order of [wrappers_]. *)
Inductive Field := F_proc_args | F_event_rawres | F_client_port | F_server_port | F_k8s_namespace.
#[global] Instance Field_eq_dec : EqDecision Field.
Proof. solve_decision. Defined.

Definition fields : list Field := [F_proc_args; F_event_rawres; F_client_port; F_server_port; F_k8s_namespace].
Definition event_name (f : Field) : chars :=
  chars_of match f with
           | F_proc_args => "proc.args" | F_event_rawres => "evt.rawres" | F_client_port => "fd.cport"
           | F_server_port => "fd.sport" | F_k8s_namespace => "k8s.ns.name"
           end.

Section extractor.
Context `{ho : HostOrder} {Check Evt : Type}.
Variable new_filter_check : chars -> option Check.
Variable extract_single : Check -> Evt -> option (list Z).

Record EventExtractor := mkExtractor { wrappers_ : list Field; filter_check : Field -> option Check }.

Definition EventExtractor_make : EventExtractor := mkExtractor fields (fun _ => None).

Definition set_check (f : Field) (c : option Check) (checks : Field -> option Check) : Field -> option Check :=
  fun g => if decide (g = f) then c else checks g.

(** A name without a check is a null pointer, which [parse_field_name] dereferences. *)
Fixpoint init_loop (wrappers : list Field) (checks : Field -> option Check) : outcome (Field -> option Check) :=
  match wrappers with
  | [] => Ret checks
  | f :: rest =>
      match new_filter_check (event_name f) with
      | None => Crash
      | Some check => init_loop rest (set_check f (Some check) checks)
      end
  end.
Definition Init (e : EventExtractor) : outcome EventExtractor := checks ← init_loop (wrappers_ e) (filter_check e); Ret (mkExtractor (wrappers_ e) checks).

Definition ClearWrappers (e : EventExtractor) : EventExtractor :=
  mkExtractor [] (fold_left (fun checks f => set_check f None checks) (wrappers_ e) (filter_check e)).

(** [filter_check_->extract_single]: without a check the pointer is null. *)
Definition extract (f : Field) (e : EventExtractor) (event : Evt) : outcome (option (list Z)) :=
  match filter_check e f with
  | None => Crash
  | Some check => Ret (extract_single check event)
  end.

(** The value is copied when it has the size of its type. *)
Definition FIELD_RAW_SAFE (f : Field) (size : nat) (e : EventExtractor) (event : Evt) : outcome (option Z) :=
  buf ← extract f e event;
  Ret (match buf with
       | None => None
       | Some buf => if (length buf =? size)%nat then Some (load_word buf) else None
       end).

Definition get_event_rawres (e : EventExtractor) (event : Evt) : outcome (option Z) :=
  v ← FIELD_RAW_SAFE F_event_rawres 8 e event; Ret (option_map s64 v).
Definition get_client_port : EventExtractor -> Evt -> outcome (option Z) := FIELD_RAW_SAFE F_client_port 2.
Definition get_server_port : EventExtractor -> Evt -> outcome (option Z) := FIELD_RAW_SAFE F_server_port 2.

(** A pointer to the bytes, whatever their length. *)
Definition FIELD_CSTR (f : Field) (e : EventExtractor) (event : Evt) : outcome (option (list Z)) := extract f e event.
Definition get_proc_args : EventExtractor -> Evt -> outcome (option (list Z)) := FIELD_CSTR F_proc_args.
Definition get_k8s_namespace : EventExtractor -> Evt -> outcome (option (list Z)) := FIELD_CSTR F_k8s_namespace.

(** A [std::string] of a pointer ends at the first NUL; without one the read leaves the
    bytes. *)
Fixpoint c_str (bytes : list Z) : outcome chars :=
  match bytes with
  | [] => Crash
  | b :: rest => if b =? 0 then Ret [] else s ← c_str rest; Ret (chr b :: s)
  end.
Definition GetNamespace_evt (e : EventExtractor) (event : Evt) : outcome chars :=
  ns ← get_k8s_namespace e event; match ns with Some ns => c_str ns | None => Ret [] end.
End extractor.
Arguments EventExtractor : clear implicits.

(** ** The container of a thread *)

Record CgroupThread := mkThread { cgroups : list (chars * chars); thread_container_id : chars }.

Fixpoint resolve_loop (groups : list (chars * chars)) : option chars :=
  match groups with
  | [] => None
  | cgroup :: rest =>
      match ExtractContainerIDFromCgroup cgroup.2 with
      | Some container_id => Some container_id
      | None => resolve_loop rest
      end
  end.
Definition resolve (t : CgroupThread) : bool * CgroupThread :=
  match resolve_loop (cgroups t) with
  | Some container_id => (true, mkThread (cgroups t) container_id)
  | None => (false, t)
  end.

(** ** Theorems *)

Section theorems.
Context `{ho : HostOrder} {Check Evt : Type}.
Variable new_filter_check : chars -> option Check.
Variable extract_single : Check -> Evt -> option (list Z).

Inductive ExtractorOp := OpInit | OpClear.
Fixpoint extractor_run (ops : list ExtractorOp) (e : EventExtractor Check) : outcome (EventExtractor Check) :=
  match ops with
  | [] => Ret e
  | OpInit :: ops => e ← Init new_filter_check e; extractor_run ops e
  | OpClear :: ops => extractor_run ops (ClearWrappers e)
  end.

(** The check that a field has after some operations: none once the checks were cleared,
    and none before they were made. *)
Definition check_after (check : Field -> Check) (ops : list ExtractorOp) (f : Field) : option Check :=
  if existsb (fun o => match o with OpClear => true | OpInit => false end) ops then None
  else match ops with [] => None | _ => Some (check f) end.

Lemma init_loop_checks check wrappers : (forall f, new_filter_check (event_name f) = Some (check f)) -> forall checks,
  exists checks', init_loop new_filter_check wrappers checks = Ret checks' /\ forall f, checks' f = if decide (f ∈ wrappers) then Some (check f) else checks f.
Proof.
  intros Hn. induction wrappers as [|w wrappers IH]; intros checks; cbn [init_loop].
  - exists checks. split; [done|]. intros f. by rewrite decide_False by (by apply not_elem_of_nil).
  - rewrite Hn. destruct (IH (set_check w (Some (check w)) checks)) as (checks' & E & H). exists checks'. split; [exact E|]. intros f. rewrite H. unfold set_check.
    destruct (decide (f ∈ wrappers)), (decide (f ∈ w :: wrappers)), (decide (f = w)); subst; done || set_solver.
Qed.

Lemma clear_checks wrappers : forall checks : Field -> option Check, forall f,
  fold_left (fun checks f => set_check f None checks) wrappers checks f = if decide (f ∈ wrappers) then None else checks f.
Proof.
  induction wrappers as [|w wrappers IH]; intros checks f; cbn [fold_left].
  - by rewrite decide_False by (by apply not_elem_of_nil).
  - rewrite IH. unfold set_check. destruct (decide (f ∈ wrappers)), (decide (f ∈ w :: wrappers)), (decide (f = w)); subst; done || set_solver.
Qed.

Lemma all_fields f : f ∈ fields.
Proof. destruct f; unfold fields; set_solver. Qed.

(** Cleared: no wrapper is left for another [Init] to fill. *)
Lemma cleared_for_good check ops : (forall f, new_filter_check (event_name f) = Some (check f)) -> forall checks : Field -> option Check,
  (forall f, checks f = None) -> exists e, extractor_run ops (mkExtractor [] checks) = Ret e /\ forall f, filter_check e f = None.
Proof.
  intros Hn. induction ops as [|[|] ops IH]; intros checks Hc; [by exists (mkExtractor [] checks)| |]; cbn [extractor_run]; apply IH; done.
Qed.

Lemma live_run check ops : (forall f, new_filter_check (event_name f) = Some (check f)) -> forall checks : Field -> option Check,
  exists e, extractor_run ops (mkExtractor fields checks) = Ret e /\
    forall f, filter_check e f = match ops with [] => checks f | _ => check_after check ops f end.
Proof.
  intros Hn. induction ops as [|[|] ops IH]; intros checks; [by exists (mkExtractor fields checks)| |]; cbn [extractor_run].
  - unfold Init. cbn [wrappers_ filter_check]. destruct (init_loop_checks check fields Hn checks) as (checks' & -> & H). cbn [mbind outcome_bind].
    destruct (IH checks') as (e & E & He). exists e. split; [exact E|]. intros f. rewrite He. unfold check_after. cbn [existsb orb].
    destruct ops; [|done]. rewrite H, decide_True; [done|apply all_fields].
  - edestruct (cleared_for_good check ops Hn) as (e & E & He); [|exists e; split; [exact E|intros f; by rewrite He]].
    intros f. cbn [wrappers_ filter_check]. rewrite clear_checks, decide_True; [done|apply all_fields].
Qed.

(** Whatever is done to an extractor, its checks are there exactly if [Init] ran and
    [ClearWrappers] never did: then the ports and the result of an event are the values
    that libsinsp stores, in either byte order and with their sign, and a value of another
    size is no value.  In every other case, also when [Init] runs again, reading a field
    dereferences a null pointer. *)
Theorem extractor_session check ops : (forall f, new_filter_check (event_name f) = Some (check f)) ->
  exists e, extractor_run ops EventExtractor_make = Ret e /\
  forall event,
  match check_after check ops F_server_port with
  | None => get_server_port extract_single e event = Crash /\ get_client_port extract_single e event = Crash /\ get_event_rawres extract_single e event = Crash /\
      GetNamespace_evt extract_single e event = Crash
  | Some _ =>
      (forall port, in_range 16 port -> extract_single (check F_server_port) event = Some (store_word 2 port) -> get_server_port extract_single e event = Ret (Some port)) /\
      (forall port, in_range 16 port -> extract_single (check F_client_port) event = Some (store_word 2 port) -> get_client_port extract_single e event = Ret (Some port)) /\
      (forall res, - 2 ^ 63 <= res < 2 ^ 63 -> extract_single (check F_event_rawres) event = Some (store_word 8 (u64 res)) ->
         get_event_rawres extract_single e event = Ret (Some res)) /\
      (forall buf, length buf <> 8%nat -> extract_single (check F_event_rawres) event = Some buf -> get_event_rawres extract_single e event = Ret None)
  end.
Proof.
  intros Hn. destruct (live_run check ops Hn (fun _ => None)) as (e & E & He). exists e. split; [exact E|]. intros event.
  assert (forall f, filter_check e f = check_after check ops f) as Hc by (intros f; rewrite He; by destruct ops).
  unfold get_server_port, get_client_port, get_event_rawres, GetNamespace_evt, get_k8s_namespace, FIELD_CSTR, FIELD_RAW_SAFE, extract. rewrite !Hc. unfold check_after.
  destruct (existsb _ ops); [done|]. destruct ops; [done|]. cbn [mbind outcome_bind].
  split; [|split; [|split]].
  - intros port Hp ->. by rewrite store_word_length, load_store.
  - intros port Hp ->. by rewrite store_word_length, load_store.
  - intros res Hr ->. rewrite store_word_length, load_store by (apply Z.mod_pos_bound; lia). cbn [Nat.eqb option_map]. do 2 f_equal.
    unfold s64, u64, wrap. rewrite Zmod_mod. destruct (Z_lt_dec res 0).
    + rewrite <- (Z_mod_plus_full res 1), Z.mod_small by lia. rewrite (proj2 (Z.ltb_ge _ _)) by lia. lia.
    + rewrite Z.mod_small by lia. by rewrite (proj2 (Z.ltb_lt _ _)) by lia.
  - intros buf Hb ->. by rewrite (proj2 (Nat.eqb_neq _ _)).
Qed.
End theorems.

(** The own engine of the collector: a thread gets the identifier of its first control group
    that has one, and keeps what it has when there is none. *)
Theorem resolve_exact t :
  (exists before cgroup after id, cgroups t = before ++ cgroup :: after /\ Forall (fun g => ExtractContainerIDFromCgroup g.2 = None) before /\
     ExtractContainerIDFromCgroup cgroup.2 = Some id /\ resolve t = (true, mkThread (cgroups t) id)) \/
  (Forall (fun g => ExtractContainerIDFromCgroup g.2 = None) (cgroups t) /\ resolve t = (false, t)).
Proof.
  unfold resolve. assert (forall l, (exists before cgroup after id, l = before ++ cgroup :: after /\ Forall (fun g => ExtractContainerIDFromCgroup g.2 = None) before /\
    ExtractContainerIDFromCgroup cgroup.2 = Some id /\ resolve_loop l = Some id) \/ (Forall (fun g => ExtractContainerIDFromCgroup g.2 = None) l /\ resolve_loop l = None)) as H.
  { induction l as [|g l IH]; [by right|]. cbn [resolve_loop]. destruct (ExtractContainerIDFromCgroup g.2) as [id|] eqn:E; [left; by exists [], g, l, id|].
    destruct IH as [(before & c & after & id & -> & Hb & Hid & ->)|[Hl ->]]; [left; exists (g :: before), c, after, id; by repeat split; [constructor|]|right; by split; [constructor|]]. }
  destruct (H (cgroups t)) as [(before & c & after & id & E & Hb & Hid & ->)|[Hl ->]]; [left; by exists before, c, after, id|by right].
Qed.

(** ** Witness *)

Definition wit_check (name : chars) : option Field := find (fun f => chars_eqb (event_name f) name) fields.
Definition wit_extract (f : Field) (event : Z) : option (list Z) := match f with F_server_port => Some (store_word (ho := true) 2 event) | _ => None end.

Lemma extractor_session_witness : exists e, extractor_run wit_check [OpInit] EventExtractor_make = Ret e /\
  get_server_port (ho := true) wit_extract e 1337 = Ret (Some 1337).
Proof.
  destruct (extractor_session (ho := true) wit_check wit_extract (fun f => f) [OpInit]) as (e & E & H); [by intros []|].
  exists e. split; [exact E|]. destruct (H 1337) as (Hs & _). by apply Hs.
Defined.
